(* ===== verification/_CoqProject ===== *)
-Q . S2P
Prelude.v
GoStrings.v
NetIP.v
Errors.v
Rules.v
World.v
Prog.v
Dns.v
DnsFacts.v
Asks.v
DnsProps.v
CacheProps.v
Flight.v
FlightProps.v
FlightInv.v
FlightClaims.v
Probe.v
Opener.v
OpenerProps.v
OpenFlight.v
OpenFlightProps.v
ConnTrack.v
RingProps.v
TrackProps.v
TrackClaims.v
Files.v
Status.v
TcpInfo.v
Connect.v
Monitor.v
Reconnect.v
DialTrack.v
GateTrack.v
DialCtx.v
Listener.v
ConnStack.v
LogConn.v
Guard.v
HttpProxy.v
Relay.v
HttpIdle.v
HttpIdleInv.v
HttpIdleProps.v
HttpIdleLive.v
Config.v
Journal.v
Health.v
Startup.v
StartFlight.v
Servers.v
Shutdown.v
