(* ===== verification/Prelude.v ===== *)
(** * ssh-gate: a verification development

    ssh-gate is a SOCKS5 and HTTP proxy that sends traffic through one SSH
    connection to a VPS, except for the destinations that its rules send
    direct.  This library models the Go sources under src/ and proves the
    properties that make them correct.

    ** The program and the files that model it

    [main] reads the environment, starts the servers and stops them at a
    signal (main.go: Startup.v up to READY, StartFlight.v for the requests of
    the started process, Shutdown.v from the signal to the
    exit, Servers.v for the accept loop, the connections and the Shutdown of
    one proxy).  A client connection is accepted (listener.go: Listener.v,
    ConnStack.v), its request is handled by the HTTP proxy (httpproxy.go:
    HttpProxy.v; Relay.v for the CONNECT relay byte by byte, Guard.v for the
    idle guard, HttpIdle.v, HttpIdleInv.v, HttpIdleProps.v and HttpIdleLive.v
    for an absolute-form request under its guard) or by the SOCKS5 dial
    callback (socks5.go: LogConn.v), and both open the destination through the
    Opener (opener.go, routing.go: Opener.v, OpenerProps.v; OpenFlight.v and
    OpenFlightProps.v for many connections at once).  The Opener asks
    the rule engine for the route (rules.go: Rules.v for the pure part,
    [Decide] and [matches] in Opener.v), resolves the name with the policy of
    that route (dns.go: Dns.v, DnsFacts.v, Asks.v, DnsProps.v, CacheProps.v for one
    call, Flight.v, FlightProps.v, FlightInv.v, FlightClaims.v for the calls
    that share lookups, Probe.v for one paused resolver) and dials the addresses in turn, directly or through the SSH dialer
    (dialer.go: Connect.v for one connection, Monitor.v and Reconnect.v for the
    life of the tunnel, DialTrack.v for one destination, GateTrack.v for the
    Opener over the tracker, DialCtx.v for the context values that tell a
    client's dial from an internal one; tcpinfo*.go: TcpInfo.v).  Tunnel dials are registered with
    the connection tracker (conntrack.go: ConnTrack.v, RingProps.v,
    TrackProps.v, TrackClaims.v), which the health server lists (health.go,
    webui.go: Health.v).  Around them: the configuration (main.go: Config.v),
    the key and the atomic file writes (keys.go, utils.go: Files.v), the tunnel
    states with their texts and the systemd notifications (status.go,
    notify.go: Status.v), the journal writer (journal.go: Journal.v) and the
    error values (errors.go: Errors.v).

    Three files model what the sources use of the language's library:
    GoStrings.v (strings, strconv, net.SplitHostPort), NetIP.v (net/netip:
    addresses as numbers, the parsers, prefixes, printing) and, in Config.v,
    time.ParseDuration.  World.v holds the interface to the outside and Prog.v
    the programs cut at their critical sections, with the logic that proves
    them under interference.  This file holds the integers, durations and times, the
    state monad, and the shared tactics and lemmas.

    ** How the code is represented

    - A Go int, int64, uint64 or time.Duration is a Z; where a sum, product or
      shift can leave its range [wrap64] or [wrapu64] is written out.  A
      time.Time is its number of nanoseconds since 1970, negative for the zero time, which
      is the first instant of year 1 ([time_zero]).
    - A struct is a record with its fields, a map a [gmap], a set a [gset]; a
      pointer into a shared slice is an index, so aliasing is kept (upstreams
      of a lookup, wrappers of tracked connections).
    - A function with effects is a state passing function [M S A].  The
      outside is a class: [World] (clock, resolvers, dials, map order),
      [Runtime] (clock, map order) and, for libraries, [Regexp], [KeyLib],
      [SSHLib] and [Singleflight] with their documented laws.  A theorem holds for every instance;
      the examples use scripted ones.  Network operations are recorded as
      events, in order, with what came of them: the raw reply of a resolver,
      the outcome of a dial.  A dial through the tunnel that a lookup makes to
      reach its resolver ([EvDialResolver], and [EvDialRedirect] where http.Client
      follows a redirect of the DoH endpoint) is an event apart from the dials for
      clients ([EvDialTunnel]).
    - A Go error is a value of [error]; a result with an error is a pair or a
      sum.  [outcome] adds the panic of an index or slice out of range.
    - A goroutine is a step function over the shared state and its own program
      counter; an execution is a sequence of steps of all of them (Monitor.v,
      Probe.v, Servers.v, Shutdown.v, Relay.v, HttpIdle.v).  A section under a mutex is one
      step.  Where the code between the sections is long (the resolver, the
      Opener) the goroutine is a [prog], a tree of sections whose next one
      depends on what the last returned; [run] executes it alone, and the
      equivalences [*_alone] say that this is the state passing function.  Its
      properties under interference are proved once per program, against what
      the other goroutines may do ([guarantees]).  What every run must come to is stated with [inevitable] (all runs
      of a terminating system) or over infinite schedules and runs, functions
      of nat, that do not starve a goroutine.
    - Error texts that embed the text of a library error or a quoted argument
      may be shortened; everything the code inspects is kept.

    ** What the theorems show

    - The process (Startup.v, Servers.v, Shutdown.v): what a start leaves for
      every environment and failing call, and what systemd was told by then,
      the monitor's reports included; end to end, that no sequence of
      requests makes the VPS dial a private address for a client, or anything else
      but the configured resolvers, or a handler panic; what
      the drain counts and what its nil result means; that the service always
      stops, and in which order.
    - Route safety (OpenerProps.v, HttpProxy.v): a resolver answer cannot change the route with the option
      off, and with it only intranet addresses go direct; names listed by name
      reach no tunnel resolver; [Open] dials the candidates in order,
      each after the one before failed, and reports the first error.
    - Name resolution (DnsProps.v, CacheProps.v, Probe.v): who is asked, in
      which order and after which replies, so that the local resolver sees a name
      only when every tunnel resolver failed, that only authoritative answers are cached and replayed,
      that no name can pause a resolver, that a paused resolver is probed by one lookup
      at a time, the bound of the cache and the one input that defeats it.
    - Concurrent requests (FlightClaims.v, OpenFlightProps.v, StartFlight.v):
      in every interleaving one lookup per key is in flight, a call returns an
      answer to its own name, the shared cache keeps the invariant of the
      sequential proofs, a call alone behaves as the sequential function, every
      open of the started process returns, and none makes the VPS dial a
      private address for a client.
    - Rules (Rules.v): the parser, the private ranges as intervals, domain
      matching.
    - Tracker (RingProps.v, TrackClaims.v): the ring buffer refines a bounded
      queue; an invariant over every sequence of calls; exact byte totals,
      pages and counts.  GateTrack.v: the table says what the Opener did, dial
      by dial.
    - Tunnel (Connect.v, Monitor.v, Reconnect.v, DialTrack.v): host key pinning
      for one connection, over restarts and over reconnects; no leaked
      transport; one open client in every interleaving; a backoff that doubles
      up to a minute; a lost tunnel is replaced when the server can be reached; dials always settle.
    - Proxies and listeners (HttpProxy.v, Relay.v, Guard.v, HttpIdle*.v,
      LogConn.v, Listener.v, ConnStack.v): the forwarded head; a relay that
      carries the bytes unchanged, ends exactly when both ends stop sending and
      take what they are sent, and refines the summary HttpProxy.v uses; a request that under its idle guard refines it too,
      is not cut while bytes move and does not hang when they stop; one access line per relay, the
      connection limit, accept loops that survive errors, half-closes, the
      handshake deadline.
    - Files, configuration, journal, status (Files.v, Config.v, Journal.v,
      Status.v, Health.v): atomic writes, a key that survives, usable
      configurations, log lines that cannot forge fields, the Host guard.

    Six theorems state behaviour the code does not mean to have:
    [FlightClaims.tunnel_name_shadows_local],
    [CacheProps.evict_skipped_for_root_name], [Health.connections_page_panics],
    [Monitor.stop_can_leave_a_client], [Servers.shutdown_can_miss_a_connection]
    and [TcpInfo.silence_is_under_reported].

    ** Bounds and fuel

    [prune_loop] has [ringCount] as fuel, one per record.  [digits_of] has 20,
    enough for an int64; [parse_groups] has eight, one per group of an IPv6
    address; [duration_items] has the length of the text, of which each round
    consumes at least one character; [hex_digits] has 4, the digits of a group,
    and [read_fields] the number of fields.  The measures of the termination
    and liveness proofs are [relay_weight] (reads left), [work_left] (servers
    left to stop), [handler_weight] and [guard_rank] (a request that no peer
    holds), [mon_rank] (the monitor's way to a client that is not a dead one) and, for
    the calls in flight, the well-founded orders [further] and [closer] on the
    goroutines and the programs they still have to run.  Everything else is structural, except the goroutines, which run for any number of steps.
    Counters that could wrap (ids, attempts) have their bound as a hypothesis:
    2^64 tracker calls, 2^63 monitor steps.

    ** Not modelled

    The output of the loggers beyond where each of them writes; the relay of
    the SOCKS5 library; the contents of the buffers of [io.Copy] (a read
    returns any number of bytes); steps of the wall clock backwards, which the
    idle guard would see; the browser files; packaging.  The libraries (ssh,
    socks5, net/http, regexp, zerolog) are parameters or the inputs of the
    handlers. *)

From stdpp Require Export base tactics option list gmap strings sorting.
From Stdlib Require Export ZArith Lia Ascii.

Declare Scope gate_scope.
Delimit Scope gate_scope with gate.
#[global] Open Scope Z_scope.

(** ** Hint database and tactics *)

Create HintDb gate discriminated.
#[export] Hint Constants Opaque : gate.

(** Case analysis on the scrutinee of a conditional or a match of the goal or
    of a hypothesis, keeping the equation. *)
Ltac split_if :=
  match goal with
  | |- context [if ?b then _ else _] => destruct b eqn:?
  | H : context [if ?b then _ else _] |- _ => destruct b eqn:?
  end.

Ltac split_match :=
  match goal with
  | |- context [match ?x with _ => _ end] => destruct x eqn:?
  | H : context [match ?x with _ => _ end] |- _ => destruct x eqn:?
  end.

(** Turn the boolean tests of the code into the propositions they decide. *)
Ltac prop_of_bool :=
  repeat match goal with
  | H : (_ && _)%bool = true |- _ => apply andb_true_iff in H; destruct H
  | H : (_ || _)%bool = false |- _ => apply orb_false_iff in H; destruct H
  | H : negb _ = true |- _ => apply negb_true_iff in H
  | H : negb _ = false |- _ => apply negb_false_iff in H
  | H : (_ =? _)%Z = true |- _ => apply Z.eqb_eq in H
  | H : (_ =? _)%Z = false |- _ => apply Z.eqb_neq in H
  | H : (_ <? _)%Z = true |- _ => apply Z.ltb_lt in H
  | H : (_ <? _)%Z = false |- _ => apply Z.ltb_ge in H
  | H : (_ <=? _)%Z = true |- _ => apply Z.leb_le in H
  | H : (_ <=? _)%Z = false |- _ => apply Z.leb_gt in H
  | H : (_ >? _)%Z = true |- _ => rewrite Z.gtb_ltb in H; apply Z.ltb_lt in H
  | H : (_ >? _)%Z = false |- _ => rewrite Z.gtb_ltb in H; apply Z.ltb_ge in H
  | H : (_ >=? _)%Z = true |- _ => rewrite Z.geb_leb in H; apply Z.leb_le in H
  | H : (_ >=? _)%Z = false |- _ => rewrite Z.geb_leb in H; apply Z.leb_gt in H
  | H : String.eqb _ _ = true |- _ => apply String.eqb_eq in H
  | H : String.eqb _ _ = false |- _ => apply String.eqb_neq in H
  | H : bool_decide _ = true |- _ => apply bool_decide_eq_true in H
  | H : bool_decide _ = false |- _ => apply bool_decide_eq_false in H
  end.

(** Split every conditional, reflect the tests, close arithmetic goals. *)
Ltac cases_lia := repeat (split_if; prop_of_bool); try lia.

(** Evaluate the closed shifts and powers of the goal, which stdpp keeps
    folded. *)
Ltac zcompute :=
  repeat match goal with
  | |- context [Z.shiftr ?a ?b] =>
      let r := eval vm_compute in (Z.shiftr a b) in
      lazymatch r with Z0 => idtac | Zpos _ => idtac | Zneg _ => idtac end;
      change (Z.shiftr a b) with r
  | |- context [(?a ^ ?b)%Z] =>
      let r := eval vm_compute in (a ^ b)%Z in
      lazymatch r with Z0 => idtac | Zpos _ => idtac | Zneg _ => idtac end;
      change (a ^ b)%Z with r
  end.

(** ** Machine integers

    Go's [int] and [int64] are 64-bit two's complement on every supported
    platform; [uint64] wraps modulo 2^64. *)

Definition int64_min : Z := - 2 ^ 63.
Definition int64_max : Z := 2 ^ 63 - 1.
Definition wrap64 (z : Z) : Z := (z + 2 ^ 63) mod 2 ^ 64 - 2 ^ 63.
Definition wrapu64 (z : Z) : Z := z mod 2 ^ 64.
Definition in_int64 (z : Z) : Prop := int64_min <= z <= int64_max.

Lemma wrap64_id (z : Z) : in_int64 z -> wrap64 z = z.
Proof.
  unfold in_int64, int64_min, int64_max, wrap64. intros H.
  rewrite Z.mod_small; lia.
Qed.

Lemma wrap64_add (a b : Z) : wrap64 (wrap64 a + b) = wrap64 (a + b).
Proof.
  unfold wrap64. f_equal.
  replace ((a + 2 ^ 63) mod 2 ^ 64 - 2 ^ 63 + b + 2 ^ 63) with ((a + 2 ^ 63) mod 2 ^ 64 + b) by lia.
  rewrite Z.add_mod_idemp_l by lia. f_equal. lia.
Qed.
Lemma wrap64_range (z : Z) : in_int64 (wrap64 z).
Proof.
  unfold in_int64, int64_min, int64_max, wrap64.
  pose proof (Z.mod_pos_bound (z + 2 ^ 63) (2 ^ 64) eq_refl). lia.
Qed.

Lemma wrapu64_id (z : Z) : 0 <= z < 2 ^ 64 -> wrapu64 z = z.
Proof. apply Z.mod_small. Qed.

(** ** Time

    A [time.Time] is its distance from the Unix epoch in nanoseconds; the
    zero time of Go is the first instant of the year 1.  A [time.Duration] is
    an int64 number of nanoseconds. *)

Definition Nanosecond : Z := 1.
Definition Millisecond : Z := 10 ^ 6.
Definition Second : Z := 10 ^ 9.
Definition Minute : Z := 60 * Second.
Definition time_zero : Z := - 62135596800 * Second.
Definition IsZero (t : Z) : bool := t =? time_zero.
Definition Before (t u : Z) : bool := t <? u.
Definition After (t u : Z) : bool := u <? t.
Definition time_Add (t d : Z) : Z := t + d.
(** [Time.Sub] saturates at the range of a Duration. *)
Definition time_Sub (t u : Z) : Z := Z.max int64_min (Z.min int64_max (t - u)).
Definition Unix (t : Z) : Z := t / Second.
(** [Duration.Milliseconds] divides toward zero. *)
Definition Milliseconds (d : Z) : Z := Z.quot d Millisecond.

Lemma time_Sub_exact (t u : Z) : in_int64 (t - u) -> time_Sub t u = t - u.
Proof. unfold in_int64, time_Sub. lia. Qed.

Lemma time_Sub_le (t u d : Z) :
  int64_min <= d < int64_max -> time_Sub t u <= d <-> t - u <= d.
Proof. unfold time_Sub, int64_min, int64_max. lia. Qed.

(** ** A state monad

    The effectful code of the program is written in a state monad over the
    state it owns, with stdpp's [x ← m; k] notation. *)

Definition M (S A : Type) : Type := S -> A * S.
#[global] Instance M_ret (S : Type) : MRet (M S) := fun A a s => (a, s).
#[global] Instance M_bind (S : Type) : MBind (M S) :=
  fun A B f m s => let '(a, s') := m s in f a s'.
Definition get {S : Type} : M S S := fun s => (s, s).
Definition gets {S A : Type} (f : S -> A) : M S A := fun s => (f s, s).
Definition modify {S : Type} (f : S -> S) : M S unit := fun s => (tt, f s).

(** Effects-preserving reasoning: [keeps R m] says that running [m] relates
    the state before to the state after by [R]. *)
Definition keeps {S A : Type} (R : S -> S -> Prop) (m : M S A) : Prop :=
  forall s, R s (snd (m s)).

(** Hoare triple on a run: result and final state satisfy [Q]. *)
Definition runs {S A : Type} (P : S -> Prop) (m : M S A) (Q : A -> S -> Prop) : Prop :=
  forall s, P s -> Q (fst (m s)) (snd (m s)).

(** Every result of [m] satisfies [Q]. *)
Definition returns {S A : Type} (Q : A -> Prop) (m : M S A) : Prop :=
  forall s, Q (fst (m s)).

Section Monad.
Context {S A B : Type}.
Implicit Types (m : M S A) (k : A -> M S B).

Lemma bind_run m k s : (m ≫= k) s = k (fst (m s)) (snd (m s)).
Proof. unfold mbind, M_bind. destruct (m s). reflexivity. Qed.

Lemma runs_ret (P : S -> Prop) (Q : A -> S -> Prop) a :
  (forall s, P s -> Q a s) -> runs P (mret a : M S A) Q.
Proof. intros H s Hs. apply H, Hs. Qed.

Lemma runs_bind (P : S -> Prop) (Q : A -> S -> Prop) (T : B -> S -> Prop) m k :
  runs P m Q -> (forall a, runs (Q a) (k a) T) -> runs P (m ≫= k) T.
Proof.
  intros Hm Hk s Hs. rewrite bind_run. apply (Hk (fst (m s))). apply Hm, Hs.
Qed.

Lemma runs_weaken (P P' : S -> Prop) (Q Q' : A -> S -> Prop) m :
  (forall s, P' s -> P s) -> (forall a s, Q a s -> Q' a s) ->
  runs P m Q -> runs P' m Q'.
Proof. intros HP HQ Hm s Hs. apply HQ, Hm, HP, Hs. Qed.

Lemma runs_pure (Q : Prop) (P : S -> Prop) (T : A -> S -> Prop) m :
  (Q -> runs P m T) -> runs (fun s => Q /\ P s) m T.
Proof. intros Hm s [HQ Hs]. by apply Hm. Qed.

Lemma returns_ret (Q : A -> Prop) a : Q a -> returns Q (mret a : M S A).
Proof. intros HQ s. exact HQ. Qed.

Lemma returns_bind (P : A -> Prop) (Q : B -> Prop) m k :
  returns P m -> (forall a, P a -> returns Q (k a)) -> returns Q (m ≫= k).
Proof. intros Hm Hk s. rewrite bind_run. by apply Hk. Qed.

Lemma returns_any m : returns (fun _ => True) m.
Proof. done. Qed.

Lemma keeps_ret (R : S -> S -> Prop) `{!Reflexive R} a : keeps R (mret a : M S A).
Proof. intros s. reflexivity. Qed.

Lemma keeps_gets (R : S -> S -> Prop) `{!Reflexive R} (f : S -> A) : keeps R (gets f).
Proof. intros s. reflexivity. Qed.

Lemma keeps_bind (R : S -> S -> Prop) `{!Transitive R} m k :
  keeps R m -> (forall a, keeps R (k a)) -> keeps R (m ≫= k).
Proof.
  intros Hm Hk s. rewrite bind_run. etrans; [apply Hm | apply Hk].
Qed.

Lemma keeps_bind_ret (R : S -> S -> Prop) `{!Transitive R} (Q : A -> Prop) m k :
  keeps R m -> returns Q m -> (forall a, Q a -> keeps R (k a)) -> keeps R (m ≫= k).
Proof.
  intros Hm Hq Hk s. rewrite bind_run. etrans; [apply Hm | apply Hk, Hq].
Qed.
End Monad.

#[export] Hint Resolve keeps_ret keeps_gets : gate.

(** ** Panics

    A Go function that can panic (a slice index out of range) returns an
    [outcome]. *)

Inductive outcome (A : Type) : Type := Returned (a : A) | Panicked.
Arguments Returned {A} _.
Arguments Panicked {A}.
Definition outcome_map {A B : Type} (f : A -> B) (r : outcome A) : outcome B :=
  match r with Returned a => Returned (f a) | Panicked => Panicked end.

(** ** Runs of a step relation *)

Section Runs.
Context {A : Type} (step : A -> A -> Prop).

(** On every run from the state, whichever steps are chosen, [P] comes to
    hold, and the run does not get stuck before. *)
Inductive inevitable (P : A -> Prop) : A -> Prop :=
| inevitable_now a : P a -> inevitable P a
| inevitable_later a : (exists b, step a b) -> (forall b, step a b -> inevitable P b) -> inevitable P a.

(** A measure that every step decreases, under an invariant. *)
Lemma inevitable_measure (m : A -> nat) (I P : A -> Prop) :
  (forall a b, I a -> step a b -> I b /\ (m b < m a)%nat) ->
  (forall a, I a -> P a \/ exists b, step a b) ->
  forall a, I a -> inevitable P a.
Proof.
  intros Hstep Hprog a. remember (m a) as n eqn:En. revert a En.
  induction (lt_wf n) as [n _ IH]. intros a -> Ha.
  destruct (Hprog a Ha) as [Hp|Hex]; [by apply inevitable_now|]. apply inevitable_later; [done|].
  intros b Hb. destruct (Hstep a b Ha Hb) as [Hi Hlt]. by apply (IH (m b)).
Qed.

(** The same with a well-founded order on an image of the states. *)
Lemma inevitable_acc {B : Type} (f : A -> B) (lt : B -> B -> Prop) (I P : A -> Prop) :
  (forall a b, I a -> step a b -> I b /\ lt (f b) (f a)) ->
  (forall a, I a -> P a \/ exists b, step a b) ->
  forall a, Acc lt (f a) -> I a -> inevitable P a.
Proof.
  intros Hstep Hprog a Hacc. remember (f a) as x eqn:Ex. revert a Ex.
  induction Hacc as [x _ IH]. intros a -> Ha.
  destruct (Hprog a Ha) as [Hp|Hex]; [by apply inevitable_now|]. apply inevitable_later; [done|].
  intros b Hb. destruct (Hstep a b Ha Hb) as [Hi Hlt]. by eapply IH.
Qed.

(** States reachable from [a], and an invariant along them. *)
Lemma rtc_invariant (I : A -> Prop) a b : (forall x y, I x -> step x y -> I y) -> rtc step a b -> I a -> I b.
Proof. intros Hstep Hr. induction Hr; eauto. Qed.
End Runs.

(** ** Lists *)

(** [Permutation] of the elements that Go's [range] visits in a map: the
    order is unspecified, so the development takes it as an argument. *)
Definition visits {A : Type} (order keys : list A) : Prop := order ≡ₚ keys.

Lemma filter_all {A : Type} (P : A -> Prop) `{!forall x, Decision (P x)} (l : list A) :
  Forall P l -> filter P l = l.
Proof. induction 1; [done|]. rewrite filter_cons_True by done. by f_equal. Qed.

(** ** Maps *)

Lemma map_size_insert_le {K A : Type} `{Countable K} (k : K) (x : A) (m : gmap K A) :
  (size (<[k := x]> m) <= S (size m))%nat.
Proof. rewrite map_size_insert. destruct (m !! k); cbn; lia. Qed.
