(* ===== verification/GoStrings.v ===== *)
(** Model of the parts of Go's [strings], [strconv] and [net] packages that
    the program calls on text: trimming, case folding, splitting, decimal
    numbers and host:port pairs.  A Go string is a byte string; case folding
    and white space are those of ASCII (host names, addresses and settings
    are ASCII; bytes from 0x80 on are left as they are). *)

From S2P Require Import Prelude.

#[global] Open Scope string_scope.
#[global] Open Scope list_scope.
#[global] Open Scope Z_scope.
#[global] Arguments String.append !_ _ : simpl nomatch.

Definition byte_of (a : ascii) : Z := Z.of_N (N_of_ascii a).
Definition is_digit (a : ascii) : bool := (48 <=? byte_of a) && (byte_of a <=? 57).
Definition is_upper (a : ascii) : bool := (65 <=? byte_of a) && (byte_of a <=? 90).
Definition is_space (a : ascii) : bool :=
  (byte_of a =? 32) || ((9 <=? byte_of a) && (byte_of a <=? 13)).
Definition lower_ascii (a : ascii) : ascii :=
  if is_upper a then ascii_of_N (N_of_ascii a + 32) else a.

Fixpoint ToLower (s : string) : string :=
  match s with
  | "" => ""
  | String a s' => String (lower_ascii a) (ToLower s')
  end.

(** [strings.HasPrefix], [TrimPrefix], [HasSuffix], [TrimSuffix]. *)
Fixpoint strip_prefix (p s : string) : option string :=
  match p, s with
  | "", _ => Some s
  | String a p', String b s' => if Ascii.eqb a b then strip_prefix p' s' else None
  | _, _ => None
  end.
Definition HasPrefix (s p : string) : bool :=
  match strip_prefix p s with Some _ => true | None => false end.
Definition TrimPrefix (s p : string) : string := default s (strip_prefix p s).
Fixpoint strip_suffix (s suf : string) : option string :=
  if String.eqb s suf then Some ""
  else match s with
       | "" => None
       | String a s' => String a <$> strip_suffix s' suf
       end.
Definition HasSuffix (s suf : string) : bool :=
  match strip_suffix s suf with Some _ => true | None => false end.
Definition TrimSuffix (s suf : string) : string := default s (strip_suffix s suf).

(** [strings.TrimSpace]. *)
Fixpoint trim_left (f : ascii -> bool) (s : string) : string :=
  match s with
  | "" => ""
  | String a s' => if f a then trim_left f s' else s
  end.
Fixpoint trim_right (f : ascii -> bool) (s : string) : string :=
  match s with
  | "" => ""
  | String a s' =>
      match trim_right f s' with
      | "" => if f a then "" else String a ""
      | r => String a r
      end
  end.
Definition TrimFunc (f : ascii -> bool) (s : string) : string := trim_right f (trim_left f s).
Definition TrimSpace (s : string) : string := TrimFunc is_space s.

(** [strings.Split] with a one-byte separator. *)
Fixpoint Split (sep : ascii) (s : string) : list string :=
  match s with
  | "" => [""]
  | String a s' =>
      if Ascii.eqb a sep then "" :: Split sep s'
      else match Split sep s' with
           | [] => [String a ""]
           | h :: t => String a h :: t
           end
  end.

(** [strings.Contains] and [strings.IndexByte]-style searches. *)
Fixpoint Contains (s sub : string) : bool :=
  if HasPrefix s sub then true
  else match s with "" => false | String _ s' => Contains s' sub end.
Fixpoint contains_byte (c : ascii) (s : string) : bool :=
  match s with
  | "" => false
  | String a s' => if Ascii.eqb a c then true else contains_byte c s'
  end.
Definition ContainsAny (s chars : string) : bool :=
  existsb (fun c => contains_byte c s) (String.list_ascii_of_string chars).

(** Split at the first / last occurrence of a byte. *)
Fixpoint cut_first (c : ascii) (s : string) : option (string * string) :=
  match s with
  | "" => None
  | String a s' =>
      if Ascii.eqb a c then Some ("", s')
      else '(l, r) ← cut_first c s'; Some (String a l, r)
  end.
Fixpoint cut_last (c : ascii) (s : string) : option (string * string) :=
  match s with
  | "" => None
  | String a s' =>
      match cut_last c s' with
      | Some (l, r) => Some (String a l, r)
      | None => if Ascii.eqb a c then Some ("", s') else None
      end
  end.
Fixpoint Join (l : list string) (sep : string) : string :=
  match l with
  | [] => ""
  | [s] => s
  | s :: l' => s +:+ sep +:+ Join l' sep
  end.

(** [filepath.Dir] and [filepath.Join] on clean paths. *)
Definition filepath_Dir (p : string) : string :=
  match cut_last "/" p with
  | Some (d, _) => if String.eqb d "" then "/" else d
  | None => "."
  end.
Definition filepath_Join (d f : string) : string :=
  if String.eqb d "/" then "/" +:+ f else if String.eqb d "." then f else d +:+ "/" +:+ f.

(** [strconv.Atoi]: an optional sign and at least one decimal digit, within
    the range of int64. *)
Fixpoint digits_value (acc : Z) (s : string) : option Z :=
  match s with
  | "" => Some acc
  | String a s' =>
      if is_digit a then digits_value (acc * 10 + (byte_of a - 48)) s' else None
  end.
Definition unsigned_value (s : string) : option Z :=
  match s with "" => None | _ => digits_value 0 s end.
Definition signed_value (s : string) : option Z :=
  match s with
  | String "-" s' => Z.opp <$> unsigned_value s'
  | String "+" s' => unsigned_value s'
  | _ => unsigned_value s
  end.
Definition Atoi (s : string) : option Z :=
  v ← signed_value s;
  if (int64_min <=? v) && (v <=? int64_max) then Some v else None.
(** The value [Atoi] returns when its error is ignored: 0 on a syntax error,
    the nearest int64 when out of range. *)
Definition Atoi_value (s : string) : Z :=
  match signed_value s with
  | None => 0
  | Some v => Z.max int64_min (Z.min int64_max v)
  end.

(** [strconv.Itoa]. *)
Definition digit_char (d : Z) : ascii := ascii_of_N (Z.to_N (48 + d)).
Fixpoint digits_of (fuel : nat) (n : Z) (acc : string) : string :=
  match fuel with
  | O => acc
  | S f =>
      let acc' := String (digit_char (n mod 10)) acc in
      if n <? 10 then acc' else digits_of f (n / 10) acc'
  end.
(** 20 digits are enough for every int64: 2^63 < 10^19. *)
Definition Itoa (n : Z) : string :=
  if n <? 0 then "-" +:+ digits_of 20 (- n) "" else digits_of 20 n "".

(** [net.SplitHostPort] and [net.JoinHostPort]. *)
Definition SplitHostPort (hostport : string) : option (string * string) :=
  match cut_last ":" hostport with
  | None => None                                     (* missing port *)
  | Some (before, port) =>
      match hostport with
      | String "[" rest =>
          '(host, after) ← cut_first "]" rest;       (* missing ']' *)
          (* the first ']' stands right before the last ':' *)
          if String.eqb after (":" +:+ port)
          then if contains_byte "[" rest || contains_byte "]" after then None
               else Some (host, port)
          else None
      | _ =>
          if contains_byte ":" before then None      (* too many colons *)
          else if contains_byte "[" hostport || contains_byte "]" hostport then None
          else Some (before, port)
      end
  end.
Definition JoinHostPort (host port : string) : string :=
  if contains_byte ":" host then "[" +:+ host +:+ "]:" +:+ port
  else host +:+ ":" +:+ port.

(** ** Lemmas *)

Lemma str_app_nil_r (s : string) : s +:+ "" = s.
Proof. induction s as [|a s IH]; [done|]. cbn. by rewrite IH. Qed.

Lemma str_app_length (s t : string) :
  String.length (s +:+ t) = (String.length s + String.length t)%nat.
Proof. induction s as [|a s IH]; [done|]. cbn. by rewrite IH. Qed.

Lemma str_app_assoc (s t u : string) : (s +:+ t) +:+ u = s +:+ t +:+ u.
Proof. induction s as [|a s IH]; [done|]. cbn. by rewrite IH. Qed.

Lemma strip_prefix_Some (p s r : string) : strip_prefix p s = Some r <-> s = p +:+ r.
Proof.
  revert s. induction p as [|a p IHp]; intros s; cbn; [naive_solver|].
  destruct s as [|b s]; [done|].
  destruct (Ascii.eqb_spec a b) as [->|]; [rewrite IHp|]; split; intros [=]; by subst.
Qed.

Lemma strip_suffix_app (r suf : string) : strip_suffix (r +:+ suf) suf = Some r.
Proof.
  induction r as [|a r IH]; cbn.
  - destruct suf; cbn; [done|]. by rewrite Ascii.eqb_refl, String.eqb_refl.
  - destruct suf as [|b suf].
    + rewrite str_app_nil_r in *. by rewrite IH.
    + destruct (Ascii.eqb_spec a b) as [->|]; [|by rewrite IH].
      destruct (String.eqb_spec (r +:+ String b suf) suf) as [E|]; [|by rewrite IH].
      apply (f_equal String.length) in E. rewrite str_app_length in E. cbn in E. lia.
Qed.

Lemma strip_suffix_Some (s suf r : string) : strip_suffix s suf = Some r <-> s = r +:+ suf.
Proof.
  split; [|intros ->; apply strip_suffix_app].
  revert r. induction s as [|a s IH]; intros r; cbn [strip_suffix].
  - destruct (String.eqb_spec "" suf) as [<-|]; naive_solver.
  - destruct (String.eqb_spec (String a s) suf) as [<-|]; [naive_solver|].
    destruct (strip_suffix s suf) eqn:E; [|done].
    intros [= <-]. cbn. f_equal. by apply IH.
Qed.

Lemma HasSuffix_spec (s suf : string) : HasSuffix s suf = true <-> exists r, s = r +:+ suf.
Proof.
  unfold HasSuffix. destruct (strip_suffix s suf) as [r|] eqn:E.
  - apply strip_suffix_Some in E. naive_solver.
  - split; [done|]. intros [r ->]. by rewrite strip_suffix_app in E.
Qed.

Lemma HasPrefix_spec (s p : string) : HasPrefix s p = true <-> exists r, s = p +:+ r.
Proof.
  unfold HasPrefix. destruct (strip_prefix p s) as [r|] eqn:E.
  - apply strip_prefix_Some in E. naive_solver.
  - split; [done|]. intros [r ->].
    by rewrite (proj2 (strip_prefix_Some p (p +:+ r) r)) in E.
Qed.

Lemma TrimSuffix_app (s suf : string) : TrimSuffix (s +:+ suf) suf = s.
Proof. unfold TrimSuffix. by rewrite strip_suffix_app. Qed.

Lemma TrimSuffix_cons (a : ascii) (s suf : string) :
  String a s <> suf -> TrimSuffix (String a s) suf = String a (TrimSuffix s suf).
Proof.
  intros Hne. unfold TrimSuffix. cbn [strip_suffix]. apply String.eqb_neq in Hne. rewrite Hne.
  by destruct (strip_suffix s suf).
Qed.

Lemma TrimSuffix_id (s suf : string) : HasSuffix s suf = false -> TrimSuffix s suf = s.
Proof. unfold TrimSuffix, HasSuffix. by destruct (strip_suffix s suf). Qed.

Lemma lower_ascii_idem (a : ascii) : lower_ascii (lower_ascii a) = lower_ascii a.
Proof. by destruct a as [[] [] [] [] [] [] [] []]. Qed.

Lemma ToLower_idem (s : string) : ToLower (ToLower s) = ToLower s.
Proof. induction s as [|a s IH]; [done|]. cbn. by rewrite lower_ascii_idem, IH. Qed.

Lemma ToLower_app (s t : string) : ToLower (s +:+ t) = ToLower s +:+ ToLower t.
Proof. induction s as [|a s IH]; [done|]. cbn. by rewrite IH. Qed.

Lemma lower_ascii_dot (a : ascii) : lower_ascii a = "."%char -> a = "."%char.
Proof. by destruct a as [[] [] [] [] [] [] [] []]. Qed.

Lemma ToLower_dot (s t : string) :
  ToLower s = t +:+ "." -> exists s', s = s' +:+ "." /\ ToLower s' = t.
Proof.
  revert t. induction s as [|a s IH]; intros t.
  - cbn. destruct t; done.
  - destruct t as [|b t]; cbn; intros [= Ha Hs].
    + apply lower_ascii_dot in Ha as ->. destruct s; [|done]. by exists "".
    + destruct (IH t Hs) as (s' & -> & <-). exists (String a s'). subst b. done.
Qed.
