(* ===== verification/NetIP.v ===== *)
(** Model of [net/netip] (and of the few [net.IP] methods the program uses):
    addresses, prefixes, parsing, printing and the address classes that the
    route policy tests.  An IPv4 address is a 32-bit number, an IPv6 address a
    128-bit number with a zone; the zero [Addr] is invalid. *)

From S2P Require Import Prelude GoStrings.

(** ** Addresses *)

Inductive Addr : Type :=
| AddrZero
| Addr4 (v : Z)
| Addr6 (v : Z) (zone : string).

#[global] Instance Addr_eq_dec : EqDecision Addr.
Proof. solve_decision. Defined.

Definition Is4 (a : Addr) : bool := match a with Addr4 _ => true | _ => false end.
Definition Is6 (a : Addr) : bool := match a with Addr6 _ _ => true | _ => false end.
Definition Is4In6 (a : Addr) : bool :=
  match a with Addr6 v _ => Z.shiftr v 32 =? 0xffff | _ => false end.
Definition Unmap (a : Addr) : Addr :=
  match a with
  | Addr6 v _ => if Is4In6 a then Addr4 (Z.land v 0xffffffff) else a
  | _ => a
  end.
Definition WithZone (a : Addr) (z : string) : Addr :=
  match a with Addr6 v _ => Addr6 v z | _ => a end.
Definition hasZone (a : Addr) : bool :=
  match a with Addr6 _ z => negb (String.eqb z "") | _ => false end.
Definition BitLen (a : Addr) : Z :=
  match a with AddrZero => 0 | Addr4 _ => 32 | Addr6 _ _ => 128 end.
Definition IPv6Unspecified : Addr := Addr6 0 "".
(** The number behind an address is within the width of its family. *)
Definition Addr_ok (a : Addr) : Prop :=
  match a with
  | AddrZero => True
  | Addr4 v => 0 <= v < 2 ^ 32
  | Addr6 v _ => 0 <= v < 2 ^ 128
  end.

Definition IsLoopback (a : Addr) : bool :=
  match Unmap a with
  | Addr4 v => Z.shiftr v 24 =? 127
  | Addr6 v _ => v =? 1
  | AddrZero => false
  end.
Definition IsLinkLocalUnicast (a : Addr) : bool :=
  match Unmap a with
  | Addr4 v => Z.shiftr v 16 =? 0xa9fe
  | Addr6 v _ => Z.land (Z.shiftr v 112) 0xffc0 =? 0xfe80
  | AddrZero => false
  end.

(** ** Byte slices *)

Definition byte_char (b : Z) : ascii := ascii_of_N (Z.to_N (Z.land b 0xff)).
Fixpoint be_bytes (n : nat) (v : Z) : list ascii :=
  match n with
  | O => []
  | S k => be_bytes k (Z.shiftr v 8) ++ [byte_char v]
  end.
Definition be_value (l : list Z) : Z := fold_left (fun acc b => acc * 256 + b) l 0.
(** A [net.IP] and the result of [Addr.AsSlice] are byte slices. *)
Definition AsSlice (a : Addr) : list ascii :=
  match a with
  | AddrZero => []
  | Addr4 v => be_bytes 4 v
  | Addr6 v _ => be_bytes 16 v
  end.
Definition AddrFromSlice (l : list ascii) : option Addr :=
  if Nat.eqb (length l) 4 then Some (Addr4 (be_value (byte_of <$> l)))
  else if Nat.eqb (length l) 16 then Some (Addr6 (be_value (byte_of <$> l)) "")
  else None.
(** [net.IP.To4] is non-nil: four bytes, or sixteen that map an IPv4. *)
Definition To4_some (ip : list ascii) : bool :=
  if Nat.eqb (length ip) 4 then true
  else Nat.eqb (length ip) 16 && bool_decide (byte_of <$> take 12 ip = replicate 10 0 ++ [0xff; 0xff]).

(** ** Parsing *)

Fixpoint parseIPv4Fields (s : string) (val : Z) (digLen : nat) (fields : list Z) : option (list Z) :=
  match s with
  | "" => if Nat.ltb (length fields) 3 then None else Some (rev (val :: fields))
  | String a s' =>
      if is_digit a then
        if Nat.eqb digLen 1 && (val =? 0) then None      (* leading zero *)
        else let val' := val * 10 + (byte_of a - 48) in
             if 255 <? val' then None
             else parseIPv4Fields s' val' (S digLen) fields
      else if Ascii.eqb a "." then
        if Nat.eqb digLen 0 || String.eqb s' "" then None (* empty field *)
        else if Nat.eqb (length fields) 3 then None       (* too long *)
        else parseIPv4Fields s' 0 0 (val :: fields)
      else None
  end.
Definition parseIPv4 (s : string) : option Addr :=
  fs ← parseIPv4Fields s 0 0 []; Some (Addr4 (be_value fs)).

Definition hex_value (a : ascii) : option Z :=
  let b := byte_of a in
  if (48 <=? b) && (b <=? 57) then Some (b - 48)
  else if (97 <=? b) && (b <=? 102) then Some (b - 87)
  else if (65 <=? b) && (b <=? 70) then Some (b - 55)
  else None.
(** One hexadecimal group: its value, its length and what follows. *)
Fixpoint scan_hex (s : string) (off : nat) (acc : Z) : option (Z * nat * string) :=
  match s with
  | "" => Some (acc, off, "")
  | String a s' =>
      match hex_value a with
      | None => Some (acc, off, s)
      | Some d =>
          if Nat.ltb 3 off then None
          else let acc' := acc * 16 + d in
               if 0xffff <? acc' then None else scan_hex s' (S off) acc'
      end
  end.
(** The group loop; [gs] holds the groups read, last first, [ell] the
    position of "::".  Eight rounds fill the address. *)
Fixpoint parse_groups (fuel : nat) (s : string) (gs : list Z) (ell : option nat)
    : option (string * list Z * option nat) :=
  match fuel with
  | O => Some (s, gs, ell)
  | S f =>
      '(acc, off, r) ← scan_hex s 0 0;
      if Nat.eqb off 0 then None
      else match r with
      | "" => Some ("", acc :: gs, ell)
      | String a r' =>
          if Ascii.eqb a "." then
            if bool_decide (ell = None) && negb (Nat.eqb (length gs) 6) then None
            else if Nat.ltb 6 (length gs) then None
            else fs ← parseIPv4Fields s 0 0 [];
                 Some ("", be_value (drop 2 fs) :: be_value (take 2 fs) :: gs, ell)
          else if Ascii.eqb a ":" then
            match r' with
            | "" => None
            | String b r'' =>
                if Ascii.eqb b ":" then
                  if bool_decide (ell <> None) then None
                  else if String.eqb r'' "" then Some ("", acc :: gs, Some (S (length gs)))
                  else parse_groups f r'' (acc :: gs) (Some (S (length gs)))
                else parse_groups f r' (acc :: gs) ell
            end
          else None
      end
  end.
Definition groups_value (gs : list Z) : Z := fold_left (fun acc g => acc * 65536 + g) gs 0.
Definition parseIPv6_nozone (s : string) : option Z :=
  let '(s1, ell) := match strip_prefix "::" s with
                    | Some r => (r, Some 0%nat)
                    | None => (s, None)
                    end in
  if bool_decide (ell = Some 0%nat) && String.eqb s1 "" then Some 0
  else
    '(rest, rgs, ell') ← parse_groups 8 s1 [] ell;
    if negb (String.eqb rest "") then None               (* trailing garbage *)
    else
      let gs := rev rgs in
      let n := length gs in
      if Nat.ltb n 8 then
        e ← ell'; Some (groups_value (take e gs ++ replicate (8 - n) 0 ++ drop e gs))
      else match ell' with Some _ => None | None => Some (groups_value gs) end.
Definition parseIPv6 (s : string) : option Addr :=
  match cut_first "%" s with
  | None => v ← parseIPv6_nozone s; Some (Addr6 v "")
  | Some (s', zone) =>
      if String.eqb zone "" then None
      else v ← parseIPv6_nozone s'; Some (Addr6 v zone)
  end.
(** The first '.', ':' or '%' decides the family. *)
Fixpoint addr_kind (s : string) : option ascii :=
  match s with
  | "" => None
  | String a s' =>
      if Ascii.eqb a "." || Ascii.eqb a ":" || Ascii.eqb a "%" then Some a else addr_kind s'
  end.
Definition ParseAddr (s : string) : option Addr :=
  match addr_kind s with
  | Some "."%char => parseIPv4 s
  | Some ":"%char => parseIPv6 s
  | _ => None
  end.

(** [net.ParseIP] takes no zone. *)
Definition ParseIP (s : string) : option Addr :=
  a ← ParseAddr s; if hasZone a then None else Some a.
Definition IP_is4 (a : Addr) : bool := Is4 (Unmap a).

(** ** Prefixes *)

Record Prefix := MkPrefix { p_ip : Addr; p_bits : Z }.

#[global] Instance Prefix_eq_dec : EqDecision Prefix.
Proof. solve_decision. Defined.

Definition ParsePrefix (s : string) : option Prefix :=
  '(ipStr, bitsStr) ← cut_last "/" s;
  ip ← ParseAddr ipStr;
  if hasZone ip then None
  else if Nat.ltb 1 (String.length bitsStr) &&
          match bitsStr with
          | String a _ => (byte_of a <? 49) || (57 <? byte_of a)
          | "" => false
          end then None
  else bits ← Atoi bitsStr;
       if (bits <? 0) || (BitLen ip <? bits) then None else Some (MkPrefix ip bits).

(** The [n] leading ones of a 128-bit number. *)
Definition mask6 (n : Z) : Z := Z.shiftl (Z.ones n) (128 - n).
Definition Prefix_Contains (p : Prefix) (a : Addr) : bool :=
  if hasZone a then false
  else match p_ip p, a with
       | Addr4 pv, Addr4 v => Z.shiftr (Z.lxor v pv) (32 - p_bits p) =? 0
       | Addr6 pv _, Addr6 v _ => Z.land (Z.lxor v pv) (mask6 (p_bits p)) =? 0
       | _, _ => false
       end.

(** ** Printing *)

Definition print4 (v : Z) : string :=
  Itoa (Z.land (Z.shiftr v 24) 0xff) +:+ "." +:+ Itoa (Z.land (Z.shiftr v 16) 0xff) +:+ "." +:+
  Itoa (Z.land (Z.shiftr v 8) 0xff) +:+ "." +:+ Itoa (Z.land v 0xff).
Definition hex_char (d : Z) : ascii :=
  if d <? 10 then ascii_of_N (Z.to_N (48 + d)) else ascii_of_N (Z.to_N (87 + d)).
Fixpoint hex_digits (fuel : nat) (n : Z) (acc : string) : string :=
  match fuel with
  | O => acc
  | S f =>
      let acc' := String (hex_char (n mod 16)) acc in
      if n <? 16 then acc' else hex_digits f (n / 16) acc'
  end.
Definition v6u16 (v : Z) (i : nat) : Z := Z.land (Z.shiftr v (112 - 16 * Z.of_nat i)) 0xffff.
Definition groups_of (v : Z) : list Z := v6u16 v <$> seq 0 8.
Fixpoint zero_run (gs : list Z) : nat :=
  match gs with g :: gs' => if g =? 0 then S (zero_run gs') else O | [] => O end.
(** First longest run of at least two zero groups: start and length. *)
Fixpoint best_run (i : nat) (gs : list Z) (best : nat * nat) : nat * nat :=
  match gs with
  | [] => best
  | _ :: gs' =>
      let l := zero_run gs in
      best_run (S i) gs' (if Nat.leb 2 l && Nat.ltb (snd best) l then (i, l) else best)
  end.
Definition print_groups (gs : list Z) : string := Join ((fun g => hex_digits 4 g "") <$> gs) ":".
Definition print6 (v : Z) : string :=
  let gs := groups_of v in
  let '(start, len) := best_run 0 gs (0%nat, 0%nat) in
  if Nat.eqb len 0 then print_groups gs
  else print_groups (take start gs) +:+ "::" +:+ print_groups (drop (start + len) gs).
Definition Addr_String (a : Addr) : string :=
  match a with
  | AddrZero => "invalid IP"
  | Addr4 v => print4 v
  | Addr6 v z =>
      (if Is4In6 a then "::ffff:" +:+ print4 (Z.land v 0xffffffff) else print6 v) +:+
      (if String.eqb z "" then "" else "%" +:+ z)
  end.

(** ** Lemmas *)

Lemma shiftr_lxor_0 (a b k : Z) :
  0 <= k -> (Z.shiftr (Z.lxor a b) k =? 0) = (Z.shiftr a k =? Z.shiftr b k).
Proof.
  intros Hk. rewrite Z.shiftr_lxor.
  destruct (Z.eqb_spec (Z.shiftr a k) (Z.shiftr b k)) as [->|Hne].
  - by rewrite Z.lxor_nilpotent.
  - apply Z.eqb_neq. intros H. apply Hne. by apply Z.lxor_eq.
Qed.

Lemma land_mask6_0 (x n : Z) :
  0 <= n <= 128 -> 0 <= x < 2 ^ 128 ->
  (Z.land x (mask6 n) =? 0) = (Z.shiftr x (128 - n) =? 0).
Proof.
  intros Hn Hx. unfold mask6.
  replace (Z.land x (Z.shiftl (Z.ones n) (128 - n)))
    with (Z.shiftl (Z.shiftr x (128 - n)) (128 - n)).
  - rewrite Z.shiftl_mul_pow2 by lia.
    destruct (Z.eqb_spec (Z.shiftr x (128 - n)) 0) as [->|Hne]; [done|].
    apply Z.eqb_neq. intros H. apply Z.mul_eq_0 in H as [?|H]; [done|].
    pose proof (Z.pow_pos_nonneg 2 (128 - n)). lia.
  - apply Z.bits_inj'. intros i Hi.
    rewrite Z.land_spec, Z.shiftl_spec by lia.
    destruct (Z.ltb_spec i (128 - n)).
    + rewrite (Z.testbit_neg_r _ (i - (128 - n))) by lia.
      rewrite Z.shiftl_spec_low by lia. by rewrite andb_false_r.
    + rewrite Z.shiftr_spec, Z.shiftl_spec by lia.
      replace (i - (128 - n) + (128 - n)) with i by lia.
      destruct (Z.ltb_spec i 128).
      * rewrite Z.ones_spec_low by lia. by rewrite andb_true_r.
      * assert (Z.testbit x i = false) as ->; [|done].
        apply Z.testbit_false; [done|]. rewrite Z.div_small; [done|].
        split; [lia|]. eapply Z.lt_le_trans; [apply Hx|]. by apply Z.pow_le_mono_r.
Qed.

Lemma lxor_range (a b n : Z) :
  0 <= n -> 0 <= a < 2 ^ n -> 0 <= b < 2 ^ n -> 0 <= Z.lxor a b < 2 ^ n.
Proof.
  intros Hn Ha Hb.
  assert (0 <= Z.lxor a b) by (apply Z.lxor_nonneg; lia). split; [done|].
  destruct (Z.eqb_spec (Z.lxor a b) 0) as [->|Hne]; [by apply Z.pow_pos_nonneg|].
  apply Z.log2_lt_pow2; [lia|].
  pose proof (Z.log2_lxor a b ltac:(lia) ltac:(lia)).
  destruct (Z.eqb_spec n 0).
  { subst n. assert (a = 0) as -> by lia. assert (b = 0) as -> by lia. done. }
  assert (Hlog : forall c, 0 <= c < 2 ^ n -> Z.log2 c < n).
  { intros c Hc. destruct (Z.eqb_spec c 0) as [->|]; [cbn; lia|]. by apply Z.log2_lt_pow2; lia. }
  pose proof (Hlog a Ha). pose proof (Hlog b Hb). lia.
Qed.

(** A prefix contains exactly the addresses of its family, without a zone,
    that agree with it on the leading bits. *)
Lemma Prefix_Contains_4 (pv v bits : Z) :
  0 <= bits <= 32 ->
  Prefix_Contains (MkPrefix (Addr4 pv) bits) (Addr4 v)
  = (Z.shiftr v (32 - bits) =? Z.shiftr pv (32 - bits)).
Proof. intros H. unfold Prefix_Contains. cbn. apply shiftr_lxor_0. lia. Qed.

Lemma Prefix_Contains_6 (pv v bits : Z) (pz : string) :
  0 <= bits <= 128 -> 0 <= v < 2 ^ 128 -> 0 <= pv < 2 ^ 128 ->
  Prefix_Contains (MkPrefix (Addr6 pv pz) bits) (Addr6 v "")
  = (Z.shiftr v (128 - bits) =? Z.shiftr pv (128 - bits)).
Proof.
  intros Hb Hv Hp. unfold Prefix_Contains. cbn -[mask6 Z.land Z.pow].
  rewrite land_mask6_0 by (auto using lxor_range with lia). apply shiftr_lxor_0. lia.
Qed.

(** The same as an interval of numbers. *)
Lemma shiftr_eqb_range (v p k : Z) :
  0 <= k -> (Z.shiftr v k =? p) = (p * 2 ^ k <=? v) && (v <? (p + 1) * 2 ^ k).
Proof.
  intros Hk. rewrite Z.shiftr_div_pow2 by done.
  pose proof (Z.pow_pos_nonneg 2 k eq_refl Hk) as Hp.
  destruct (Z.eqb_spec (v / 2 ^ k) p) as [<-|Hne].
  - pose proof (Z.mul_div_le v (2 ^ k) Hp).
    pose proof (Z.mul_succ_div_gt v (2 ^ k) Hp).
    symmetry. apply andb_true_iff. split; [apply Z.leb_le | apply Z.ltb_lt]; nia.
  - symmetry. apply andb_false_iff.
    destruct (Z.leb_spec (p * 2 ^ k) v); [right | by left].
    apply Z.ltb_ge. destruct (Z.le_gt_cases ((p + 1) * 2 ^ k) v); [done|].
    exfalso. apply Hne. symmetry. apply (Z.div_unique v (2 ^ k) p (v - 2 ^ k * p)); nia.
Qed.

(** ** Every address the library builds is within its width *)

Definition digits_in (base : Z) (l : list Z) : Prop := Forall (fun d => 0 <= d < base) l.

Lemma positional_bound (base : Z) (l : list Z) (acc : Z) :
  0 < base -> 0 <= acc -> digits_in base l ->
  0 <= fold_left (fun acc d => acc * base + d) l acc < (acc + 1) * base ^ Z.of_nat (length l).
Proof.
  intros Hb Ha Hl. revert acc Ha. induction Hl as [|d l Hd Hl IH]; intros acc Ha.
  - cbn. lia.
  - cbn [fold_left length]. specialize (IH (acc * base + d) ltac:(nia)).
    rewrite Nat2Z.inj_succ, Z.pow_succ_r by lia.
    pose proof (Z.pow_pos_nonneg base (Z.of_nat (length l)) Hb ltac:(lia)). nia.
Qed.

Lemma byte_of_range (a : ascii) : 0 <= byte_of a < 256.
Proof. unfold byte_of. pose proof (N_ascii_bounded a). lia. Qed.

Lemma AddrFromSlice_ok (l : list ascii) (a : Addr) : AddrFromSlice l = Some a -> Addr_ok a.
Proof.
  assert (Hd : digits_in 256 (byte_of <$> l)).
  { apply Forall_fmap, Forall_true. intros x. apply byte_of_range. }
  pose proof (positional_bound 256 _ 0 ltac:(lia) ltac:(lia) Hd) as Hb.
  rewrite length_fmap in Hb. unfold AddrFromSlice, be_value.
  destruct (Nat.eqb_spec (length l) 4) as [Hn|]; [rewrite Hn in Hb; intros [= <-]; cbn in *; lia|].
  destruct (Nat.eqb_spec (length l) 16) as [Hn|]; [rewrite Hn in Hb; intros [= <-]; cbn in *; lia|done].
Qed.

Lemma is_digit_range (a : ascii) : is_digit a = true -> 48 <= byte_of a <= 57.
Proof. unfold is_digit. intros. prop_of_bool. lia. Qed.

Lemma parseIPv4Fields_ok (s : string) (val : Z) (n : nat) (fields out : list Z) :
  0 <= val < 256 -> digits_in 256 fields -> (length fields <= 3)%nat ->
  parseIPv4Fields s val n fields = Some out -> length out = 4%nat /\ digits_in 256 out.
Proof.
  revert val n fields. induction s as [|a s IH]; intros val n fields Hv Hf Hl; cbn [parseIPv4Fields].
  - destruct (Nat.ltb_spec (length fields) 3); [done|]. intros [= <-].
    rewrite length_app, length_rev. cbn. split; [lia|].
    apply Forall_app. split; [by apply Forall_rev|]. constructor; [done|constructor].
  - destruct (is_digit a) eqn:Ed.
    { apply is_digit_range in Ed. repeat (split_if; prop_of_bool); try done.
      apply IH; try done. lia. }
    destruct (Ascii.eqb a "."); [|done].
    destruct (_ || _)%bool; [done|].
    destruct (Nat.eqb_spec (length fields) 3); [done|].
    apply IH; [lia|by constructor|cbn; lia].
Qed.

Lemma parseIPv4_ok (s : string) (a : Addr) : parseIPv4 s = Some a -> Addr_ok a.
Proof.
  unfold parseIPv4. destruct (parseIPv4Fields s 0 0 []) as [fs|] eqn:E; [|done].
  apply parseIPv4Fields_ok in E as [Hl Hd]; [|lia|constructor|cbn; lia].
  intros [= <-]. pose proof (positional_bound 256 fs 0 ltac:(lia) ltac:(lia) Hd) as Hb.
  rewrite Hl in Hb. unfold be_value. cbn in *. lia.
Qed.

Lemma hex_value_range (a : ascii) (d : Z) : hex_value a = Some d -> 0 <= d < 16.
Proof. unfold hex_value. repeat split_if; intros [= <-]; prop_of_bool; lia. Qed.

Lemma scan_hex_range (s r : string) (off off' : nat) (acc acc' : Z) :
  0 <= acc < 65536 -> scan_hex s off acc = Some (acc', off', r) -> 0 <= acc' < 65536.
Proof.
  revert off acc. induction s as [|a s IHs]; intros off acc Ha; cbn [scan_hex]; [by intros [= -> _ _]|].
  destruct (hex_value a) as [d|] eqn:Ed; [|by intros [= -> _ _]]. apply hex_value_range in Ed.
  repeat (split_if; prop_of_bool); try done. apply IHs. lia.
Qed.

Lemma parse_groups_ok (fuel : nat) (s r : string) (gs out : list Z) (ell ell' : option nat) :
  (length gs + fuel = 8)%nat -> digits_in 65536 gs ->
  parse_groups fuel s gs ell = Some (r, out, ell') -> (length out <= 8)%nat /\ digits_in 65536 out.
Proof.
  revert s gs ell. induction fuel as [|f IH]; intros s gs ell Hl Hg; cbn [parse_groups].
  { intros [= _ <- _]. split; [lia|done]. }
  destruct (scan_hex s 0 0) as [[[acc off] rest]|] eqn:Es; [|done]. cbn [mbind option_bind].
  apply scan_hex_range in Es; [|lia].
  assert (Hg' : digits_in 65536 (acc :: gs)) by by constructor.
  destruct (Nat.eqb off 0); [done|].
  destruct rest as [|a rest]; [intros [= _ <- _]; cbn; split; [lia|done]|].
  destruct (Ascii.eqb a ".").
  { destruct (_ && _)%bool; [done|]. destruct (Nat.ltb_spec 6 (length gs)); [done|].
    destruct (parseIPv4Fields s 0 0 []) as [fs|] eqn:E4; [|done]. cbn. intros [= _ <- _].
    apply parseIPv4Fields_ok in E4 as [H4 Hd]; [|lia|constructor|cbn; lia].
    assert (Hpair : forall l, length l = 2%nat -> digits_in 256 l -> 0 <= be_value l < 65536).
    { intros l Hl2 Hd2. pose proof (positional_bound 256 l 0 ltac:(lia) ltac:(lia) Hd2) as Hb.
      rewrite Hl2 in Hb. unfold be_value. cbn in *. lia. }
    cbn. split; [lia|]. repeat constructor; try done.
    all: apply Hpair; rewrite ?length_drop, ?length_take, ?H4; try done.
    all: by first [apply Forall_drop | apply Forall_take]. }
  destruct (Ascii.eqb a ":"); [|done]. destruct rest as [|b rest']; [done|].
  assert (Hl' : (length (acc :: gs) + f = 8)%nat) by (cbn; lia).
  destruct (Ascii.eqb b ":"); [|by apply IH].
  destruct (bool_decide _); [done|]. destruct (String.eqb rest' ""); [|by apply IH].
  intros [= _ <- _]. cbn. split; [lia|done].
Qed.

Lemma parseIPv6_ok (s : string) (a : Addr) : parseIPv6 s = Some a -> Addr_ok a.
Proof.
  assert (Hv : forall t v, parseIPv6_nozone t = Some v -> 0 <= v < 2 ^ 128).
  { intros t v. unfold parseIPv6_nozone.
    destruct (match strip_prefix "::" t with Some r => _ | None => _ end) as [s1 ell].
    destruct (bool_decide (ell = Some 0%nat) && String.eqb s1 ""); [intros [= <-]; lia|].
    destruct (parse_groups 8 s1 [] ell) as [[[rest rgs] ell']|] eqn:E; [|done].
    apply parse_groups_ok in E as [Hl Hd]; [|done|constructor]. cbn [mbind option_bind]. cbv zeta.
    destruct (negb _); [done|].
    assert (Hval : forall l, length l = 8%nat -> digits_in 65536 l -> 0 <= groups_value l < 2 ^ 128).
    { intros l Hl8 Hdl. pose proof (positional_bound 65536 l 0 ltac:(lia) ltac:(lia) Hdl) as Hb.
      rewrite Hl8 in Hb. unfold groups_value. cbn in *. lia. }
    apply Forall_rev in Hd. rewrite <- length_rev in Hl.
    destruct (Nat.ltb_spec (length (rev rgs)) 8) as [Hlt|Hge].
    - destruct ell' as [e|]; [|done]. cbn. intros [= <-]. apply Hval.
      + rewrite !length_app, length_replicate, length_take, length_drop. lia.
      + unfold digits_in. rewrite !Forall_app. split_and!;
          [by apply Forall_take | apply Forall_replicate; lia | by apply Forall_drop].
    - destruct ell'; [done|]. intros [= <-]. apply Hval; [lia|done]. }
  unfold parseIPv6. destruct (cut_first "%" s) as [[s' z]|].
  - destruct (String.eqb z ""); [done|]. destruct (parseIPv6_nozone s') eqn:E; [|done].
    intros [= <-]. by eapply Hv.
  - destruct (parseIPv6_nozone s) eqn:E; [|done]. intros [= <-]. by eapply Hv.
Qed.

Lemma ParseAddr_ok (s : string) (a : Addr) : ParseAddr s = Some a -> Addr_ok a.
Proof.
  unfold ParseAddr. intros E. repeat split_match; simplify_eq; eauto using parseIPv4_ok, parseIPv6_ok.
Qed.

Lemma Unmap_ok (a : Addr) : Addr_ok a -> Addr_ok (Unmap a).
Proof.
  destruct a as [| |v z]; [done|done|]. cbn [Unmap]. split_if; [|done]. intros _. cbn.
  change 0xffffffff with (Z.ones 32). rewrite Z.land_ones by lia. apply Z.mod_pos_bound. lia.
Qed.
