(* ===== verification/Errors.v ===== *)
(** Go error values (errors.go, and the wrapping of [fmt.Errorf] with %w):
    an inductive type with one constructor per error type the program builds
    or inspects, its text, its unwrap chain and [errors.Is] / [errors.As]. *)

From S2P Require Import Prelude GoStrings.

(** ** Error values *)

Inductive error : Type :=
| ErrorVar (name text : string)          (* package variable made by errors.New *)
| Errorf (text : string) (wrapped : option error)
| NetworkError (Operation Address : string) (Err : option error)
| DNSError (Host : string) (Err : option error)
| connectError (state : string) (err : error)
| hostKeyMismatchError (want got : string)
| net_DNSError (Err : string) (IsNotFound IsTimeout : bool)
| net_OpError (text : string) (Err : option error) (isTimeout : bool)
| net_Error (text : string) (isTimeout : bool).

Definition NewNetworkError (operation address : string) (err : error) : error :=
  NetworkError operation address (Some err).
Definition NewDNSError (host : string) (err : error) : error := DNSError host (Some err).

Fixpoint Error (e : error) : string :=
  match e with
  | ErrorVar _ t | Errorf t _ => t
  | NetworkError op addr (Some e') =>
      op +:+ " to " +:+ addr +:+ " failed: " +:+ Error e'
  | NetworkError op addr None => op +:+ " to " +:+ addr +:+ " failed"
  | DNSError host (Some e') => "DNS resolution failed for " +:+ host +:+ ": " +:+ Error e'
  | DNSError host None => "DNS resolution failed for " +:+ host
  | connectError _ e' => Error e'
  | hostKeyMismatchError want got => "host key mismatch: expected " +:+ want +:+ ", got " +:+ got
  | net_DNSError t _ _ | net_OpError t _ _ | net_Error t _ => t
  end.

Definition Unwrap (e : error) : option error :=
  match e with
  | Errorf _ w | NetworkError _ _ w | DNSError _ w | net_OpError _ w _ => w
  | connectError _ e' => Some e'
  | _ => None
  end.

(** The error and everything it wraps, outermost first. *)
Fixpoint chain (e : error) : list error :=
  e :: match e with
       | Errorf _ (Some e') | NetworkError _ _ (Some e') | DNSError _ (Some e')
       | net_OpError _ (Some e') _ | connectError _ e' => chain e'
       | _ => []
       end.

(** [errors.Is] against a package variable. *)
Definition same_var (e target : error) : bool :=
  match e, target with
  | ErrorVar n _, ErrorVar m _ => String.eqb n m
  | _, _ => false
  end.
Definition errors_Is (e target : error) : bool := existsb (fun x => same_var x target) (chain e).

(** [ctx.Err()] after the deadline. *)
Definition context_DeadlineExceeded : error := net_Error "context deadline exceeded" true.

(** [errors.As]: the first error of the chain that has the wanted type. *)
Definition errors_As {A : Type} (f : error -> option A) (e : error) : option A :=
  head (omap f (chain e)).
Definition as_connectError (e : error) : option (string * error) :=
  match e with connectError s e' => Some (s, e') | _ => None end.
Definition as_mismatch (e : error) : option (string * string) :=
  match e with hostKeyMismatchError w g => Some (w, g) | _ => None end.
Definition as_net_DNSError (e : error) : option (string * bool) :=
  match e with net_DNSError t nf _ => Some (t, nf) | _ => None end.
Definition as_OpError (e : error) : option (option error) :=
  match e with net_OpError _ w _ => Some w | _ => None end.
(** [net.Error]: the types with a [Timeout] method. *)
Definition as_net_Error (e : error) : option bool :=
  match e with
  | net_DNSError _ _ t | net_OpError _ _ t | net_Error _ t => Some t
  | _ => None
  end.

(** Package variables. *)
Definition errNotFound : error := ErrorVar "errNotFound" "no answer".
Definition errUnreachable : error := ErrorVar "errUnreachable" "server unreachable".
Definition io_EOF : error := ErrorVar "io.EOF" "EOF".
Definition net_ErrClosed : error := ErrorVar "net.ErrClosed" "use of closed network connection".
Definition errResolveFailed : error :=
  ErrorVar "errResolveFailed" "destination name not resolved".

(** ** Lemmas *)

Lemma chain_unwrap (e : error) :
  chain e = e :: match Unwrap e with Some e' => chain e' | None => [] end.
Proof. by destruct e as [| ? []|? ? []|? []| | | |? [] ?|]. Qed.

(** Wrapping keeps what the wrapped error is. *)
Lemma errors_Is_DNSError (host : string) (e target : error) :
  errors_Is (NewDNSError host e) target = errors_Is e target.
Proof. reflexivity. Qed.

Lemma errors_Is_NetworkError (op addr : string) (e target : error) :
  errors_Is (NewNetworkError op addr e) target = errors_Is e target.
Proof. reflexivity. Qed.

Lemma errors_Is_Errorf (t : string) (e target : error) :
  errors_Is (Errorf t (Some e)) target = errors_Is e target.
Proof. reflexivity. Qed.
