(* ===== verification/Rules.v ===== *)
(** The pure part of rules.go: the direct rules and their parser, host name
    normalization, the private ranges and the address choices of the route
    policy.  [Decide] itself asks the resolver and is in Opener.v. *)

From S2P Require Import Prelude GoStrings NetIP Errors.

(** ** Routes and rules *)

Inductive Route : Type := RouteDirect | RouteTunnel.
#[global] Instance Route_eq_dec : EqDecision Route.
Proof. solve_decision. Defined.
Definition Route_String (r : Route) : string :=
  if decide (r = RouteDirect) then "direct" else "tunnel".

(** Go's [regexp] engine: [Compile] refuses an ill-formed pattern. *)
Class Regexp : Type := {
  regexp : Type;
  regexp_Compile : string -> option regexp;
  MatchString : regexp -> string -> bool }.

(** [strings.ToLower] and the root dot. *)
Definition normalizeHost (host : string) : string := TrimSuffix (ToLower host) ".".

Section Rules.
Context `{Regexp}.

Record ruleEntry := MkRule {
  raw : string;
  ipPrefix : option Prefix;
  re : option regexp;
  domain : string }.

Inductive ruleError : Type :=
| InvalidCIDR (s : string)
| EmptyRegex (raw : string)
| InvalidRegex (s : string)
| NoDomain (raw : string).

Definition parseRuleEntry (raw : string) : ruleError + ruleEntry :=
  match strip_prefix "ip:" raw with
  | Some s =>
      match ParsePrefix s with
      | None => inl (InvalidCIDR s)
      | Some p => inr (MkRule raw (Some p) None "")
      end
  | None =>
      match strip_prefix "re:" raw with
      | Some s =>
          if String.eqb s "" then inl (EmptyRegex raw)
          else match regexp_Compile s with
               | None => inl (InvalidRegex s)
               | Some r => inr (MkRule raw None (Some r) "")
               end
      | None =>
          let domain := normalizeHost (TrimPrefix raw ".") in
          if String.eqb domain "" then inl (NoDomain raw)
          else inr (MkRule raw None None domain)
      end
  end.

(** ** The engine *)

Record RuleEngine := MkEngine {
  rules : list ruleEntry;
  private : list Prefix;
  started : bool }.

Definition private_texts : list string :=
  ["0.0.0.0/8"; "10.0.0.0/8"; "100.64.0.0/10"; "172.16.0.0/12"; "192.168.0.0/16";
   "127.0.0.0/8"; "::/128"; "::1/128"; "169.254.0.0/16"; "fc00::/7"; "fe80::/10"].

(** The loop of [NewRuleEngine] over the comma-separated entries: rules that
    need no lookup are appended to [rs], ip: rules to [ips]. *)
Fixpoint add_entries (entries : list string) (rs ips : list ruleEntry)
    : ruleError + (list ruleEntry * list ruleEntry) :=
  match entries with
  | [] => inr (rs, ips)
  | entry :: rest =>
      let entry := TrimSpace entry in
      if String.eqb entry "" then add_entries rest rs ips
      else match parseRuleEntry entry with
           | inl e => inl e
           | inr r =>
               match ipPrefix r with
               | Some _ => add_entries rest rs (ips ++ [r])
               | None => add_entries rest (rs ++ [r]) ips
               end
           end
  end.

(** [mustPrefix] panics on a bad text: [None] at the outer level. *)
Definition mustPrefix (s : string) : option Prefix := ParsePrefix s.

Definition NewRuleEngine (direct : string) : option (ruleError + RuleEngine) :=
  private ← mapM mustPrefix private_texts;
  Some (match (if String.eqb direct "" then inr ([], [])
               else add_entries (Split "," direct) [] []) with
        | inl e => inl e
        | inr (rs, ips) => inr (MkEngine (rs ++ ips) private false)
        end).

(** [Start] launches the purge goroutine (Dns.v) the first time only: the
    flag tells whether this call launched it. *)
Definition Start (e : RuleEngine) : bool * RuleEngine :=
  if started e then (false, e) else (true, MkEngine (rules e) (private e) true).

(** [isPrivate] drops the IPv4 mapping and the zone before it compares. *)
Definition isPrivate (e : RuleEngine) (ip : Addr) : bool :=
  existsb (fun p => Prefix_Contains p (WithZone (Unmap ip) "")) (private e).

(** The part of [ruleEntry.matches] for rules that need no lookup. *)
Definition matches_name (r : ruleEntry) (host : string) : bool :=
  match re r with
  | Some x => MatchString x host
  | None =>
      if String.eqb (domain r) "" then false
      else String.eqb host (domain r) || HasSuffix host ("." +:+ domain r)
  end.
End Rules.

(** ** Address choices *)

(** [pickTunnelAddr]: the first IPv4, else the first address. *)
Definition pickTunnelAddr (addrs : list Addr) : option Addr :=
  match find (fun a => Is4 a) addrs with
  | Some a => Some a
  | None => head addrs
  end.

Definition hostLocalV4 : Prefix := MkPrefix (Addr4 0) 8.

Definition dropHostLocal (addrs : list Addr) : list Addr :=
  omap (fun a =>
    let a := WithZone (Unmap a) "" in
    if negb (IsLoopback a) && negb (IsLinkLocalUnicast a) &&
       negb (Prefix_Contains hostLocalV4 a) && negb (bool_decide (a = IPv6Unspecified))
    then Some a else None) addrs.

(** ** Reference definitions *)

(** The documented private ranges as intervals of numbers. *)
Definition in_range (lo hi v : Z) : bool := (lo <=? v) && (v <? hi).
Definition ip4 (a b c d : Z) : Z := ((a * 256 + b) * 256 + c) * 256 + d.
Definition private_range (a : Addr) : bool :=
  match a with
  | Addr4 v =>
      in_range (ip4 0 0 0 0) (ip4 1 0 0 0) v || in_range (ip4 10 0 0 0) (ip4 11 0 0 0) v ||
      in_range (ip4 100 64 0 0) (ip4 100 128 0 0) v || in_range (ip4 127 0 0 0) (ip4 128 0 0 0) v ||
      in_range (ip4 169 254 0 0) (ip4 169 255 0 0) v || in_range (ip4 172 16 0 0) (ip4 172 32 0 0) v ||
      in_range (ip4 192 168 0 0) (ip4 192 169 0 0) v
  | Addr6 v _ =>
      (v =? 0) || (v =? 1) ||
      in_range (0xfc * 2 ^ 120) (0xfe * 2 ^ 120) v || in_range (0xfe80 * 2 ^ 112) (0xfec0 * 2 ^ 112) v
  | AddrZero => false
  end.
(** The ranges a local answer may send a connection to directly: RFC 1918,
    CGNAT and unique local addresses. *)
Definition intranet_range (a : Addr) : bool :=
  match a with
  | Addr4 v =>
      in_range (ip4 10 0 0 0) (ip4 11 0 0 0) v || in_range (ip4 100 64 0 0) (ip4 100 128 0 0) v ||
      in_range (ip4 172 16 0 0) (ip4 172 32 0 0) v || in_range (ip4 192 168 0 0) (ip4 192 169 0 0) v
  | Addr6 v _ => in_range (0xfc * 2 ^ 120) (0xfe * 2 ^ 120) v
  | AddrZero => false
  end.

(** ** Lemmas *)

Definition private_prefixes : list Prefix := Eval vm_compute in omap ParsePrefix private_texts.

(** The constant prefixes all parse: [mustPrefix] never panics. *)
Lemma mustPrefix_ok : mapM mustPrefix private_texts = Some private_prefixes.
Proof. vm_compute. reflexivity. Qed.

Lemma normalizeHost_ToLower (h : string) : normalizeHost (ToLower h) = normalizeHost h.
Proof. unfold normalizeHost. by rewrite ToLower_idem. Qed.

Lemma normalizeHost_dot (h : string) :
  HasSuffix h "." = false -> normalizeHost (h +:+ ".") = normalizeHost h.
Proof.
  intros Hd. unfold normalizeHost. rewrite ToLower_app, TrimSuffix_app.
  rewrite TrimSuffix_id; [done|]. apply not_true_iff_false. intros E.
  apply HasSuffix_spec in E as [t Ht]. apply ToLower_dot in Ht as (s & -> & _).
  apply not_true_iff_false in Hd. apply Hd, HasSuffix_spec. by exists s.
Qed.

Section RuleFacts.
Context `{Regexp}.

(** What the entries of the setting are: trimmed, empty ones skipped. *)
Definition rule_texts (direct : string) : list string :=
  if String.eqb direct "" then []
  else filter (fun s => s <> "") (TrimSpace <$> Split "," direct).

Definition is_ip (r : ruleEntry) : Prop := ipPrefix r <> None.
#[global] Instance is_ip_dec (r : ruleEntry) : Decision (is_ip r).
Proof. unfold is_ip. destruct (ipPrefix r); [left|right]; congruence. Defined.

Lemma add_entries_ok entries rs ips out :
  add_entries entries rs ips = inr out <->
  exists l, Forall2 (fun s r => parseRuleEntry s = inr r)
                    (filter (fun s => s <> "") (TrimSpace <$> entries)) l
            /\ out = (rs ++ filter (fun r => ~ is_ip r) l, ips ++ filter is_ip l).
Proof.
  revert rs ips. induction entries as [|e es IH]; intros rs ips; cbn [add_entries fmap list_fmap].
  - split.
    + intros [= <-]. exists []. split; [constructor|]. by rewrite !app_nil_r.
    + intros (l & Hl & ->). apply Forall2_nil_inv_l in Hl as ->. by rewrite !app_nil_r.
  - destruct (String.eqb_spec (TrimSpace e) "") as [E|E].
    { rewrite IH. rewrite filter_cons_False by (rewrite E; auto). done. }
    rewrite filter_cons_True by done.
    destruct (parseRuleEntry (TrimSpace e)) as [err|r] eqn:Er.
    { split; [done|]. intros (l & Hl & _). apply Forall2_cons_inv_l in Hl as (?&?&?&?&?). congruence. }
    assert (Hstep : forall out',
      (exists l, Forall2 (fun s r => parseRuleEntry s = inr r)
                 (TrimSpace e :: filter (fun s => s <> "") (TrimSpace <$> es)) l /\
                 out' = (rs ++ filter (fun r => ~ is_ip r) l, ips ++ filter is_ip l)) <->
      (exists l, Forall2 (fun s r => parseRuleEntry s = inr r) (filter (fun s => s <> "") (TrimSpace <$> es)) l
          /\ out' = (rs ++ filter (fun r => ~ is_ip r) (r :: l), ips ++ filter is_ip (r :: l)))).
    { intros out'. split; intros (l & Hl & ->).
      - apply Forall2_cons_inv_l in Hl as (r' & l' & Hr' & Hl & ->).
        assert (r' = r) as -> by congruence. eauto.
      - exists (r :: l). split; [by constructor|done]. }
    rewrite Hstep. clear Hstep.
    destruct (ipPrefix r) eqn:Ei; rewrite IH; apply exist_proper; intros l;
      (apply and_iff_compat_l; cbn [filter list_filter]).
    + rewrite (decide_False (P := ~ is_ip r)), (decide_True (P := is_ip r)) by (unfold is_ip; rewrite Ei; intuition congruence).
      by rewrite <- (assoc_L (++)).
    + rewrite (decide_True (P := ~ is_ip r)), (decide_False (P := is_ip r)) by (unfold is_ip; rewrite Ei; intuition congruence).
      by rewrite <- (assoc_L (++)).
Qed.

Lemma add_entries_total entries rs ips :
  (exists err, add_entries entries rs ips = inl err) \/ (exists out, add_entries entries rs ips = inr out).
Proof. destruct (add_entries entries rs ips); eauto. Qed.

End RuleFacts.

(** The address the policy compares: unmapped, without zone. *)
Definition canon (a : Addr) : Addr := WithZone (Unmap a) "".

Lemma canon_idem (a : Addr) : canon (canon a) = canon a.
Proof.
  unfold canon. destruct a as [| |v z]; [done|done|]. cbn [Unmap].
  destruct (Is4In6 (Addr6 v z)) eqn:E; [done|]. cbn [WithZone Unmap].
  change (Is4In6 (Addr6 v "")) with (Is4In6 (Addr6 v z)). by rewrite E.
Qed.

Lemma canon_ok (a : Addr) : Addr_ok a -> Addr_ok (canon a).
Proof.
  unfold canon. destruct a as [| |v z]; [done|done|]. cbn [Unmap].
  destruct (Is4In6 (Addr6 v z)); [|done]. intros _. cbn [WithZone Addr_ok].
  change 0xffffffff with (Z.ones 32). rewrite Z.land_ones by lia.
  apply Z.mod_pos_bound. lia.
Qed.

Lemma canon_zone (a : Addr) : hasZone (canon a) = false.
Proof. unfold canon. destruct a as [| |v z]; [done|done|]. cbn. by destruct (_ =? _). Qed.

Section Private.
Context `{Regexp} (e : RuleEngine) (He : private e = private_prefixes).

Lemma isPrivate_canon (a : Addr) : isPrivate e (canon a) = isPrivate e a.
Proof. unfold isPrivate. fold (canon a). fold (canon (canon a)). by rewrite canon_idem. Qed.

(** Membership in the eleven prefixes is membership in the documented
    intervals. *)
Lemma isPrivate_range (a : Addr) : Addr_ok a -> isPrivate e a = private_range (canon a).
Proof.
  intros Ha. apply canon_ok in Ha. pose proof (canon_zone a) as Hz.
  unfold isPrivate. fold (canon a). rewrite He.
  destruct (canon a) as [|v|v z]; [done| |].
  - cbn [existsb private_prefixes].
    rewrite !Prefix_Contains_4 by lia. rewrite !shiftr_eqb_range by lia.
    unfold Prefix_Contains, private_range, in_range; cbn [hasZone p_ip].
    rewrite !orb_false_r. apply eq_true_iff_eq. rewrite !orb_true_iff, !andb_true_iff.
    rewrite !Z.leb_le, !Z.ltb_lt. unfold ip4. zcompute. intuition lia.
  - cbn [hasZone] in Hz. apply negb_false_iff, String.eqb_eq in Hz as ->.
    cbn [existsb private_prefixes Addr_ok] in *.
    rewrite !Prefix_Contains_6 by lia. rewrite !shiftr_eqb_range by lia.
    unfold Prefix_Contains, private_range, in_range; cbn [hasZone p_ip negb String.eqb].
    rewrite !orb_false_r. apply eq_true_iff_eq. rewrite !orb_true_iff, !andb_true_iff.
    rewrite !Z.leb_le, !Z.ltb_lt, !Z.eqb_eq. zcompute. intuition lia.
Qed.
End Private.

Lemma canon_Unmap (a : Addr) : Unmap (canon a) = canon a.
Proof.
  unfold canon. destruct a as [| |v z]; [done|done|]. cbn [Unmap].
  destruct (Is4In6 (Addr6 v z)) eqn:E; [done|]. cbn [WithZone Unmap].
  change (Is4In6 (Addr6 v "")) with (Is4In6 (Addr6 v z)). by rewrite E.
Qed.

(** The bits that [IsLinkLocalUnicast] tests, on the whole fe80::/10 range. *)
Lemma link_local_bits (w : Z) : 0xfe80 <= w < 0xfec0 -> Z.land w 0xffc0 = 0xfe80.
Proof.
  intros Hw.
  assert (Hall : Forall (fun w => Z.land w 0xffc0 = 0xfe80) (seqZ 0xfe80 64)).
  { repeat constructor. }
  rewrite Forall_forall in Hall. apply Hall, elem_of_seqZ. lia.
Qed.

Lemma dropHostLocal_elem (addrs : list Addr) (b : Addr) :
  b ∈ dropHostLocal addrs ->
  (exists a, a ∈ addrs /\ b = canon a) /\ IsLoopback b = false /\
  IsLinkLocalUnicast b = false /\ Prefix_Contains hostLocalV4 b = false /\ b <> IPv6Unspecified.
Proof.
  unfold dropHostLocal. intros (a & Ha & E)%list_elem_of_omap. fold (canon a) in E.
  split_if; simplify_eq. prop_of_bool. eauto 10.
Qed.

(** What [dropHostLocal] keeps of the private ranges is the intranet: the
    loopback, unspecified and link-local ranges are gone. *)
Lemma dropHostLocal_intranet (addrs : list Addr) (b : Addr) :
  Forall Addr_ok addrs -> b ∈ dropHostLocal addrs ->
  private_range b = true -> intranet_range b = true.
Proof.
  intros Hok Hb. apply dropHostLocal_elem in Hb as ((a & Ha & ->) & Hlo & Hll & H4 & H6).
  rewrite Forall_forall in Hok. specialize (canon_ok a (Hok a Ha)) as Hr. revert Hlo Hll.
  unfold IsLoopback, IsLinkLocalUnicast.
  destruct (canon a) as [|v|v z] eqn:Ec; [done| |].
  - cbn [Unmap]. unfold hostLocalV4 in H4. rewrite Prefix_Contains_4 in H4 by lia.
    rewrite !shiftr_eqb_range in * by lia. revert H4.
    unfold private_range, intranet_range, in_range, ip4.
    rewrite !orb_true_iff, !andb_true_iff, !andb_false_iff.
    rewrite !Z.leb_le, !Z.ltb_lt, !Z.leb_gt, !Z.ltb_ge. zcompute. intuition lia.
  - pose proof (canon_Unmap a) as Hu. pose proof (canon_zone a) as Hz. rewrite Ec in Hu, Hz.
    rewrite Hu. cbn [hasZone] in Hz. apply negb_false_iff, String.eqb_eq in Hz as ->.
    assert (v <> 0) by (intros ->; by apply H6).
    intros H1 Hll. prop_of_bool.
    assert (~ 0xfe80 * 2 ^ 112 <= v < 0xfec0 * 2 ^ 112).
    { intros Hv. apply Hll, link_local_bits.
      pose proof (shiftr_eqb_range v (Z.shiftr v 112) 112 ltac:(lia)) as Hs.
      rewrite Z.eqb_refl in Hs. symmetry in Hs. prop_of_bool. revert Hv. zcompute. nia. }
    unfold private_range, intranet_range, in_range.
    rewrite !orb_true_iff, !andb_true_iff, !Z.leb_le, !Z.ltb_lt, !Z.eqb_eq. zcompute. intuition lia.
Qed.

(** ** Properties *)

(** A regexp engine for patterns of literal characters, for the examples. *)
Definition literal_regexp : Regexp :=
  {| regexp := string; regexp_Compile := Some; MatchString p h := Contains h p |}.

Section RuleClaims.
Context `{Regexp}.

(** [NewRuleEngine] never panics. *)
Lemma NewRuleEngine_total (direct : string) : exists r, NewRuleEngine direct = Some r.
Proof. unfold NewRuleEngine. rewrite mustPrefix_ok. cbn. eauto. Qed.

Lemma NewRuleEngine_accepts (direct : string) (e : RuleEngine) :
  NewRuleEngine direct = Some (inr e) <->
  exists l, Forall2 (fun s x => parseRuleEntry s = inr x) (rule_texts direct) l /\
            e = MkEngine (filter (fun x => ~ is_ip x) l ++ filter is_ip l) private_prefixes false.
Proof.
  unfold NewRuleEngine, rule_texts. rewrite mustPrefix_ok. cbn [mbind option_bind].
  destruct (String.eqb direct "").
  - split.
    + intros [= <-]. by exists [].
    + intros (l & Hl & ->). by apply Forall2_nil_inv_l in Hl as ->.
  - pose proof (add_entries_ok (Split "," direct) [] []) as Hok.
    destruct (add_entries (Split "," direct) [] []) as [err|[rs ips]]; split.
    + done.
    + intros (l & Hl & _).
      discriminate (proj2 (Hok _) (ex_intro _ l (conj Hl eq_refl))).
    + intros [= <-]. destruct (proj1 (Hok _) eq_refl) as (l & Hl & [= -> ->]). eauto.
    + intros (l & Hl & ->). specialize (proj2 (Hok _) (ex_intro _ l (conj Hl eq_refl))).
      by intros [= -> ->].
Qed.

Lemma NewRuleEngine_private (direct : string) (e : RuleEngine) :
  NewRuleEngine direct = Some (inr e) -> private e = private_prefixes.
Proof. by intros (l & _ & ->)%NewRuleEngine_accepts. Qed.

(** [NewRuleEngine] never panics on its constant prefixes, and it accepts
    a setting exactly when every non-empty trimmed entry of it parses; the
    engine then holds the parsed rules in the order written, except that all
    ip: rules come after all rules that need no lookup. *)
Theorem NewRuleEngine_spec (direct : string) :
  exists r, NewRuleEngine direct = Some r /\
  forall e, r = inr e <->
    exists l, Forall2 (fun s x => parseRuleEntry s = inr x) (rule_texts direct) l /\
              e = MkEngine (filter (fun x => ~ is_ip x) l ++ filter is_ip l) private_prefixes false.
Proof.
  destruct (NewRuleEngine_total direct) as [r Er]. exists r. split; [done|]. intros e.
  rewrite <- NewRuleEngine_accepts, Er. split; congruence.
Qed.

(** A domain rule matches a host exactly when, ignoring letter case and
    one trailing dot on both sides, the host is the domain or a name below
    it; a name that merely ends in the same letters does not match. *)
Theorem domain_rule_matches (text : string) (r : ruleEntry) (host : string)
    (Hr : parseRuleEntry text = inr r)
    (Hkind : HasPrefix text "ip:" = false /\ HasPrefix text "re:" = false) :
  matches_name r (normalizeHost host) = true <->
  normalizeHost host = normalizeHost (TrimPrefix text ".") \/
  exists sub, normalizeHost host = sub +:+ "." +:+ normalizeHost (TrimPrefix text ".").
Proof.
  destruct Hkind as [Hip Hre]. unfold HasPrefix in *. unfold parseRuleEntry in Hr.
  repeat split_match; simplify_eq. unfold matches_name. cbn [re domain].
  rewrite Heqb, orb_true_iff, String.eqb_eq, HasSuffix_spec. done.
Qed.

(** C32: the private test is exact: an address counts as private just when,
    after dropping an IPv4-in-IPv6 mapping and a zone, it lies in one of the
    documented IPv4 or IPv6 intervals. *)
Theorem isPrivate_exact (direct : string) (e : RuleEngine) (a : Addr)
    (He : NewRuleEngine direct = Some (inr e)) (Ha : Addr_ok a) :
  isPrivate e a = private_range (canon a).
Proof. apply isPrivate_range; [by eapply NewRuleEngine_private | done]. Qed.
End RuleClaims.

Lemma domain_rule_matches_witness :
  matches_name (H := literal_regexp) (MkRule ".Example.COM." None None "example.com")
    (normalizeHost "API.example.com.") = true.
Proof.
  apply (domain_rule_matches (H := literal_regexp) ".Example.COM.").
  - reflexivity.
  - split; reflexivity.
  - right. exists "api". reflexivity.
Defined.

Lemma isPrivate_exact_witness :
  isPrivate (H := literal_regexp) (MkEngine [] private_prefixes false)
    (Addr6 (0xffff7f000001) "") = true.
Proof.
  rewrite (isPrivate_exact (H := literal_regexp) "").
  - reflexivity.
  - vm_compute. reflexivity.
  - vm_compute. split; [discriminate | reflexivity].
Defined.
