(* ===== verification/World.v ===== *)
(** The effects the program performs on the outside: the clock, the
    resolvers, the tunnel state, the dials and the order in which Go ranges
    over a map.  They are the operations of a class over an abstract world
    state, so every theorem holds for every behaviour of the network and of
    the runtime.  Each network operation is recorded as an event, with what
    came of it. *)

From S2P Require Import Prelude GoStrings NetIP Errors.

(** ** Replies of the network *)

(** What one lookup of Go's resolver on a DNS server yields: the calls of its
    Dial callback, each of which asks for a channel to the server, with their
    success, and the addresses or the error. *)
Record resolverReply := MkResolverReply {
  rr_dials : list bool;
  rr_result : error + list (list ascii) }.
(** The flag [opened] of dnsServerLookup. *)
Definition rr_opened (r : resolverReply) : bool := existsb (fun b => b) (rr_dials r).

(** The decoded dns-json body of a DoH answer. *)
Record dohResponse := MkDohResponse { Status : Z; Answer : list (Z * string) }.
(** One HTTP exchange: how often the transport dialled the host of the URL (a
    kept-alive connection needs no dial), the addresses it dialled because the
    server redirected the request (http.Client follows redirects), whether a
    connection was got, and either the transport error or the status code with
    the decoded (or undecodable) body. *)
Record httpReply := MkHttpReply {
  hr_dials : nat;
  hr_redirects : list string;
  hr_connected : bool;
  hr_result : error + (Z * (error + dohResponse)) }.

(** What a tunnel dial carries on its context for the connection tracker
    (conntrack.go: [ConnMeta], [ctxWithConnMeta]). *)
Record ConnMeta := MkMeta { m_Proto : string; m_Src : string; m_Host : string; m_DstIP : string }.

(** ** The world *)

(** A context carries the deadline, if any. *)
Abbreviation Ctx := (option Z) (only parsing).

Class World (W : Type) : Type := {
  w_now : W -> Z * W;
  w_resolver : string -> string -> Ctx -> W -> resolverReply * W;
  w_http : string -> Ctx -> W -> httpReply * W;
  w_local : string -> Ctx -> W -> (error + list (list ascii)) * W;
  w_connected : W -> bool * W;
  w_dialTunnel : ConnMeta -> string -> W -> (error + Z) * W;
  w_dialDirect : string -> string -> W -> (error + Z) * W;
  w_range : list string -> W -> list string * W;
  (** the language specification: [range] visits every key once, in any order *)
  w_range_perm : forall keys w, visits (fst (w_range keys w)) keys }.

(** ** Events *)

(** What a tunnel resolver was asked with, and what came back. *)
Inductive upstreamReply : Type := ByResolver (r : resolverReply) | ByHTTP (r : httpReply).

Inductive event : Type :=
| EvUpstream (name host : string) (reply : upstreamReply)     (* a tunnel resolver is asked *)
| EvDialResolver (addr : string)                              (* for that, the VPS is asked to dial it *)
| EvDialRedirect (addr : string)                              (* the VPS is asked to dial where a DoH reply redirects *)
| EvLocal (host : string)                                     (* the local resolver is asked *)
| EvDialTunnel (addr : string) (r : error + Z)                (* the VPS is asked to dial for a client *)
| EvDialDirect (network addr : string) (r : error + Z).       (* this machine dials *)

Definition is_local (ev : event) : Prop := match ev with EvLocal _ => True | _ => False end.
Definition is_upstream (ev : event) : Prop :=
  match ev with EvUpstream _ _ _ | EvDialResolver _ | EvDialRedirect _ => True | _ => False end.
Definition is_dns (ev : event) : Prop := is_local ev \/ is_upstream ev.
(** The addresses the VPS was asked to dial for clients. *)
Definition dialed (tr : list event) : list string :=
  omap (fun ev => match ev with EvDialTunnel a _ => Some a | _ => None end) tr.

(** ** A scripted world

    For the examples: a clock that advances by one nanosecond per reading and
    queues of replies; an exhausted queue answers with a timeout. *)

Record script := MkScript {
  sc_clock : Z;
  sc_up : bool;
  sc_dns : list resolverReply;
  sc_http : list httpReply;
  sc_local : list (error + list (list ascii));
  sc_tunnel : list (error + Z);
  sc_direct : list (error + Z) }.

Definition timeout_error : error := net_Error "i/o timeout" true.
Definition pop {A : Type} (d : A) (l : list A) : A * list A :=
  match l with [] => (d, []) | a :: l' => (a, l') end.

#[global] Program Instance script_world : World script := {
  w_now w := (sc_clock w, MkScript (sc_clock w + 1) (sc_up w) (sc_dns w) (sc_http w) (sc_local w)
                            (sc_tunnel w) (sc_direct w));
  w_resolver _ _ _ w :=
    let '(r, l) := pop (MkResolverReply [true] (inl timeout_error)) (sc_dns w) in
    (r, MkScript (sc_clock w) (sc_up w) l (sc_http w) (sc_local w) (sc_tunnel w) (sc_direct w));
  w_http _ _ w :=
    let '(r, l) := pop (MkHttpReply 1 [] true (inl timeout_error)) (sc_http w) in
    (r, MkScript (sc_clock w) (sc_up w) (sc_dns w) l (sc_local w) (sc_tunnel w) (sc_direct w));
  w_local _ _ w :=
    let '(r, l) := pop (inl timeout_error) (sc_local w) in
    (r, MkScript (sc_clock w) (sc_up w) (sc_dns w) (sc_http w) l (sc_tunnel w) (sc_direct w));
  w_connected w := (sc_up w, w);
  w_dialTunnel _ _ w :=
    let '(r, l) := pop (inl timeout_error) (sc_tunnel w) in
    (r, MkScript (sc_clock w) (sc_up w) (sc_dns w) (sc_http w) (sc_local w) l (sc_direct w));
  w_dialDirect _ _ w :=
    let '(r, l) := pop (inl timeout_error) (sc_direct w) in
    (r, MkScript (sc_clock w) (sc_up w) (sc_dns w) (sc_http w) (sc_local w) (sc_tunnel w) l);
  w_range keys w := (keys, w) }.
Next Obligation. done. Qed.

(** A world in which every resolver accepts the channel and stays silent. *)
#[global] Program Instance silent_world : World unit := {
  w_now w := (1000 * Second, w);
  w_resolver _ _ _ w := (MkResolverReply [true] (inl timeout_error), w);
  w_http _ _ w := (MkHttpReply 1 [] true (inl timeout_error), w);
  w_local _ _ w := (inl timeout_error, w);
  w_connected w := (true, w);
  w_dialTunnel _ _ w := (inl timeout_error, w);
  w_dialDirect _ _ w := (inl timeout_error, w);
  w_range keys w := (keys, w) }.
Next Obligation. done. Qed.
