(* ===== verification/Prog.v ===== *)
(** Programs of atomic sections.

    Where goroutines share the state, the unit of interleaving is not the
    function call but the section a mutex or an atomic operation protects.
    [prog S A] is a piece of sequential code cut at those points: a tree of
    atomic sections over the state [S].  [run] executes it without
    interference, which is how the sequential models read; a machine that
    interleaves goroutines executes one section at a time.

    [guarantees I R Q p] bounds what a program does to the state at each
    section, whatever other goroutines did before it within the assumption
    [I], and what it returns. *)

From S2P Require Import Prelude.

Inductive prog (S A : Type) : Type :=
| Ret (a : A)
| Act {X : Type} (op : M S X) (k : X -> prog S A).
Arguments Ret {S A} a.
Arguments Act {S A X} op k.

Fixpoint prog_bind {S A B : Type} (f : A -> prog S B) (p : prog S A) : prog S B :=
  match p with
  | Ret a => f a
  | Act op k => Act op (fun x => prog_bind f (k x))
  end.
#[global] Instance prog_mret (S : Type) : MRet (prog S) := fun A a => Ret a.
#[global] Instance prog_mbind (S : Type) : MBind (prog S) := fun A B f p => prog_bind f p.
Definition atomic {S A : Type} (op : M S A) : prog S A := Act op Ret.

(** Without interference. *)
Fixpoint run {S A : Type} (p : prog S A) : M S A :=
  match p with
  | Ret a => mret a
  | Act op k => fun s => run (k (fst (op s))) (snd (op s))
  end.

Section Prog.
Context {S A B : Type}.
Implicit Types (p : prog S A) (s : S).

Lemma run_bind p (f : A -> prog S B) s : run (p ≫= f) s = run (f (fst (run p s))) (snd (run p s)).
Proof.
  unfold mbind, prog_mbind. revert s. induction p as [a|X op k IH]; intros s; [done|].
  cbn [prog_bind run]. apply IH.
Qed.
Lemma run_atomic (op : M S A) s : run (atomic op) s = op s.
Proof. cbn. unfold mret, M_ret. by destruct (op s). Qed.
Lemma run_act {X} (op : M S X) (k : X -> prog S A) s : run (Act op k) s = run (k (fst (op s))) (snd (op s)).
Proof. done. Qed.
End Prog.

(** ** Guarantees

    [I] is what a section may assume of the state it finds, [R] relates the
    state before a section to the state after. *)

Section Guarantee.
Context {S : Type} (I : S -> Prop) (R : S -> S -> Prop).

Fixpoint guarantees {A : Type} (Q : A -> Prop) (p : prog S A) : Prop :=
  match p with
  | Ret a => Q a
  | Act op k => forall s, I s -> R s (snd (op s)) /\ guarantees Q (k (fst (op s)))
  end.

Lemma guarantees_atomic {A} (Q : A -> Prop) (op : M S A) :
  keeps R op -> returns Q op -> guarantees Q (atomic op).
Proof. intros Hk Hr s _. split; [apply Hk|apply Hr]. Qed.

Lemma guarantees_any {A} (op : M S A) : keeps R op -> guarantees (fun _ => True) (atomic op).
Proof. intros Hk. by apply guarantees_atomic. Qed.

Lemma guarantees_bind {A B} (P : A -> Prop) (Q : B -> Prop) (p : prog S A) (f : A -> prog S B) :
  guarantees P p -> (forall a, P a -> guarantees Q (f a)) -> guarantees Q (p ≫= f).
Proof.
  intros Hp Hf. unfold mbind, prog_mbind. induction p as [a|X op k IH]; cbn in *; [by apply Hf|].
  intros s Hs. destruct (Hp s Hs) as [HR Hk]. auto.
Qed.

(** A section followed by the rest, with and without a fact on its result. *)
Lemma guarantees_then {A B} (P : A -> Prop) (Q : B -> Prop) (op : M S A) (f : A -> prog S B) :
  keeps R op -> returns P op -> (forall a, P a -> guarantees Q (f a)) -> guarantees Q (atomic op ≫= f).
Proof. intros Hk Hr Hf. eapply guarantees_bind; [by apply guarantees_atomic|done]. Qed.
Lemma guarantees_seq {A B} (Q : B -> Prop) (op : M S A) (f : A -> prog S B) :
  keeps R op -> (forall a, guarantees Q (f a)) -> guarantees Q (atomic op ≫= f).
Proof. intros Hk Hf. eapply guarantees_then; [done|apply returns_any|auto]. Qed.
(** A read, about which the assumption tells something. *)
Lemma guarantees_read {A B} `{!Reflexive R} (Q : B -> Prop) (get : S -> A) (f : A -> prog S B) :
  (forall s, I s -> guarantees Q (f (get s))) -> guarantees Q (atomic (gets get) ≫= f).
Proof. intros Hf s Hs. split; [cbn; reflexivity|]. apply (Hf s Hs). Qed.
End Guarantee.

(** Walk through a program whose result is not constrained. *)
Ltac gwalk :=
  repeat first
    [ progress cbn beta match zeta
    | done
    | solve [auto with gate]
    | eapply guarantees_bind; [solve [eauto with gate]|intros ? _]
    | apply guarantees_seq; [solve [auto with gate]|intros ?]
    | match goal with
      | |- guarantees _ _ _ (match ?x with _ => _ end) => destruct x eqn:?
      | |- guarantees _ _ _ (atomic _) => apply guarantees_any
      end ].

(** ** Code that calls another component

    A task is cut at its own sections and at the calls it makes to a
    component that runs concurrently; [run_task] executes it with a
    sequential reading of the calls. *)

Inductive task (S Q R A : Type) : Type :=
| TRet (a : A)
| TAct {X : Type} (op : M S X) (k : X -> task S Q R A)
| TCall (q : Q) (k : R -> task S Q R A).
Arguments TRet {S Q R A} a.
Arguments TAct {S Q R A X} op k.
Arguments TCall {S Q R A} q k.

Fixpoint task_bind {S Q R A B : Type} (f : A -> task S Q R B) (p : task S Q R A) : task S Q R B :=
  match p with
  | TRet a => f a
  | TAct op k => TAct op (fun x => task_bind f (k x))
  | TCall q k => TCall q (fun r => task_bind f (k r))
  end.
#[global] Instance task_mret (S Q R : Type) : MRet (task S Q R) := fun A a => TRet a.
#[global] Instance task_mbind (S Q R : Type) : MBind (task S Q R) := fun A B f p => task_bind f p.
Definition section {S Q R A : Type} (op : M S A) : task S Q R A := TAct op TRet.
Definition invoke {S Q R : Type} (q : Q) : task S Q R R := TCall q TRet.

Fixpoint run_task {S Q R A : Type} (calls : Q -> M S R) (p : task S Q R A) : M S A :=
  match p with
  | TRet a => mret a
  | TAct op k => fun s => run_task calls (k (fst (op s))) (snd (op s))
  | TCall q k => fun s => run_task calls (k (fst (calls q s))) (snd (calls q s))
  end.

Section Task.
Context {S Q R A B : Type} (calls : Q -> M S R).

Lemma run_task_bind (p : task S Q R A) (f : A -> task S Q R B) s :
  run_task calls (p ≫= f) s = run_task calls (f (fst (run_task calls p s))) (snd (run_task calls p s)).
Proof.
  unfold mbind, task_mbind. revert s.
  induction p as [a|X op k IH|q k IH]; intros s; [done|apply IH|apply IH].
Qed.
Lemma run_section (op : M S A) s : run_task calls (section op) s = op s.
Proof. cbn. unfold mret, M_ret. by destruct (op s). Qed.
Lemma run_invoke q s : run_task calls (invoke q) s = calls q s.
Proof. cbn. unfold mret, M_ret. by destruct (calls q s). Qed.
End Task.

(** What a task guarantees when the replies to its calls satisfy [Rep]. *)
Section TaskGuarantee.
Context {S Q R : Type} (G : S -> S -> Prop) (Rep : Q -> R -> Prop).

Fixpoint task_ok {A : Type} (P : A -> Prop) (p : task S Q R A) : Prop :=
  match p with
  | TRet a => P a
  | TAct op k => forall s, G s (snd (op s)) /\ task_ok P (k (fst (op s)))
  | TCall q k => forall r, Rep q r -> task_ok P (k r)
  end.

Lemma task_ok_bind {A B} (P : A -> Prop) (T : B -> Prop) (p : task S Q R A) (f : A -> task S Q R B) :
  task_ok P p -> (forall a, P a -> task_ok T (f a)) -> task_ok T (p ≫= f).
Proof.
  intros Hp Hf. unfold mbind, task_mbind. induction p as [a|X op k IH|q k IH]; cbn in *; [by apply Hf| |].
  - intros s. destruct (Hp s) as [HG Hk]. auto.
  - auto.
Qed.
Lemma task_ok_section {A B} (P : A -> Prop) (T : B -> Prop) (op : M S A) (f : A -> task S Q R B) :
  keeps G op -> returns P op -> (forall a, P a -> task_ok T (f a)) -> task_ok T (section op ≫= f).
Proof. intros Hk Hr Hf s. cbn. split; [apply Hk|apply Hf, Hr]. Qed.
Lemma task_ok_call {B} (T : B -> Prop) q (f : R -> task S Q R B) :
  (forall r, Rep q r -> task_ok T (f r)) -> task_ok T (invoke q ≫= f).
Proof. intros Hf r Hr. by apply Hf. Qed.
End TaskGuarantee.

(** ** Threads that come to an end

    If every thread decreases in a well-founded order at each of its steps,
    a pool of threads cannot run for ever. *)

Definition pool_lt {T : Type} (lt : T -> T -> Prop) (l' l : list T) : Prop :=
  exists i t t', l !! i = Some t /\ lt t' t /\ l' = <[i := t']> l.

Lemma pool_lt_cons {T} (lt : T -> T -> Prop) (l' : list T) t l :
  pool_lt lt l' (t :: l) ->
  (exists t', lt t' t /\ l' = t' :: l) \/ (exists l0, pool_lt lt l0 l /\ l' = t :: l0).
Proof.
  intros ([|i] & x & x' & Hl & Hlt & ->); cbn in *; simplify_eq; [left; eauto|right].
  exists (<[i:=x']> l). split; [|done]. by exists i, x, x'.
Qed.

Lemma pool_lt_acc {T} (lt : T -> T -> Prop) (l : list T) :
  Forall (Acc lt) l -> Acc (pool_lt lt) l.
Proof.
  induction 1 as [|t l Ht _ IHl].
  - constructor. intros l' (i & t & t' & Hl & _). by rewrite lookup_nil in Hl.
  - revert l IHl. induction Ht as [t _ IHt]. intros l Hl. induction Hl as [l Hl IHl].
    constructor. intros l' [(t' & Hlt & ->)|(l0 & Hl0 & ->)]%pool_lt_cons; [|by apply IHl].
    apply IHt; [done|]. by constructor.
Qed.
