(* ===== verification/Dns.v ===== *)
(** dns.go: the resolver cache, the tunnel resolvers with their pauses, the
    lookup policy and its status view.

    The state is the [dnsCache] struct; upstreams are pointers in the source
    and indices into [tunnel] here.  A mutex-protected section is one state
    update.  This file runs one call from its start to its end; the
    calls that share a lookup through singleflight are in Flight.v, which cuts
    the same code at its critical sections and proves that a call alone is the
    function given here; the interleaving of lookups on one paused resolver is
    the subject of Probe.v. *)

From S2P Require Import Prelude GoStrings NetIP Errors Rules World.

(** ** Constants *)

Definition dnsCacheMaxSize : Z := 1000.
Definition dnsCacheTTL : Z := 30 * Second.
Definition dnsNegativeTTL : Z := 10 * Second.
Definition tunnelLookupTimeout : Z := 3 * Second.
Definition upstreamPause : Z := 10 * Second.
Definition dnsDegradedWindow : Z := Minute.
(** The bound of a shared lookup in [cachedLookup]. *)
Definition lookupTimeout : Z := 5 * Second.

(** ** State *)

Record cacheEntry := MkEntry {
  addrs : list Addr;
  expires : Z;
  neg : bool;
  localDirect : bool }.

Inductive lookupFn : Type :=
| dohLookupFn                          (* e.dns.dohLookup *)
| dnsServerLookupFn (server : string). (* dnsServerLookup(d, server) *)

Record upstream := MkUpstream {
  name : string;
  lookupBy : lookupFn;
  pausedUntil : Z;
  probing : bool;
  ok : Z;
  fail : Z;
  lastOKAt : Z;
  lastRTT : Z;
  lastFailed : bool;
  lastErr : string }.

Definition new_upstream (name : string) (l : lookupFn) : upstream :=
  MkUpstream name l time_zero false 0 0 time_zero 0 false "".

Record dnsCache := MkCache {
  cache : gmap string cacheEntry;
  ttl : Z;
  negativeTTL : Z;
  done : bool;                    (* the done channel is closed *)
  lookups : Z;
  dohHost : string;
  dohClient : bool;               (* non-nil *)
  tunnel : list upstream;
  localOnNXDomain : bool;
  fallbacks : Z;
  lastFallback : Z }.

(** The dnsCache that [NewRuleEngine] builds. *)
Definition new_dnsCache : dnsCache :=
  MkCache ∅ dnsCacheTTL dnsNegativeTTL false 0 "" false [] false 0 0.

Record lookupResult := MkResult {
  r_addrs : list Addr;
  r_authoritative : bool;
  r_localDirect : bool }.
Definition no_result : lookupResult := MkResult [] false false.

(** Field updates. *)
Definition with_cache (m : gmap string cacheEntry) (c : dnsCache) : dnsCache :=
  MkCache m (ttl c) (negativeTTL c) (done c) (lookups c) (dohHost c) (dohClient c) (tunnel c)
    (localOnNXDomain c) (fallbacks c) (lastFallback c).
Definition with_tunnel (us : list upstream) (c : dnsCache) : dnsCache :=
  MkCache (cache c) (ttl c) (negativeTTL c) (done c) (lookups c) (dohHost c) (dohClient c) us
    (localOnNXDomain c) (fallbacks c) (lastFallback c).
Definition count_lookup (c : dnsCache) : dnsCache :=
  MkCache (cache c) (ttl c) (negativeTTL c) (done c) (wrap64 (lookups c + 1)) (dohHost c)
    (dohClient c) (tunnel c) (localOnNXDomain c) (fallbacks c) (lastFallback c).
Definition count_fallback (at_ns : Z) (c : dnsCache) : dnsCache :=
  MkCache (cache c) (ttl c) (negativeTTL c) (done c) (lookups c) (dohHost c) (dohClient c)
    (tunnel c) (localOnNXDomain c) (wrap64 (fallbacks c + 1)) (wrap64 at_ns).
Definition set_probing (b : bool) (u : upstream) : upstream :=
  MkUpstream (name u) (lookupBy u) (pausedUntil u) b (ok u) (fail u) (lastOKAt u) (lastRTT u)
    (lastFailed u) (lastErr u).

(** ** Configuration *)

(** [SetDOH] and [SetTunnelDNS]. *)
Definition SetDOH (host : string) (c : dnsCache) : dnsCache :=
  MkCache (cache c) (ttl c) (negativeTTL c) (done c) (lookups c) host true
    [new_upstream host dohLookupFn] (localOnNXDomain c) (fallbacks c) (lastFallback c).
Definition upstream_name (server : string) : string :=
  match SplitHostPort server with
  | Some (host, port) => if String.eqb port "53" then host else server
  | None => server
  end.
Definition SetTunnelDNS (servers : list string) (c : dnsCache) : dnsCache :=
  with_tunnel ((fun s => new_upstream (upstream_name s) (dnsServerLookupFn s)) <$> servers) c.

(** ** One resolver *)

(** [upstream.claim]. *)
Definition claim (now : Z) (u : upstream) : bool * upstream :=
  if IsZero (pausedUntil u) then (true, u)
  else if probing u || Before now (pausedUntil u) then (false, u)
  else (true, set_probing true u).

(** The state changes of [upstreamAnswered] and [upstreamFailed]. *)
Definition answered (now rtt : Z) (u : upstream) : upstream :=
  MkUpstream (name u) (lookupBy u) time_zero (probing u) (wrap64 (ok u + 1)) (fail u) now rtt
    false (lastErr u).
Definition failed (reachable : bool) (now : Z) (err : error) (u : upstream) : upstream :=
  MkUpstream (name u) (lookupBy u)
    (if reachable then time_zero else time_Add now upstreamPause)
    (probing u) (ok u) (wrap64 (fail u + 1)) (lastOKAt u) (lastRTT u) true (Error err).

(** [upstream.status]. *)
Record dnsServerStatus := MkServerStatus {
  st_Name : string; st_OK : Z; st_Fail : Z; st_RTTMs : Z; st_LastOKAt : Z;
  st_LastFailed : bool; st_Paused : bool; st_Error : string }.
Definition upstream_status (now : Z) (u : upstream) : dnsServerStatus :=
  MkServerStatus (name u) (ok u) (fail u) (Milliseconds (lastRTT u))
    (if IsZero (lastOKAt u) then 0 else Unix (lastOKAt u))
    (lastFailed u) (After (pausedUntil u) now) (lastErr u).

(** ** Effects *)

Section Ops.
Context {W : Type} `{World W}.

Record Sys := MkSys { s_dns : dnsCache; s_world : W; s_trace : list event }.

Definition on_dns (f : dnsCache -> dnsCache) : M Sys unit :=
  modify (fun s => MkSys (f (s_dns s)) (s_world s) (s_trace s)).
(** Run a world operation, recording its events, which carry its result. *)
Definition perform {A : Type} (evs : A -> list event) (op : W -> A * W) : M Sys A :=
  fun s => let '(a, w) := op (s_world s) in (a, MkSys (s_dns s) w (s_trace s ++ evs a)).
Definition silent {A : Type} (a : A) : list event := [].

Definition time_now : M Sys Z := perform silent w_now.
Definition tunnelUp : M Sys bool := perform silent w_connected.
Definition range_keys (keys : list string) : M Sys (list string) := perform silent (w_range keys).
(** [context.WithTimeout]: the earlier of the parent's deadline and now + d. *)
Definition WithTimeout (ctx : Ctx) (d : Z) : M Sys Ctx :=
  now ← time_now;
  mret (Some (match ctx with
              | None => time_Add now d
              | Some dl => Z.min dl (time_Add now d)
              end)).

Definition upd_upstream (i : nat) (f : upstream -> upstream) : M Sys unit :=
  on_dns (fun c => with_tunnel (alter f i (tunnel c)) c).

(** ** The lookups of a resolver *)

(** [toNetip]. *)
Definition toNetip (ips : list (list ascii)) : list Addr :=
  omap (fun b => Unmap <$> AddrFromSlice b) ips.

(** The dials of one lookup, all to the server, and the lookup itself. *)
Definition dns_exchange (uname server host : string) (reply : resolverReply) : list event :=
  replicate (length (rr_dials reply)) (EvDialResolver server) ++ [EvUpstream uname host (ByResolver reply)].
(** [dnsServerLookup]: the host is sent as a rooted name. *)
Definition dnsServerLookup (uname server : string) (ctx : Ctx) (host : string)
    : M Sys (list Addr * option error) :=
  reply ← perform (dns_exchange uname server host) (w_resolver server (host +:+ ".") ctx);
  mret (match rr_result reply with
        | inl err =>
            match errors_As as_net_DNSError err with
            | None => ([], Some err)
            | Some (text, notFound) =>
                if notFound : bool then ([], Some errNotFound)
                else if negb (rr_opened reply)
                then ([], Some (Errorf (Error errUnreachable +:+ ": " +:+ text) (Some errUnreachable)))
                else ([], Some (Errorf text None))
            end
        | inr ips => (toNetip ips, None)
        end).

(** [url.QueryEscape] of a host name. *)
Definition query_keep (a : ascii) : bool :=
  is_digit a || is_upper a || ((97 <=? byte_of a) && (byte_of a <=? 122)) ||
  existsb (fun c => Ascii.eqb a c) ["-"; "_"; "."; "~"]%char.
Definition hex_upper (d : Z) : ascii :=
  if d <? 10 then ascii_of_N (Z.to_N (48 + d)) else ascii_of_N (Z.to_N (55 + d)).
Fixpoint QueryEscape (s : string) : string :=
  match s with
  | "" => ""
  | String a s' =>
      (if query_keep a then String a ""
       else if Ascii.eqb a " " then "+"
       else String "%" (String (hex_upper (byte_of a / 16)) (String (hex_upper (byte_of a mod 16)) "")))
      +:+ QueryEscape s'
  end.

Record dohQuery := MkDohQuery { dq_name : string; dq_want : Z }.
Definition dohQueryA : dohQuery := MkDohQuery "A" 1.
Definition dohQueryAAAA : dohQuery := MkDohQuery "AAAA" 28.

(** The address a URL's host is dialled at, port 443 unless it names one. *)
Definition doh_addr (endpoint : string) : string :=
  match SplitHostPort endpoint with
  | Some (h, p) => JoinHostPort h p
  | None => JoinHostPort endpoint "443"
  end.
(** The dials of one exchange and the exchange itself. *)
Definition doh_exchange (uname endpoint host : string) (reply : httpReply) : list event :=
  replicate (hr_dials reply) (EvDialResolver (doh_addr endpoint)) ++
  (EvDialRedirect <$> hr_redirects reply) ++ [EvUpstream uname host (ByHTTP reply)].
(** [dohJSONQuery]; the flag tells whether the exchange got a connection.  A
    URL that [http.NewRequest] refuses is an exchange that failed without one. *)
Definition dohJSONQuery (ctx : Ctx) (uname endpoint host : string) (q : dohQuery)
    : M Sys (bool * (list Addr * option error)) :=
  let u := "https://" +:+ endpoint +:+ "/dns-query?" +:+
           "name=" +:+ QueryEscape host +:+ "&type=" +:+ QueryEscape (dq_name q) in
  reply ← perform (doh_exchange uname endpoint host) (w_http u ctx);
  mret (hr_connected reply,
        match hr_result reply with
        | inl err => ([], Some err)
        | inr (_, inl err) => ([], Some err)
        | inr (code, inr d) =>
            if Status d =? 3 then ([], Some errNotFound)
            else if negb (code =? 200) || negb (Status d =? 0)
            then ([], Some (Errorf ("doh: status " +:+ Itoa code +:+ "/" +:+ Itoa (Status d)) None))
            else (omap (fun '(ty, data) =>
                          if ty =? dq_want q then Unmap <$> ParseAddr data else None) (Answer d),
                  None)
        end).

(** [dohLookup]: A then AAAA, the first error ends it. *)
Fixpoint doh_loop (ctx : Ctx) (uname endpoint host : string) (connected : bool)
    (qs : list dohQuery) (out : list Addr) : M Sys (list Addr * option error) :=
  match qs with
  | [] => mret (if bool_decide (out = []) then ([], Some errNotFound) else (out, None))
  | q :: qs' =>
      '(got, (addrs, err)) ← dohJSONQuery ctx uname endpoint host q;
      let connected := connected || got in
      match err with
      | Some e =>
          mret ([], Some (if negb connected && negb (errors_Is e errNotFound)
                          then Errorf (Error errUnreachable +:+ ": " +:+ Error e) (Some errUnreachable)
                          else e))
      | None => doh_loop ctx uname endpoint host connected qs' (out ++ addrs)
      end
  end.
Definition dohLookup (ctx : Ctx) (uname host : string) : M Sys (list Addr * option error) :=
  endpoint ← gets (fun s => dohHost (s_dns s));
  doh_loop ctx uname endpoint host false [dohQueryA; dohQueryAAAA] [].

(** [u.lookup(ctx, host)]. *)
Definition upstream_lookup (u : upstream) (ctx : Ctx) (host : string)
    : M Sys (list Addr * option error) :=
  match lookupBy u with
  | dohLookupFn => dohLookup ctx (name u) host
  | dnsServerLookupFn server => dnsServerLookup (name u) server ctx host
  end.

(** [lookupLocal]. *)
Definition lookupLocal (ctx : Ctx) (host : string) : M Sys (list Addr * option error) :=
  r ← perform (fun _ => [EvLocal host]) (w_local host ctx);
  mret (match r with
        | inl err => ([], Some err)
        | inr ips => (toNetip ips, None)
        end).

(** ** The lookup policy *)

(** The claim loop of [lookup]: indices of the resolvers that may be used. *)
Fixpoint claim_all (now : Z) (i : nat) (us : list upstream) : list nat * list upstream :=
  match us with
  | [] => ([], [])
  | u :: us' =>
      let '(b, u') := claim now u in
      let '(l, us'') := claim_all now (S i) us' in
      (if b : bool then i :: l else l, u' :: us'')
  end.
Definition claim_upstreams (now : Z) : M Sys (list nat) :=
  fun s => let '(l, us) := claim_all now 0 (tunnel (s_dns s)) in
           (l, MkSys (with_tunnel us (s_dns s)) (s_world s) (s_trace s)).

(** [releaseProbes]. *)
Definition releaseProbes (claimed : list nat) : M Sys unit :=
  on_dns (fun c => with_tunnel (foldr (fun i us => alter (set_probing false) i us) (tunnel c) claimed) c).

(** [notFound]. *)
Definition notFound (ctx : Ctx) (host : string) : M Sys (lookupResult * option error) :=
  onNX ← gets (fun s => localOnNXDomain (s_dns s));
  if onNX : bool then
    '(addrs, err) ← lookupLocal ctx host;
    mret (match err with
          | None => (MkResult addrs true true, None)
          | Some _ => (MkResult [] true false, Some errNotFound)
          end)
  else mret (MkResult [] true false, Some errNotFound).

(** [upstreamAnswered] and [upstreamFailed]. *)
Definition upstreamAnswered (i : nat) (rtt : Z) : M Sys unit :=
  now ← time_now; upd_upstream i (answered now rtt).
Definition upstreamFailed (i : nat) (err : error) : M Sys unit :=
  up ← tunnelUp;
  if up : bool then
    if errors_Is err errUnreachable
    then now ← time_now; upd_upstream i (failed false now err)
    else upd_upstream i (failed true 0 err)
  else mret tt.

(** The end of [lookup]: no tunnel resolver answered. *)
Definition lookup_fallback (ctx : Ctx) (host : string) : M Sys (lookupResult * option error) :=
  now ← time_now;
  _ ← on_dns (count_fallback now);
  '(addrs, err) ← lookupLocal ctx host;
  onNX ← gets (fun s => localOnNXDomain (s_dns s));
  if onNX : bool then
    up ← tunnelUp; mret (MkResult addrs false (negb up), err)
  else mret (MkResult addrs false false, err).

(** The loop of [lookup] over the claimed resolvers; [length active] is what
    is left of [len(active)-i]. *)
Fixpoint lookup_loop (ctx tunnelCtx : Ctx) (deadline : Z) (host : string) (active : list nat)
    : M Sys (lookupResult * option error) :=
  match active with
  | [] => lookup_fallback ctx host
  | i :: rest =>
      now ← time_now;
      uctx ← WithTimeout tunnelCtx (Z.quot (time_Sub deadline now) (Z.of_nat (length active)));
      start ← time_now;
      us ← gets (fun s => tunnel (s_dns s));
      match us !! i with
      | None => lookup_loop ctx tunnelCtx deadline host rest (* claimed indices are in range *)
      | Some u =>
          '(addrs, err) ← upstream_lookup u uctx host;
          finish ← time_now;
          let rtt := time_Sub finish start in
          match err with
          | None => _ ← upstreamAnswered i rtt; mret (MkResult addrs true false, None)
          | Some e =>
              if errors_Is e errNotFound
              then _ ← upstreamAnswered i rtt; notFound ctx host
              else _ ← upstreamFailed i e; lookup_loop ctx tunnelCtx deadline host rest
          end
      end
  end.
Definition lookup (ctx : Ctx) (host : string) : M Sys (lookupResult * option error) :=
  now ← time_now;
  active ← claim_upstreams now;
  tunnelCtx ← WithTimeout ctx tunnelLookupTimeout;
  let deadline := default time_zero tunnelCtx in
  r ← lookup_loop ctx tunnelCtx deadline host active;
  _ ← releaseProbes active;
  mret r.

(** ** The cache *)

(** [store]: the victim is the entry with the earliest expiry, found by the
    loop over the map with "" as the initial key. *)
Definition oldest (m : gmap string cacheEntry) (order : list string) : string * Z :=
  foldl (fun '(oldestKey, oldestTime) k =>
           match m !! k with
           | None => (oldestKey, oldestTime)
           | Some v =>
               if String.eqb oldestKey "" || Before (expires v) oldestTime
               then (k, expires v) else (oldestKey, oldestTime)
           end) ("", time_zero) order.
Definition evict (m : gmap string cacheEntry) (order : list string) : gmap string cacheEntry :=
  let k := fst (oldest m order) in
  if String.eqb k "" then m else delete k m.
Definition store (key : string) (entry : cacheEntry) : M Sys unit :=
  m ← gets (fun s => cache (s_dns s));
  if dnsCacheMaxSize <=? Z.of_nat (size m) then
    order ← range_keys (fst <$> map_to_list m);
    on_dns (fun c => with_cache (<[key := entry]> (evict (cache c) order)) c)
  else on_dns (fun c => with_cache (<[key := entry]> (cache c)) c).

(** [purge]. *)
Definition purge_entries (now : Z) (m : gmap string cacheEntry) : gmap string cacheEntry :=
  filter (fun kv : string * cacheEntry => After now (expires (snd kv)) = false) m.
Definition purge : M Sys unit :=
  now ← time_now; on_dns (fun c => with_cache (purge_entries now (cache c)) c).

(** The body that [cachedLookup] hands to singleflight. *)
Definition shared_lookup (key host : string)
    (lookup : Ctx -> string -> M Sys (lookupResult * option error))
    : M Sys (lookupResult * option error) :=
  ctx ← WithTimeout None lookupTimeout;
  _ ← on_dns count_lookup;
  '(res, err) ← lookup ctx host;
  match err with
  | Some e =>
      _ ← (if r_authoritative res && errors_Is e errNotFound
           then now ← time_now;
                nttl ← gets (fun s => negativeTTL (s_dns s));
                store key (MkEntry [] (time_Add now nttl) true false)
           else mret tt);
      mret (no_result, Some (NewDNSError host e))
  | None =>
      if bool_decide (r_addrs res = [])
      then mret (no_result, Some (Errorf ("no address for " +:+ host) None))
      else
        _ ← (if r_authoritative res
             then now ← time_now;
                  t ← gets (fun s => ttl (s_dns s));
                  store key (MkEntry (r_addrs res) (time_Add now t) false (r_localDirect res))
             else mret tt);
        mret (res, None)
  end.

(** [cachedLookup]. *)
Definition cachedLookup (key host : string)
    (lookup : Ctx -> string -> M Sys (lookupResult * option error))
    : M Sys (lookupResult * option error) :=
  match ParseAddr host with
  | Some ip => mret (MkResult [Unmap ip] false false, None)
  | None =>
      m ← gets (fun s => cache (s_dns s));
      match m !! key with
      | None => shared_lookup key host lookup
      | Some entry =>
          now ← time_now;
          if Before now (expires entry) then
            mret (if neg entry then (no_result, Some (NewDNSError host errNotFound))
                  else (MkResult (addrs entry) true (localDirect entry), None))
          else shared_lookup key host lookup
      end
  end.

(** [resolveTunnel], [ResolveAll] and [localResolveAll]. *)
Definition resolveTunnel (host : string) : M Sys (list Addr * bool * option error) :=
  let host := normalizeHost host in
  '(res, err) ← cachedLookup host host lookup;
  mret (r_addrs res, r_localDirect res, err).
Definition ResolveAll (host : string) : M Sys (list Addr * option error) :=
  '(addrs, _, err) ← resolveTunnel host; mret (addrs, err).
Definition local_policy (ctx : Ctx) (h : string) : M Sys (lookupResult * option error) :=
  '(addrs, err) ← lookupLocal ctx h; mret (MkResult addrs true false, err).
Definition localResolveAll (host : string) : M Sys (list Addr * option error) :=
  let host := normalizeHost host in
  '(res, err) ← cachedLookup ("local:" +:+ host) host local_policy;
  mret (r_addrs res, err).
End Ops.

Arguments Sys : clear implicits.

(** ** Status *)

Record dnsStatus := MkDnsStatus {
  Mode : string; Degraded : bool; LocalFallbacks : Z; LastFallbackAt : Z;
  Servers : list dnsServerStatus }.
(** [DNSStatus] at the time [now]. *)
Definition DNSStatus (now : Z) (c : dnsCache) : dnsStatus :=
  let servers := upstream_status now <$> tunnel c in
  MkDnsStatus (if dohClient c then "doh" else "servers")
    ((if lastFallback c =? 0 then false
      else time_Sub now (lastFallback c) <? dnsDegradedWindow) || existsb st_Paused servers)
    (fallbacks c)
    (if lastFallback c =? 0 then 0 else Unix (lastFallback c))
    servers.

(** ** The purge goroutine *)

(** [startPurge]: what its select can receive.  The loop ends when the
    context ends (closing [done], once) or when [done] is closed. *)
Inductive purgeSignal : Type := CtxDone | DoneClosed | Tick (now : Z).
Definition dns_stop (c : dnsCache) : dnsCache :=
  MkCache (cache c) (ttl c) (negativeTTL c) true (lookups c) (dohHost c) (dohClient c) (tunnel c)
    (localOnNXDomain c) (fallbacks c) (lastFallback c).
Fixpoint purge_loop (signals : list purgeSignal) (c : dnsCache) : dnsCache :=
  match signals with
  | [] => c
  | CtxDone :: _ => dns_stop c
  | DoneClosed :: rest => if done c then c else purge_loop rest c
  | Tick now :: rest => purge_loop rest (with_cache (purge_entries now (cache c)) c)
  end.
