(* ===== verification/DnsFacts.v ===== *)
(** Lemmas on the resolver of Dns.v: what each operation leaves unchanged,
    which events it can emit, and what its results look like. *)

From S2P Require Import Prelude GoStrings NetIP Errors Rules World Dns.

(** ** Frames *)

Section Facts.
Context {W : Type} `{World W}.
Implicit Types (s : Sys W) (c : dnsCache) (u : upstream) (ctx : Ctx) (host key : string).

(** The part of the state a lookup never touches. *)
Definition frame s s' : Prop :=
  let c := s_dns s in let c' := s_dns s' in
  cache c' = cache c /\ ttl c' = ttl c /\ negativeTTL c' = negativeTTL c /\
  localOnNXDomain c' = localOnNXDomain c /\ dohHost c' = dohHost c /\
  (fun u => (name u, lookupBy u)) <$> tunnel c' = (fun u => (name u, lookupBy u)) <$> tunnel c.
#[global] Instance frame_refl : Reflexive frame.
Proof. repeat split. Qed.
#[global] Instance frame_trans : Transitive frame.
Proof. intros a b d. unfold frame. intuition congruence. Qed.

(** Only events of a kind are added to the trace. *)
Definition emits (P : event -> Prop) s s' : Prop :=
  exists new, s_trace s' = s_trace s ++ new /\ Forall P new.
#[global] Instance emits_refl P : Reflexive (emits P).
Proof. intros s. exists []. by rewrite app_nil_r. Qed.
#[global] Instance emits_trans P : Transitive (emits P).
Proof.
  intros s1 s2 s3 (n1 & E1 & F1) (n2 & E2 & F2). exists (n1 ++ n2).
  rewrite E2, E1, (assoc_L (++)). by rewrite Forall_app.
Qed.
Lemma emits_weaken (P Q : event -> Prop) s s' :
  (forall ev, P ev -> Q ev) -> emits P s s' -> emits Q s s'.
Proof. intros HPQ (new & E & F). exists new. eauto using Forall_impl. Qed.

Lemma keeps_weaken {A} (R R' : Sys W -> Sys W -> Prop) (m : M (Sys W) A) :
  (forall s s', R s s' -> R' s s') -> keeps R m -> keeps R' m.
Proof. intros HR Hm s. apply HR, Hm. Qed.

(** ** Primitive effects *)

Lemma perform_run {A} (evs : A -> list event) (op : W -> A * W) s :
  perform evs op s =
  (fst (op (s_world s)), MkSys (s_dns s) (snd (op (s_world s))) (s_trace s ++ evs (fst (op (s_world s))))).
Proof. unfold perform. by destruct (op (s_world s)). Qed.

Lemma perform_frame {A} evs (op : W -> A * W) : keeps frame (perform evs op).
Proof. intros s. rewrite perform_run. repeat split. Qed.

Lemma perform_emits {A} (P : event -> Prop) evs (op : W -> A * W) :
  (forall a, Forall P (evs a)) -> keeps (emits P) (perform evs op).
Proof. intros HP s. rewrite perform_run. eexists. split; [reflexivity|apply HP]. Qed.
Lemma dns_exchange_upstream un sv host reply : Forall is_upstream (dns_exchange un sv host reply).
Proof. unfold dns_exchange. apply Forall_app. split; [by apply Forall_replicate|by repeat constructor]. Qed.
Lemma doh_exchange_upstream un ep host reply : Forall is_upstream (doh_exchange un ep host reply).
Proof.
  unfold doh_exchange. rewrite !Forall_app, Forall_fmap. split_and!; [by apply Forall_replicate| |by repeat constructor].
  by apply Forall_true.
Qed.

Lemma perform_dns {A} evs (op : W -> A * W) s : s_dns (snd (perform evs op s)) = s_dns s.
Proof. by rewrite perform_run. Qed.

Lemma on_dns_emits P f : keeps (emits P) (on_dns (W := W) f).
Proof. intros s. exists []. by rewrite app_nil_r. Qed.

Lemma on_dns_frame f :
  (forall c, let c' := f c in cache c' = cache c /\ ttl c' = ttl c /\ negativeTTL c' = negativeTTL c /\
    localOnNXDomain c' = localOnNXDomain c /\ dohHost c' = dohHost c /\
    (fun u => (name u, lookupBy u)) <$> tunnel c' = (fun u => (name u, lookupBy u)) <$> tunnel c) ->
  keeps frame (on_dns (W := W) f).
Proof. intros Hf s. apply Hf. Qed.

Lemma alter_ids (f : upstream -> upstream) i (us : list upstream) :
  (forall u, name (f u) = name u /\ lookupBy (f u) = lookupBy u) ->
  (fun u => (name u, lookupBy u)) <$> alter f i us = (fun u => (name u, lookupBy u)) <$> us.
Proof.
  intros Hf. revert i. induction us as [|u us IH]; intros [|i]; cbn; try done.
  - by rewrite (proj1 (Hf u)), (proj2 (Hf u)).
  - f_equal. apply IH.
Qed.

Lemma upd_upstream_frame i f :
  (forall u, name (f u) = name u /\ lookupBy (f u) = lookupBy u) ->
  keeps frame (upd_upstream (W := W) i f).
Proof. intros Hf. apply on_dns_frame. intros c. repeat split. by apply alter_ids. Qed.

Lemma gets_emits {A} P (f : Sys W -> A) : keeps (emits P) (gets f).
Proof. intros s. reflexivity. Qed.
Lemma gets_frame {A} (f : Sys W -> A) : keeps frame (gets f).
Proof. intros s. reflexivity. Qed.
Lemma ret_emits {A} P (a : A) : keeps (emits P) (mret a : M (Sys W) A).
Proof. intros s. reflexivity. Qed.
Lemma ret_frame {A} (a : A) : keeps frame (mret a : M (Sys W) A).
Proof. intros s. reflexivity. Qed.
End Facts.

#[export] Hint Resolve perform_frame perform_emits on_dns_emits gets_emits gets_frame
  ret_emits ret_frame : gate.
#[export] Hint Resolve dns_exchange_upstream doh_exchange_upstream : gate.
#[export] Hint Extern 1 (forall _, Forall _ _) => solve [repeat constructor] : gate.

(** Walk through a monadic program: binds, destructured binds, conditionals. *)
Ltac walk :=
  repeat first
    [ progress cbn beta match
    | solve [auto with gate]
    | apply keeps_bind; [typeclasses eauto| |intros ?]
    | match goal with
      | |- keeps _ (match ?x with _ => _ end) => destruct x eqn:?
      | |- keeps _ (let _ := ?x in _) => cbn zeta
      end ].

(** ** What each operation leaves unchanged and emits *)

Section Ops.
Context {W : Type} `{World W}.
Implicit Types (s : Sys W) (ctx : Ctx) (host key : string) (u : upstream).

Lemma claim_ids now u :
  name (snd (claim now u)) = name u /\ lookupBy (snd (claim now u)) = lookupBy u.
Proof. unfold claim. repeat split_if; done. Qed.

Lemma claim_all_ids now i (us : list upstream) :
  (fun u => (name u, lookupBy u)) <$> snd (claim_all now i us)
  = (fun u => (name u, lookupBy u)) <$> us.
Proof.
  revert i. induction us as [|u us IH]; intros i; [done|]. cbn [claim_all].
  pose proof (claim_ids now u) as Hc. specialize (IH (S i)).
  destruct (claim now u) as [b u'], (claim_all now (S i) us) as [l us']. cbn in *.
  destruct Hc as [-> ->]. by rewrite IH.
Qed.

Lemma release_ids (claimed : list nat) (us : list upstream) :
  (fun u => (name u, lookupBy u)) <$> foldr (fun i us => alter (set_probing false) i us) us claimed
  = (fun u => (name u, lookupBy u)) <$> us.
Proof. induction claimed as [|i l IH]; [done|]. cbn. by rewrite alter_ids. Qed.

Lemma time_now_frame : keeps frame (time_now (W := W)).
Proof. apply perform_frame. Qed.
Lemma time_now_emits P : keeps (emits P) (time_now (W := W)).
Proof. apply perform_emits. repeat constructor. Qed.
Lemma tunnelUp_frame : keeps frame (tunnelUp (W := W)).
Proof. apply perform_frame. Qed.
Lemma tunnelUp_emits P : keeps (emits P) (tunnelUp (W := W)).
Proof. apply perform_emits. repeat constructor. Qed.
Lemma WithTimeout_frame ctx d : keeps frame (WithTimeout (W := W) ctx d).
Proof. unfold WithTimeout. walk. apply time_now_frame. Qed.
Lemma WithTimeout_emits P ctx d : keeps (emits P) (WithTimeout (W := W) ctx d).
Proof. unfold WithTimeout. walk. apply time_now_emits. Qed.
#[local] Hint Resolve time_now_frame time_now_emits tunnelUp_frame tunnelUp_emits
  WithTimeout_frame WithTimeout_emits : gate.

Lemma claim_upstreams_frame now : keeps frame (claim_upstreams (W := W) now).
Proof.
  intros s. unfold claim_upstreams.
  pose proof (claim_all_ids now 0 (tunnel (s_dns s))) as Hc.
  destruct (claim_all now 0 (tunnel (s_dns s))) as [l us]. repeat split. done.
Qed.
Lemma claim_upstreams_emits P now : keeps (emits P) (claim_upstreams (W := W) now).
Proof.
  intros s. unfold claim_upstreams. destruct (claim_all now 0 _) as [l us].
  exists []. by rewrite app_nil_r.
Qed.
Lemma releaseProbes_frame l : keeps frame (releaseProbes (W := W) l).
Proof. apply on_dns_frame. intros c. repeat split. apply release_ids. Qed.
Lemma upstreamAnswered_frame i rtt : keeps frame (upstreamAnswered (W := W) i rtt).
Proof. unfold upstreamAnswered. walk. by apply upd_upstream_frame. Qed.
Lemma upstreamAnswered_emits P i rtt : keeps (emits P) (upstreamAnswered (W := W) i rtt).
Proof. unfold upstreamAnswered, upd_upstream. walk. Qed.
Lemma upstreamFailed_frame i e : keeps frame (upstreamFailed (W := W) i e).
Proof. unfold upstreamFailed. walk; by apply upd_upstream_frame. Qed.
Lemma upstreamFailed_emits P i e : keeps (emits P) (upstreamFailed (W := W) i e).
Proof. unfold upstreamFailed, upd_upstream. walk. Qed.
#[local] Hint Resolve claim_upstreams_frame claim_upstreams_emits releaseProbes_frame
  upstreamAnswered_frame upstreamAnswered_emits upstreamFailed_frame upstreamFailed_emits : gate.

Lemma lookupLocal_frame ctx host : keeps frame (lookupLocal (W := W) ctx host).
Proof. unfold lookupLocal. walk. Qed.
Lemma lookupLocal_emits ctx host : keeps (emits is_local) (lookupLocal (W := W) ctx host).
Proof. unfold lookupLocal. walk. Qed.

Lemma upstream_lookup_frame u ctx host : keeps frame (upstream_lookup (W := W) u ctx host).
Proof.
  unfold upstream_lookup, dohLookup, dnsServerLookup. walk.
Qed.
Lemma upstream_lookup_emits u ctx host :
  keeps (emits is_upstream) (upstream_lookup (W := W) u ctx host).
Proof.
  unfold upstream_lookup, dohLookup, dnsServerLookup. walk.
Qed.
#[local] Hint Resolve lookupLocal_frame lookupLocal_emits upstream_lookup_frame
  upstream_lookup_emits : gate.

Lemma notFound_frame ctx host : keeps frame (notFound (W := W) ctx host).
Proof. unfold notFound. walk. Qed.
Lemma notFound_emits ctx host : keeps (emits is_local) (notFound (W := W) ctx host).
Proof. unfold notFound. walk. Qed.
Lemma lookup_fallback_frame ctx host : keeps frame (lookup_fallback (W := W) ctx host).
Proof. unfold lookup_fallback. walk. by apply on_dns_frame. Qed.
Lemma lookup_fallback_emits ctx host : keeps (emits is_local) (lookup_fallback (W := W) ctx host).
Proof. unfold lookup_fallback. walk. Qed.
#[local] Hint Resolve notFound_frame lookup_fallback_frame : gate.

Lemma lookup_loop_frame ctx tctx dl host active :
  keeps frame (lookup_loop (W := W) ctx tctx dl host active).
Proof. induction active as [|i l IH]; cbn [lookup_loop]; walk. Qed.
Lemma lookup_frame ctx host : keeps frame (lookup (W := W) ctx host).
Proof. unfold lookup. walk. apply lookup_loop_frame. Qed.

Lemma local_policy_frame ctx host : keeps frame (local_policy (W := W) ctx host).
Proof. unfold local_policy. walk. Qed.
Lemma local_policy_emits ctx host : keeps (emits is_local) (local_policy (W := W) ctx host).
Proof. unfold local_policy. walk. Qed.

Lemma store_emits P key e : keeps (emits P) (store (W := W) key e).
Proof. unfold store, range_keys. walk. Qed.
#[local] Hint Resolve store_emits : gate.

(** A policy that emits events of a kind does so through the cache too. *)
Lemma shared_lookup_emits P key host lk :
  (forall ctx h, keeps (emits P) (lk ctx h)) ->
  keeps (emits P) (shared_lookup (W := W) key host lk).
Proof. intros Hl. unfold shared_lookup. walk. Qed.
Lemma cachedLookup_emits P key host lk :
  (forall ctx h, keeps (emits P) (lk ctx h)) ->
  keeps (emits P) (cachedLookup (W := W) key host lk).
Proof.
  intros Hl. pose proof (shared_lookup_emits P key host lk Hl).
  unfold cachedLookup. walk.
Qed.

(** Direct resolution never asks a tunnel resolver. *)
Lemma localResolveAll_emits host : keeps (emits is_local) (localResolveAll (W := W) host).
Proof.
  unfold localResolveAll. walk. apply cachedLookup_emits. intros. apply local_policy_emits.
Qed.
End Ops.

#[export] Hint Resolve time_now_frame time_now_emits tunnelUp_frame tunnelUp_emits
  WithTimeout_frame WithTimeout_emits claim_upstreams_frame claim_upstreams_emits
  releaseProbes_frame upstreamAnswered_frame upstreamAnswered_emits upstreamFailed_frame
  upstreamFailed_emits lookupLocal_frame lookupLocal_emits upstream_lookup_frame
  upstream_lookup_emits notFound_frame lookup_fallback_frame store_emits
  lookup_frame local_policy_frame local_policy_emits localResolveAll_emits : gate.

(** ** Results *)

Section Results.
Context {W : Type} `{World W}.
Implicit Types (s : Sys W) (ctx : Ctx) (host key : string) (u : upstream).

Definition addrs_ok (r : list Addr * option error) : Prop := Forall Addr_ok (fst r).
Definition result_ok (r : lookupResult * option error) : Prop := Forall Addr_ok (r_addrs (fst r)).

Lemma toNetip_ok ips : Forall Addr_ok (toNetip ips).
Proof.
  unfold toNetip. induction ips as [|b ips IH]; [constructor|]. cbn.
  destruct (AddrFromSlice b) as [a|] eqn:E; [|done]. cbn. constructor; [|done].
  eauto using Unmap_ok, AddrFromSlice_ok.
Qed.

Lemma doh_answers_ok (want : Z) (l : list (Z * string)) :
  Forall Addr_ok (omap (fun '(ty, data) =>
    if ty =? want then Unmap <$> ParseAddr data else None) l).
Proof.
  induction l as [|[ty data] l IH]; [constructor|]. cbn.
  destruct (ty =? want); [|done]. destruct (ParseAddr data) as [a|] eqn:E; [|done]. cbn.
  constructor; [|done]. eauto using Unmap_ok, ParseAddr_ok.
Qed.

Lemma dnsServerLookup_ok un srv ctx host : returns addrs_ok (dnsServerLookup (W := W) un srv ctx host).
Proof.
  unfold dnsServerLookup. eapply returns_bind; [apply returns_any|]. intros reply _.
  apply returns_ret. unfold addrs_ok. repeat split_match; cbn; auto using toNetip_ok.
Qed.

Lemma dohJSONQuery_ok ctx un ep host q :
  returns (fun r => addrs_ok (snd r)) (dohJSONQuery (W := W) ctx un ep host q).
Proof.
  unfold dohJSONQuery. eapply returns_bind; [apply returns_any|]. intros reply _.
  apply returns_ret. unfold addrs_ok. cbn [snd]. repeat split_match; cbn; auto using doh_answers_ok.
Qed.

Lemma doh_loop_ok ctx un ep host b qs out :
  Forall Addr_ok out -> returns addrs_ok (doh_loop (W := W) ctx un ep host b qs out).
Proof.
  revert b out. induction qs as [|q qs IH]; intros b out Ho; cbn [doh_loop].
  - apply returns_ret. unfold addrs_ok. by split_if.
  - eapply returns_bind; [apply dohJSONQuery_ok|]. intros [got [l [e|]]] Hl; cbn.
    + apply returns_ret. constructor.
    + apply IH. apply Forall_app. by split.
Qed.

Lemma upstream_lookup_ok u ctx host : returns addrs_ok (upstream_lookup (W := W) u ctx host).
Proof.
  unfold upstream_lookup, dohLookup. destruct (lookupBy u); [|apply dnsServerLookup_ok].
  eapply returns_bind; [apply returns_any|]. intros ep _. by apply doh_loop_ok.
Qed.

Lemma lookupLocal_ok ctx host : returns addrs_ok (lookupLocal (W := W) ctx host).
Proof.
  unfold lookupLocal. eapply returns_bind; [apply returns_any|]. intros [e|ips] _;
    apply returns_ret; unfold addrs_ok; cbn; auto using toNetip_ok.
Qed.

Lemma notFound_ok ctx host : returns result_ok (notFound (W := W) ctx host).
Proof.
  unfold notFound. eapply returns_bind; [apply returns_any|]. intros [] _.
  - eapply returns_bind; [apply lookupLocal_ok|]. intros [l [e|]] Hl; apply returns_ret; [constructor|done].
  - apply returns_ret. constructor.
Qed.

Lemma lookup_fallback_ok ctx host : returns result_ok (lookup_fallback (W := W) ctx host).
Proof.
  unfold lookup_fallback. do 2 (eapply returns_bind; [apply returns_any|]; intros ? _).
  eapply returns_bind; [apply lookupLocal_ok|]. intros [l e] Hl.
  eapply returns_bind; [apply returns_any|]. intros [] _; [|by apply returns_ret].
  eapply returns_bind; [apply returns_any|]. intros up _. by apply returns_ret.
Qed.

Lemma lookup_loop_ok ctx tctx dl host active :
  returns result_ok (lookup_loop (W := W) ctx tctx dl host active).
Proof.
  induction active as [|i l IH]; cbn [lookup_loop]; [apply lookup_fallback_ok|].
  do 4 (eapply returns_bind; [apply returns_any|]; intros ? _).
  split_match; [|done].
  eapply returns_bind; [apply upstream_lookup_ok|]. intros [as' err] Has.
  eapply returns_bind; [apply returns_any|]. intros fin _. cbv zeta.
  destruct err as [e|].
  - destruct (errors_Is e errNotFound); (eapply returns_bind; [apply returns_any|]; intros ? _);
      [apply notFound_ok | done].
  - eapply returns_bind; [apply returns_any|]. intros ? _. by apply returns_ret.
Qed.

Lemma lookup_ok ctx host : returns result_ok (lookup (W := W) ctx host).
Proof.
  unfold lookup. do 3 (eapply returns_bind; [apply returns_any|]; intros ? _). cbv zeta.
  eapply returns_bind; [apply lookup_loop_ok|]. intros r Hr.
  eapply returns_bind; [apply returns_any|]. intros ? _. by apply returns_ret.
Qed.

Lemma local_policy_ok ctx host : returns result_ok (local_policy (W := W) ctx host).
Proof.
  unfold local_policy. eapply returns_bind; [apply lookupLocal_ok|]. intros [l e] Hl.
  by apply returns_ret.
Qed.

(** ** The cache invariant *)

(** A positive entry holds at least one address, each within its width. *)
Definition entry_wf (e : cacheEntry) : Prop :=
  neg e = false -> addrs e <> [] /\ Forall Addr_ok (addrs e).
Definition cache_wf (m : gmap string cacheEntry) : Prop := map_Forall (fun _ e => entry_wf e) m.
Definition sys_wf s : Prop := cache_wf (cache (s_dns s)).

Lemma frame_wf s s' : frame s s' -> sys_wf s -> sys_wf s'.
Proof. unfold frame, sys_wf. intros (-> & _). done. Qed.

Lemma runs_frame {A} (m : M (Sys W) A) (Q : A -> Prop) :
  keeps frame m -> returns Q m -> runs sys_wf m (fun a s => Q a /\ sys_wf s).
Proof. intros Hf Hr s Hs. split; [apply Hr|]. eapply frame_wf; [apply Hf|done]. Qed.

Lemma evict_wf m order : cache_wf m -> cache_wf (evict m order).
Proof. intros Hm. unfold evict. cbv zeta. split_if; [done|]. by apply map_Forall_delete. Qed.

Lemma store_wf key e : entry_wf e -> runs sys_wf (store (W := W) key e) (fun _ s => sys_wf s).
Proof.
  intros He s Hs. unfold store. rewrite bind_run. cbn [gets fst snd].
  destruct (dnsCacheMaxSize <=? _).
  - rewrite bind_run. unfold sys_wf, range_keys, on_dns, modify. rewrite perform_run. cbn.
    apply map_Forall_insert_2; [done|]. by apply evict_wf.
  - unfold sys_wf. cbn. by apply map_Forall_insert_2.
Qed.

(** What every resolution promises its caller. *)
Definition resolved (r : lookupResult * option error) : Prop :=
  snd r = None -> r_addrs (fst r) <> [] /\ Forall Addr_ok (r_addrs (fst r)).

Lemma runs_ret_wf {A} (Q : A -> Prop) (a : A) :
  Q a -> runs sys_wf (mret a : M (Sys W) A) (fun a s => Q a /\ sys_wf s).
Proof. intros Ha s Hs. by split. Qed.

Lemma runs_seq {A B} (m : M (Sys W) A) (k : M (Sys W) B) (T : B -> Sys W -> Prop) :
  runs sys_wf m (fun _ s => sys_wf s) -> runs sys_wf k T -> runs sys_wf (m ≫= fun _ => k) T.
Proof. intros Hm Hk. eapply runs_bind; [apply Hm|]. done. Qed.
End Results.

Section CacheInvariant.
Context {W : Type} `{World W}.
Context (lk : Ctx -> string -> M (Sys W) (lookupResult * option error)).
Context (lk_frame : forall ctx h, keeps frame (lk ctx h)).
Context (lk_ok : forall ctx h, returns result_ok (lk ctx h)).
Implicit Types (host key : string).

Lemma runs_keep {A} (m : M (Sys W) A) : keeps frame m -> runs sys_wf m (fun _ s => sys_wf s).
Proof. intros Hf s Hs. eapply frame_wf; [apply Hf|done]. Qed.

Lemma shared_lookup_wf key host :
  runs sys_wf (shared_lookup key host lk) (fun r s => resolved r /\ sys_wf s).
Proof.
  unfold shared_lookup.
  eapply runs_bind; [apply runs_keep, WithTimeout_frame|]. intros ctx.
  eapply runs_bind; [apply runs_keep; by apply on_dns_frame|]. intros [].
  eapply runs_bind; [apply (runs_frame _ result_ok); auto|]. intros [res err].
  apply runs_pure. intros Hres.
  destruct err as [e|].
  - apply runs_seq; [|by apply runs_ret_wf].
    split_if; [|intros s Hs; exact Hs].
    eapply runs_bind; [apply runs_keep, time_now_frame|]. intros now.
    eapply runs_bind; [apply runs_keep, gets_frame|]. intros nttl. by apply store_wf.
  - split_if; [by apply runs_ret_wf|]. prop_of_bool.
    apply runs_seq; [|by apply runs_ret_wf].
    split_if; [|intros s Hs; exact Hs].
    eapply runs_bind; [apply runs_keep, time_now_frame|]. intros now.
    eapply runs_bind; [apply runs_keep, gets_frame|]. intros t. by apply store_wf.
Qed.

Lemma cachedLookup_wf key host :
  runs sys_wf (cachedLookup key host lk) (fun r s => resolved r /\ sys_wf s).
Proof.
  unfold cachedLookup. destruct (ParseAddr host) as [ip|] eqn:Ep.
  - apply runs_ret_wf. intros _. cbn. split; [done|].
    repeat constructor. eauto using Unmap_ok, ParseAddr_ok.
  - intros s Hs. rewrite bind_run. cbn [gets fst snd].
    destruct (cache (s_dns s) !! key) as [entry|] eqn:Ek; [|by apply shared_lookup_wf].
    rewrite bind_run. pose proof (time_now_frame s) as Hf.
    destruct (Before _ _); [|apply shared_lookup_wf; by eapply frame_wf].
    split; [|by eapply frame_wf]. cbn.
    destruct (neg entry) eqn:En; [done|]. intros _. cbn. by apply (Hs key entry).
Qed.
End CacheInvariant.
