(* ===== verification/Asks.v ===== *)
(** What lookups make the VPS dial: the addresses of the configured tunnel
    resolvers, and, with DNS-over-HTTPS, where its endpoint redirects to.  The
    dials are those of [dnsServerLookup] and [tunnelHTTPClient] (dns.go,
    dialer.go), which bypass the connection tracker and the address filter of
    [Open]. *)

From S2P Require Import Prelude GoStrings NetIP Errors Rules World Dns DnsFacts.

(** ** The resolvers of a cache *)

Definition resolvers (c : dnsCache) : list lookupFn * string := (lookupBy <$> tunnel c, dohHost c).
Definition resolver_addr (rs : list lookupFn * string) (fn : lookupFn) : string :=
  match fn with dnsServerLookupFn server => server | dohLookupFn => doh_addr (snd rs) end.

(** The events of a lookup by these resolvers. *)
Definition dns_event (rs : list lookupFn * string) (ev : event) : Prop :=
  match ev with
  | EvUpstream _ _ _ | EvLocal _ => True
  | EvDialResolver a => a ∈ resolver_addr rs <$> fst rs
  | EvDialRedirect _ => dohLookupFn ∈ fst rs
  | EvDialTunnel _ _ | EvDialDirect _ _ _ => False
  end.

Section Asks.
Context {W : Type} `{World W} (rs : list lookupFn * string).
Implicit Types (s : Sys W) (ctx : Ctx) (host key : string).

(** From a state with these resolvers: they stay, and only their events are
    added. *)
Definition res_are s : Prop := resolvers (s_dns s) = rs.
Definition asks s s' : Prop := res_are s -> res_are s' /\ emits (dns_event rs) s s'.
#[global] Instance asks_refl : Reflexive asks.
Proof. intros s Hs. split; [done|reflexivity]. Qed.
#[global] Instance asks_trans : Transitive asks.
Proof. intros a b c Hab Hbc Ha. destruct (Hab Ha) as [Hb E]. destruct (Hbc Hb) as [Hc E']. split; [done|by etrans]. Qed.

Lemma frame_resolvers s s' : frame s s' -> resolvers (s_dns s') = resolvers (s_dns s).
Proof.
  intros (_ & _ & _ & _ & Eh & Et). unfold resolvers. rewrite Eh. f_equal.
  change (lookupBy <$> tunnel (s_dns s')) with ((snd ∘ fun u => (name u, lookupBy u)) <$> tunnel (s_dns s')).
  rewrite list_fmap_compose, Et, <- list_fmap_compose. done.
Qed.
Lemma asks_frame {A} P (m : M (Sys W) A) :
  (forall ev, P ev -> dns_event rs ev) -> keeps frame m -> keeps (emits P) m -> keeps asks m.
Proof.
  intros HP Hf He s Hs. split; [unfold res_are; by rewrite (frame_resolvers s) by apply Hf|].
  eapply emits_weaken; [apply HP|apply He].
Qed.
(** A step without events. *)
Lemma asks_quiet {A} (m : M (Sys W) A) : keeps frame m -> (forall P, keeps (emits P) m) -> keeps asks m.
Proof. intros Hf He. by eapply (asks_frame (fun _ => False)). Qed.
Lemma asks_local {A} (m : M (Sys W) A) : keeps frame m -> keeps (emits is_local) m -> keeps asks m.
Proof. intros. eapply (asks_frame is_local); [by intros []|done..]. Qed.
(** A change of the state that keeps the resolvers. *)
Lemma asks_on_dns f : (forall c, resolvers (f c) = resolvers c) -> keeps asks (on_dns (W := W) f).
Proof. intros Hf s Hs. split; [unfold res_are; cbn; by rewrite Hf|apply on_dns_emits]. Qed.
Lemma resolvers_tunnel (us : list upstream) c :
  lookupBy <$> us = lookupBy <$> tunnel c -> resolvers (with_tunnel us c) = resolvers c.
Proof. intros E. unfold resolvers. cbn. by rewrite E. Qed.
Lemma asks_upd i f : (forall u, lookupBy (f u) = lookupBy u) -> keeps asks (upd_upstream (W := W) i f).
Proof.
  intros Hf. apply asks_on_dns. intros c. apply resolvers_tunnel.
  revert i. induction (tunnel c) as [|u us IH]; intros [|i]; cbn; try done; [by rewrite Hf|]. f_equal. apply IH.
Qed.
(** A program that reads the state first. *)
Lemma asks_read {A B} (f : Sys W -> A) (k : A -> M (Sys W) B) :
  (forall s, res_are s -> keeps asks (k (f s))) -> keeps asks (gets f ≫= k).
Proof. intros Hk s Hs. rewrite bind_run. by apply (Hk s). Qed.
Lemma ret_asks {A} (a : A) : keeps asks (mret a : M (Sys W) A).
Proof. intros s. reflexivity. Qed.
Lemma gets_asks {A} (f : Sys W -> A) : keeps asks (gets f).
Proof. intros s. reflexivity. Qed.

Lemma time_now_asks : keeps asks (time_now (W := W)).
Proof. apply asks_quiet; auto with gate. Qed.
Lemma tunnelUp_asks : keeps asks (tunnelUp (W := W)).
Proof. apply asks_quiet; auto with gate. Qed.
Lemma WithTimeout_asks ctx d : keeps asks (WithTimeout (W := W) ctx d).
Proof. apply asks_quiet; auto with gate. Qed.
Lemma lookupLocal_asks ctx host : keeps asks (lookupLocal (W := W) ctx host).
Proof. apply asks_local; auto with gate. Qed.
Lemma notFound_asks ctx host : keeps asks (notFound (W := W) ctx host).
Proof. apply asks_local; [auto with gate|apply notFound_emits]. Qed.
Lemma fallback_asks ctx host : keeps asks (lookup_fallback (W := W) ctx host).
Proof. apply asks_local; [auto with gate|apply lookup_fallback_emits]. Qed.
Lemma answered_asks i rtt : keeps asks (upstreamAnswered (W := W) i rtt).
Proof. apply asks_quiet; auto with gate. Qed.
Lemma failed_asks i e : keeps asks (upstreamFailed (W := W) i e).
Proof. apply asks_quiet; auto with gate. Qed.
Lemma claim_asks now : keeps asks (claim_upstreams (W := W) now).
Proof. apply asks_quiet; auto with gate. Qed.
Lemma release_asks l : keeps asks (releaseProbes (W := W) l).
Proof. apply asks_quiet; [auto with gate|]. intros P. apply on_dns_emits. Qed.
#[local] Hint Resolve ret_asks gets_asks time_now_asks tunnelUp_asks WithTimeout_asks lookupLocal_asks notFound_asks
  fallback_asks answered_asks failed_asks claim_asks release_asks : gate.

(** ** The exchanges *)

Lemma perform_asks {A} evs (op : W -> A * W) :
  (forall a, Forall (dns_event rs) (evs a)) -> keeps asks (perform evs op).
Proof.
  intros He s Hs. split; [unfold res_are; by rewrite perform_dns|]. by apply perform_emits.
Qed.
Lemma resolver_dialed fn : fn ∈ fst rs -> resolver_addr rs fn ∈ resolver_addr rs <$> fst rs.
Proof. intros Hf. by apply list_elem_of_fmap_2. Qed.

Lemma dnsServerLookup_asks un sv ctx host : dnsServerLookupFn sv ∈ fst rs ->
  keeps asks (dnsServerLookup (W := W) un sv ctx host).
Proof.
  intros Hin. unfold dnsServerLookup. walk. apply perform_asks. intros r. unfold dns_exchange.
  apply Forall_app. split; [|by repeat constructor]. apply Forall_replicate. exact (resolver_dialed _ Hin).
Qed.
Lemma dohJSONQuery_asks ctx un host q : dohLookupFn ∈ fst rs ->
  keeps asks (dohJSONQuery (W := W) ctx un (snd rs) host q).
Proof.
  intros Hin. unfold dohJSONQuery. walk. apply perform_asks. intros r. unfold doh_exchange.
  rewrite !Forall_app, Forall_fmap. split_and!; [|by apply Forall_true|by repeat constructor].
  apply Forall_replicate. exact (resolver_dialed _ Hin).
Qed.
Lemma doh_loop_asks ctx un host b qs out : dohLookupFn ∈ fst rs ->
  keeps asks (doh_loop (W := W) ctx un (snd rs) host b qs out).
Proof.
  intros Hin. pose proof (fun q => dohJSONQuery_asks ctx un host q Hin) as Hq.
  revert b out. induction qs as [|q qs IH]; intros b out; cbn [doh_loop]; walk.
Qed.
Lemma upstream_lookup_asks u ctx host : lookupBy u ∈ fst rs -> keeps asks (upstream_lookup (W := W) u ctx host).
Proof.
  intros Hin. unfold upstream_lookup, dohLookup. destruct (lookupBy u); [|by apply dnsServerLookup_asks].
  apply asks_read. intros s Hs.
  replace (dohHost (s_dns s)) with (snd rs) by (by rewrite <- Hs). by apply doh_loop_asks.
Qed.
Lemma claimed_resolver s i u : res_are s -> tunnel (s_dns s) !! i = Some u -> lookupBy u ∈ fst rs.
Proof. intros <- Hu. cbn. apply list_elem_of_fmap_2. by eapply list_elem_of_lookup_2. Qed.

(** ** The policies and the cache *)

Lemma lookup_loop_asks ctx tctx dl host active : keeps asks (lookup_loop (W := W) ctx tctx dl host active).
Proof.
  induction active as [|i l IH]; cbn [lookup_loop]; [auto with gate|].
  do 3 (apply keeps_bind; [typeclasses eauto|solve [auto with gate]|intros ?]).
  apply asks_read. intros s Hs. destruct (tunnel (s_dns s) !! i) as [u|] eqn:Eu; [|done].
  pose proof (fun c => upstream_lookup_asks u c host (claimed_resolver s i u Hs Eu)) as Hu. walk.
Qed.
Lemma lookup_asks ctx host : keeps asks (lookup (W := W) ctx host).
Proof. unfold lookup. pose proof lookup_loop_asks. walk. Qed.
Lemma local_policy_asks ctx host : keeps asks (local_policy (W := W) ctx host).
Proof. unfold local_policy. walk. Qed.

Lemma count_lookup_asks : keeps asks (on_dns (W := W) count_lookup).
Proof. by apply asks_on_dns. Qed.
Lemma with_cache_asks f : keeps asks (on_dns (W := W) (fun c => with_cache (f c) c)).
Proof. by apply asks_on_dns. Qed.
Lemma range_keys_asks keys : keeps asks (range_keys (W := W) keys).
Proof. apply perform_asks. by repeat constructor. Qed.
#[local] Hint Resolve lookup_asks local_policy_asks count_lookup_asks range_keys_asks : gate.
Lemma store_asks key e : keeps asks (store (W := W) key e).
Proof.
  unfold store. apply asks_read. intros s _. destruct (dnsCacheMaxSize <=? _).
  - apply keeps_bind; [typeclasses eauto|auto with gate|]. intros order. apply with_cache_asks.
  - apply with_cache_asks.
Qed.
#[local] Hint Resolve store_asks : gate.
Lemma purge_asks : keeps asks (purge (W := W)).
Proof. unfold purge. apply keeps_bind; [typeclasses eauto|auto with gate|]. intros now. apply with_cache_asks. Qed.

Lemma shared_lookup_asks key host lk :
  (forall ctx h, keeps asks (lk ctx h)) -> keeps asks (shared_lookup (W := W) key host lk).
Proof. intros Hl. unfold shared_lookup. walk. Qed.
Lemma cachedLookup_asks key host lk :
  (forall ctx h, keeps asks (lk ctx h)) -> keeps asks (cachedLookup (W := W) key host lk).
Proof. intros Hl. pose proof (shared_lookup_asks key host lk Hl). unfold cachedLookup. walk. Qed.
Lemma resolveTunnel_asks host : keeps asks (resolveTunnel (W := W) host).
Proof. unfold resolveTunnel. walk. apply cachedLookup_asks. auto with gate. Qed.
Lemma localResolveAll_asks host : keeps asks (localResolveAll (W := W) host).
Proof. unfold localResolveAll. walk. apply cachedLookup_asks. auto with gate. Qed.
End Asks.

#[export] Hint Resolve ret_asks gets_asks time_now_asks tunnelUp_asks WithTimeout_asks lookupLocal_asks notFound_asks
  fallback_asks answered_asks failed_asks claim_asks release_asks lookup_asks local_policy_asks
  count_lookup_asks range_keys_asks store_asks purge_asks resolveTunnel_asks localResolveAll_asks : gate.
