(* ===== verification/DnsProps.v ===== *)
(** What the resolver promises: the properties of dns.go. *)

From S2P Require Import Prelude GoStrings NetIP Errors Rules World Dns DnsFacts.

(** ** The local resolver sees a name only when no tunnel resolver answered *)

(** Whether a reply of a DNS server settles the name: addresses, or the
    verdict that there are none (IsNotFound). *)
Definition dns_definite (r : resolverReply) : bool :=
  match rr_result r with
  | inr _ => true
  | inl err =>
      match errors_As as_net_DNSError err with
      | Some (_, notFound) => notFound
      | None => errors_Is err errNotFound
      end
  end.
(** A DoH reply: records (or none of the type), NXDOMAIN, or a failure. *)
Inductive dohVerdict : Type := DohRecords | DohNXDomain | DohFailed.
Definition doh_verdict (r : httpReply) : dohVerdict :=
  match hr_result r with
  | inl err | inr (_, inl err) => if errors_Is err errNotFound then DohNXDomain else DohFailed
  | inr (code, inr d) =>
      if Status d =? 3 then DohNXDomain
      else if (code =? 200) && (Status d =? 0) then DohRecords else DohFailed
  end.
Definition settles (v : dohVerdict) : bool := match v with DohFailed => false | _ => true end.

(** [asked ep host u b evs]: the resolver [u] was asked for the name, which is
    recorded as [evs], and [b] tells whether it settled it.  DoH asks for A
    and, after records, for AAAA. *)
Inductive asked (ep host : string) (u : upstream) : bool -> list event -> Prop :=
| asked_dns server reply (Hl : lookupBy u = dnsServerLookupFn server) :
    asked ep host u (dns_definite reply) (dns_exchange (name u) server host reply)
| asked_doh_first reply (Hl : lookupBy u = dohLookupFn) (Hv : doh_verdict reply <> DohRecords) :
    asked ep host u (settles (doh_verdict reply)) (doh_exchange (name u) ep host reply)
| asked_doh_both reply reply' (Hl : lookupBy u = dohLookupFn) (Hv : doh_verdict reply = DohRecords) :
    asked ep host u (settles (doh_verdict reply'))
      (doh_exchange (name u) ep host reply ++ doh_exchange (name u) ep host reply').

(** The whole of a lookup over the resolvers it may use: each in turn until
    one settles the name, and the local resolver when none did. *)
Inductive lookup_trace (ep host : string) : list upstream -> bool -> list event -> Prop :=
| trace_local : lookup_trace ep host [] false [EvLocal host]
| trace_settled u us evs (Ha : asked ep host u true evs) : lookup_trace ep host (u :: us) true evs
| trace_failed u us auth evs rest (Ha : asked ep host u false evs) (Hr : lookup_trace ep host us auth rest) :
    lookup_trace ep host (u :: us) auth (evs ++ rest).

(** The resolvers a lookup at the time [now] may use. *)
Definition usable (now : Z) (us : list upstream) : list upstream :=
  filter (fun u => Is_true (fst (claim now u))) us.

Section Leak.
Context {W : Type} `{World W}.
Implicit Types (s : Sys W) (ctx : Ctx) (host key : string).

Lemma trace_same {A} (m : M (Sys W) A) s : (forall P, keeps (emits P) m) -> s_trace (snd (m s)) = s_trace s.
Proof.
  intros Hm. destruct (Hm (fun _ => False) s) as (new & -> & Hn). destruct new as [|ev new]; [by rewrite app_nil_r|].
  by apply Forall_cons in Hn as [[] _].
Qed.

(** *** One resolver *)

Definition definite (r : list Addr * option error) : bool :=
  match snd r with None => true | Some e => errors_Is e errNotFound end.

Lemma dnsServerLookup_asked un sv ctx host s :
  exists reply, s_trace (snd (dnsServerLookup un sv ctx host s)) = s_trace s ++ dns_exchange un sv host reply /\
                definite (fst (dnsServerLookup un sv ctx host s)) = dns_definite reply.
Proof.
  unfold dnsServerLookup. rewrite bind_run, perform_run. cbn [fst snd].
  exists (fst (w_resolver sv (host +:+ ".") ctx (s_world s))). split; [done|].
  unfold definite, dns_definite. cbn.
  destruct (rr_result _) as [err|ips]; [|done]. destruct (errors_As _ err) as [[text []]|]; [done| |done].
  by destruct (negb _).
Qed.

Lemma dohJSONQuery_asked ctx un ep host q s :
  exists reply, s_trace (snd (dohJSONQuery ctx un ep host q s)) = s_trace s ++ doh_exchange un ep host reply /\
    match snd (fst (dohJSONQuery ctx un ep host q s)) with
    | (_, None) => doh_verdict reply = DohRecords
    | (_, Some e) => doh_verdict reply <> DohRecords /\ errors_Is e errNotFound = settles (doh_verdict reply)
    end.
Proof.
  unfold dohJSONQuery. rewrite bind_run, perform_run. cbn [fst snd].
  match goal with |- context [w_http ?u ?c ?w] => exists (fst (w_http u c w)); generalize (fst (w_http u c w)) end.
  intros reply. split; [done|]. unfold doh_verdict. cbn.
  destruct (hr_result reply) as [err|[code [err|d]]]; cbn.
  1,2: by destruct (errors_Is err errNotFound).
  destruct (Status d =? 3); [done|]. by destruct (code =? 200), (Status d =? 0).
Qed.

Lemma definite_doh (e : error) (b : bool) :
  errors_Is (if b && negb (errors_Is e errNotFound)
             then Errorf (Error errUnreachable +:+ ": " +:+ Error e) (Some errUnreachable) else e) errNotFound
  = errors_Is e errNotFound.
Proof. destruct b; [|done]. by destruct (errors_Is e errNotFound) eqn:E. Qed.

Lemma upstream_lookup_asked u ctx host s :
  exists evs, s_trace (snd (upstream_lookup u ctx host s)) = s_trace s ++ evs /\
    asked (dohHost (s_dns s)) host u (definite (fst (upstream_lookup u ctx host s))) evs.
Proof.
  unfold upstream_lookup. destruct (lookupBy u) as [|sv] eqn:El.
  2:{ destruct (dnsServerLookup_asked (name u) sv ctx host s) as (reply & Et & ->).
      eexists. split; [exact Et|]. by constructor. }
  unfold dohLookup. rewrite bind_run. cbn [gets fst snd doh_loop]. set (ep := dohHost (s_dns s)).
  rewrite bind_run. destruct (dohJSONQuery_asked ctx (name u) ep host dohQueryA s) as (r1 & Et1 & Hv1).
  destruct (dohJSONQuery ctx (name u) ep host dohQueryA s) as [[got1 [l1 [e1|]]] s1]; cbn [fst snd] in *.
  { exists (doh_exchange (name u) ep host r1). destruct Hv1 as [Hv1 Hn]. split; [exact Et1|].
    unfold definite. cbn [fst snd mret M_ret]. rewrite definite_doh, Hn. by constructor. }
  rewrite bind_run. destruct (dohJSONQuery_asked ctx (name u) ep host dohQueryAAAA s1) as (r2 & Et2 & Hv2).
  exists (doh_exchange (name u) ep host r1 ++ doh_exchange (name u) ep host r2).
  destruct (dohJSONQuery ctx (name u) ep host dohQueryAAAA s1) as [[got2 [l2 [e2|]]] s2]; cbn [fst snd] in *.
  - destruct Hv2 as [Hv2 Hn]. split; [cbn; by rewrite Et2, Et1, (assoc_L (++))|].
    unfold definite. cbn [fst snd mret M_ret]. rewrite definite_doh, Hn. by constructor.
  - split; [cbn; by rewrite Et2, Et1, (assoc_L (++))|].
    replace (definite _) with (settles (doh_verdict r2)); [by constructor|]. rewrite Hv2. cbn.
    by destruct (bool_decide _).
Qed.

(** *** The loop *)

(** The resolver at an index of a list is the one given, up to its counters. *)
Definition same_at (us : list upstream) (i : nat) (u : upstream) : Prop :=
  exists u', us !! i = Some u' /\ name u' = name u /\ lookupBy u' = lookupBy u.
Lemma same_at_ids us us' i u :
  (fun u => (name u, lookupBy u)) <$> us' = (fun u => (name u, lookupBy u)) <$> us -> same_at us i u -> same_at us' i u.
Proof.
  intros E (u1 & Hi & En & El). assert (E' := f_equal (fun l => l !! i) E). cbn in E'.
  rewrite !list_lookup_fmap, Hi in E'. destruct (us' !! i) as [u2|] eqn:E2; simplify_eq/=.
  exists u2. split_and!; [done|congruence..].
Qed.
Lemma asked_same ep host u u' b evs : name u' = name u -> lookupBy u' = lookupBy u ->
  asked ep host u' b evs -> asked ep host u b evs.
Proof.
  intros En El Ha. destruct Ha; rewrite ?En; rewrite El in Hl; [by apply asked_dns|by apply asked_doh_first|by apply asked_doh_both].
Qed.

Definition loop_post ep host (us : list upstream) s (r : (lookupResult * option error) * Sys W) : Prop :=
  exists evs, s_trace (snd r) = s_trace s ++ evs /\ lookup_trace ep host us (r_authoritative (fst (fst r))) evs.
Definition loop_pre ep (us : list upstream) (active : list nat) s : Prop :=
  localOnNXDomain (s_dns s) = false /\ dohHost (s_dns s) = ep /\ Forall2 (same_at (tunnel (s_dns s))) active us.

Lemma loop_pre_frame ep us active s s' : frame s s' -> loop_pre ep us active s -> loop_pre ep us active s'.
Proof.
  intros (_ & _ & _ & En & Eh & Et) (Hn & He & Hus). unfold loop_pre. rewrite En, Eh. split_and!; try done.
  eapply Forall2_impl; [exact Hus|]. intros i u. by apply same_at_ids.
Qed.
(** Steps without events on the way. *)
Lemma loop_quiet {A} (Pre : Sys W -> Prop) ep host us (m : M (Sys W) A) k s :
  (forall s s', frame s s' -> Pre s -> Pre s') -> keeps frame m -> (forall P, keeps (emits P) m) -> Pre s ->
  (forall a s1, Pre s1 -> loop_post ep host us s1 (k a s1)) -> loop_post ep host us s ((m ≫= k) s).
Proof.
  intros HP Hf He Hs Hk. rewrite bind_run. destruct (Hk (fst (m s)) (snd (m s))) as (evs & Et & Ht); [eapply HP; [apply Hf|done]|].
  exists evs. split; [|done]. by rewrite Et, trace_same.
Qed.
Definition settled_post s (r : (lookupResult * option error) * Sys W) : Prop :=
  s_trace (snd r) = s_trace s /\ r_authoritative (fst (fst r)) = true.
Lemma settled_quiet {A} (m : M (Sys W) A) (k : A -> M (Sys W) (lookupResult * option error)) s :
  keeps frame m -> (forall P, keeps (emits P) m) -> localOnNXDomain (s_dns s) = false ->
  (forall a s1, localOnNXDomain (s_dns s1) = false -> settled_post s1 (k a s1)) -> settled_post s ((m ≫= k) s).
Proof.
  intros Hf He Hs Hk. rewrite bind_run. destruct (Hk (fst (m s)) (snd (m s))) as [Et Ha].
  { destruct (Hf s) as (_ & _ & _ & -> & _). done. }
  split; [|done]. by rewrite Et, trace_same.
Qed.

(** With the option off, not found is settled without the local resolver, *)
Lemma notFound_settled ctx host s : localOnNXDomain (s_dns s) = false -> settled_post s (notFound ctx host s).
Proof. intros Hn. unfold notFound. rewrite bind_run. cbn [gets fst snd]. by rewrite Hn. Qed.
(** which is asked once no resolver is left. *)
Lemma lookup_fallback_trace ep ctx host s : localOnNXDomain (s_dns s) = false ->
  loop_post ep host [] s (lookup_fallback ctx host s).
Proof.
  intros Hn. exists [EvLocal host]. unfold lookup_fallback, time_now, lookupLocal, on_dns, modify, gets, silent.
  rewrite bind_run, perform_run, bind_run. cbn [fst snd]. rewrite !bind_run, perform_run. cbn [fst snd s_dns].
  destruct (fst (w_local _ _ _)) as [e|ips]; cbn; rewrite !bind_run; cbn; rewrite Hn; cbn;
    rewrite app_nil_r; (split; [done|constructor]).
Qed.
(** One failed resolver before the rest. *)
Lemma loop_failed ep host u us s s' evs r : s_trace s' = s_trace s ++ evs -> asked ep host u false evs ->
  loop_post ep host us s' r -> loop_post ep host (u :: us) s r.
Proof.
  intros Et Ha (rest & Er & Ht). exists (evs ++ rest). rewrite Er, Et, (assoc_L (++)). split; [done|by constructor].
Qed.
#[local] Ltac quiet :=
  match goal with Hp : loop_pre ?e ?u ?a ?s |- loop_post _ _ _ ?s _ =>
    apply (loop_quiet (loop_pre e u a));
    [intros ? ?; apply loop_pre_frame|solve [auto with gate]|solve [auto with gate]|exact Hp|clear Hp; intros ? ? ?]
  end.
#[local] Ltac settled := apply settled_quiet;
  [solve [auto with gate]|solve [auto with gate]|assumption|intros ? ? ?].

Lemma lookup_loop_trace ep ctx tctx dl host active us s :
  loop_pre ep us active s -> loop_post ep host us s (lookup_loop ctx tctx dl host active s).
Proof.
  revert us s. induction active as [|i l IH]; intros us s Hpre; cbn [lookup_loop].
  { destruct Hpre as (Hn & _ & Hus). apply Forall2_nil_inv_l in Hus as ->. by apply lookup_fallback_trace. }
  destruct us as [|u us]; [by destruct Hpre as (_ & _ & Hus); inversion Hus|].
  do 3 quiet. rewrite bind_run. cbn [gets fst snd].
  match goal with Hp : loop_pre _ _ _ ?s0 |- loop_post _ _ _ ?s0 _ => revert Hp; generalize s0 end.
  intros t (Hn & <- & Hus). apply Forall2_cons in Hus as [(u' & Eu & En & El) Hus]. rewrite Eu, bind_run.
  pose proof (upstream_lookup_frame u' a0 host t) as Hf.
  destruct (upstream_lookup_asked u' a0 host t) as (evs & Et & Ha). apply (asked_same _ _ u) in Ha; [|done..].
  assert (Hpre1 : loop_pre (dohHost (s_dns t)) us l (snd (upstream_lookup u' a0 host t)))
    by (eapply loop_pre_frame; [exact Hf|done]).
  destruct (upstream_lookup u' a0 host t) as [[addrs err] t']. cbn [fst snd] in *.
  assert (Hset : forall r, definite (addrs, err) = true -> settled_post t' r -> loop_post (dohHost (s_dns t)) host (u :: us) t r).
  { intros r Hd [Etr Hauth]. rewrite Hd in Ha. exists evs. rewrite Etr, Hauth. split; [done|by constructor]. }
  destruct err as [e|]; [destruct (errors_Is e errNotFound) eqn:Ee|].
  - apply Hset; [done|]. destruct Hpre1 as [Hn1 _]. settled. cbv zeta. settled. by apply notFound_settled.
  - eapply loop_failed; [exact Et|by unfold definite in Ha; cbn in Ha; rewrite Ee in Ha|]. cbv iota beta zeta.
    do 2 quiet. by apply IH.
  - apply Hset; [done|]. destruct Hpre1 as [Hn1 _]. settled. cbv zeta. settled. done.
Qed.

Lemma claim_all_usable now k (us pre : list upstream) : length pre = k ->
  Forall2 (same_at (pre ++ snd (claim_all now k us))) (fst (claim_all now k us)) (usable now us).
Proof.
  revert k pre. induction us as [|u us IH]; intros k pre Hk; cbn [claim_all]; [constructor|].
  unfold usable. rewrite filter_cons. pose proof (claim_ids now u) as [En El].
  destruct (claim now u) as [b u1]. cbn in En, El. specialize (IH (S k) (pre ++ [u1])).
  rewrite length_app in IH. cbn in IH. specialize (IH ltac:(lia)).
  destruct (claim_all now (S k) us) as [l us1]. cbn in *. rewrite <- app_assoc in IH. cbn in IH.
  destruct b; cbn; [|exact IH]. constructor; [|exact IH].
  exists u1. split; [|done]. rewrite <- Hk. by rewrite list_lookup_middle.
Qed.

(** What the claim loop leaves. *)
Lemma claim_pre host s (now := fst (time_now s)) (r := claim_upstreams now (snd (time_now s))) :
  localOnNXDomain (s_dns s) = false ->
  loop_pre (dohHost (s_dns s)) (usable (fst (w_now (s_world s))) (tunnel (s_dns s))) (fst r) (snd r) /\
  s_trace (snd r) = s_trace s.
Proof.
  intros Hn. split; [|subst r; rewrite !trace_same; auto with gate].
  subst r now. unfold time_now. rewrite perform_run. cbn [fst snd]. set (now := fst (w_now (s_world s))).
  pose proof (claim_all_usable now 0 (tunnel (s_dns s)) [] eq_refl) as Hus.
  unfold claim_upstreams. cbn [s_dns]. destruct (claim_all now 0 (tunnel (s_dns s))) as [active us]. done.
Qed.

(** C8: with LOCAL_DNS_ON_NXDOMAIN off, a name goes to the local resolver only
    when no tunnel resolver settled it.  The resolvers that may be used at the
    time the lookup began are asked in their order, each after the one before
    failed (no answer, an error reply, an undecodable body); the first that
    settles the name, with addresses, with none or with NXDOMAIN, ends the
    lookup, whose result is authoritative and for which the local resolver is
    not asked; when all failed the local resolver is asked, once and last,
    and the result is not authoritative. *)
Theorem lookup_local_only_as_fallback ctx host s r s'
    (Hoff : localOnNXDomain (s_dns s) = false) (Hrun : lookup ctx host s = (r, s')) :
  exists evs, s_trace s' = s_trace s ++ evs /\
    lookup_trace (dohHost (s_dns s)) host (usable (fst (w_now (s_world s))) (tunnel (s_dns s)))
      (r_authoritative (fst r)) evs.
Proof.
  set (now := fst (w_now (s_world s))). set (us := usable now (tunnel (s_dns s))).
  assert (Hl : loop_post (dohHost (s_dns s)) host us s (lookup ctx host s)); [|by rewrite Hrun in Hl].
  unfold lookup. do 2 rewrite bind_run. destruct (claim_pre host s Hoff) as [Hpre Et0]. fold now us in Hpre.
  revert Hpre Et0. generalize (snd (claim_upstreams (fst (time_now s)) (snd (time_now s)))).
  generalize (fst (claim_upstreams (fst (time_now s)) (snd (time_now s)))). intros active s0 Hpre Et0.
  unfold loop_post. rewrite <- Et0.
  match goal with |- exists evs, s_trace (snd ?r) = _ /\ _ => change (loop_post (dohHost (s_dns s)) host us s0 r) end.
  quiet. rewrite bind_run.
  match goal with |- context [lookup_loop ?c ?t ?d ?h ?act ?s1] =>
    destruct (lookup_loop_trace (dohHost (s_dns s)) c t d h act us s1 ltac:(assumption)) as (evs & Et & Ht);
    destruct (lookup_loop c t d h act s1) as [r1 s3] end.
  by exists evs.
Qed.
End Leak.

(** Two resolvers. *)
Definition demo_cache (onNX : bool) : dnsCache :=
  let c := SetTunnelDNS ["1.1.1.1:53"; "8.8.8.8:53"] new_dnsCache in
  MkCache ∅ (ttl c) (negativeTTL c) false 0 "" false (tunnel c) onNX 0 0.
Definition demo_world (dns : list resolverReply) (local : list (error + list (list ascii))) : script :=
  MkScript (1000 * Second) true dns [] local [] [].

(** The first is silent and the second knows no such name: the local resolver
    is not asked. *)
Definition nx_reply : resolverReply := MkResolverReply [true] (inl (net_DNSError "no such host" true false)).
Lemma lookup_local_only_as_fallback_witness :
  let s := MkSys (demo_cache false) (demo_world [MkResolverReply [true] (inl timeout_error); nx_reply] []) [] in
  exists evs, s_trace (snd (lookup None "example.com" s)) = evs /\
    lookup_trace "" "example.com" (tunnel (demo_cache false)) true evs /\
    length evs = 4%nat /\ Forall is_upstream evs.
Proof.
  intros s. destruct (lookup_local_only_as_fallback None "example.com" s _ _ eq_refl (surjective_pairing _))
    as (evs & Et & Ht).
  exists evs. split; [exact Et|]. vm_compute in Et. subst evs.
  split; [exact Ht|]. split; [reflexivity|repeat constructor].
Defined.

(** ** Pauses *)

(** A resolver to which no channel could be opened while the tunnel is up
    is not used for the ten seconds of the pause; from then on one lookup may
    probe it, and while that probe is out no other lookup is allowed. *)
Theorem unreachable_pauses (u : upstream) (now t : Z) (err : error) (Hp : probing u = false)
    (Hnow : 0 <= now) :
  let u1 := failed false now err u in
  (t < now + upstreamPause -> claim t u1 = (false, u1)) /\
  (now + upstreamPause <= t ->
     claim t u1 = (true, set_probing true u1) /\
     forall t', claim t' (set_probing true u1) = (false, set_probing true u1)).
Proof.
  cbv zeta. unfold claim, IsZero. cbn [failed set_probing pausedUntil probing]. rewrite Hp.
  unfold time_Add, time_zero, upstreamPause, Before, Second in *.
  split; intros Ht; [|split; [|intros t']]; cases_lia; done.
Qed.

Section NoPause.
Context {W : Type} `{World W}.
Implicit Types (s : Sys W) (ctx : Ctx) (host key : string).

(** A world in which every channel to a resolver opens; errors of the
    standard library do not wrap this package's variables. *)
Definition foreign (e : error) : Prop := errors_Is e errUnreachable = false.
Definition open_reply (r : resolverReply) : Prop :=
  rr_opened r = true /\ match rr_result r with inl e => foreign e | _ => True end.
Definition open_http (r : httpReply) : Prop :=
  hr_connected r = true /\
  match hr_result r with inl e | inr (_, inl e) => foreign e | _ => True end.
Definition channels_open : Prop :=
  (forall server q ctx w, open_reply (fst (w_resolver server q ctx w))) /\
  (forall url ctx w, open_http (fst (w_http url ctx w))).

(** No resolver goes from usable to paused. *)
Definition stays_usable s s' : Prop :=
  forall i u', tunnel (s_dns s') !! i = Some u' ->
    exists u, tunnel (s_dns s) !! i = Some u /\
              (pausedUntil u = time_zero -> pausedUntil u' = time_zero).
#[local] Instance stays_usable_refl : Reflexive stays_usable.
Proof. intros s i u' E. eauto. Qed.
#[local] Instance stays_usable_trans : Transitive stays_usable.
Proof.
  intros s1 s2 s3 H12 H23 i u3 E3. destruct (H23 i u3 E3) as (u2 & E2 & P2).
  destruct (H12 i u2 E2) as (u1 & E1 & P1). eauto.
Qed.

Lemma stays_usable_same s s' : tunnel (s_dns s') = tunnel (s_dns s) -> stays_usable s s'.
Proof. intros E i u' Eu. rewrite E in Eu. eauto. Qed.
Lemma perform_usable {A} evs (op : W -> A * W) : keeps stays_usable (perform evs op).
Proof. intros s. apply stays_usable_same. by rewrite perform_dns. Qed.
Lemma gets_usable {A} (f : Sys W -> A) : keeps stays_usable (gets f).
Proof. intros s. reflexivity. Qed.
Lemma ret_usable {A} (a : A) : keeps stays_usable (mret a : M (Sys W) A).
Proof. intros s. reflexivity. Qed.
Lemma count_fallback_usable z : keeps stays_usable (on_dns (W := W) (count_fallback z)).
Proof. intros s. by apply stays_usable_same. Qed.
Lemma upd_usable i f :
  (forall u, pausedUntil u = time_zero -> pausedUntil (f u) = time_zero) ->
  keeps stays_usable (upd_upstream (W := W) i f).
Proof.
  intros Hf s j u' E. cbn in E. rewrite list_lookup_alter in E. case_decide; [subst j|eauto].
  destruct (tunnel (s_dns s) !! i) as [u|]; [|done]. cbn in E. simplify_eq. eauto.
Qed.
Lemma claim_usable now : keeps stays_usable (claim_upstreams (W := W) now).
Proof.
  intros s i u'. unfold claim_upstreams.
  assert (Hc : forall us k, snd (claim_all now k us) !! i = Some u' ->
    exists u, us !! i = Some u /\ (pausedUntil u = time_zero -> pausedUntil u' = time_zero)).
  { revert i. intros i us. revert i. induction us as [|u us IH]; intros i k; [done|].
    cbn [claim_all]. specialize (IH (pred i) (S k)).
    assert (Hu : pausedUntil (snd (claim now u)) = pausedUntil u)
      by (unfold claim; repeat split_if; done).
    destruct (claim now u) as [b u1], (claim_all now (S k) us) as [l us1]. cbn in *.
    destruct i as [|i]; cbn; [|apply IH]. intros [= <-]. exists u. by rewrite Hu. }
  specialize (Hc (tunnel (s_dns s)) 0%nat).
  destruct (claim_all now 0 (tunnel (s_dns s))) as [l us]. apply Hc.
Qed.
Lemma release_usable l : keeps stays_usable (releaseProbes (W := W) l).
Proof.
  intros s i u'. unfold releaseProbes. cbn. revert u'. induction l as [|k l IH]; intros u'; cbn; [eauto|].
  rewrite list_lookup_alter. case_decide; [subst k|apply IH].
  destruct (foldr _ _ l !! i) as [u|]; [|done]. cbn. intros [= <-].
  destruct (IH u eq_refl) as (u0 & E0 & P0). exists u0. by split.
Qed.
#[local] Hint Resolve perform_usable gets_usable ret_usable count_fallback_usable claim_usable release_usable : gate.

Lemma time_now_usable : keeps stays_usable (time_now (W := W)).
Proof. apply perform_usable. Qed.
Lemma tunnelUp_usable : keeps stays_usable (tunnelUp (W := W)).
Proof. apply perform_usable. Qed.
Lemma WithTimeout_usable ctx d : keeps stays_usable (WithTimeout (W := W) ctx d).
Proof. unfold WithTimeout. walk. apply time_now_usable. Qed.
#[local] Hint Resolve time_now_usable tunnelUp_usable WithTimeout_usable : gate.
Lemma lookupLocal_usable ctx host : keeps stays_usable (lookupLocal (W := W) ctx host).
Proof. unfold lookupLocal. walk. Qed.
Lemma upstream_lookup_usable u ctx host : keeps stays_usable (upstream_lookup (W := W) u ctx host).
Proof. unfold upstream_lookup, dohLookup, dnsServerLookup. walk. Qed.
Lemma answered_usable i rtt : keeps stays_usable (upstreamAnswered (W := W) i rtt).
Proof. unfold upstreamAnswered. walk. by apply upd_usable. Qed.
Lemma failed_usable i e : foreign e -> keeps stays_usable (upstreamFailed (W := W) i e).
Proof. unfold upstreamFailed. intros ->. walk. by apply upd_usable. Qed.
#[local] Hint Resolve lookupLocal_usable upstream_lookup_usable answered_usable failed_usable : gate.

(** With open channels the error of a resolver is never [errUnreachable]. *)
Definition err_foreign (r : list Addr * option error) : Prop :=
  match snd r with Some e => foreign e | None => True end.
Lemma returns_perform {A} (Q : A -> Prop) evs (op : W -> A * W) :
  (forall w, Q (fst (op w))) -> returns Q (perform evs op).
Proof. intros HQ s. rewrite perform_run. apply HQ. Qed.

Lemma dnsServerLookup_foreign (Ho : channels_open) un srv ctx host :
  returns err_foreign (dnsServerLookup (W := W) un srv ctx host).
Proof.
  unfold dnsServerLookup. apply (returns_bind open_reply); [apply returns_perform, (proj1 Ho)|].
  intros reply [Hop Hres]. apply returns_ret. unfold err_foreign. rewrite Hop.
  destruct (rr_result reply) as [e|ips]; [|done]. destruct (errors_As _ e) as [[t []]|]; done.
Qed.
Lemma doh_loop_foreign (Ho : channels_open) ctx un ep host b qs out :
  returns err_foreign (doh_loop (W := W) ctx un ep host b qs out).
Proof.
  revert b out. induction qs as [|q qs IH]; intros b out; cbn [doh_loop].
  { apply returns_ret. unfold err_foreign. by split_if. }
  eapply (returns_bind (fun r => fst r = true /\ err_foreign (snd r))).
  - unfold dohJSONQuery. apply (returns_bind open_http); [apply returns_perform, (proj2 Ho)|].
    intros [nd rd con res] [Hc Hr]. cbn in *. apply returns_ret. split; [done|]. unfold err_foreign.
    destruct res as [e|[code [e|d]]]; try done. cbn. by repeat split_if.
  - intros [got [l [e|]]] [Hg He]; cbn in *; subst got; [|apply IH].
    apply returns_ret. rewrite orb_true_r. cbn. done.
Qed.
Lemma upstream_lookup_foreign (Ho : channels_open) u ctx host :
  returns err_foreign (upstream_lookup (W := W) u ctx host).
Proof.
  unfold upstream_lookup, dohLookup. destruct (lookupBy u); [|by apply dnsServerLookup_foreign].
  eapply returns_bind; [apply returns_any|]. intros ep _. by apply doh_loop_foreign.
Qed.

Lemma lookup_loop_usable (Ho : channels_open) ctx tctx dl host active :
  keeps stays_usable (lookup_loop (W := W) ctx tctx dl host active).
Proof.
  induction active as [|i l IH]; cbn [lookup_loop]; [unfold lookup_fallback; walk|].
  do 4 (apply keeps_bind; [typeclasses eauto|solve [auto with gate]|intros ?]).
  case_match; [|done].
  eapply keeps_bind_ret; [typeclasses eauto|solve [auto with gate]|by apply upstream_lookup_foreign|].
  intros [as' [e|]] He; cbn in He; walk.
Qed.

(** C9: no name can switch a tunnel resolver off: as long as channels to the
    resolvers open, whatever they answer (SERVFAIL, silence, garbage) a lookup
    of any name leaves every usable resolver usable. *)
Theorem broken_names_never_pause (Ho : channels_open) ctx host s i u u'
    (Hu : tunnel (s_dns s) !! i = Some u) (Hz : pausedUntil u = time_zero)
    (Hu' : tunnel (s_dns (snd (lookup ctx host s))) !! i = Some u') :
  pausedUntil u' = time_zero.
Proof.
  assert (Hk : keeps stays_usable (lookup (W := W) ctx host)).
  { unfold lookup. walk. by apply lookup_loop_usable. }
  destruct (Hk s i u' Hu') as (u0 & E & P). rewrite Hu in E. simplify_eq. by apply P.
Qed.
End NoPause.

Lemma unreachable_pauses_witness :
  claim (5 * Second) (failed false 0 timeout_error (new_upstream "1.1.1.1" dohLookupFn))
  = (false, failed false 0 timeout_error (new_upstream "1.1.1.1" dohLookupFn)).
Proof.
  apply (unreachable_pauses (new_upstream "1.1.1.1" dohLookupFn) 0 (5 * Second) timeout_error
           eq_refl ltac:(lia)).
  reflexivity.
Defined.

Lemma broken_names_never_pause_witness :
  let s : Sys unit := MkSys (demo_cache false) tt [] in
  exists u', tunnel (s_dns (snd (lookup None "broken.example" s))) !! 0%nat = Some u' /\
             pausedUntil u' = time_zero /\ fail u' = 1.
Proof.
  intros s. eexists. split; [vm_compute; reflexivity|]. split; [|reflexivity].
  eapply (broken_names_never_pause (H := silent_world) (conj (fun _ _ _ _ => conj eq_refl eq_refl)
           (fun _ _ _ => conj eq_refl eq_refl)) None "broken.example" s 0
           (new_upstream "1.1.1.1" (dnsServerLookupFn "1.1.1.1:53")) _ eq_refl eq_refl).
  vm_compute. reflexivity.
Defined.
