(* ===== verification/CacheProps.v ===== *)
(** The cache of dns.go: what is stored, what is replayed, what is evicted. *)

From S2P Require Import Prelude GoStrings NetIP Errors Rules World Dns DnsFacts DnsProps.

(** ** Eviction *)

(** What the eviction loop has found after visiting [seen]: nothing yet, or
    an entry that expires no later than any entry seen. *)
Definition oldest_inv (m : gmap string cacheEntry) (seen : list string) (st : string * Z) : Prop :=
  (seen = [] /\ fst st = "") \/
  (exists v, m !! fst st = Some v /\ snd st = expires v /\
     forall k' v', k' ∈ seen -> m !! k' = Some v' -> expires v <= expires v').

Lemma oldest_spec (m : gmap string cacheEntry) (order : list string) :
  m !! "" = None -> Forall (fun k => is_Some (m !! k)) order -> oldest_inv m order (oldest m order).
Proof.
  intros Hroot. unfold oldest. induction order as [|k order IH] using rev_ind; intros Hall; [by left|].
  apply Forall_app in Hall as [Hall Hk]. apply Forall_singleton in Hk as [v Hv].
  rewrite foldl_app. cbn [foldl]. specialize (IH Hall). revert IH.
  generalize (foldl (fun '(oldestKey, oldestTime) k =>
           match m !! k with
           | None => (oldestKey, oldestTime)
           | Some v =>
               if String.eqb oldestKey "" || Before (expires v) oldestTime
               then (k, expires v) else (oldestKey, oldestTime)
           end) ("", time_zero) order). intros [ok ot] Hst. rewrite Hv. cbn [fst snd] in *.
  destruct Hst as [[-> Hk]|(v0 & Hv0 & Hot & Hmin)]; right; cbn [fst snd] in *.
  - subst ok. cbn. exists v. split_and!; [done|done|].
    intros k' v' Hin%list_elem_of_singleton Hv'. simplify_eq. lia.
  - destruct (String.eqb_spec ok "") as [->|_]; [congruence|]. cbn [orb].
    unfold Before. subst ot. destruct (Z.ltb_spec (expires v) (expires v0)).
    + exists v. split_and!; [done|done|]. intros k' v' [Hin|Hin%list_elem_of_singleton]%elem_of_app Hv'.
      * specialize (Hmin k' v' Hin Hv'). lia.
      * simplify_eq. lia.
    + exists v0. split_and!; [done|done|]. intros k' v' [Hin|Hin%list_elem_of_singleton]%elem_of_app Hv'.
      * by eapply Hmin.
      * simplify_eq. lia.
Qed.

Lemma visits_keys_lookup (m : gmap string cacheEntry) (order : list string) :
  visits order (fst <$> map_to_list m) ->
  Forall (fun k => is_Some (m !! k)) order /\ (forall k v, m !! k = Some v -> k ∈ order).
Proof.
  unfold visits. intros Hp. split.
  - apply Forall_forall. intros k Hk. rewrite Hp in Hk.
    apply list_elem_of_fmap in Hk as ([k' v] & -> & Hkv). apply elem_of_map_to_list in Hkv. by exists v.
  - intros k v Hk. rewrite Hp. apply list_elem_of_fmap. exists (k, v). split; [done|].
    by apply elem_of_map_to_list.
Qed.

Lemma evict_spec (m : gmap string cacheEntry) (order : list string)
    (Hne : m <> ∅) (Hroot : m !! "" = None) (Hord : visits order (fst <$> map_to_list m)) :
  exists k v, m !! k = Some v /\ evict m order = delete k m /\
    forall k' v', m !! k' = Some v' -> expires v <= expires v'.
Proof.
  destruct (visits_keys_lookup m order Hord) as [Hall Hin].
  destruct (oldest_spec m order Hroot Hall) as [[-> _]|(v & Hv & _ & Hmin)].
  - exfalso. apply Hne. apply map_eq. intros k. destruct (m !! k) as [v|] eqn:E; [|by rewrite lookup_empty].
    apply Hin in E. by apply not_elem_of_nil in E.
  - exists (fst (oldest m order)), v. split; [done|]. split; [|eauto].
    unfold evict. cbv zeta. destruct (String.eqb_spec (fst (oldest m order)) "") as [E|]; [|done].
    rewrite E in Hv. congruence.
Qed.

(** A full cache makes room by dropping an entry that expires first,
    whatever order the map is visited in, provided the cache holds no entry
    for the empty name. *)
Theorem evict_drops_earliest (m : gmap string cacheEntry) (order : list string)
    (Hne : m <> ∅) (Hroot : m !! "" = None) (Hord : visits order (fst <$> map_to_list m)) :
  exists k v, m !! k = Some v /\ evict m order = delete k m /\
    forall k' v', m !! k' = Some v' -> expires v <= expires v'.
Proof. by apply evict_spec. Qed.

Definition demo_entry (t : Z) : cacheEntry := MkEntry [Addr4 1] t false false.

Lemma evict_drops_earliest_witness :
  let m := <["a" := demo_entry 5]> (<["b" := demo_entry 3]> ∅) : gmap string cacheEntry in
  exists k v, m !! k = Some v /\ evict m ["a"; "b"] = delete k m /\
    forall k' v', m !! k' = Some v' -> expires v <= expires v'.
Proof.
  cbv zeta. apply evict_drops_earliest.
  - apply insert_non_empty.
  - reflexivity.
  - apply Permutation_swap || reflexivity.
Defined.

(** Visiting only non-empty names, the loop holds one of them. *)
Lemma oldest_nonroot (m : gmap string cacheEntry) (order : list string) :
  Forall (fun k => k <> "" /\ is_Some (m !! k)) order ->
  fst (oldest m order) = "" \/
  exists v, fst (oldest m order) <> "" /\ m !! fst (oldest m order) = Some v /\
            snd (oldest m order) = expires v.
Proof.
  unfold oldest. induction order as [|k order IH] using rev_ind; intros Hall; [by left|].
  apply Forall_app in Hall as [Hall Hk]. apply Forall_singleton in Hk as [Hk [v Hv]].
  specialize (IH Hall). rewrite foldl_app. cbn [foldl].
  match goal with |- context [foldl ?f ?a order] => destruct (foldl f a order) as [ok ot] end.
  rewrite Hv. split_if; right; cbn in *; [eauto|].
  apply orb_false_iff in Heqb as [Hb _]. apply String.eqb_neq in Hb.
  destruct IH as [?|(v' & ? & ? & ?)]; [done|eauto].
Qed.

(** The empty name (what the host "." normalizes to) defeats the
    eviction: when its entry is the first to expire and the map is visited
    with it last, nothing is evicted, so a full cache grows. *)
Theorem evict_skipped_for_root_name (m : gmap string cacheEntry) (order : list string) (v : cacheEntry)
    (Hv : m !! "" = Some v)
    (Hfirst : forall k v', k <> "" -> m !! k = Some v' -> expires v < expires v')
    (Hord : Forall (fun k => k <> "" /\ is_Some (m !! k)) order) :
  evict m (order ++ [""]) = m.
Proof.
  pose proof (oldest_nonroot m order Hord) as Ho. revert Ho.
  unfold evict, oldest. rewrite foldl_app. cbn [foldl].
  match goal with |- context [foldl ?f ?a order] => destruct (foldl f a order) as [ok ot] end.
  rewrite Hv. cbn [fst snd]. intros [->|(v' & Hk & Hv' & ->)]; [done|].
  specialize (Hfirst _ _ Hk Hv'). unfold Before.
  rewrite (proj2 (Z.ltb_lt _ _) Hfirst), orb_true_r. done.
Qed.

Lemma evict_skipped_for_root_name_witness :
  let m := <["" := MkEntry [] 1 true false]> (<["a" := demo_entry 5]> ∅) : gmap string cacheEntry in
  normalizeHost "." = "" /\ evict m (["a"] ++ [""]) = m.
Proof.
  cbv zeta. split; [reflexivity|].
  apply (evict_skipped_for_root_name _ _ (MkEntry [] 1 true false)).
  - reflexivity.
  - intros k v' Hk E. rewrite lookup_insert_ne in E by congruence.
    apply lookup_insert_Some in E as [[<- <-]|[_ E]]; [reflexivity|]. by rewrite lookup_empty in E.
  - constructor; [|constructor]. split; [discriminate|]. by eexists.
Defined.

(** ** Size *)

(** In a cache without an entry for the empty name, storing an entry
    never takes the cache over its limit of 1000 entries. *)
Theorem store_bounded {W : Type} `{World W} (s : Sys W) (key : string) (e : cacheEntry)
    (Hroot : cache (s_dns s) !! "" = None)
    (Hsize : Z.of_nat (size (cache (s_dns s))) <= dnsCacheMaxSize) :
  Z.of_nat (size (cache (s_dns (snd (store key e s))))) <= dnsCacheMaxSize.
Proof.
  unfold store. rewrite bind_run. cbn [gets fst snd].
  destruct (Z.leb_spec dnsCacheMaxSize (Z.of_nat (size (cache (s_dns s))))).
  - rewrite bind_run. unfold range_keys. rewrite perform_run. cbn [fst snd on_dns modify s_dns].
    cbn [with_cache cache].
    set (order := fst (w_range _ _)).
    destruct (evict_spec (cache (s_dns s)) order) as (k & v & Hk & -> & _).
    + intros E. rewrite E, map_size_empty in *. unfold dnsCacheMaxSize in *. lia.
    + done.
    + apply w_range_perm.
    + pose proof (map_size_delete_Some k (cache (s_dns s)) (mk_is_Some _ _ Hk)) as Hd.
      pose proof (map_size_insert_le key e (delete k (cache (s_dns s)))) as Hi.
      unfold dnsCacheMaxSize in *. lia.
  - cbn [on_dns modify s_dns snd with_cache cache].
    pose proof (map_size_insert_le key e (cache (s_dns s))). lia.
Qed.

Lemma store_bounded_witness :
  Z.of_nat (size (cache (s_dns (snd (store "a" (demo_entry 1)
    (MkSys (demo_cache false) (demo_world [] []) [])))))) <= dnsCacheMaxSize.
Proof. apply store_bounded; [reflexivity|]. vm_compute. discriminate. Defined.

(** ** What is stored and replayed *)

Section Replay.
Context {W : Type} `{World W}.
Context (lk : Ctx -> string -> M (Sys W) (lookupResult * option error)).
Context (lk_frame : forall ctx h, keeps frame (lk ctx h)).
Implicit Types (s : Sys W) (host key : string).

Definition cached s : gmap string cacheEntry := cache (s_dns s).

Lemma cached_frame {A} (m : M (Sys W) A) s : keeps frame m -> cached (snd (m s)) = cached s.
Proof. intros Hm. apply (Hm s). Qed.

(** [store] writes its key and otherwise only drops entries. *)
Lemma store_cached key e s :
  cached (snd (store key e s)) !! key = Some e /\
  forall k x, k <> key -> cached (snd (store key e s)) !! k = Some x -> cached s !! k = Some x.
Proof.
  unfold store. rewrite bind_run. cbn [gets fst snd].
  destruct (dnsCacheMaxSize <=? _).
  - rewrite bind_run. unfold range_keys. rewrite perform_run.
    unfold cached. cbn. split; [apply lookup_insert_eq|]. intros k x Hk.
    rewrite lookup_insert_ne by done. unfold evict. cbv zeta. split_if; [done|].
    intros E. by apply lookup_delete_Some in E as [_ E].
  - unfold cached. cbn. split; [apply lookup_insert_eq|]. intros k x Hk.
    by rewrite lookup_insert_ne by done.
Qed.

(** The entry that an answer [res] of the policy is stored as. *)
Definition stored_as (res : lookupResult * option error) (e : cacheEntry) : Prop :=
  r_authoritative (fst res) = true /\
  match snd res with
  | None => neg e = false /\ addrs e = r_addrs (fst res) /\ localDirect e = r_localDirect (fst res)
  | Some err => neg e = true /\ errors_Is err errNotFound = true
  end.
Definition stores key host s s' : Prop :=
  exists ctx s0 e, stored_as (fst (lk ctx host s0)) e /\ cached s' !! key = Some e /\
    forall k x, k <> key -> cached s' !! k = Some x -> cached s !! k = Some x.

Lemma shared_lookup_stores key host s :
  let '(r, s') := shared_lookup key host lk s in
  (cached s' = cached s /\ (snd r = None -> r_authoritative (fst r) = false)) \/
  (stores key host s s' /\
   (snd r = None -> exists e, cached s' !! key = Some e /\ neg e = false /\
      addrs e = r_addrs (fst r) /\ localDirect e = r_localDirect (fst r))).
Proof.
  unfold shared_lookup. rewrite bind_run. set (ctx := fst _). set (s1 := snd _).
  assert (Hc1 : cached s1 = cached s) by apply (cached_frame (WithTimeout _ _)), WithTimeout_frame.
  rewrite bind_run. set (s2 := snd _). assert (Hc2 : cached s2 = cached s) by done.
  rewrite bind_run. pose proof (cached_frame (lk ctx host) s2 (lk_frame ctx host)) as Hc3.
  rewrite Hc2 in Hc3. destruct (lk ctx host s2) as [[res err] s3] eqn:El. cbn [fst snd] in *.
  destruct err as [e|].
  - rewrite bind_run. split_if.
    + prop_of_bool. right. rewrite !bind_run. cbn [gets fst snd mret M_ret].
      set (s4 := snd (time_now s3)).
      assert (Hc4 : cached s4 = cached s).
      { unfold s4. rewrite (cached_frame time_now); [done|apply time_now_frame]. }
      split; [|done]. destruct (store_cached key (MkEntry [] (time_Add (fst (time_now s3))
        (negativeTTL (s_dns s4))) true false) s4) as [Hk Ho].
      exists ctx, s2, (MkEntry [] (time_Add (fst (time_now s3)) (negativeTTL (s_dns s4))) true false).
      rewrite El. split_and!; [by split|done|]. rewrite <- Hc4. done.
    + left. by split.
  - split_if; [left; by split|]. rewrite bind_run. split_if; [|left; by split].
    right. rewrite !bind_run. cbn [gets fst snd mret M_ret]. set (s4 := snd (time_now s3)).
    assert (Hc4 : cached s4 = cached s).
    { unfold s4. rewrite (cached_frame time_now); [done|apply time_now_frame]. }
    set (ent := MkEntry _ _ _ _). destruct (store_cached key ent s4) as [Hk Ho]. split.
    + exists ctx, s2, ent. rewrite El. split_and!; [by split|done|]. rewrite <- Hc4. done.
    + intros _. exists ent. by split_and!.
Qed.

(** A live entry answers without any network operation. *)
Lemma cachedLookup_hit key host s e :
  ParseAddr host = None -> cached s !! key = Some e -> fst (w_now (s_world s)) < expires e ->
  cachedLookup key host lk s =
  ((if neg e then (no_result, Some (NewDNSError host errNotFound))
    else (MkResult (addrs e) true (localDirect e), None)),
   MkSys (s_dns s) (snd (w_now (s_world s))) (s_trace s)).
Proof.
  intros Hp He Ht. unfold cachedLookup. rewrite Hp, bind_run. cbn [gets fst snd].
  unfold cached in He. rewrite He, bind_run. unfold time_now. rewrite perform_run. cbn [fst snd].
  unfold Before. rewrite (proj2 (Z.ltb_lt _ _) Ht), app_nil_r. done.
Qed.

(** What one call of [cachedLookup] may do to the cache. *)
Lemma cachedLookup_stores key host s r s' :
  ParseAddr host = None -> cachedLookup key host lk s = (r, s') ->
  (cached s' = cached s \/ stores key host s s') /\
  (snd r = None -> r_authoritative (fst r) = true ->
     exists e, cached s' !! key = Some e /\ neg e = false /\
       addrs e = r_addrs (fst r) /\ localDirect e = r_localDirect (fst r)).
Proof.
  intros Hp. unfold cachedLookup. rewrite Hp, bind_run. cbn [gets fst snd].
  assert (Hshared : forall s1, cached s1 = cached s -> shared_lookup key host lk s1 = (r, s') ->
    (cached s' = cached s \/ stores key host s s') /\
    (snd r = None -> r_authoritative (fst r) = true ->
     exists e, cached s' !! key = Some e /\ neg e = false /\
       addrs e = r_addrs (fst r) /\ localDirect e = r_localDirect (fst r))).
  { intros s1 E1 Es. pose proof (shared_lookup_stores key host s1) as Hs. rewrite Es in Hs.
    unfold stores in *. rewrite E1 in Hs. destruct Hs as [[-> Hn]|[Hst Hr]]; [|eauto].
    split; [by left|]. intros Hnone Ha. specialize (Hn Hnone). congruence. }
  destruct (cache (s_dns s) !! key) as [e|] eqn:Ee; [|by apply Hshared].
  rewrite bind_run. unfold time_now. rewrite perform_run. cbn [fst snd].
  destruct (Before _ _); [|by apply Hshared].
  intros [= <- <-]. split; [by left|]. destruct (neg e) eqn:En; [done|]. cbn. eauto.
Qed.
End Replay.

Section ReplayClaims.
Context {W : Type} `{World W}.
Implicit Types (s : Sys W) (host key : string).

(** The tunnel cache holds authoritative answers only: a resolution of a
    name either leaves the cache as it was or writes the entry of that name,
    from an answer of the lookup that was authoritative, a negative one only
    for a definitive not-found; other entries can only disappear.  A fallback
    to the local resolver is therefore never cached. *)
Theorem only_authoritative_cached host s r s'
    (Hname : ParseAddr (normalizeHost host) = None) (Hrun : resolveTunnel host s = (r, s')) :
  cached s' = cached s \/
  stores lookup (normalizeHost host) (normalizeHost host) s s'.
Proof.
  unfold resolveTunnel in Hrun. rewrite bind_run in Hrun.
  destruct (cachedLookup _ _ lookup s) as [[res err] s1] eqn:E. cbn in Hrun. cbv [mret M_ret] in Hrun.
  eapply cachedLookup_stores in E as [Hst _]; [|auto with gate|done]. by simplify_eq.
Qed.

(** An authoritative answer is replayed: resolving the same name again
    before its entry expires gives the same addresses without asking any
    resolver, under every spelling that normalizes to the same name. *)
Theorem authoritative_answer_replayed host host' s r s'
    (Hname : ParseAddr (normalizeHost host) = None)
    (Hsame : normalizeHost host' = normalizeHost host)
    (Hrun : cachedLookup (normalizeHost host) (normalizeHost host) lookup s = ((r, None), s'))
    (Hauth : r_authoritative r = true) :
  exists e, cached s' !! normalizeHost host = Some e /\
    (fst (w_now (s_world s')) < expires e ->
     fst (resolveTunnel host' s') = (r_addrs r, r_localDirect r, None) /\
     s_dns (snd (resolveTunnel host' s')) = s_dns s' /\
     s_trace (snd (resolveTunnel host' s')) = s_trace s').
Proof.
  eapply cachedLookup_stores in Hrun as [_ Hr]; [|auto with gate|done].
  destruct (Hr eq_refl Hauth) as (e & He & Hn & Ha & Hd). exists e. split; [done|]. intros Ht.
  unfold resolveTunnel. rewrite Hsame, bind_run.
  rewrite (cachedLookup_hit lookup _ _ _ e) by done. rewrite Hn, Ha, Hd. done.
Qed.

(** Every successful resolution yields at least one address, all of them
    well-formed, from any state reachable by resolutions; the callers'
    indexing of the first address cannot fail. *)
Theorem resolution_never_empty host s (Hs : sys_wf s) :
  (let '((l, _, err), s') := resolveTunnel host s in
     (err = None -> l <> [] /\ Forall Addr_ok l) /\ sys_wf s') /\
  (let '((l, err), s') := localResolveAll host s in
     (err = None -> l <> [] /\ Forall Addr_ok l) /\ sys_wf s').
Proof.
  split.
  - unfold resolveTunnel. rewrite bind_run.
    pose proof (cachedLookup_wf lookup lookup_frame lookup_ok (normalizeHost host) (normalizeHost host) s Hs) as Hw.
    destruct (cachedLookup _ _ lookup s) as [[r err] s1]. cbn in *. exact Hw.
  - unfold localResolveAll. rewrite bind_run.
    pose proof (cachedLookup_wf local_policy local_policy_frame local_policy_ok
                  ("local:" +:+ normalizeHost host) (normalizeHost host) s Hs) as Hw.
    destruct (cachedLookup _ _ local_policy s) as [[r err] s1]. cbn in *. exact Hw.
Qed.

(** A purge removes exactly the entries whose expiry has passed, and
    every entry a lookup would still serve survives it. *)
Theorem purge_exact (m : gmap string cacheEntry) (now : Z) (k : string) (e : cacheEntry) :
  (purge_entries now m !! k = Some e <-> m !! k = Some e /\ now <= expires e) /\
  (m !! k = Some e -> Before now (expires e) = true -> purge_entries now m !! k = Some e).
Proof.
  unfold purge_entries, After, Before. rewrite map_lookup_filter_Some. cbn [snd].
  rewrite Z.ltb_ge, Z.ltb_lt. split; [done|]. intros; split; [done|lia].
Qed.
End ReplayClaims.

(** A world in which the first resolver answers with 93.184.216.34. *)
Definition answering_world : script :=
  demo_world [MkResolverReply [true] (inr [be_bytes 4 (ip4 93 184 216 34)])] [].
Definition answering_sys : Sys script := MkSys (demo_cache false) answering_world [].

Lemma only_authoritative_cached_witness :
  stores lookup "example.com" "example.com" answering_sys
    (snd (resolveTunnel "Example.com." answering_sys)).
Proof.
  destruct (only_authoritative_cached "Example.com." answering_sys _ _ eq_refl
              (surjective_pairing _)) as [E|Hs]; [|exact Hs].
  exfalso. revert E. vm_compute. discriminate.
Defined.

(** The state after the first resolution. *)
Definition answered_sys : Sys script :=
  Eval vm_compute in snd (cachedLookup "example.com" "example.com" lookup answering_sys).

Lemma authoritative_answer_replayed_witness :
  fst (resolveTunnel "EXAMPLE.com." answered_sys) = ([Addr4 (ip4 93 184 216 34)], false, None) /\
  s_trace (snd (resolveTunnel "EXAMPLE.com." answered_sys)) = s_trace answered_sys.
Proof.
  assert (Hrun : cachedLookup (normalizeHost "example.com") (normalizeHost "example.com") lookup
                   answering_sys
                 = (MkResult [Addr4 (ip4 93 184 216 34)] true false, None, answered_sys)).
  { vm_compute. reflexivity. }
  destruct (authoritative_answer_replayed "example.com" "EXAMPLE.com." _ _ _ eq_refl eq_refl Hrun
              eq_refl) as (e & He & Hr).
  assert (Ht : fst (w_now (s_world answered_sys)) < expires e).
  { revert He. vm_compute. intros [= <-]. reflexivity. }
  destruct (Hr Ht) as (H1 & _ & H3). exact (conj H1 H3).
Defined.

Lemma resolution_never_empty_witness :
  sys_wf (snd (resolveTunnel "example.com" answering_sys)).
Proof.
  assert (Hwf : sys_wf answering_sys) by apply map_Forall_empty.
  pose proof (proj1 (resolution_never_empty "example.com" answering_sys Hwf)) as H.
  destruct (resolveTunnel "example.com" answering_sys) as [[[l d] err] s'].
  exact (proj2 H).
Defined.

Lemma purge_exact_witness :
  purge_entries 4 (<["a" := demo_entry 5]> ∅) !! "a" = Some (demo_entry 5).
Proof.
  apply (proj2 (purge_exact (<["a" := demo_entry 5]> ∅) 4 "a" (demo_entry 5))); reflexivity.
Defined.
