(* ===== verification/Flight.v ===== *)
(** dns.go under concurrency: calls of [cachedLookup] from many connections
    at once, sharing the cache, the resolvers and one singleflight group.

    The code is cut at its atomic sections ([prog] of Prog.v): the cache under
    [c.mu], each resolver under [u.mu], the counters as atomics, one exchange
    with a resolver.  Run without interference it is the sequential model of
    Dns.v (the [_alone] lemmas); the machine below interleaves any number of
    calls and the purge.

    golang.org/x/sync/singleflight is not part of the program: [Singleflight]
    is the interface its documentation promises, and every theorem holds for
    every implementation of it. *)

From S2P Require Import Prelude GoStrings NetIP Errors Rules World Prog Dns DnsFacts DnsProps CacheProps.

(** ** The singleflight group *)

(** How [Do] enters: it executes the function, or waits for an execution. *)
Inductive sfEntry : Type := Lead (id : nat) | Join (id : nat).

(** "Do executes and returns the results of the given function, making sure
    that only one execution is in-flight for a given key at a time.  If a
    duplicate comes in, the duplicate caller waits for the original to
    complete and receives the same results."  [sf_running] is the execution
    in flight for a key, [sf_result] what an execution has returned. *)
Class Singleflight (V G : Type) : Type := {
  sf_zero : G;
  sf_running : G -> string -> option nat;
  sf_result : G -> nat -> option V;
  sf_enter : string -> G -> sfEntry * G;
  sf_finish : string -> nat -> V -> G -> G;
  sf_zero_idle key : sf_running sf_zero key = None;
  sf_zero_result id : sf_result sf_zero id = None;
  sf_enter_result key g id : sf_result (snd (sf_enter key g)) id = sf_result g id;
  sf_enter_other key g key' : key' <> key -> sf_running (snd (sf_enter key g)) key' = sf_running g key';
  sf_enter_join key g id :
    sf_running g key = Some id ->
    fst (sf_enter key g) = Join id /\ sf_running (snd (sf_enter key g)) key = Some id;
  sf_enter_lead key g :
    sf_running g key = None ->
    exists id, fst (sf_enter key g) = Lead id /\ sf_running (snd (sf_enter key g)) key = Some id /\
      sf_result g id = None /\ forall key', sf_running g key' <> Some id;
  sf_finish_idle key id v g :
    sf_running g key = Some id -> sf_running (sf_finish key id v g) key = None;
  sf_finish_other key id v g key' :
    key' <> key -> sf_running (sf_finish key id v g) key' = sf_running g key';
  sf_finish_result key id v g :
    sf_running g key = Some id -> sf_result (sf_finish key id v g) id = Some v;
  sf_finish_keep key id v g id' :
    id' <> id -> sf_result (sf_finish key id v g) id' = sf_result g id' }.

(** Two maps, the executions in flight and the results, satisfy it. *)
Record sfGroup (V : Type) := MkGroup { g_calls : gmap string nat; g_results : gmap nat V }.
Arguments MkGroup {V} _ _.
Arguments g_calls {V} _.
Arguments g_results {V} _.
Definition g_ids {V} (g : sfGroup V) : list nat :=
  (snd <$> map_to_list (g_calls g)) ++ (fst <$> map_to_list (g_results g)).
Definition g_fresh {V} (g : sfGroup V) : nat := S (max_list (g_ids g)).

Lemma g_fresh_spec {V} (g : sfGroup V) : g_fresh g ∉ g_ids g.
Proof. intros Hin%max_list_elem_of_le. unfold g_fresh in Hin. lia. Qed.
Lemma g_fresh_calls {V} (g : sfGroup V) key : g_calls g !! key <> Some (g_fresh g).
Proof.
  intros E. apply (g_fresh_spec g). apply elem_of_app. left. apply list_elem_of_fmap.
  exists (key, g_fresh g). split; [done|]. by apply elem_of_map_to_list.
Qed.
Lemma g_fresh_results {V} (g : sfGroup V) : g_results g !! g_fresh g = None.
Proof.
  destruct (g_results g !! g_fresh g) as [v|] eqn:E; [exfalso|done].
  apply (g_fresh_spec g). apply elem_of_app. right. apply list_elem_of_fmap.
  exists (g_fresh g, v). split; [done|]. by apply elem_of_map_to_list.
Qed.

Definition g_enter {V} (key : string) (g : sfGroup V) : sfEntry * sfGroup V :=
  match g_calls g !! key with
  | Some id => (Join id, g)
  | None => (Lead (g_fresh g), MkGroup (<[key := g_fresh g]> (g_calls g)) (g_results g))
  end.
#[global] Program Instance sfGroup_singleflight (V : Type) : Singleflight V (sfGroup V) := {
  sf_zero := MkGroup ∅ ∅;
  sf_running g key := g_calls g !! key;
  sf_result g id := g_results g !! id;
  sf_enter key g := g_enter key g;
  sf_finish key id v g := MkGroup (delete key (g_calls g)) (<[id := v]> (g_results g)) }.
Next Obligation. done. Qed.
Next Obligation. done. Qed.
Next Obligation. intros V key g id. cbv beta. unfold g_enter. by destruct (_ !! key). Qed.
Next Obligation.
  intros V key g key' Hk. cbv beta. unfold g_enter. destruct (_ !! key); [done|]. cbn.
  by rewrite lookup_insert_ne.
Qed.
Next Obligation. intros V key g id Hk. cbv beta in *. unfold g_enter. by rewrite Hk. Qed.
Next Obligation.
  intros V key g Hk. cbv beta in *. unfold g_enter. rewrite Hk. exists (g_fresh g). cbn.
  split_and!; [done|by rewrite lookup_insert_eq|apply g_fresh_results|]. intros key'. apply g_fresh_calls.
Qed.
Next Obligation. intros V key id v g Hk. cbn. by rewrite lookup_delete_eq. Qed.
Next Obligation. intros V key id v g key' Hk. cbn. by rewrite lookup_delete_ne. Qed.
Next Obligation. intros V key id v g Hk. cbn. by rewrite lookup_insert_eq. Qed.
Next Obligation. intros V key id v g id' Hk. cbn. by rewrite lookup_insert_ne. Qed.

(** ** The code, cut at its atomic sections *)

Section Sections.
Context {W : Type} `{World W}.
Abbreviation P := (prog (Sys W)) (only parsing).
Abbreviation answer := (lookupResult * option error)%type (only parsing).

(** The claim loop of [lookup]: each resolver under its own mutex. *)
Definition claim_at (now : Z) (i : nat) : M (Sys W) bool :=
  fun s => match tunnel (s_dns s) !! i with
           | None => (false, s)
           | Some u => let '(b, u') := claim now u in
                       (b, MkSys (with_tunnel (<[i := u']> (tunnel (s_dns s))) (s_dns s))
                             (s_world s) (s_trace s))
           end.
Fixpoint claim_prog (now : Z) (i n : nat) : P (list nat) :=
  match n with
  | O => mret []
  | S n' => b ← atomic (claim_at now i);
            l ← claim_prog now (S i) n';
            mret (if b : bool then i :: l else l)
  end.

(** [releaseProbes]: each resolver under its own mutex. *)
Fixpoint release_prog (claimed : list nat) : P unit :=
  match claimed with
  | [] => mret tt
  | i :: rest => _ ← atomic (upd_upstream i (set_probing false)); release_prog rest
  end.

(** [upstreamFailed]: the tunnel state is read before the mutex is taken. *)
Definition failed_prog (i : nat) (err : error) : P unit :=
  up ← atomic tunnelUp;
  if up : bool then
    if errors_Is err errUnreachable
    then atomic (now ← time_now; upd_upstream i (failed false now err))
    else atomic (upd_upstream i (failed true 0 err))
  else mret tt.

(** [dohLookup]: one section per exchange. *)
Fixpoint doh_prog (ctx : Ctx) (uname endpoint host : string) (connected : bool)
    (qs : list dohQuery) (out : list Addr) : P (list Addr * option error) :=
  match qs with
  | [] => mret (if bool_decide (out = []) then ([], Some errNotFound) else (out, None))
  | q :: qs' =>
      '(got, (addrs, err)) ← atomic (dohJSONQuery ctx uname endpoint host q);
      let connected := connected || got in
      match err with
      | Some e =>
          mret ([], Some (if negb connected && negb (errors_Is e errNotFound)
                          then Errorf (Error errUnreachable +:+ ": " +:+ Error e) (Some errUnreachable)
                          else e))
      | None => doh_prog ctx uname endpoint host connected qs' (out ++ addrs)
      end
  end.
Definition upstream_prog (u : upstream) (ctx : Ctx) (host : string) : P (list Addr * option error) :=
  match lookupBy u with
  | dohLookupFn =>
      endpoint ← atomic (gets (fun s => dohHost (s_dns s)));
      doh_prog ctx (name u) endpoint host false [dohQueryA; dohQueryAAAA] []
  | dnsServerLookupFn server => atomic (dnsServerLookup (name u) server ctx host)
  end.

(** [notFound]. *)
Definition notFound_prog (ctx : Ctx) (host : string) : P answer :=
  onNX ← atomic (gets (fun s => localOnNXDomain (s_dns s)));
  if onNX : bool then
    '(addrs, err) ← atomic (lookupLocal ctx host);
    mret (match err with
          | None => (MkResult addrs true true, None)
          | Some _ => (MkResult [] true false, Some errNotFound)
          end)
  else mret (MkResult [] true false, Some errNotFound).

(** The end of [lookup]: two atomics, then the local resolver. *)
Definition add_fallback (c : dnsCache) : dnsCache :=
  MkCache (cache c) (ttl c) (negativeTTL c) (done c) (lookups c) (dohHost c) (dohClient c)
    (tunnel c) (localOnNXDomain c) (wrap64 (fallbacks c + 1)) (lastFallback c).
Definition set_lastFallback (at_ns : Z) (c : dnsCache) : dnsCache :=
  MkCache (cache c) (ttl c) (negativeTTL c) (done c) (lookups c) (dohHost c) (dohClient c)
    (tunnel c) (localOnNXDomain c) (fallbacks c) (wrap64 at_ns).
Definition fallback_prog (ctx : Ctx) (host : string) : P answer :=
  _ ← atomic (on_dns add_fallback);
  now ← atomic time_now;
  _ ← atomic (on_dns (set_lastFallback now));
  '(addrs, err) ← atomic (lookupLocal ctx host);
  onNX ← atomic (gets (fun s => localOnNXDomain (s_dns s)));
  if onNX : bool then
    up ← atomic tunnelUp; mret (MkResult addrs false (negb up), err)
  else mret (MkResult addrs false false, err).

(** The loop of [lookup]. *)
Fixpoint loop_prog (ctx tunnelCtx : Ctx) (deadline : Z) (host : string) (active : list nat) : P answer :=
  match active with
  | [] => fallback_prog ctx host
  | i :: rest =>
      now ← atomic time_now;
      uctx ← atomic (WithTimeout tunnelCtx (Z.quot (time_Sub deadline now) (Z.of_nat (length active))));
      start ← atomic time_now;
      us ← atomic (gets (fun s => tunnel (s_dns s)));
      match us !! i with
      | None => loop_prog ctx tunnelCtx deadline host rest
      | Some u =>
          '(addrs, err) ← upstream_prog u uctx host;
          finish ← atomic time_now;
          let rtt := time_Sub finish start in
          match err with
          | None => _ ← atomic (upstreamAnswered i rtt); mret (MkResult addrs true false, None)
          | Some e =>
              if errors_Is e errNotFound
              then _ ← atomic (upstreamAnswered i rtt); notFound_prog ctx host
              else _ ← failed_prog i e; loop_prog ctx tunnelCtx deadline host rest
          end
      end
  end.
Definition lookup_prog (ctx : Ctx) (host : string) : P answer :=
  now ← atomic time_now;
  n ← atomic (gets (fun s => length (tunnel (s_dns s))));
  active ← claim_prog now 0 n;
  tunnelCtx ← atomic (WithTimeout ctx tunnelLookupTimeout);
  let deadline := default time_zero tunnelCtx in
  r ← loop_prog ctx tunnelCtx deadline host active;
  _ ← release_prog active;
  mret r.
Definition local_prog (ctx : Ctx) (h : string) : P answer :=
  '(addrs, err) ← atomic (lookupLocal ctx h); mret (MkResult addrs true false, err).

(** ** One call *)

(** The calls of [cachedLookup]: [resolveTunnel] and [localResolveAll]. *)
Inductive dnsRequest : Type := TunnelReq (host : string) | LocalReq (host : string).
Definition req_host (q : dnsRequest) : string :=
  match q with TunnelReq h | LocalReq h => normalizeHost h end.
Definition req_key (q : dnsRequest) : string :=
  match q with
  | TunnelReq h => normalizeHost h
  | LocalReq h => "local:" +:+ normalizeHost h
  end.
Definition req_prog (q : dnsRequest) : Ctx -> string -> P answer :=
  match q with TunnelReq _ => lookup_prog | LocalReq _ => local_prog end.
(** The sequential policy of the call. *)
Definition req_policy (q : dnsRequest) : Ctx -> string -> M (Sys W) answer :=
  match q with TunnelReq _ => lookup | LocalReq _ => local_policy end.

(** The section of [cachedLookup] under [c.mu]. *)
Definition entryAnswer (host : string) (entry : cacheEntry) : answer :=
  if neg entry then (no_result, Some (NewDNSError host errNotFound))
  else (MkResult (addrs entry) true (localDirect entry), None).
Definition check_cache (key host : string) : M (Sys W) (option answer) :=
  m ← gets (fun s => cache (s_dns s));
  match m !! key with
  | None => mret None
  | Some entry =>
      now ← time_now;
      mret (if Before now (expires entry) then Some (entryAnswer host entry) else None)
  end.

(** The function handed to singleflight, up to the return of [lookup] ... *)
Definition ask_prog (q : dnsRequest) : P answer :=
  ctx ← atomic (WithTimeout None lookupTimeout);
  _ ← atomic (on_dns count_lookup);
  req_prog q ctx (req_host q).
(** ... and from there on. *)
Definition settle_prog (key host : string) (ans : answer) : P answer :=
  let '(res, err) := ans in
  match err with
  | Some e =>
      if r_authoritative res && errors_Is e errNotFound
      then now ← atomic time_now;
           nttl ← atomic (gets (fun s => negativeTTL (s_dns s)));
           _ ← atomic (store key (MkEntry [] (time_Add now nttl) true false));
           mret (no_result, Some (NewDNSError host e))
      else mret (no_result, Some (NewDNSError host e))
  | None =>
      if bool_decide (r_addrs res = [])
      then mret (no_result, Some (Errorf ("no address for " +:+ host) None))
      else if r_authoritative res
      then now ← atomic time_now;
           t ← atomic (gets (fun s => ttl (s_dns s)));
           _ ← atomic (store key (MkEntry (r_addrs res) (time_Add now t) false (r_localDirect res)));
           mret (res, None)
      else mret (res, None)
  end.

(** ** The machine *)

(** How a call got its result; [Led] keeps what [lookup] answered. *)
Inductive source : Type := Literal | Hit | Led (id : nat) (ans : answer) | Joined (id : nat).

(** A call of [cachedLookup] and where it is. *)
Inductive thread : Type :=
| Entering (q : dnsRequest)
| Missed (q : dnsRequest)
| Asking (q : dnsRequest) (id : nat) (p : P answer)
| Settling (q : dnsRequest) (id : nat) (ans : answer) (p : P answer)
| Waiting (q : dnsRequest) (id : nat)
| Replied (q : dnsRequest) (r : answer) (how : source).

Context {G : Type} `{!Singleflight answer G}.

(** The next section of a call; [None] when it has returned or has to wait. *)
Definition advance (s : Sys W) (g : G) (t : thread) : option (Sys W * G * thread) :=
  match t with
  | Entering q =>
      match ParseAddr (req_host q) with
      | Some ip => Some (s, g, Replied q (MkResult [Unmap ip] false false, None) Literal)
      | None =>
          let '(hit, s') := check_cache (req_key q) (req_host q) s in
          Some (s', g, match hit with Some r => Replied q r Hit | None => Missed q end)
      end
  | Missed q =>
      let '(e, g') := sf_enter (req_key q) g in
      Some (s, g', match e with Lead id => Asking q id (ask_prog q) | Join id => Waiting q id end)
  | Asking q id (Act op k) => let '(x, s') := op s in Some (s', g, Asking q id (k x))
  | Asking q id (Ret ans) =>
      Some (s, g, Settling q id ans (settle_prog (req_key q) (req_host q) ans))
  | Settling q id ans (Act op k) => let '(x, s') := op s in Some (s', g, Settling q id ans (k x))
  | Settling q id ans (Ret r) => Some (s, sf_finish (req_key q) id r g, Replied q r (Led id ans))
  | Waiting q id =>
      match sf_result g id with
      | Some r => Some (s, g, Replied q r (Joined id))
      | None => None
      end
  | Replied _ _ _ => None
  end.

Record dstate := MkD { d_sys : Sys W; d_sf : G; d_calls : list thread }.

(** A section of a call. *)
Inductive call_step : dstate -> dstate -> Prop :=
| step_call d i t s' g' t' :
    d_calls d !! i = Some t -> advance (d_sys d) (d_sf d) t = Some (s', g', t') ->
    call_step d (MkD s' g' (<[i := t']> (d_calls d))).
(** The purge goroutine. *)
Inductive purge_step : dstate -> dstate -> Prop :=
| step_purge d : purge_step d (MkD (snd (purge (d_sys d))) (d_sf d) (d_calls d)).
(** A connection that needs a name resolved. *)
Inductive arrive_step : dstate -> dstate -> Prop :=
| step_arrive d q : arrive_step d (MkD (d_sys d) (d_sf d) (d_calls d ++ [Entering q])).
Definition dstep (d d' : dstate) : Prop := call_step d d' \/ purge_step d d' \/ arrive_step d d'.

Definition dinit (s : Sys W) : dstate := MkD s sf_zero [].
End Sections.
