(* ===== verification/FlightProps.v ===== *)
(** Theorems on Flight.v: run alone the code cut at its sections is the
    sequential model; in every interleaving one lookup is out per key, every
    call returns, with a result that is explained by one lookup, and the
    cache holds authoritative answers only and keeps its bound. *)

From S2P Require Import Prelude GoStrings NetIP Errors Rules World Prog Dns DnsFacts DnsProps CacheProps Flight.

(** ** Without interference *)

(** Step both sides of an equation between a program run alone and its
    sequential reading. *)
Ltac alone :=
  repeat (rewrite ?run_bind, ?bind_run, ?run_atomic; cbn [fst snd]).

Section Alone.
Context {W : Type} `{World W}.
Implicit Types (s : Sys W) (ctx : Ctx) (host key : string) (u : upstream).

Lemma with_tunnel_twice us us' c : with_tunnel us (with_tunnel us' c) = with_tunnel us c.
Proof. done. Qed.

(** The claim loop, resolver by resolver, is one pass over all of them. *)
Lemma claim_prog_alone now (us pre : list upstream) s :
  tunnel (s_dns s) = pre ++ us ->
  run (claim_prog now (length pre) (length us)) s =
  (fst (claim_all now (length pre) us),
   MkSys (with_tunnel (pre ++ snd (claim_all now (length pre) us)) (s_dns s)) (s_world s) (s_trace s)).
Proof.
  revert pre s. induction us as [|u us IH]; intros pre s Et; cbn [length claim_prog claim_all].
  - cbn. rewrite app_nil_r in *. rewrite <- Et. destruct s as [c w tr]. by destruct c.
  - alone. unfold claim_at. rewrite Et, (list_lookup_middle _ _ _ _ eq_refl).
    destruct (claim now u) as [b u'] eqn:Ec. cbn [fst snd].
    assert (Ei : <[length pre := u']> (pre ++ u :: us) = (pre ++ [u']) ++ us).
    { rewrite insert_app_r_alt, Nat.sub_diag by done. by rewrite <- (assoc_L (++)). }
    rewrite Ei. pose proof (IH (pre ++ [u']) (MkSys (with_tunnel ((pre ++ [u']) ++ us) (s_dns s))
      (s_world s) (s_trace s)) eq_refl) as E.
    rewrite length_app, Nat.add_1_r in E. rewrite E. cbn [fst snd].
    destruct (claim_all now (S (length pre)) us) as [l us'']. cbn [fst snd s_dns s_world s_trace].
    rewrite with_tunnel_twice, <- (assoc_L (++)). by destruct b.
Qed.

Lemma claims_alone now s :
  run (claim_prog now 0 (length (tunnel (s_dns s)))) s = claim_upstreams now s.
Proof.
  pose proof (claim_prog_alone now (tunnel (s_dns s)) [] s eq_refl) as E. cbn [length] in E.
  rewrite E. unfold claim_upstreams.
  by destruct (claim_all now 0 (tunnel (s_dns s))).
Qed.

Lemma release_rev claimed s : run (release_prog claimed) s = releaseProbes (rev claimed) s.
Proof.
  revert s. induction claimed as [|i rest IH]; intros s; cbn [release_prog].
  - unfold releaseProbes, on_dns, modify. cbn. destruct s as [c w tr]. by destruct c.
  - alone. rewrite IH. unfold releaseProbes, upd_upstream, on_dns, modify.
    cbn [fst snd s_dns s_world s_trace rev]. rewrite with_tunnel_twice, foldr_app. done.
Qed.
Lemma release_alone claimed s : run (release_prog claimed) s = releaseProbes claimed s.
Proof.
  rewrite release_rev. unfold releaseProbes, on_dns, modify. do 3 f_equal.
  apply (foldr_permutation eq); [solve_proper| |symmetry; apply Permutation_rev].
  intros j1 a1 j2 a2 us Hj _ _. apply list_eq. intros j. rewrite !list_lookup_alter.
  repeat case_decide; subst; done.
Qed.

Lemma failed_alone i err s : run (failed_prog i err) s = upstreamFailed i err s.
Proof.
  unfold failed_prog, upstreamFailed. alone. destruct (fst (tunnelUp s)); [|done].
  destruct (errors_Is err errUnreachable); by rewrite run_atomic.
Qed.

Lemma doh_alone ctx uname endpoint host connected qs out s :
  run (doh_prog ctx uname endpoint host connected qs out) s =
  doh_loop ctx uname endpoint host connected qs out s.
Proof.
  revert connected out s. induction qs as [|q qs IH]; intros connected out s; [done|].
  cbn [doh_prog doh_loop]. alone.
  destruct (dohJSONQuery ctx uname endpoint host q s) as [[got [addrs [e|]]] s']; [done|apply IH].
Qed.

Lemma upstream_alone u ctx host s : run (upstream_prog u ctx host) s = upstream_lookup u ctx host s.
Proof.
  unfold upstream_prog, upstream_lookup. destruct (lookupBy u); [|apply run_atomic].
  unfold dohLookup. alone. apply doh_alone.
Qed.

Lemma notFound_alone ctx host s : run (notFound_prog ctx host) s = notFound ctx host s.
Proof.
  unfold notFound_prog, notFound. alone. destruct (fst (gets _ s)); [|done]. alone.
  by destruct (lookupLocal ctx host _) as [[addrs [e|]] s'].
Qed.

Lemma fallback_alone ctx host s : run (fallback_prog ctx host) s = lookup_fallback ctx host s.
Proof.
  unfold fallback_prog, lookup_fallback. alone. unfold time_now. rewrite !perform_run.
  cbn [fst snd on_dns modify s_dns s_world s_trace].
  change (set_lastFallback ?n (add_fallback ?c)) with (count_fallback n c).
  destruct (lookupLocal ctx host _) as [[addrs err] s']. cbn [fst snd]. alone.
  destruct (fst (gets _ s')); [|done]. by alone.
Qed.

Lemma loop_alone ctx tctx deadline host active s :
  run (loop_prog ctx tctx deadline host active) s = lookup_loop ctx tctx deadline host active s.
Proof.
  revert s. induction active as [|i rest IH]; intros s; [apply fallback_alone|].
  cbn [loop_prog lookup_loop]. alone. destruct (fst (gets _ _) !! i) as [u|]; [|apply IH]. alone.
  rewrite upstream_alone. destruct (upstream_lookup u _ host _) as [[addrs [e|]] s']; cbn [fst snd]; alone; [|done].
  destruct (errors_Is e errNotFound); alone; [apply notFound_alone|].
  rewrite failed_alone. apply IH.
Qed.

(** Run alone, the sections of [lookup] are the lookup of the sequential
    model, result and state. *)
Lemma lookup_alone ctx host s : run (lookup_prog ctx host) s = lookup ctx host s.
Proof.
  unfold lookup_prog, lookup, gets. alone.
  by rewrite claims_alone, loop_alone, release_alone.
Qed.
Lemma policy_alone q ctx host s : run (req_prog q ctx host) s = req_policy q ctx host s.
Proof.
  destruct q; [apply lookup_alone|]. unfold req_prog, req_policy, local_prog, local_policy. alone.
  by destruct (lookupLocal ctx host _) as [[addrs err] s'].
Qed.

(** The function given to singleflight and the call around it. *)
Lemma shared_alone q key host s :
  host = req_host q ->
  shared_lookup key host (req_policy q) s =
  run (settle_prog key host (fst (run (ask_prog q) s))) (snd (run (ask_prog q) s)).
Proof.
  intros ->. unfold ask_prog, shared_lookup. alone. rewrite policy_alone.
  destruct (req_policy q _ _ _) as [[res [e|]] s1]; cbn [fst snd]; unfold settle_prog.
  - alone. destruct (r_authoritative res && errors_Is e errNotFound); [|done]. by alone.
  - destruct (bool_decide (r_addrs res = [])); [done|]. alone. destruct (r_authoritative res); [|done]. by alone.
Qed.
Lemma cachedLookup_sections key host lk s :
  ParseAddr host = None ->
  cachedLookup key host lk s =
  match fst (check_cache key host s) with
  | Some r => (r, snd (check_cache key host s))
  | None => shared_lookup key host lk (snd (check_cache key host s))
  end.
Proof.
  intros Hp. unfold cachedLookup, check_cache. rewrite Hp, !bind_run. cbn [gets fst snd].
  destruct (cache (s_dns s) !! key) as [e|]; [|done]. rewrite !bind_run. cbn [fst snd mret M_ret].
  cbv [mret M_ret]. cbn [fst snd]. destruct (Before _ _); [|done]. unfold entryAnswer. by destruct (neg e).
Qed.
End Alone.

(** ** The protocol of the calls with singleflight *)

(** What singleflight sees of a call. *)
Inductive role : Type :=
| Outside
| Leader (key : string) (id : nat)
| Waiter (key : string) (id : nat)
| LedTo (key : string) (id : nat) (r : lookupResult * option error)
| JoinedTo (key : string) (id : nat) (r : lookupResult * option error).
Definition role_of {W : Type} (t : thread (W := W)) : role :=
  match t with
  | Entering _ | Missed _ => Outside
  | Asking q id _ | Settling q id _ _ => Leader (req_key q) id
  | Waiting q id => Waiter (req_key q) id
  | Replied q r (Led id _) => LedTo (req_key q) id r
  | Replied q r (Joined id) => JoinedTo (req_key q) id r
  | Replied _ _ _ => Outside
  end.

Section Protocol.
Context {G : Type} `{!Singleflight (lookupResult * option error) G}.
Implicit Types (g : G) (rs : list role) (key : string) (id : nat).

Record sf_inv g rs : Prop := {
  leader_runs i key id : rs !! i = Some (Leader key id) -> sf_running g key = Some id;
  leader_open i key id : rs !! i = Some (Leader key id) -> sf_result g id = None;
  leader_one i j key key' id :
    rs !! i = Some (Leader key id) -> rs !! j = Some (Leader key' id) -> i = j;
  runs_leader key id : sf_running g key = Some id -> exists i, rs !! i = Some (Leader key id);
  led_result i key id r : rs !! i = Some (LedTo key id r) -> sf_result g id = Some r;
  result_led id r : sf_result g id = Some r -> exists i key, rs !! i = Some (LedTo key id r);
  waiter_led i key id : rs !! i = Some (Waiter key id) ->
    sf_running g key = Some id \/ exists j r, rs !! j = Some (LedTo key id r);
  joined_led i key id r : rs !! i = Some (JoinedTo key id r) ->
    exists j, rs !! j = Some (LedTo key id r) }.

(** What one step of a call does to its role and to the group. *)
Inductive role_step g : role -> G -> role -> Prop :=
| role_same ro : role_step g ro g ro
| role_lead key id :
    sf_running g key = None -> fst (sf_enter key g) = Lead id ->
    role_step g Outside (snd (sf_enter key g)) (Leader key id)
| role_join key id :
    sf_running g key = Some id -> role_step g Outside (snd (sf_enter key g)) (Waiter key id)
| role_finish key id r : role_step g (Leader key id) (sf_finish key id r g) (LedTo key id r)
| role_wake key id r : sf_result g id = Some r -> role_step g (Waiter key id) g (JoinedTo key id r).

Lemma sf_inv_zero : sf_inv sf_zero [].
Proof.
  constructor; try (intros *; by rewrite lookup_nil).
  - intros key id. by rewrite sf_zero_idle.
  - intros id r. by rewrite sf_zero_result.
Qed.

Lemma sf_inv_app g rs : sf_inv g rs -> sf_inv g (rs ++ [Outside]).
Proof.
  intros [I1 I2 I3 I4 I5 I6 I7 I8].
  assert (Hin : forall i ro, (rs ++ [Outside]) !! i = Some ro -> ro <> Outside -> rs !! i = Some ro).
  { intros i ro [E|[_ E]]%lookup_app_Some Hne; [done|].
    apply list_lookup_singleton_Some in E as [_ <-]. done. }
  assert (Hout : forall i ro, rs !! i = Some ro -> (rs ++ [Outside]) !! i = Some ro).
  { intros i ro E. by apply lookup_app_l_Some. }
  constructor.
  - intros i key id E%Hin; [eauto|done].
  - intros i key id E%Hin; [eauto|done].
  - intros i j key key' id E%Hin E'%Hin; [eauto|done|done].
  - intros key id (i & E)%I4. eauto.
  - intros i key id r E%Hin; [eauto|done].
  - intros id r (i & key & E)%I6. eauto.
  - intros i key id E%Hin; [|done]. destruct (I7 _ _ _ E) as [?|(j & r & ?)]; eauto.
  - intros i key id r E%Hin; [|done]. destruct (I8 _ _ _ _ E) as [j ?]; eauto.
Qed.

(** A role replaced in the list. *)
Lemma at_insert rs i j ro x :
  <[i := ro]> rs !! j = Some x -> (j = i /\ x = ro) \/ (j <> i /\ rs !! j = Some x).
Proof.
  intros E. destruct (decide (i = j)) as [<-|Hne].
  - apply list_lookup_insert_Some in E as [(_ & <- & _)|[? _]]; [by left|done].
  - rewrite list_lookup_insert_ne in E by done. by right.
Qed.
Lemma insert_here rs i old ro : rs !! i = Some old -> <[i := ro]> rs !! i = Some ro.
Proof. intros E. apply list_lookup_insert_eq. by eapply lookup_lt_Some. Qed.
Lemma insert_there rs i j old ro x :
  rs !! i = Some old -> old <> x -> rs !! j = Some x -> <[i := ro]> rs !! j = Some x.
Proof. intros Ei Hne Ej. rewrite list_lookup_insert_ne; [done|]. intros ->. congruence. Qed.

Section Step.
Context (g : G) (rs : list role) (I : sf_inv g rs).

Lemma lead_inv i key id :
  rs !! i = Some Outside -> sf_running g key = None -> fst (sf_enter key g) = Lead id ->
  sf_inv (snd (sf_enter key g)) (<[i := Leader key id]> rs).
Proof.
  intros Ei Hidle Hlead. destruct (sf_enter_lead key g Hidle) as (id' & E & Hrun & Hres & Hfresh).
  rewrite E in Hlead. simplify_eq.
  assert (Hother : forall j k n, rs !! j = Some (Leader k n) -> n <> id /\ k <> key).
  { intros j k n Ej%(leader_runs _ _ I). split; [|congruence]. intros ->. by apply (Hfresh k). }
  constructor.
  - intros j k n [[-> ?]|[_ Ej]]%at_insert; [by simplify_eq|].
    rewrite sf_enter_other by apply (Hother _ _ _ Ej). by apply (leader_runs _ _ I j).
  - intros j k n [[-> ?]|[_ Ej]]%at_insert; rewrite sf_enter_result; [by simplify_eq|].
    by apply (leader_open _ _ I j k).
  - intros j j' k k' n [[-> ?]|[_ Ej]]%at_insert [[-> ?]|[_ Ej']]%at_insert; simplify_eq; [done| | |].
    + by destruct (Hother _ _ _ Ej').
    + by destruct (Hother _ _ _ Ej).
    + by apply (leader_one _ _ I j j' k k' n).
  - intros k n. destruct (decide (k = key)) as [->|Hk].
    + rewrite Hrun. intros [= ->]. exists i. by eapply insert_here.
    + rewrite sf_enter_other by done. intros (j & Ej)%(runs_leader _ _ I). exists j. by eapply insert_there.
  - intros j k n r [[-> ?]|[_ Ej]]%at_insert; [done|]. rewrite sf_enter_result. by apply (led_result _ _ I j k).
  - intros n r. rewrite sf_enter_result. intros (j & k & Ej)%(result_led _ _ I).
    exists j, k. by eapply insert_there.
  - intros j k n [[-> ?]|[_ Ej]]%at_insert; [done|]. destruct (waiter_led _ _ I j k n Ej) as [Hr|(j' & r & Ej')].
    + left. rewrite sf_enter_other; [done|congruence].
    + right. exists j', r. by eapply insert_there.
  - intros j k n r [[-> ?]|[_ Ej]]%at_insert; [done|]. destruct (joined_led _ _ I j k n r Ej) as (j' & Ej').
    exists j'. by eapply insert_there.
Qed.

Lemma join_inv i key id :
  rs !! i = Some Outside -> sf_running g key = Some id ->
  sf_inv (snd (sf_enter key g)) (<[i := Waiter key id]> rs).
Proof.
  intros Ei Hrun. destruct (sf_enter_join key g id Hrun) as [_ Hrun'].
  assert (Hr : forall k, sf_running (snd (sf_enter key g)) k = sf_running g k).
  { intros k. destruct (decide (k = key)) as [->|?]; [congruence|by apply sf_enter_other]. }
  constructor.
  - intros j k n [[-> ?]|[_ Ej]]%at_insert; [done|]. rewrite Hr. by apply (leader_runs _ _ I j).
  - intros j k n [[-> ?]|[_ Ej]]%at_insert; [done|]. rewrite sf_enter_result. by apply (leader_open _ _ I j k).
  - intros j j' k k' n [[-> ?]|[_ Ej]]%at_insert [[-> ?]|[_ Ej']]%at_insert; [done..|].
    by apply (leader_one _ _ I j j' k k' n).
  - intros k n. rewrite Hr. intros (j & Ej)%(runs_leader _ _ I). exists j. by eapply insert_there.
  - intros j k n r [[-> ?]|[_ Ej]]%at_insert; [done|]. rewrite sf_enter_result. by apply (led_result _ _ I j k).
  - intros n r. rewrite sf_enter_result. intros (j & k & Ej)%(result_led _ _ I).
    exists j, k. by eapply insert_there.
  - intros j k n [[-> ?]|[_ Ej]]%at_insert; rewrite Hr; [simplify_eq; by left|].
    destruct (waiter_led _ _ I j k n Ej) as [?|(j' & r & Ej')]; [by left|].
    right. exists j', r. by eapply insert_there.
  - intros j k n r [[-> ?]|[_ Ej]]%at_insert; [done|]. destruct (joined_led _ _ I j k n r Ej) as (j' & Ej').
    exists j'. by eapply insert_there.
Qed.

Lemma finish_inv i key id r :
  rs !! i = Some (Leader key id) -> sf_inv (sf_finish key id r g) (<[i := LedTo key id r]> rs).
Proof.
  intros Ei. pose proof (leader_runs _ _ I _ _ _ Ei) as Hrun. pose proof (leader_open _ _ I _ _ _ Ei) as Hopen.
  assert (Hother : forall j k n, j <> i -> rs !! j = Some (Leader k n) -> n <> id /\ k <> key).
  { intros j k n Hj Ej. assert (n <> id) by (intros ->; by pose proof (leader_one _ _ I _ _ _ _ _ Ei Ej)).
    split; [done|]. apply (leader_runs _ _ I) in Ej. congruence. }
  assert (Hkeep : forall n v, sf_result g n = Some v -> sf_result (sf_finish key id r g) n = Some v).
  { intros n v E. rewrite sf_finish_keep; [done|congruence]. }
  assert (Hled : forall j k n v, rs !! j = Some (LedTo k n v) ->
    <[i := LedTo key id r]> rs !! j = Some (LedTo k n v)) by (intros; by eapply insert_there).
  constructor.
  - intros j k n [[-> ?]|[Hj Ej]]%at_insert; [done|].
    rewrite sf_finish_other by apply (Hother _ _ _ Hj Ej). by apply (leader_runs _ _ I j).
  - intros j k n [[-> ?]|[Hj Ej]]%at_insert; [done|].
    rewrite sf_finish_keep by apply (Hother _ _ _ Hj Ej). by apply (leader_open _ _ I j k).
  - intros j j' k k' n [[-> ?]|[_ Ej]]%at_insert [[-> ?]|[_ Ej']]%at_insert; [done..|].
    by apply (leader_one _ _ I j j' k k' n).
  - intros k n. destruct (decide (k = key)) as [->|Hk]; [by rewrite (sf_finish_idle key id)|].
    rewrite sf_finish_other by done. intros (j & Ej)%(runs_leader _ _ I). exists j.
    eapply insert_there; [done|congruence|done].
  - intros j k n v [[-> ?]|[_ Ej]]%at_insert; [simplify_eq; by apply sf_finish_result|].
    by apply Hkeep, (led_result _ _ I j k).
  - intros n v. destruct (decide (n = id)) as [->|Hn].
    + rewrite sf_finish_result by done. intros [= ->]. exists i, key. by eapply insert_here.
    + rewrite sf_finish_keep by done. intros (j & k & Ej)%(result_led _ _ I). eauto.
  - intros j k n [[-> ?]|[_ Ej]]%at_insert; [done|]. destruct (waiter_led _ _ I j k n Ej) as [Hw|(j' & v & Ej')]; [|eauto].
    destruct (decide (k = key)) as [->|Hk].
    + right. exists i, r. rewrite Hrun in Hw. simplify_eq. by eapply insert_here.
    + left. by rewrite sf_finish_other.
  - intros j k n v [[-> ?]|[_ Ej]]%at_insert; [done|]. destruct (joined_led _ _ I j k n v Ej) as (j' & Ej'). eauto.
Qed.

Lemma wake_inv i key id r :
  rs !! i = Some (Waiter key id) -> sf_result g id = Some r ->
  sf_inv g (<[i := JoinedTo key id r]> rs).
Proof.
  intros Ei Hres.
  assert (Hled : forall j k n v, rs !! j = Some (LedTo k n v) ->
    <[i := JoinedTo key id r]> rs !! j = Some (LedTo k n v)) by (intros; by eapply insert_there).
  constructor.
  - intros j k n [[-> ?]|[_ Ej]]%at_insert; [done|]. by apply (leader_runs _ _ I j).
  - intros j k n [[-> ?]|[_ Ej]]%at_insert; [done|]. by apply (leader_open _ _ I j k).
  - intros j j' k k' n [[-> ?]|[_ Ej]]%at_insert [[-> ?]|[_ Ej']]%at_insert; [done..|].
    by apply (leader_one _ _ I j j' k k' n).
  - intros k n (j & Ej)%(runs_leader _ _ I). exists j. by eapply insert_there.
  - intros j k n v [[-> ?]|[_ Ej]]%at_insert; [done|]. by apply (led_result _ _ I j k).
  - intros n v (j & k & Ej)%(result_led _ _ I). eauto.
  - intros j k n [[-> ?]|[_ Ej]]%at_insert; [done|].
    destruct (waiter_led _ _ I j k n Ej) as [?|(j' & v & Ej')]; eauto.
  - intros j k n v [[-> ?]|[_ Ej]]%at_insert.
    + simplify_eq. destruct (waiter_led _ _ I i key id Ei) as [Hrun|(j & v & Ej)].
      * apply (runs_leader _ _ I) in Hrun as (j & Ej). apply (leader_open _ _ I) in Ej. congruence.
      * pose proof (led_result _ _ I _ _ _ _ Ej). exists j. apply Hled. congruence.
    + destruct (joined_led _ _ I j k n v Ej) as (j' & Ej'). eauto.
Qed.

Lemma role_step_inv i ro g' ro' :
  rs !! i = Some ro -> role_step g ro g' ro' -> sf_inv g' (<[i := ro']> rs).
Proof.
  intros Ei Hs. destruct Hs; [by rewrite list_insert_id|by apply lead_inv|by apply join_inv|
    by apply finish_inv|by apply wake_inv].
Qed.
End Step.
End Protocol.
