(* ===== verification/FlightInv.v ===== *)
(** The interleaved resolver of Flight.v: what each section of a call may do,
    the invariant of the machine, and the order in which calls advance. *)

From S2P Require Import Prelude GoStrings NetIP Errors Rules World Prog Dns DnsFacts DnsProps CacheProps Flight FlightProps.

(** ** What the sections of a call do *)

Section Guarantees.
Context {W : Type} `{World W}.
Implicit Types (s : Sys W) (ctx : Ctx) (host key : string) (u : upstream) (q : dnsRequest).

(** The setting [localOnNXDomain], which no section changes. *)
Definition opt (b : bool) s : Prop := localOnNXDomain (s_dns s) = b.
Context (b : bool).

(** What a lookup of either policy may answer. *)
Definition tunnel_ok (ans : lookupResult * option error) : Prop :=
  result_ok ans /\ (r_localDirect (fst ans) = true -> b = true).
Definition answer_ok q (ans : lookupResult * option error) : Prop :=
  match q with
  | TunnelReq _ => tunnel_ok ans
  | LocalReq _ => result_ok ans /\ r_localDirect (fst ans) = false
  end.
Lemma answer_ok_result q ans : answer_ok q ans -> result_ok ans.
Proof. destruct q; by intros []. Qed.

Lemma claim_at_frame now i : keeps frame (claim_at (W := W) now i).
Proof.
  intros s. unfold claim_at. destruct (tunnel (s_dns s) !! i) as [u|] eqn:Ei; [|reflexivity].
  pose proof (claim_ids now u) as Hid. destruct (claim now u) as [b0 u']. cbn [snd fst] in *.
  repeat split. cbn. rewrite list_fmap_insert, (proj1 Hid), (proj2 Hid). apply list_insert_id.
  by rewrite list_lookup_fmap, Ei.
Qed.
Lemma claim_prog_frame now i n : guarantees (opt b) frame (fun _ => True) (claim_prog (W := W) now i n).
Proof.
  revert i. induction n as [|n IH]; intros i; [done|].
  apply guarantees_seq; [apply claim_at_frame|]. intros b0. by eapply guarantees_bind; [apply IH|].
Qed.
Lemma release_prog_frame l : guarantees (opt b) frame (fun _ => True) (release_prog (W := W) l).
Proof.
  induction l as [|i l IH]; [done|]. apply guarantees_seq; [|done]. by apply upd_upstream_frame.
Qed.
Lemma failed_prog_frame i e : guarantees (opt b) frame (fun _ => True) (failed_prog (W := W) i e).
Proof.
  apply guarantees_seq; [auto with gate|]. intros []; [|done].
  split_if; apply guarantees_any; [|by apply upd_upstream_frame].
  apply keeps_bind; [typeclasses eauto|auto with gate|]. intros now. by apply upd_upstream_frame.
Qed.
Lemma dohJSONQuery_frame ctx un ep host dq : keeps frame (dohJSONQuery (W := W) ctx un ep host dq).
Proof. unfold dohJSONQuery. walk. Qed.
Lemma doh_prog_ok ctx un ep host conn qs out :
  Forall Addr_ok out -> guarantees (opt b) frame addrs_ok (doh_prog (W := W) ctx un ep host conn qs out).
Proof.
  revert conn out. induction qs as [|dq qs IH]; intros conn out Hout; cbn [doh_prog].
  - split_if; cbn; [constructor|done].
  - eapply guarantees_then; [apply dohJSONQuery_frame|apply dohJSONQuery_ok|].
    intros [got [addrs [e|]]] Ha; [constructor|]. apply IH. by apply Forall_app.
Qed.
Lemma upstream_prog_ok u ctx host : guarantees (opt b) frame addrs_ok (upstream_prog (W := W) u ctx host).
Proof.
  unfold upstream_prog. destruct (lookupBy u) as [|server].
  - apply guarantees_seq; [auto with gate|]. intros ep. by apply doh_prog_ok.
  - apply guarantees_atomic; [unfold dnsServerLookup; walk|apply dnsServerLookup_ok].
Qed.
Lemma notFound_prog_ok ctx host : guarantees (opt b) frame tunnel_ok (notFound_prog (W := W) ctx host).
Proof.
  apply guarantees_read; [typeclasses eauto|]. intros s0 ->. destruct b eqn:Eb.
  - eapply guarantees_then; [auto with gate|apply lookupLocal_ok|].
    intros [addrs [e|]] Ha; (split; [|done]); [constructor|exact Ha].
  - split; [constructor|done].
Qed.
Lemma fallback_prog_ok ctx host : guarantees (opt b) frame tunnel_ok (fallback_prog (W := W) ctx host).
Proof.
  apply guarantees_seq; [by apply on_dns_frame|]. intros _.
  apply guarantees_seq; [auto with gate|]. intros now.
  apply guarantees_seq; [by apply on_dns_frame|]. intros _.
  eapply guarantees_then; [auto with gate|apply lookupLocal_ok|]. intros [addrs err] Ha.
  apply guarantees_read; [typeclasses eauto|]. intros s0 ->. destruct b eqn:Eb; [|by split].
  apply guarantees_seq; [auto with gate|]. intros up. by split.
Qed.
Lemma loop_prog_ok ctx tctx dl host active :
  guarantees (opt b) frame tunnel_ok (loop_prog (W := W) ctx tctx dl host active).
Proof.
  induction active as [|i rest IH]; cbn [loop_prog]; [apply fallback_prog_ok|].
  apply guarantees_seq; [auto with gate|]. intros now.
  apply guarantees_seq; [auto with gate|]. intros uctx.
  apply guarantees_seq; [auto with gate|]. intros start.
  apply guarantees_seq; [auto with gate|]. intros us. destruct (us !! i) as [u|]; [|done].
  eapply guarantees_bind; [apply upstream_prog_ok|]. intros [addrs err] Ha.
  apply guarantees_seq; [auto with gate|]. intros finish. destruct err as [e|].
  - destruct (errors_Is e errNotFound).
    + apply guarantees_seq; [auto with gate|]. intros _. apply notFound_prog_ok.
    + eapply guarantees_bind; [apply failed_prog_frame|done].
  - apply guarantees_seq; [auto with gate|]. intros _. by split.
Qed.
Lemma lookup_prog_ok ctx host : guarantees (opt b) frame tunnel_ok (lookup_prog (W := W) ctx host).
Proof.
  apply guarantees_seq; [auto with gate|]. intros now.
  apply guarantees_seq; [auto with gate|]. intros n.
  eapply guarantees_bind; [apply claim_prog_frame|]. intros active _.
  apply guarantees_seq; [auto with gate|]. intros tctx.
  eapply guarantees_bind; [apply loop_prog_ok|]. intros r Hr.
  eapply guarantees_bind; [apply release_prog_frame|]. intros _ _. exact Hr.
Qed.
Lemma ask_prog_ok q : guarantees (opt b) frame (answer_ok q) (ask_prog (W := W) q).
Proof.
  apply guarantees_seq; [auto with gate|]. intros ctx.
  apply guarantees_seq; [by apply on_dns_frame|]. intros _.
  destruct q; [apply lookup_prog_ok|].
  eapply guarantees_then; [auto with gate|apply lookupLocal_ok|]. intros [addrs err] Ha. by split.
Qed.

(** What a call returns for an answer of its lookup. *)
Definition settled (host : string) (ans : lookupResult * option error) : lookupResult * option error :=
  match snd ans with
  | Some e => (no_result, Some (NewDNSError host e))
  | None =>
      if bool_decide (r_addrs (fst ans) = [])
      then (no_result, Some (Errorf ("no address for " +:+ host) None))
      else ans
  end.
(** Storing an answer: nothing, or the entry of the key, dropping others. *)
Definition settles (key : string) (ans : lookupResult * option error) s s' : Prop :=
  localOnNXDomain (s_dns s') = localOnNXDomain (s_dns s) /\
  (cached s' = cached s \/
  exists e, stored_as ans e /\ cached s' !! key = Some e /\ entry_wf e /\
    forall k x, k <> key -> cached s' !! k = Some x -> cached s !! k = Some x).

Lemma frame_settles key ans s s' : frame s s' -> settles key ans s s'.
Proof. intros (E & _ & _ & E' & _). split; [done|by left]. Qed.
Lemma store_settles key ans e : stored_as ans e -> entry_wf e -> keeps (settles key ans) (store (W := W) key e).
Proof.
  intros He Hwf s. split.
  { unfold store. rewrite bind_run. cbn [gets fst snd]. destruct (dnsCacheMaxSize <=? _); [|done].
    rewrite bind_run. unfold range_keys. by rewrite perform_run. }
  right. exists e. destruct (store_cached key e s) as [Hk Ho]. by split_and!.
Qed.
Lemma settle_prog_ok key host ans :
  result_ok ans -> guarantees (opt b) (settles key ans) (eq (settled host ans)) (settle_prog (W := W) key host ans).
Proof.
  intros Hok. destruct ans as [res [e|]]; unfold settle_prog, settled; cbn [fst snd].
  - destruct (r_authoritative res) eqn:Ea; [|done]. destruct (errors_Is e errNotFound) eqn:Ee; [|done].
    cbn [andb]. apply guarantees_seq; [intros s; by apply frame_settles, time_now_frame|]. intros now.
    apply guarantees_seq; [intros s; by split; [|left]|]. intros nttl.
    apply guarantees_seq; [by apply store_settles|]. done.
  - split_if; prop_of_bool; [done|]. destruct (r_authoritative res) eqn:Ea; [|done].
    apply guarantees_seq; [intros s; by apply frame_settles, time_now_frame|]. intros now.
    apply guarantees_seq; [intros s; by split; [|left]|]. intros t.
    apply guarantees_seq; [by apply store_settles|]. done.
Qed.
End Guarantees.

(** ** The invariant of the machine *)

Section Machine.
Context {W : Type} `{World W} {G : Type} `{!Singleflight (lookupResult * option error) G}.
Context (b : bool).
Abbreviation answer := (lookupResult * option error)%type (only parsing).
Implicit Types (s : Sys W) (g : G) (t : thread (W := W)) (q : dnsRequest) (d : dstate (W := W) (G := G)).

Definition thread_ok t : Prop :=
  match t with
  | Asking q id p => guarantees (opt b) frame (answer_ok b q) p
  | Settling q id ans p =>
      answer_ok b q ans /\ guarantees (opt b) (settles (req_key q) ans) (eq (settled (req_host q) ans)) p
  | Replied q r Literal =>
      exists ip, ParseAddr (req_host q) = Some ip /\ r = (MkResult [Unmap ip] false false, None)
  | Replied q r (Led id ans) => answer_ok b q ans /\ r = settled (req_host q) ans
  | _ => True
  end.

(** What the lookup of a call has answered. *)
Definition answer_of t : option (dnsRequest * answer) :=
  match t with
  | Settling q _ ans _ | Replied q _ (Led _ ans) => Some (q, ans)
  | _ => None
  end.
Definition asked (calls : list (thread (W := W))) q (ans : answer) : Prop :=
  exists i t, calls !! i = Some t /\ answer_of t = Some (q, ans).

(** An entry is the authoritative answer of a lookup made under its key. *)
Definition entry_ok (calls : list (thread (W := W))) (key : string) (e : cacheEntry) : Prop :=
  entry_wf e /\ exists q ans, asked calls q ans /\ req_key q = key /\ stored_as ans e.

Record data_inv d : Prop := {
  option_kept : opt b (d_sys d);
  threads_ok i t : d_calls d !! i = Some t -> thread_ok t;
  cache_ok key e : cached (d_sys d) !! key = Some e -> entry_ok (d_calls d) key e;
  hits_ok i q r : d_calls d !! i = Some (Replied q r Hit) ->
    exists e, entry_ok (d_calls d) (req_key q) e /\ r = entryAnswer (req_host q) e }.

Lemma check_cache_spec key host s :
  let '(hit, s') := check_cache key host s in
  frame s s' /\ (forall r, hit = Some r -> exists e, cached s !! key = Some e /\ r = entryAnswer host e).
Proof.
  unfold check_cache. rewrite bind_run. cbn [gets fst snd].
  destruct (cache (s_dns s) !! key) as [e|] eqn:Ee; [|by split].
  rewrite bind_run. pose proof (time_now_frame s) as Hf. cbn. split; [exact Hf|].
  intros r. split_if; [|done]. intros [= <-]. eauto.
Qed.

Lemma advance_data s g t s' g' t' :
  advance s g t = Some (s', g', t') -> opt b s -> thread_ok t ->
  opt b s' /\ thread_ok t' /\
  (forall q ans, answer_of t = Some (q, ans) -> answer_of t' = Some (q, ans)) /\
  (cached s' = cached s \/ exists q ans, answer_of t = Some (q, ans) /\ settles (req_key q) ans s s') /\
  (forall q r, t' = Replied q r Hit ->
     exists e, cached s !! req_key q = Some e /\ r = entryAnswer (req_host q) e).
Proof.
  unfold opt. destruct t as [q|q|q id p|q id ans p|q id|q r how]; cbn; intros Ha Hb Ht.
  - destruct (ParseAddr (req_host q)) as [ip|] eqn:Ep; [simplify_eq; cbn; split_and!; eauto; done|].
    pose proof (check_cache_spec (req_key q) (req_host q) s) as Hc.
    destruct (check_cache (req_key q) (req_host q) s) as [hit s1].
    destruct Hc as [(Hf & _ & _ & Ho & _) Hh].
    simplify_eq. destruct hit; split_and!; eauto; try done.
    intros q' r' [= <- <-]. by apply Hh.
  - destruct (sf_enter (req_key q) g) as [[id|id] g1]; simplify_eq; split_and!; eauto; try done.
    apply ask_prog_ok.
  - destruct p as [ans|X op k]; simplify_eq; cbn.
    + split_and!; eauto using settle_prog_ok, answer_ok_result; done.
    + destruct (op s) as [x s1] eqn:Eo. simplify_eq. destruct (Ht s Hb) as [(Hf & _ & _ & Ho & _) Hk].
      rewrite Eo in *. split_and!; eauto; done.
  - destruct Ht as [Hok Hp]. destruct p as [r|X op k]; simplify_eq; cbn.
    + split_and!; eauto; try done.
    + destruct (op s) as [x s1] eqn:Eo. simplify_eq. destruct (Hp s Hb) as [Hf Hk]. rewrite Eo in *.
      pose proof (proj1 Hf) as Ho. cbn [snd] in Ho. split_and!; eauto; done.
  - destruct (sf_result g id); simplify_eq. split_and!; eauto; done.
  - done.
Qed.

(** What is asked stays asked. *)
Lemma asked_insert (calls : list (thread (W := W))) i t t' q ans :
  calls !! i = Some t -> (forall q ans, answer_of t = Some (q, ans) -> answer_of t' = Some (q, ans)) ->
  asked calls q ans -> asked (<[i := t']> calls) q ans.
Proof.
  intros Ei Hkeep (j & u & Ej & Ha). destruct (decide (i = j)) as [<-|Hne].
  - simplify_eq. exists i, t'. split; [|auto]. apply list_lookup_insert_eq. by eapply lookup_lt_Some.
  - exists j, u. by rewrite list_lookup_insert_ne.
Qed.
Lemma asked_app (calls more : list (thread (W := W))) q ans : asked calls q ans -> asked (calls ++ more) q ans.
Proof. intros (j & u & Ej & Ha). exists j, u. split; [|done]. by apply lookup_app_l_Some. Qed.
Lemma entry_ok_mono (calls calls' : list (thread (W := W))) key e :
  (forall q ans, asked calls q ans -> asked calls' q ans) -> entry_ok calls key e -> entry_ok calls' key e.
Proof. intros Hm (Hwf & q & ans & Ha & ? & ?). split; [done|]. exists q, ans. auto. Qed.

Lemma call_step_data d d' : call_step d d' -> data_inv d -> data_inv d'.
Proof.
  intros [d0 i t s' g' t' Ei Ha] [Ib It Ic Ih].
  destruct (advance_data _ _ _ _ _ _ Ha Ib (It _ _ Ei)) as (Hb & Hok & Hkeep & Hcache & Hhit).
  assert (Hm : forall key e, entry_ok (d_calls d0) key e -> entry_ok (<[i := t']> (d_calls d0)) key e).
  { intros key e. apply entry_ok_mono. intros q ans. by eapply asked_insert. }
  constructor; cbn [d_sys d_sf d_calls]; [done| | |].
  - intros j u Ej. destruct (decide (i = j)) as [<-|Hne].
    + apply list_lookup_insert_Some in Ej as [(_ & <- & _)|[? _]]; done.
    + rewrite list_lookup_insert_ne in Ej by done. by eapply It.
  - intros key e He. destruct Hcache as [E|(q & ans & Hq & _ & [E|(e' & Hst & Hk & Hwf & Ho)])].
    + rewrite E in He. auto.
    + rewrite E in He. auto.
    + destruct (decide (key = req_key q)) as [->|Hne]; [|eauto].
      rewrite Hk in He. simplify_eq. split; [done|]. exists q, ans. split; [|done].
      exists i, t'. split; [|auto]. apply list_lookup_insert_eq. by eapply lookup_lt_Some.
  - intros j q r Ej. destruct (decide (i = j)) as [<-|Hne].
    + apply list_lookup_insert_Some in Ej as [(_ & -> & _)|[? _]]; [|done].
      destruct (Hhit q r eq_refl) as (e & He & ->). eauto.
    + rewrite list_lookup_insert_ne in Ej by done. destruct (Ih _ _ _ Ej) as (e & He & ->). eauto.
Qed.

Lemma purge_cached s k e : cached (snd (purge s)) !! k = Some e -> cached s !! k = Some e.
Proof.
  unfold purge. rewrite bind_run. unfold time_now. rewrite perform_run. cbn.
  intros E. by apply map_lookup_filter_Some in E as [E _].
Qed.

Lemma dstep_data d d' : dstep d d' -> data_inv d -> data_inv d'.
Proof.
  intros [Hs|[[d0]|[d0 q]]] I; [by eapply call_step_data| |]; destruct I as [Ib It Ic Ih].
  - constructor; cbn; [|done| |done].
    + unfold opt, purge. rewrite bind_run. unfold time_now. rewrite perform_run. exact Ib.
    + intros key e He%purge_cached. by apply Ic.
  - assert (Hm : forall key e, entry_ok (d_calls d0) key e -> entry_ok (d_calls d0 ++ [Entering q]) key e).
    { intros key e. apply entry_ok_mono. intros. by apply asked_app. }
    constructor; cbn; [done| | |].
    + intros j u [Ej|[_ Ej]]%lookup_app_Some; [by eapply It|].
      by apply list_lookup_singleton_Some in Ej as [_ <-].
    + intros key e He. auto.
    + intros j q' r [Ej|[_ Ej]]%lookup_app_Some.
      * destruct (Ih _ _ _ Ej) as (e & He & ->). eauto.
      * by apply list_lookup_singleton_Some in Ej as [_ [=]].
Qed.

(** The group and the calls agree. *)
Lemma advance_role s g t s' g' t' :
  advance s g t = Some (s', g', t') -> role_step g (role_of t) g' (role_of t').
Proof.
  destruct t as [q|q|q id p|q id ans p|q id|q r how]; cbn; intros Ha.
  - destruct (ParseAddr (req_host q)); [simplify_eq; constructor|].
    destruct (check_cache _ _ s) as [[r|] s1]; simplify_eq; constructor.
  - destruct (sf_running g (req_key q)) as [id|] eqn:Er.
    + destruct (sf_enter_join _ _ _ Er) as [E _]. destruct (sf_enter (req_key q) g) as [e g1] eqn:Ee.
      cbn in E. simplify_eq. cbn. pose proof (role_join g (req_key q) id Er) as Hr. by rewrite Ee in Hr.
    + destruct (sf_enter_lead _ _ Er) as (id & E & _). destruct (sf_enter (req_key q) g) as [e g1] eqn:Ee.
      cbn in E. simplify_eq. cbn. pose proof (role_lead g (req_key q) id Er) as Hr.
      rewrite Ee in Hr. by apply Hr.
  - destruct p as [ans|X op k]; [simplify_eq; constructor|]. destruct (op s). simplify_eq. constructor.
  - destruct p as [r|X op k]; [simplify_eq; constructor|]. destruct (op s). simplify_eq. constructor.
  - destruct (sf_result g id) eqn:Er; simplify_eq. by constructor.
  - done.
Qed.
Definition group_inv d : Prop := sf_inv (d_sf d) (role_of <$> d_calls d).
Lemma dstep_group d d' : dstep d d' -> group_inv d -> group_inv d'.
Proof.
  unfold group_inv. intros [[d0 i t s' g' t' Ei Ha]|[[d0]|[d0 q]]] I; cbn; [|done|].
  - rewrite list_fmap_insert. eapply role_step_inv; [done| |by eapply advance_role].
    by rewrite list_lookup_fmap, Ei.
  - rewrite fmap_app. by apply sf_inv_app.
Qed.

Definition dinv d : Prop := data_inv d /\ group_inv d.
Lemma dinit_inv s : opt b s -> cached s = ∅ -> dinv (dinit s).
Proof.
  intros Hb Hc. split; [|apply sf_inv_zero]. constructor; cbn; [done|done| |done].
  intros key e. by rewrite Hc, lookup_empty.
Qed.
Lemma dsteps_inv d d' : rtc dstep d d' -> dinv d -> dinv d'.
Proof. apply rtc_invariant. intros x y [Hd Hg] Hs. split; eauto using dstep_data, dstep_group. Qed.
End Machine.

Section Order.
Context {W : Type} `{World W} {G : Type} `{!Singleflight (lookupResult * option error) G}.
Implicit Types (s : Sys W) (g : G) (t : thread (W := W)) (q : dnsRequest).

(** ** Termination *)

(** The rest of a program after its first section. *)
Definition rest_of {A : Type} (p p' : prog (Sys W) A) : Prop :=
  match p with Ret _ => False | Act op k => exists x, p' = k x end.

(** Each section takes a call further. *)
Inductive further : thread (W := W) -> thread (W := W) -> Prop :=
| further_reply q r how t : (forall q' r' how', t <> Replied q' r' how') -> further (Replied q r how) t
| further_miss q : further (Missed q) (Entering q)
| further_lead q id p : further (Asking q id p) (Missed q)
| further_join q id : further (Waiting q id) (Missed q)
| further_ask q id p p' : rest_of p p' -> further (Asking q id p') (Asking q id p)
| further_answer q id ans p a : further (Settling q id ans p) (Asking q id (Ret a))
| further_settle q id ans p p' : rest_of p p' -> further (Settling q id ans p') (Settling q id ans p).

Lemma advance_further s g t s' g' t' : advance s g t = Some (s', g', t') -> further t' t.
Proof.
  destruct t as [q|q|q id p|q id ans p|q id|q r how]; cbn; intros Ha.
  - destruct (ParseAddr (req_host q)); [by simplify_eq; constructor|].
    destruct (check_cache _ _ s) as [[r|] s1]; by simplify_eq; constructor.
  - destruct (sf_enter (req_key q) g) as [[id|id] g1]; simplify_eq; constructor.
  - destruct p as [ans|X op k]; [simplify_eq; constructor|]. destruct (op s). simplify_eq. constructor. by eexists.
  - destruct p as [r|X op k]; [by simplify_eq; constructor|]. destruct (op s). simplify_eq. constructor. by eexists.
  - destruct (sf_result g id); by simplify_eq; constructor.
  - done.
Qed.

Lemma replied_acc q r how : Acc further (Replied q r how).
Proof. constructor. intros t Ht. inversion Ht; subst; naive_solver. Qed.
#[local] Hint Resolve replied_acc : core.
Lemma settling_acc q id ans p : Acc further (Settling q id ans p).
Proof.
  induction p as [r|X op k IH]; constructor; intros t Ht; inversion Ht as [| | | | | |q0 i0 a0 p0 p' Hp]; subst; auto.
  - destruct Hp.
  - destruct Hp as [x ->]. apply IH.
Qed.
#[local] Hint Resolve settling_acc : core.
Lemma further_acc t : Acc further t.
Proof.
  assert (Hask : forall q id p, Acc further (Asking q id p)).
  { intros q id p. induction p as [r|X op k IH]; constructor; intros u Hu;
      inversion Hu as [| | | |q0 i0 p0 p' Hp| |]; subst; auto.
    - destruct Hp.
    - destruct Hp as [x ->]. apply IH. }
  assert (Hwait : forall q id, Acc further (Waiting q id)).
  { intros q id. constructor. intros u Hu. inversion Hu; subst; auto. }
  assert (Hmiss : forall q, Acc further (Missed q)).
  { intros q. constructor. intros u Hu. inversion Hu; subst; auto. }
  destruct t; auto. constructor. intros u Hu. inversion Hu; subst; auto.
Qed.
End Order.
