(* ===== verification/FlightClaims.v ===== *)
(** Theorems on the interleaved resolver of Flight.v. *)

From S2P Require Import Prelude GoStrings NetIP Errors Rules World Prog Dns DnsFacts DnsProps CacheProps Flight FlightProps FlightInv.

Section Claims.
Context {W : Type} `{World W} {G : Type} `{!Singleflight (lookupResult * option error) G}.
Abbreviation answer := (lookupResult * option error)%type (only parsing).
Implicit Types (s : Sys W) (g : G) (t : thread (W := W)) (q : dnsRequest) (d : dstate (W := W) (G := G)).

Lemma reachable_inv s d :
  cached s = ∅ -> rtc dstep (dinit s) d -> dinv (localOnNXDomain (s_dns s)) d.
Proof. intros Hc Hr. eapply dsteps_inv; [done|]. by apply dinit_inv. Qed.

Definition is_leading (key : string) t : Prop :=
  match t with Asking q _ _ | Settling q _ _ _ => req_key q = key | _ => False end.
Lemma is_leading_role key t : is_leading key t -> exists id, role_of t = Leader key id.
Proof. destruct t; cbn; [done|done|intros <-; eauto|intros <-; eauto|done|done]. Qed.

(** C29: in every interleaving at most one call per key is between the resolver
    query and the reply. *)
Theorem one_lookup_per_key s d key i j t u
    (Hcold : cached s = ∅) (Hr : rtc dstep (dinit s) d)
    (Hi : d_calls d !! i = Some t) (Hj : d_calls d !! j = Some u)
    (Ht : is_leading key t) (Hu : is_leading key u) :
  i = j.
Proof.
  destruct (reachable_inv s d Hcold Hr) as [_ I].
  apply is_leading_role in Ht as [id Ht], Hu as [id' Hu].
  assert (Ei : (role_of <$> d_calls d) !! i = Some (Leader key id)) by (by rewrite list_lookup_fmap, Hi, <- Ht).
  assert (Ej : (role_of <$> d_calls d) !! j = Some (Leader key id')) by (by rewrite list_lookup_fmap, Hj, <- Hu).
  pose proof (leader_runs _ _ I _ _ _ Ei). pose proof (leader_runs _ _ I _ _ _ Ej). simplify_eq.
  by eapply (leader_one _ _ I).
Qed.

(** A reply that was led to is in the list of calls. *)
Lemma led_call (calls : list (thread (W := W))) i key id r :
  (role_of <$> calls) !! i = Some (LedTo key id r) ->
  exists q ans, calls !! i = Some (Replied q r (Led id ans)) /\ req_key q = key.
Proof.
  intros E. apply list_lookup_fmap_Some in E as (t & Et & Ht).
  destruct t as [| | | | |q r' []]; cbn in Et; simplify_eq. eauto.
Qed.

(** The result of a call: a literal, or what one lookup under its key
    answered, shared or replayed from the cache. *)
Definition explains (b : bool) (calls : list (thread (W := W))) q (r : answer) (q' : dnsRequest) (ans : answer) : Prop :=
  asked calls q' ans /\ req_key q' = req_key q /\ answer_ok b q' ans /\
  (r = settled (req_host q') ans \/ exists e, stored_as ans e /\ entry_wf e /\ r = entryAnswer (req_host q) e).
Lemma reply_explained b d i q r how :
  dinv b d -> d_calls d !! i = Some (Replied q r how) ->
  (exists ip, ParseAddr (req_host q) = Some ip /\ r = (MkResult [Unmap ip] false false, None)) \/
  exists q' ans, explains b (d_calls d) q r q' ans.
Proof.
  intros [Hd Hg] Hi.
  assert (Hok : forall q' ans, asked (d_calls d) q' ans -> answer_ok b q' ans).
  { intros q' ans (j & t & Ej & Ha). pose proof (threads_ok _ _ Hd _ _ Ej) as Ht.
    destruct t as [| | | | |? ? []]; cbn in *; simplify_eq; apply Ht. }
  assert (Hled : forall j q' r' id ans, d_calls d !! j = Some (Replied q' r' (Led id ans)) ->
    req_key q' = req_key q -> r = r' -> explains b (d_calls d) q r q' ans).
  { intros j q' r' id ans Ej Hk ->. assert (Ha : asked (d_calls d) q' ans) by (eexists j, _; eauto).
    split_and!; [done|done|eauto|]. left. apply (threads_ok _ _ Hd _ _ Ej). }
  destruct how as [| |id ans|id].
  - left. apply (threads_ok _ _ Hd _ _ Hi).
  - right. destruct (hits_ok _ _ Hd _ _ _ Hi) as (e & (Hwf & q' & ans & Ha & Hk & Hst) & ->).
    exists q', ans. split_and!; [done|done|eauto|]. right. eauto.
  - right. exists q, ans. by eapply Hled.
  - right. assert (Ej : (role_of <$> d_calls d) !! i = Some (JoinedTo (req_key q) id r))
      by (by rewrite list_lookup_fmap, Hi).
    apply (joined_led _ _ Hg) in Ej as (j & (q' & ans & Ej & Hk)%led_call). exists q', ans. by eapply Hled.
Qed.

(** Every call comes to its reply. *)
Definition has_replied t : bool := match t with Replied _ _ _ => true | _ => false end.
Definition all_replied d : Prop := Forall (fun t => has_replied t = true) (d_calls d).
(** A section of a call, after any purges. *)
Definition work_step d d' : Prop := exists d1, rtc purge_step d d1 /\ call_step d1 d'.

Lemma leader_advances s g t key id : role_of t = Leader key id -> is_Some (advance s g t).
Proof.
  destruct t as [| |q i p|q i ans p| |? ? []]; cbn; intros E; simplify_eq.
  - destruct p as [|X op k]; [done|]. by destruct (op s).
  - destruct p as [|X op k]; [done|]. by destruct (op s).
Qed.
Lemma call_advances d i t s' g' t' :
  d_calls d !! i = Some t -> advance (d_sys d) (d_sf d) t = Some (s', g', t') -> exists d', call_step d d'.
Proof. intros Ei Ha. eexists. by eapply step_call. Qed.
Lemma calls_progress b d : dinv b d -> all_replied d \/ exists d', call_step d d'.
Proof.
  intros [_ I].
  assert (Hadv : forall i t, d_calls d !! i = Some t -> is_Some (advance (d_sys d) (d_sf d) t) ->
    exists d', call_step d d').
  { intros i t Ei [[[s' g'] t'] Ha]. by eapply call_advances. }
  destruct (decide (Forall (fun t => has_replied t = true) (d_calls d))) as [?|Hex]; [by left|right].
  apply not_Forall_Exists, Exists_exists in Hex as (t & [i Ei]%list_elem_of_lookup & Ht); [|apply _].
  destruct t as [q|q|q id p|q id ans p|q id|q r how]; [| |by eapply Hadv, leader_advances..| |].
  - eapply Hadv; [done|]. cbn. destruct (ParseAddr _); [done|]. by destruct (check_cache _ _ _) as [[]].
  - eapply Hadv; [done|]. cbn. by destruct (sf_enter _ _) as [[]].
  - destruct (waiter_led _ _ I i (req_key q) id) as [Hrun|(j & r & Ej)]; [by rewrite list_lookup_fmap, Ei| |].
    + apply (runs_leader _ _ I) in Hrun as (j & Ej). apply list_lookup_fmap_Some in Ej as (u & Eu & Hu).
      eapply Hadv; [exact Hu|]. by eapply leader_advances.
    + apply (led_result _ _ I) in Ej. eapply Hadv; [done|]. cbn. by rewrite Ej.
  - by destruct Ht.
Qed.
Lemma purges_inv b d d' : rtc purge_step d d' -> dinv b d -> dinv b d' /\ d_calls d' = d_calls d.
Proof.
  intros Hr Hd. revert Hd. induction Hr as [|d d1 d2 Hs _ IH]; intros Hd; [done|].
  destruct IH as [H1 H2].
  - destruct Hd as [Hd Hg]. split; [eapply dstep_data|eapply dstep_group]; eauto; right; left; done.
  - destruct Hs. done.
Qed.
Lemma work_step_further b d d' : dinv b d -> work_step d d' -> dinv b d' /\ pool_lt further (d_calls d') (d_calls d).
Proof.
  intros Hd (d1 & Hp & Hs). apply (purges_inv b) in Hp as [[H1 H2] Hc]; [|done]. split.
  - split; [eapply dstep_data|eapply dstep_group]; eauto; by left.
  - rewrite <- Hc. destruct Hs as [d0 i t s' g' t' Ei Ha]. exists i, t, t'. eauto using advance_further.
Qed.
Theorem every_call_returns s d (Hcold : cached s = ∅) (Hr : rtc dstep (dinit s) d) :
  inevitable work_step all_replied d.
Proof.
  apply (inevitable_acc work_step d_calls (pool_lt further) (dinv (localOnNXDomain (s_dns s)))).
  - intros a b. apply work_step_further.
  - intros a Ha. destruct (calls_progress _ a Ha) as [?|[b Hb]]; [by left|]. right. exists b, a. by split.
  - apply pool_lt_acc, Forall_forall. intros t _. apply further_acc.
  - by eapply reachable_inv.
Qed.

(** ** Whose answer a reply is *)

Definition request_of t : dnsRequest :=
  match t with
  | Entering q | Missed q | Asking q _ _ | Settling q _ _ _ | Waiting q _ | Replied q _ _ => q
  end.
(** The two calls ask the same policy about the same name. *)
Definition same_question q q' : Prop :=
  match q, q' with
  | TunnelReq h, TunnelReq h' | LocalReq h, LocalReq h' => normalizeHost h = normalizeHost h'
  | _, _ => False
  end.
(** A tunnel name outside the key space of the local answers. *)
Definition plain q : bool :=
  match q with TunnelReq h => negb (HasPrefix (normalizeHost h) "local:") | LocalReq _ => true end.

Lemma same_key_question q q' :
  plain q = true -> plain q' = true -> req_key q = req_key q' -> same_question q q'.
Proof.
  assert (Hloc : forall h h', plain (TunnelReq h) = true -> normalizeHost h <> "local:" +:+ h').
  { intros h h' Hp E. cbn in Hp. rewrite E in Hp. apply negb_true_iff, not_true_iff_false in Hp.
    apply Hp, HasPrefix_spec. eauto. }
  destruct q as [h|h], q' as [h'|h']; cbn [req_key same_question]; intros Hq Hq' E.
  - done.
  - by eapply Hloc.
  - by eapply (Hloc h').
  - by apply (inj (String.append "local:")) in E.
Qed.

Lemma asked_request (calls : list (thread (W := W))) q ans :
  asked calls q ans -> exists t, t ∈ calls /\ request_of t = q.
Proof.
  intros (i & t & Ei & Ha). exists t. split; [by eapply list_elem_of_lookup_2|].
  destruct t as [| | | | |? ? []]; cbn in *; by simplify_eq.
Qed.

Lemma explains_resolved b (calls : list (thread (W := W))) q r q' ans :
  explains b calls q r q' ans -> resolved r.
Proof.
  intros (_ & _ & Hok & [->|(e & _ & Hwf & ->)]) Hn.
  - unfold settled in *. destruct ans as [res [e|]]; cbn in *; [done|].
    destruct (bool_decide _) eqn:E; [done|]. prop_of_bool. split; [done|]. by apply answer_ok_result in Hok.
  - unfold entryAnswer in *. destruct (neg e) eqn:En; [done|]. by apply Hwf.
Qed.
Lemma explains_direct b (calls : list (thread (W := W))) q r q' ans :
  explains b calls q r q' ans -> r_localDirect (fst r) = true ->
  b = true /\ exists h, q' = TunnelReq h.
Proof.
  intros (_ & _ & Hok & Hr) Hd. assert (Ha : r_localDirect (fst ans) = true).
  { destruct Hr as [->|(e & Hst & _ & ->)].
    - unfold settled in Hd. destruct ans as [res [e|]]; cbn in *; [done|]. by destruct (bool_decide _).
    - unfold entryAnswer in Hd. destruct Hst as [_ Hst]. destruct (neg e) eqn:En; [done|].
      destruct (snd ans); [by destruct Hst|]. destruct Hst as (_ & _ & <-). done. }
  destruct q' as [h|h]; cbn in Hok.
  - split; [by apply Hok|]. eauto.
  - destruct Hok. congruence.
Qed.

(** C30: every reply of every interleaving is the caller's own: unless the name is
    an address, it is what a lookup by the same policy for the same name
    answered, shared with the call while that lookup was out or replayed from
    the cache it was authoritative for; a successful reply has addresses, all
    well-formed; and one whose private addresses may go direct comes from the
    tunnel policy with the option on.  Tunnel names that begin with the text
    of the local key space are excluded. *)
Theorem reply_is_own s d i q r how
    (Hcold : cached s = ∅) (Hr : rtc dstep (dinit s) d)
    (Hplain : Forall (fun t => plain (request_of t) = true) (d_calls d))
    (Hi : d_calls d !! i = Some (Replied q r how)) :
  resolved r /\
  (r_localDirect (fst r) = true -> localOnNXDomain (s_dns s) = true /\ exists h, q = TunnelReq h) /\
  ((exists ip, ParseAddr (req_host q) = Some ip /\ r = (MkResult [Unmap ip] false false, None)) \/
   exists q' ans, asked (d_calls d) q' ans /\ same_question q' q /\
     (r = settled (req_host q) ans \/ exists e, stored_as ans e /\ r = entryAnswer (req_host q) e)).
Proof.
  destruct (reply_explained _ d i q r how (reachable_inv s d Hcold Hr) Hi) as [(ip & Hp & ->)|(q' & ans & Hex)].
  - split_and!; [|done|left; eauto]. intros _. split; [done|].
    repeat constructor. eauto using Unmap_ok, ParseAddr_ok.
  - pose proof Hex as (Ha & Hk & _ & Hres). rewrite Forall_forall in Hplain.
    assert (Hsame : same_question q' q).
    { apply same_key_question; [|by apply (Hplain _ (list_elem_of_lookup_2 _ _ _ Hi))|done].
      destruct (asked_request _ _ _ Ha) as (t & Ht & <-). by apply Hplain. }
    assert (Hh : req_host q' = req_host q) by (destruct q', q; done).
    rewrite Hh in Hres. split_and!; [by eapply explains_resolved| |].
    + intros Hd. destruct (explains_direct _ _ _ _ _ _ Hex Hd) as [Hb [h ->]]. split; [done|].
      destruct q; [eauto|done].
    + right. exists q', ans. split_and!; [done|done|]. destruct Hres as [?|(e & ? & _ & ?)]; eauto.
Qed.

(** ** A call that nobody disturbs *)

(** The sections of a stage of a call, one after the other. *)
Lemma stage_runs (C : prog (Sys W) answer -> thread (W := W)) (p : prog (Sys W) answer) s g calls i :
  (forall s X (op : M (Sys W) X) k,
     advance s g (C (Act op k)) = Some (snd (op s), g, C (k (fst (op s))))) ->
  calls !! i = Some (C p) ->
  rtc call_step (MkD s g calls) (MkD (snd (run p s)) g (<[i := C (Ret (fst (run p s)))]> calls)).
Proof.
  intros HC. revert s calls. induction p as [a|X op k IH]; intros s calls Hi.
  - cbn. rewrite list_insert_id by done. apply rtc_refl.
  - eapply rtc_l; [eapply step_call; [done|apply HC]|]. cbn [d_sys d_sf d_calls run].
    rewrite <- (list_insert_insert_eq calls i (C (Ret _)) (C (k (fst (op s))))). apply IH.
    apply list_lookup_insert_eq. by eapply lookup_lt_Some.
Qed.
Lemma call_steps d i t s' g' t' d2 :
  d_calls d !! i = Some t -> advance (d_sys d) (d_sf d) t = Some (s', g', t') ->
  rtc call_step (MkD s' g' (<[i := t']> (d_calls d))) d2 -> rtc call_step d d2.
Proof. intros Hi Ha Hr. eapply rtc_l; [by eapply step_call|done]. Qed.

Lemma led_runs d i q id :
  d_calls d !! i = Some (Asking q id (ask_prog q)) ->
  exists g', rtc call_step d
    (MkD (snd (shared_lookup (req_key q) (req_host q) (req_policy q) (d_sys d))) g'
       (<[i := Replied q (fst (shared_lookup (req_key q) (req_host q) (req_policy q) (d_sys d)))
                 (Led id (fst (run (ask_prog q) (d_sys d))))]> (d_calls d))).
Proof.
  destruct d as [s0 g calls]. cbn [d_sys d_sf d_calls]. intros Hi.
  rewrite (shared_alone q (req_key q) (req_host q)) by done.
  assert (Hlt : (i < length calls)%nat) by (by eapply lookup_lt_Some).
  eexists. etrans; [apply (stage_runs (Asking q id) (ask_prog q)); [|exact Hi]|].
  { intros s X op k. cbn. by destruct (op s). }
  eapply call_steps; [apply list_lookup_insert_eq; done|reflexivity|]. cbn [d_sys d_sf d_calls].
  rewrite list_insert_insert_eq.
  set (ans := fst (run (ask_prog q) s0)). set (p := settle_prog (req_key q) (req_host q) ans).
  etrans; [apply (stage_runs (Settling q id ans) p)|].
  { intros s X op k. cbn. by destruct (op s). }
  { apply list_lookup_insert_eq. done. }
  rewrite list_insert_insert_eq.
  eapply call_steps; [apply list_lookup_insert_eq; done|reflexivity|]. cbn [d_sys d_sf d_calls].
  rewrite list_insert_insert_eq. apply rtc_refl.
Qed.

(** A call that finds no lookup out for its key and is not interleaved with
    others does what [cachedLookup] does in the sequential model, result and
    state: the theorems about sequential resolutions speak about runs of
    this machine. *)
Theorem alone_is_sequential d i q
    (Hi : d_calls d !! i = Some (Entering q)) (Hidle : sf_running (d_sf d) (req_key q) = None) :
  exists g' how,
    rtc call_step d
      (MkD (snd (cachedLookup (req_key q) (req_host q) (req_policy q) (d_sys d))) g'
         (<[i := Replied q (fst (cachedLookup (req_key q) (req_host q) (req_policy q) (d_sys d))) how]>
            (d_calls d))).
Proof.
  assert (Hlt : (i < length (d_calls d))%nat) by (by eapply lookup_lt_Some).
  destruct (ParseAddr (req_host q)) as [ip|] eqn:Ep.
  { exists (d_sf d), Literal. unfold cachedLookup. rewrite Ep. eapply call_steps; [done|cbn; by rewrite Ep|].
    apply rtc_refl. }
  rewrite cachedLookup_sections by done.
  assert (Ha : advance (d_sys d) (d_sf d) (Entering q) =
    Some (snd (check_cache (req_key q) (req_host q) (d_sys d)), d_sf d,
      match fst (check_cache (req_key q) (req_host q) (d_sys d)) with
      | Some r => Replied q r Hit | None => Missed q end)).
  { cbn. rewrite Ep. by destruct (check_cache _ _ _). }
  destruct (fst (check_cache (req_key q) (req_host q) (d_sys d))) as [r|].
  { exists (d_sf d), Hit. eapply call_steps; [done|exact Ha|]. apply rtc_refl. }
  set (s1 := snd (check_cache (req_key q) (req_host q) (d_sys d))) in *.
  destruct (sf_enter_lead _ _ Hidle) as (id & El & _).
  destruct (led_runs (MkD s1 (snd (sf_enter (req_key q) (d_sf d)))
    (<[i := Asking q id (ask_prog q)]> (d_calls d))) i q id) as [g' Hr]; [by apply list_lookup_insert_eq|].
  cbn [d_sys d_sf d_calls] in Hr. rewrite list_insert_insert_eq in Hr. eexists g', _.
  eapply call_steps; [done|exact Ha|].
  eapply (call_steps _ _ _ s1 (snd (sf_enter (req_key q) (d_sf d))) (Asking q id (ask_prog q)));
    [by apply list_lookup_insert_eq| |].
  - cbn. destruct (sf_enter (req_key q) (d_sf d)) as [e g1]. cbn in El. by rewrite El.
  - cbn [d_sys d_sf d_calls]. rewrite list_insert_insert_eq. exact Hr.
Qed.

(** ** The bound of the cache *)

Definition in_bound s : Prop :=
  cached s !! "" = None /\ Z.of_nat (size (cached s)) <= dnsCacheMaxSize.
Definition bound_kept s s' : Prop := in_bound s -> in_bound s'.
Definition no_root_call d : Prop := Forall (fun t => req_key (request_of t) <> "") (d_calls d).

Lemma frame_bound s s' : frame s s' -> bound_kept s s'.
Proof. intros (E & _). unfold bound_kept, in_bound, cached. by rewrite E. Qed.
Lemma store_bound_kept key e : key <> "" -> keeps bound_kept (store (W := W) key e).
Proof.
  intros Hk s [Hroot Hsize]. split; [|by apply store_bounded].
  destruct (cached (snd (store key e s)) !! "") as [x|] eqn:E; [|done].
  apply (store_cached key e s) in E; [congruence|done].
Qed.
Lemma settle_prog_bound key host ans :
  key <> "" -> guarantees (fun _ => True) bound_kept (fun _ => True) (settle_prog (W := W) key host ans).
Proof.
  intros Hk. unfold settle_prog. destruct ans as [res [e|]].
  - split_if; [|done]. apply guarantees_seq; [intros s; apply frame_bound, time_now_frame|]. intros now.
    apply guarantees_seq; [by intros s ?|]. intros nttl. apply guarantees_seq; [by apply store_bound_kept|done].
  - split_if; [done|]. split_if; [|done].
    apply guarantees_seq; [intros s; apply frame_bound, time_now_frame|]. intros now.
    apply guarantees_seq; [by intros s ?|]. intros tl. apply guarantees_seq; [by apply store_bound_kept|done].
Qed.

Lemma advance_request s g t s' g' t' : advance s g t = Some (s', g', t') -> request_of t' = request_of t.
Proof.
  destruct t as [q|q|q id p|q id ans p|q id|q r how]; cbn; intros Ha.
  - destruct (ParseAddr _); [by simplify_eq|]. by destruct (check_cache _ _ _) as [[]]; simplify_eq.
  - by destruct (sf_enter _ _) as [[]]; simplify_eq.
  - destruct p as [|X op k]; [by simplify_eq|]. by destruct (op _); simplify_eq.
  - destruct p as [|X op k]; [by simplify_eq|]. by destruct (op _); simplify_eq.
  - by destruct (sf_result _ _); simplify_eq.
  - done.
Qed.
Definition settles_bounded t : Prop :=
  match t with
  | Settling _ _ _ p => guarantees (fun _ => True) bound_kept (fun _ => True) p
  | _ => True
  end.
Lemma advance_bound b s g t s' g' t' :
  advance s g t = Some (s', g', t') -> opt b s -> thread_ok b t -> req_key (request_of t) <> "" ->
  settles_bounded t -> bound_kept s s' /\ settles_bounded t'.
Proof.
  assert (Hsame : bound_kept s s) by (by intros ?).
  destruct t as [q|q|q id p|q id ans p|q id|q r how]; cbn; intros Ha Hb Ht Hk Hs.
  - destruct (ParseAddr (req_host q)); [by simplify_eq|].
    pose proof (check_cache_spec (req_key q) (req_host q) s) as Hc.
    destruct (check_cache _ _ s) as [hit s1]. destruct Hc as [Hf _].
    simplify_eq. destruct hit; eauto using frame_bound.
  - destruct (sf_enter (req_key q) g) as [[id|id] g1]; by simplify_eq.
  - destruct p as [ans|X op k]; simplify_eq; cbn; [by auto using settle_prog_bound|].
    destruct (op s) as [x s1] eqn:Eo. simplify_eq. destruct (Ht s Hb) as [Hf _]. rewrite Eo in Hf.
    split; [by apply frame_bound|done].
  - destruct p as [r|X op k]; simplify_eq; cbn; [done|].
    destruct (op s) as [x s1] eqn:Eo. simplify_eq. destruct (Hs s I) as [Hf Hk']. by rewrite Eo in *.
  - destruct (sf_result g id); by simplify_eq.
  - done.
Qed.

Definition bound_inv d : Prop :=
  no_root_call d -> in_bound (d_sys d) /\ Forall settles_bounded (d_calls d).
Lemma purge_bound s : bound_kept s (snd (purge s)).
Proof.
  intros [Hroot Hsize]. unfold in_bound, cached in *.
  assert (E : cache (s_dns (snd (purge s))) = purge_entries (fst (w_now (s_world s))) (cache (s_dns s))).
  { unfold purge. rewrite bind_run. unfold time_now. by rewrite perform_run. }
  rewrite E. unfold purge_entries. split.
  - apply map_lookup_filter_None. by left.
  - pose proof (map_size_filter (fun kv : string * cacheEntry =>
      After (fst (w_now (s_world s))) (expires (snd kv)) = false) (cache (s_dns s))). lia.
Qed.

Lemma dstep_bound b d d' : dstep d d' -> dinv b d -> bound_inv d -> bound_inv d'.
Proof.
  intros [[d0 i t s' g' t' Ei Ha]|[[d0]|[d0 q]]] [Hd _] IB Hn; cbn in *.
  - unfold no_root_call in Hn. cbn in Hn. rewrite Forall_lookup in Hn.
    assert (Hi : <[i := t']> (d_calls d0) !! i = Some t')
      by (apply list_lookup_insert_eq; by eapply lookup_lt_Some).
    pose proof (advance_request _ _ _ _ _ _ Ha) as Hreq.
    assert (Hn0 : no_root_call d0).
    { apply Forall_lookup. intros j u Ej. destruct (decide (i = j)) as [<-|Hne].
      - simplify_eq. rewrite <- Hreq. by apply (Hn i).
      - apply (Hn j). by rewrite list_lookup_insert_ne. }
    destruct (IB Hn0) as [Hb Hall]. rewrite Forall_lookup in Hall.
    destruct (advance_bound b _ _ _ _ _ _ Ha (option_kept _ _ Hd) (threads_ok _ _ Hd _ _ Ei))
      as (Hk & Hs); [rewrite <- Hreq; by apply (Hn i)|by eapply Hall|].
    split; [by apply Hk|]. apply Forall_insert; [by apply Forall_lookup|done].
  - destruct (IB Hn) as [Hb Hall]. split; [by apply purge_bound|done].
  - apply Forall_app in Hn as [Hn _]. destruct (IB Hn) as [Hb Hall]. split; [done|].
    apply Forall_app. split; [done|]. by repeat constructor.
Qed.

(** C31: in every interleaving, as long as no call is for the empty name, the
    cache holds at most 1000 entries, and every entry is well-formed and the
    authoritative answer of a lookup some call made under its key. *)
Theorem shared_cache_sound s d
    (Hcold : cached s = ∅) (Hr : rtc dstep (dinit s) d) (Hroot : no_root_call d) :
  Z.of_nat (size (cached (d_sys d))) <= dnsCacheMaxSize /\
  forall key e, cached (d_sys d) !! key = Some e ->
    entry_wf e /\ exists q ans, asked (d_calls d) q ans /\ req_key q = key /\ stored_as ans e.
Proof.
  pose proof (reachable_inv s d Hcold Hr) as Hd. split.
  - assert (Hb : dinv (localOnNXDomain (s_dns s)) d /\ bound_inv d).
    { apply (rtc_invariant dstep (fun d => dinv (localOnNXDomain (s_dns s)) d /\ bound_inv d) (dinit s)); [|done|].
      - intros x y [Hx Hy] Hxy. split; [|by eapply dstep_bound].
        destruct Hx. split; eauto using dstep_data, dstep_group.
      - split; [by apply dinit_inv|]. intros _. split; [|constructor]. unfold in_bound. cbn.
        rewrite Hcold. split; [done|]. rewrite map_size_empty. unfold dnsCacheMaxSize. lia. }
    apply Hb, Hroot.
  - intros key e He. apply (cache_ok _ _ (proj1 Hd) _ _ He).
Qed.
End Claims.

(** ** A scheduler, for concrete runs *)

Inductive action : Type := Call (i : nat) | Arrive (q : dnsRequest) | Purge.
Section Play.
Context {W : Type} `{World W} {G : Type} `{!Singleflight (lookupResult * option error) G}.
Implicit Types (d : dstate (W := W) (G := G)).

Definition play1 (a : action) d : dstate :=
  match a with
  | Call i =>
      match d_calls d !! i with
      | Some t => match advance (d_sys d) (d_sf d) t with
                  | Some (s', g', t') => MkD s' g' (<[i := t']> (d_calls d))
                  | None => d
                  end
      | None => d
      end
  | Arrive q => MkD (d_sys d) (d_sf d) (d_calls d ++ [Entering q])
  | Purge => MkD (snd (purge (d_sys d))) (d_sf d) (d_calls d)
  end.
Definition play (acts : list action) d : dstate := foldl (fun d a => play1 a d) d acts.

Lemma play_steps acts d : rtc dstep d (play acts d).
Proof.
  revert d. induction acts as [|a acts IH]; intros d; [apply rtc_refl|]. cbn.
  etrans; [|apply IH]. destruct a as [i|q|]; cbn.
  - destruct (d_calls d !! i) as [t|] eqn:Ei; [|apply rtc_refl].
    destruct (advance _ _ t) as [[[s' g'] t']|] eqn:Ea; [|apply rtc_refl].
    apply rtc_once. left. by eapply step_call.
  - apply rtc_once. by right; right.
  - apply rtc_once. by right; left.
Qed.
End Play.

(** Two connections ask for one name at once, spelled differently; the
    first leads, the second joins. *)
Definition burst : list action :=
  [Arrive (TunnelReq "example.com"); Arrive (TunnelReq "EXAMPLE.com."); Call 0; Call 1; Call 0; Call 1].
Definition burst_start : dstate := dinit (G := sfGroup (lookupResult * option error)) answering_sys.
Definition burst_mid : dstate := play burst burst_start.
Definition burst_end : dstate := play (replicate 40 (Call 0) ++ [Call 1]) burst_mid.
Definition example_reply : lookupResult * option error := (MkResult [Addr4 (ip4 93 184 216 34)] true false, None).

Lemma burst_mid_roles : role_of <$> d_calls burst_mid = [Leader "example.com" 1; Waiter "example.com" 1].
Proof. vm_compute. reflexivity. Qed.
Lemma burst_mid_leads : exists t, d_calls burst_mid !! 0%nat = Some t /\ is_leading "example.com" t.
Proof.
  assert (E : (role_of <$> d_calls burst_mid) !! 0%nat = Some (Leader "example.com" 1))
    by (by rewrite burst_mid_roles).
  apply list_lookup_fmap_Some in E as (t & Et & Ht). exists t. split; [done|].
  destruct t as [| | | | |? ? []]; cbn in *; by simplify_eq.
Qed.
Lemma burst_end_calls : d_calls burst_end =
  [Replied (TunnelReq "example.com") example_reply (Led 1 example_reply);
   Replied (TunnelReq "EXAMPLE.com.") example_reply (Joined 1)].
Proof. vm_compute. reflexivity. Qed.
(** One resolver query served both. *)
Lemma burst_one_query : exists reply, s_trace (d_sys burst_end) =
  [EvDialResolver "1.1.1.1:53"; EvUpstream "1.1.1.1" "example.com" reply].
Proof. eexists. vm_compute. reflexivity. Qed.
Lemma burst_mid_reached : rtc dstep burst_start burst_mid.
Proof. apply play_steps. Qed.
Lemma burst_end_reached : rtc dstep burst_start burst_end.
Proof. etrans; apply play_steps. Qed.

Lemma one_lookup_per_key_witness :
  ~ exists u, d_calls burst_mid !! 1%nat = Some u /\ is_leading "example.com" u.
Proof.
  intros (u & Hj & Hu). destruct burst_mid_leads as (t & Ht & Hl).
  assert (E : 0%nat = 1%nat); [|discriminate E].
  refine (one_lookup_per_key answering_sys burst_mid "example.com" 0%nat 1%nat t u _ burst_mid_reached Ht Hj Hl Hu).
  reflexivity.
Defined.
Lemma reply_is_own_witness : resolved example_reply.
Proof.
  refine (proj1 (reply_is_own answering_sys burst_end 1%nat (TunnelReq "EXAMPLE.com.") example_reply
    (Joined 1) _ burst_end_reached _ _)).
  - reflexivity.
  - rewrite burst_end_calls. repeat constructor.
  - rewrite burst_end_calls. reflexivity.
Defined.
Lemma every_call_returns_witness : inevitable work_step all_replied burst_mid.
Proof. apply (every_call_returns answering_sys); [reflexivity|apply burst_mid_reached]. Defined.
Lemma shared_cache_sound_witness : Z.of_nat (size (cached (d_sys burst_end))) <= dnsCacheMaxSize.
Proof.
  refine (proj1 (shared_cache_sound answering_sys burst_end _ burst_end_reached _)).
  - reflexivity.
  - unfold no_root_call. rewrite burst_end_calls. repeat constructor; discriminate.
Defined.
Lemma alone_is_sequential_witness :
  let d := play [Arrive (TunnelReq "example.com")] burst_start in
  exists g' how, rtc call_step d
    (MkD (snd (cachedLookup "example.com" "example.com" lookup (d_sys d))) g'
       (<[0%nat := Replied (TunnelReq "example.com")
            (fst (cachedLookup "example.com" "example.com" lookup (d_sys d))) how]> (d_calls d))).
Proof.
  cbv zeta. apply (alone_is_sequential (play [Arrive (TunnelReq "example.com")] burst_start) 0%nat
    (TunnelReq "example.com")); reflexivity.
Defined.

(** ** Where the key spaces meet *)

Lemma normalizeHost_local h : normalizeHost ("local:" +:+ h) = "local:" +:+ normalizeHost h.
Proof.
  unfold normalizeHost. rewrite ToLower_app. cbn [ToLower String.append].
  repeat (rewrite TrimSuffix_cons by discriminate). done.
Qed.

(** The name "local:h", asked for through the tunnel, has the key of the
    local answers for h: its not-found is what a direct destination h gets,
    without the local resolver being asked. *)
Theorem tunnel_name_shadows_local {W : Type} `{World W} (h : string) (s : Sys W) (e : cacheEntry)
    (Hname : ParseAddr (normalizeHost h) = None)
    (He : cached s !! normalizeHost ("local:" +:+ h) = Some e)
    (Hneg : neg e = true) (Hlive : fst (w_now (s_world s)) < expires e) :
  fst (localResolveAll h s) = ([], Some (NewDNSError (normalizeHost h) errNotFound)) /\
  s_trace (snd (localResolveAll h s)) = s_trace s.
Proof.
  rewrite normalizeHost_local in He. unfold localResolveAll. cbv zeta. rewrite bind_run.
  rewrite (cachedLookup_hit local_policy _ _ _ e) by done. by rewrite Hneg.
Qed.

(** The resolver knows no "local:nas.home"; the local one knows nas.home. *)
Definition shadow_start : Sys script :=
  MkSys (demo_cache false) (demo_world [MkResolverReply [true] (inl (net_DNSError "no such host" true false))]
    [inr [be_bytes 4 (ip4 192 168 1 5)]]) [].
Definition shadow_sys : Sys script := Eval vm_compute in snd (resolveTunnel "local:nas.home" shadow_start).
Lemma tunnel_name_shadows_local_witness :
  shadow_sys = snd (resolveTunnel "local:nas.home" shadow_start) /\
  fst (localResolveAll "nas.home" shadow_start) = ([Addr4 (ip4 192 168 1 5)], None) /\
  fst (localResolveAll "nas.home" shadow_sys) = ([], Some (NewDNSError "nas.home" errNotFound)).
Proof.
  split; [vm_compute; reflexivity|]. split; [vm_compute; reflexivity|].
  refine (proj1 (tunnel_name_shadows_local "nas.home" shadow_sys
    (MkEntry [] (time_Add (1000 * Second + 8) dnsNegativeTTL) true false) _ _ _ _)); vm_compute; reflexivity.
Defined.
