(* ===== verification/Probe.v ===== *)
(** Concurrent lookups on one tunnel resolver (dns.go: [claim],
    [upstreamAnswered], [upstreamFailed], [releaseProbes] as [lookup] calls
    them).  Every access is under the resolver's mutex, so an execution is an
    interleaving of these sections; [lookup] reads the time once and then
    claims one resolver after the other, so the time a claim is made with may
    be old.  A lookup runs under the five second context of [cachedLookup], so
    time cannot pass its deadline while it is out. *)

From S2P Require Import Prelude GoStrings NetIP Errors Rules World Dns.

(** ** The machine *)

(** A lookup that claimed the resolver and has not released it yet. *)
Record inflight := MkInflight { started_at : Z; as_probe : bool }.

Record pstate := MkP { clock : Z; resolver : upstream; out : list inflight }.

Inductive pstep : pstate -> pstate -> Prop :=
| step_tick t' p :
    clock p <= t' -> Forall (fun l => t' <= started_at l + lookupTimeout) (out p) ->
    pstep p (MkP t' (resolver p) (out p))
| step_claim p now u' :
    now <= clock p -> claim now (resolver p) = (true, u') ->
    pstep p (MkP (clock p) u'
               (MkInflight (clock p) (negb (IsZero (pausedUntil (resolver p)))) :: out p))
| step_refused p now u' :
    now <= clock p -> claim now (resolver p) = (false, u') -> pstep p (MkP (clock p) u' (out p))
| step_answered p l rtt :
    l ∈ out p -> pstep p (MkP (clock p) (answered (clock p) rtt (resolver p)) (out p))
| step_failed p l reachable err :
    l ∈ out p -> pstep p (MkP (clock p) (failed reachable (clock p) err (resolver p)) (out p))
| step_release p pre l post :
    out p = pre ++ l :: post ->
    pstep p (MkP (clock p) (set_probing false (resolver p)) (pre ++ post)).

Definition pinit (t : Z) (name : string) (fn : lookupFn) : pstate :=
  MkP t (new_upstream name fn) [].

(** ** The invariant *)

(** Every lookup that is out is within its deadline, and it either meets a
    usable resolver, or claimed it before the current pause began, or is the
    one probe of the current pause, alone. *)
Definition lookup_inv (p : pstate) (l : inflight) : Prop :=
  started_at l <= clock p <= started_at l + lookupTimeout /\
  (pausedUntil (resolver p) = time_zero \/
   started_at l <= pausedUntil (resolver p) - upstreamPause \/
   (probing (resolver p) = true /\ as_probe l = true /\ out p = [l])).
Definition probes (p : pstate) : list inflight := filter (fun l => Is_true (as_probe l)) (out p).
Definition pinv (p : pstate) : Prop :=
  0 <= clock p /\ (length (probes p) <= 1)%nat /\ Forall (lookup_inv p) (out p).

Lemma pinit_inv t name fn : 0 <= t -> pinv (pinit t name fn).
Proof. intros Ht. split_and!; [done|cbn; lia|constructor]. Qed.

(** A granted claim on a paused resolver finds nothing else out. *)
Lemma probe_claim_alone p now u' :
  pinv p -> now <= clock p -> claim now (resolver p) = (true, u') ->
  pausedUntil (resolver p) <> time_zero -> out p = [].
Proof.
  intros (Ht & _ & Hall) Hnow Hc Hz. destruct (out p) as [|l ls] eqn:Eo; [done|exfalso].
  apply Forall_cons in Hall as [[Hd Hk] _]. unfold claim, IsZero, Before in Hc.
  rewrite (proj2 (Z.eqb_neq _ _) Hz) in Hc.
  destruct (probing (resolver p)) eqn:Ep; [done|]. cbn in Hc.
  destruct (Z.ltb_spec now (pausedUntil (resolver p))); [done|].
  destruct Hk as [?|[?|[? _]]]; [done| |done].
  unfold lookupTimeout, upstreamPause, Second in *. lia.
Qed.

Lemma claim_inv p now u' :
  pinv p -> now <= clock p -> claim now (resolver p) = (true, u') ->
  pinv (MkP (clock p) u' (MkInflight (clock p) (negb (IsZero (pausedUntil (resolver p)))) :: out p)).
Proof.
  intros Hinv Hnow Hc. pose proof (probe_claim_alone p now u' Hinv Hnow Hc) as Halone.
  destruct Hinv as (Ht & Hone & Hall). unfold claim in Hc.
  destruct (IsZero (pausedUntil (resolver p))) eqn:Ez.
  - simplify_eq. apply Z.eqb_eq in Ez. split_and!; [done|done|]. constructor.
    + split; [cbn; unfold lookupTimeout, Second; lia|]. by left.
    + eapply Forall_impl; [exact Hall|]. intros l [Hd _]. split; [done|]. by left.
  - apply Z.eqb_neq in Ez. rewrite (Halone Ez) in *.
    split_and!; [done|unfold probes; cbn [out]; rewrite filter_cons; by destruct (decide _)|].
    constructor; [|done]. split; [cbn; unfold lookupTimeout, Second; lia|].
    destruct (_ || _); simplify_eq. right; right. done.
Qed.

Lemma release_inv p pre l post :
  out p = pre ++ l :: post -> pinv p ->
  pinv (MkP (clock p) (set_probing false (resolver p)) (pre ++ post)).
Proof.
  intros Eo (Ht & Hone & Hall). split_and!; [done| |].
  - unfold probes in *. rewrite Eo in Hone. cbn in *.
    rewrite filter_app, length_app in *. rewrite filter_cons in Hone.
    destruct (decide _); cbn in Hone; lia.
  - apply Forall_forall. intros l' Hin. cbn in Hin. rewrite Forall_forall in Hall.
    destruct (Hall l') as [Hd Hk]; [rewrite Eo; set_solver|]. split; [done|].
    destruct Hk as [?|[?|(_ & _ & Hl)]]; [by left|by right; left|exfalso].
    rewrite Eo in Hl. destruct pre as [|? [|]], post; simplify_list_eq; set_solver.
Qed.

Lemma pstep_inv p q : pstep p q -> pinv p -> pinv q.
Proof.
  intros Hs Hinv. destruct Hs as [t' p Hle Hdl|p now u' Hnow Hc|p now u' Hnow Hc|p l rtt Hl|p l r err Hl|p pre l post Eo];
    [|by eapply claim_inv| | | |by eapply release_inv]; destruct Hinv as (Ht & Hone & Hall).
  - split_and!; [cbn; lia|done|]. cbn. apply Forall_forall. intros l Hl.
    rewrite Forall_forall in Hall, Hdl. destruct (Hall l Hl) as [? ?]. specialize (Hdl l Hl).
    split; [cbn; lia|done].
  - assert (u' = resolver p) as ->.
    { unfold claim in Hc. repeat split_if; by simplify_eq. }
    split_and!; [done|done|]. eapply Forall_impl; [exact Hall|]. intros l Hl. exact Hl.
  - split_and!; [done|done|]. eapply Forall_impl; [exact Hall|]. intros l' [Hd _]. split; [done|]. by left.
  - split_and!; [done|done|]. eapply Forall_impl; [exact Hall|]. intros l' [Hd _]. split; [done|].
    cbn. destruct r; [by left|]. right; left. unfold time_Add. lia.
Qed.

Lemma psteps_inv p q : rtc pstep p q -> pinv p -> pinv q.
Proof. induction 1; eauto using pstep_inv. Qed.

(** C28: a probe is alone.  In every interleaving of lookups on a resolver at
    most one lookup that was let through to a paused resolver is out; when
    such a lookup is let through, nothing else is out on the resolver; and
    while the resolver is paused, a lookup that claimed it after the pause
    began is that probe and the only lookup out.  Lookups claimed before the
    pause may still be out in any number.  The lookup bound of five seconds
    against the pause of ten is what makes the unconditional reset in
    [releaseProbes] safe. *)
Theorem probe_is_alone t name fn p (Ht : 0 <= t) (Hr : rtc pstep (pinit t name fn) p) :
  (length (probes p) <= 1)%nat /\
  (forall now u', now <= clock p -> claim now (resolver p) = (true, u') ->
     pausedUntil (resolver p) <> time_zero -> out p = []) /\
  (forall l, l ∈ out p -> pausedUntil (resolver p) <> time_zero ->
     pausedUntil (resolver p) - upstreamPause < started_at l ->
     as_probe l = true /\ out p = [l]).
Proof.
  assert (Hinv : pinv p) by eauto using psteps_inv, pinit_inv. split_and!.
  - apply Hinv.
  - intros now u'. by eapply probe_claim_alone.
  - intros l Hl Hz Hlate. destruct Hinv as (_ & _ & Hall). rewrite Forall_forall in Hall.
    destruct (Hall l Hl) as [_ [?|[?|(_ & ? & ?)]]]; [done|lia|done].
Qed.

(** The resolver fails at zero and is probed ten seconds later. *)
Lemma probe_is_alone_witness :
  let u := set_probing false (failed false 0 timeout_error (new_upstream "1.1.1.1" dohLookupFn)) in
  let l := MkInflight (10 * Second) true in
  let p := MkP (10 * Second) (snd (claim (10 * Second) u)) [l] in
  rtc pstep (pinit 0 "1.1.1.1" dohLookupFn) p /\
  pausedUntil (resolver p) <> time_zero /\ (length (probes p) <= 1)%nat /\ as_probe l = true.
Proof.
  cbv zeta.
  match goal with |- rtc pstep _ ?q /\ _ => assert (Hr : rtc pstep (pinit 0 "1.1.1.1" dohLookupFn) q) end.
  { eapply rtc_l; [apply (step_claim _ 0); reflexivity|].
    eapply rtc_l; [apply (step_failed _ (MkInflight 0 false) false timeout_error); constructor|].
    eapply rtc_l; [apply (step_release _ [] (MkInflight 0 false) []); reflexivity|].
    eapply rtc_l; [apply (step_tick (10 * Second)); [vm_compute; discriminate|constructor]|].
    eapply rtc_l; [apply (step_claim _ (10 * Second)); reflexivity|].
    apply rtc_refl. }
  pose proof (probe_is_alone 0 "1.1.1.1" dohLookupFn _ ltac:(lia) Hr) as (H1 & _ & H3).
  split_and!; [exact Hr|vm_compute; discriminate|exact H1|].
  apply (H3 (MkInflight (10 * Second) true)); [constructor|vm_compute; discriminate|vm_compute; reflexivity].
Defined.
