(* ===== verification/Opener.v ===== *)
(** The route decision of rules.go ([Decide], [matches]), routing.go and
    opener.go: every upstream connection goes through [Open]. *)

From S2P Require Import Prelude GoStrings NetIP Errors Rules World Dns DnsFacts DnsProps CacheProps.

(** ** Address families (routing.go) *)

Inductive IPFamily : Type := FamilyBoth | FamilyIPv4 | FamilyIPv6.
#[global] Instance IPFamily_eq_dec : EqDecision IPFamily.
Proof. solve_decision. Defined.

Definition IPFamily_String (f : IPFamily) : string :=
  match f with FamilyIPv4 => "ipv4" | FamilyIPv6 => "ipv6" | FamilyBoth => "both" end.

Definition parseIPFamily (raw : string) : option IPFamily :=
  let s := ToLower (TrimSpace raw) in
  if existsb (String.eqb s) [""; "both"; "auto"] then Some FamilyBoth
  else if existsb (String.eqb s) ["ipv4"; "v4"] then Some FamilyIPv4
  else if existsb (String.eqb s) ["ipv6"; "v6"] then Some FamilyIPv6
  else None.

Definition familyMatches (f : IPFamily) (ip : list ascii) : bool :=
  match f with
  | FamilyIPv4 => To4_some ip
  | FamilyIPv6 => negb (To4_some ip)
  | FamilyBoth => true
  end.

Section Open.
Context `{Regexp} {W : Type} `{World W}.

(** ** The route decision *)

(** [ruleEntry.matches]. *)
Definition matches (r : ruleEntry) (host : string) : M (Sys W) bool :=
  match ipPrefix r with
  | Some p =>
      '(addrs, err) ← ResolveAll host;
      mret (match err with
            | Some _ => false
            | None => existsb (fun a => Prefix_Contains p a) addrs
            end)
  | None => mret (matches_name r host)
  end.
Fixpoint first_match (rs : list ruleEntry) (host : string) : M (Sys W) (option ruleEntry) :=
  match rs with
  | [] => mret None
  | r :: rs' => b ← matches r host; if b : bool then mret (Some r) else first_match rs' host
  end.
Definition Decide (e : RuleEngine) (host : string) (port : Z) : M (Sys W) (Route * string) :=
  let host := normalizeHost host in
  if match ParseAddr host with Some ip => isPrivate e ip | None => false end
  then mret (RouteDirect, "private")
  else
    m ← first_match (rules e) host;
    mret (match m with
          | Some r => (RouteDirect, "direct:" +:+ raw r)
          | None => (RouteTunnel, "fallback")
          end).

(** ** Candidates *)

Record Opener := MkOpener { o_rules : RuleEngine; o_family : IPFamily }.

Definition keep_family (f : IPFamily) (l : list Addr) : list Addr :=
  filter (fun a => familyMatches f (AsSlice a) = true) l.

Definition only_private_error (host : string) (a : Addr) : error :=
  Errorf ("resolve " +:+ host +:+ ": only private addresses (" +:+ Addr_String a +:+
          "), refused through the tunnel; add a direct rule to reach it directly") None.
Definition no_family_error (host : string) (f : IPFamily) : error :=
  Errorf ("resolve " +:+ host +:+ ": no " +:+ IPFamily_String f +:+ " addresses") None.
Definition no_address_error : error := Errorf "no address" None.

(** The last part of [candidates]: the family filter of a direct route. *)
Definition direct_candidates (o : Opener) (host : string) (addrs : list Addr) (route : Route)
    (reason : string) : outcome (list Addr * Route * string * option error) :=
  let out := keep_family (o_family o) addrs in
  if bool_decide (out = []) then Returned ([], route, reason, Some (no_family_error host (o_family o)))
  else Returned (out, route, reason, None).

(** The tunnel part of [candidates]. *)
Definition tunnel_candidates (o : Opener) (host : string) (addrs : list Addr) (localDirect : bool)
    (reason : string) : outcome (list Addr * Route * string * option error) :=
  let public := filter (fun a => isPrivate (o_rules o) a = false) addrs in
  if bool_decide (public <> []) then
    match pickTunnelAddr public with
    | None => Returned ([], RouteTunnel, reason, Some no_address_error)
    | Some head => Returned (head :: filter (fun a => a <> head) public, RouteTunnel, reason, None)
    end
  else
    let reachable := dropHostLocal addrs in
    if negb localDirect || bool_decide (reachable = []) then
      match addrs with
      | [] => Panicked                              (* addrs[0] *)
      | a :: _ => Returned ([], RouteTunnel, reason, Some (only_private_error host a))
      end
    else direct_candidates o host reachable RouteDirect "local-private".

Definition candidates (o : Opener) (host : string) (port : Z)
    : M (Sys W) (outcome (list Addr * Route * string * option error)) :=
  '(route, reason) ← Decide (o_rules o) host port;
  match route with
  | RouteDirect =>
      '(addrs, err) ← localResolveAll host;
      mret (match err with
            | Some e => Returned ([], route, reason, Some e)
            | None => direct_candidates o host addrs route reason
            end)
  | RouteTunnel =>
      '(addrs, localDirect, err) ← resolveTunnel host;
      mret (match err with
            | Some e => Returned ([], route, reason, Some e)
            | None => tunnel_candidates o host addrs localDirect reason
            end)
  end.

(** [resolveAddr]: the head of the candidates. *)
Definition resolveAddr (o : Opener) (host : string) (port : Z)
    : M (Sys W) (outcome (Addr * Route * string * option error)) :=
  r ← candidates o host port;
  mret (match r with
        | Panicked => Panicked
        | Returned (_, route, reason, Some e) => Returned (AddrZero, route, reason, Some e)
        | Returned ([], _, _, None) => Panicked       (* addrs[0] *)
        | Returned (a :: _, route, reason, None) => Returned (a, route, reason, None)
        end).
(** [Resolve]. *)
Definition Resolve (o : Opener) (host : string) (port : Z)
    : M (Sys W) (outcome (list ascii * Route * string * option error)) :=
  r ← resolveAddr o host port;
  mret (match r with
        | Panicked => Panicked
        | Returned (_, route, reason, Some e) => Returned ([], route, reason, Some e)
        | Returned (a, route, reason, None) => Returned (AsSlice a, route, reason, None)
        end).

(** ** Dialing *)

(** [dialDirectIP]. *)
Definition dialDirectIP (ip : Addr) (port : Z) (family : IPFamily) : M (Sys W) (error + Z) :=
  let at_ := "dial " +:+ Addr_String ip +:+ ":" +:+ Itoa port +:+ ": " in
  if negb (familyMatches family (AsSlice ip))
  then mret (inl (Errorf (at_ +:+ "no " +:+ IPFamily_String family +:+ " addresses") None))
  else
    let network := if Is4 ip then "tcp4" else "tcp6" in
    let addr := JoinHostPort (Addr_String ip) (Itoa port) in
    r ← perform (fun r => [EvDialDirect network addr r]) (w_dialDirect network addr);
    mret (match r with
          | inl err => inl (Errorf (at_ +:+ Error err) (Some err))
          | inr conn => inr conn
          end).

(** [withAttempts]. *)
Definition withAttempts (err : error) (attempts : nat) : error :=
  if Nat.ltb 1 attempts
  then Errorf (Error err +:+ " (" +:+ Itoa (Z.of_nat attempts) +:+ " addresses tried)") (Some err)
  else err.

(** The dial loops of [Open]: the first address that connects, else the
    first error. *)
Fixpoint dial_direct_loop (addrs : list Addr) (port : Z) (family : IPFamily) (firstErr : option error)
    : M (Sys W) ((Z * Addr) + option error) :=
  match addrs with
  | [] => mret (inr firstErr)
  | ip :: rest =>
      r ← dialDirectIP ip port family;
      match r with
      | inr conn => mret (inl (conn, ip))
      | inl derr =>
          dial_direct_loop rest port family
            (match firstErr with None => Some derr | Some _ => firstErr end)
      end
  end.
Fixpoint dial_tunnel_loop (meta : ConnMeta) (addrs : list Addr) (port : Z) (first : option (error * string))
    : M (Sys W) ((Z * Addr) + option (error * string)) :=
  match addrs with
  | [] => mret (inr first)
  | ip :: rest =>
      let addr := JoinHostPort (Addr_String ip) (Itoa port) in
      r ← perform (fun r => [EvDialTunnel addr r]) (w_dialTunnel meta addr);
      match r with
      | inr conn => mret (inl (conn, ip))
      | inl derr =>
          dial_tunnel_loop meta rest port
            (match first with None => Some (derr, addr) | Some _ => first end)
      end
  end.

(** Result of [Open]: connection, dialed address, route, reason, error. *)
Record opened := MkOpened {
  op_conn : option Z; op_dst : string; op_route : Route; op_reason : string; op_err : option error }.

Definition Open (o : Opener) (src proto host : string) (port : Z) : M (Sys W) (outcome opened) :=
  c ← candidates o host port;
  match c with
  | Panicked => mret Panicked
  | Returned (_, route, reason, Some e) => mret (Returned (MkOpened None "" route reason (Some e)))
  | Returned (addrs, RouteDirect, reason, None) =>
      r ← dial_direct_loop addrs port (o_family o) None;
      mret (Returned (match r with
        | inl (conn, ip) => MkOpened (Some conn) (Addr_String ip) RouteDirect reason None
        | inr firstErr =>
            (* fmt.Errorf with %w of a nil error only for an empty list *)
            let text := "direct dial to " +:+ host +:+ ":" +:+ Itoa port +:+ " failed: " +:+
                        match firstErr with Some e => Error e | None => "%!w(<nil>)" end in
            MkOpened None "" RouteDirect reason
              (Some (withAttempts (Errorf text firstErr) (length addrs)))
        end))
  | Returned (addrs, RouteTunnel, reason, None) =>
      r ← dial_tunnel_loop (MkMeta proto src host "") addrs port None;
      mret (Returned (match r with
        | inl (conn, ip) => MkOpened (Some conn) (Addr_String ip) RouteTunnel reason None
        | inr first =>
            let err := match first with
                       | Some (e, addr) => NewNetworkError "SSH dial" addr e
                       | None => NetworkError "SSH dial" "" None
                       end in
            MkOpened None "" RouteTunnel reason (Some (withAttempts err (length addrs)))
        end))
  end.
End Open.
