(* ===== verification/OpenerProps.v ===== *)
(** What opener.go promises: which addresses a connection may be sent to,
    by which route, which resolvers see a name, and the order of the dials. *)

From S2P Require Import Prelude GoStrings NetIP Errors Rules World Dns DnsFacts Asks DnsProps CacheProps Opener.

(** ** Candidates *)

Section Pure.
Context `{Regexp}.
Implicit Types (o : Opener) (addrs : list Addr).

Lemma pickTunnelAddr_elem addrs a : pickTunnelAddr addrs = Some a -> a ∈ addrs.
Proof.
  unfold pickTunnelAddr. destruct (find _ _) as [b|] eqn:E; intros E'; simplify_eq.
  - apply find_some in E as [Hin _]. by apply list_elem_of_In.
  - by apply head_Some_elem_of.
Qed.

Lemma pickTunnelAddr_total addrs : addrs <> [] -> exists a, pickTunnelAddr addrs = Some a.
Proof.
  intros Ha. unfold pickTunnelAddr. destruct (find _ _); [eauto|]. destruct addrs; [done|]. cbn. eauto.
Qed.

(** The candidate list promised to the dial loops. *)
Definition tunnel_list o addrs out : Prop :=
  exists hd, out = hd :: filter (fun a => a <> hd) (filter (fun a => isPrivate (o_rules o) a = false) addrs)
    /\ pickTunnelAddr (filter (fun a => isPrivate (o_rules o) a = false) addrs) = Some hd.

Lemma tunnel_list_elem o addrs out a :
  tunnel_list o addrs out -> a ∈ out <-> a ∈ addrs /\ isPrivate (o_rules o) a = false.
Proof.
  intros (hd & -> & Hh). apply pickTunnelAddr_elem, list_elem_of_filter in Hh.
  rewrite elem_of_cons, !list_elem_of_filter.
  destruct (decide (a = hd)) as [->|]; intuition congruence.
Qed.

(** The three ways the tunnel part of [candidates] can end. *)
Lemma tunnel_candidates_cases o host addrs ld reason (Ha : addrs <> []) :
  let public := filter (fun a => isPrivate (o_rules o) a = false) addrs in
  (public <> [] /\ exists out, tunnel_list o addrs out /\
     tunnel_candidates o host addrs ld reason = Returned (out, RouteTunnel, reason, None)) \/
  (public = [] /\ (ld = false \/ dropHostLocal addrs = []) /\ exists a,
     tunnel_candidates o host addrs ld reason
     = Returned ([], RouteTunnel, reason, Some (only_private_error host a))) \/
  (public = [] /\ ld = true /\
   tunnel_candidates o host addrs ld reason
   = direct_candidates o host (dropHostLocal addrs) RouteDirect "local-private").
Proof.
  cbv zeta. unfold tunnel_candidates. cbv zeta. case_bool_decide as Hp.
  - left. split; [done|]. destruct (pickTunnelAddr_total _ Hp) as [hd Hh]. rewrite Hh.
    eexists. split; [|reflexivity]. by exists hd.
  - right. case_bool_decide as Hr; destruct ld; cbn; [| |right|]; eauto;
      left; (split; [done|]); (split; [by auto|]); destruct addrs as [|a l]; [done| |done| |done|]; by exists a.
Qed.

Lemma direct_candidates_cases o host addrs route reason :
  (exists e, direct_candidates o host addrs route reason = Returned ([], route, reason, Some e)) \/
  (keep_family (o_family o) addrs <> [] /\
   direct_candidates o host addrs route reason
   = Returned (keep_family (o_family o) addrs, route, reason, None)).
Proof. unfold direct_candidates. cbv zeta. case_bool_decide; eauto. Qed.

Lemma keep_family_elem f addrs a :
  a ∈ keep_family f addrs <-> a ∈ addrs /\ familyMatches f (AsSlice a) = true.
Proof. unfold keep_family. rewrite list_elem_of_filter. tauto. Qed.
End Pure.

Section Route.
Context `{Regexp} {W : Type} `{World W}.
Implicit Types (s : Sys W) (o : Opener) (e : RuleEngine) (host : string) (port : Z).

(** What a resolution through [cachedLookup] gives, for its callers. *)
Definition good_answer (r : list Addr * option error) : Prop :=
  snd r = None -> fst r <> [] /\ Forall Addr_ok (fst r).

Lemma resolveTunnel_wf host :
  runs sys_wf (resolveTunnel (W := W) host)
    (fun r s => good_answer (fst (fst r), snd r) /\ sys_wf s).
Proof.
  unfold resolveTunnel. cbv zeta. eapply runs_bind.
  - apply cachedLookup_wf; auto using lookup_frame, lookup_ok.
  - intros [res err]. apply runs_pure. intros Hr. by apply runs_ret_wf.
Qed.
Lemma localResolveAll_wf host :
  runs sys_wf (localResolveAll (W := W) host) (fun r s => good_answer r /\ sys_wf s).
Proof.
  unfold localResolveAll. cbv zeta. eapply runs_bind.
  - apply cachedLookup_wf; auto using local_policy_frame, local_policy_ok.
  - intros [res err]. apply runs_pure. intros Hr. by apply runs_ret_wf.
Qed.

Lemma matches_wf r host : runs sys_wf (matches (W := W) r host) (fun _ s => sys_wf s).
Proof.
  unfold matches, ResolveAll. destruct (ipPrefix r); [|by apply runs_ret].
  apply (runs_bind _ (fun _ s => sys_wf s)).
  - eapply runs_bind; [apply resolveTunnel_wf|]. intros [[l b] er] s [_ Hs]. exact Hs.
  - intros [l er]. by apply runs_ret.
Qed.
Lemma first_match_wf rs host : runs sys_wf (first_match (W := W) rs host) (fun _ s => sys_wf s).
Proof.
  induction rs as [|r rs IH]; cbn [first_match]; [by apply runs_ret|].
  eapply runs_bind; [apply matches_wf|]. intros [|]; [by apply runs_ret|done].
Qed.

Lemma Decide_wf e host port :
  runs sys_wf (Decide (W := W) e host port)
    (fun r s => snd r <> "local-private" /\ sys_wf s).
Proof.
  unfold Decide. cbv zeta. split_if; [by apply runs_ret_wf|].
  eapply runs_bind; [apply first_match_wf|]. intros [r|]; by apply runs_ret_wf.
Qed.

(** What [candidates] promises to [Open] and to [Resolve]: it never indexes an
    empty list, its addresses are of the route it names, and an error comes
    with no address. *)
Definition candidates_spec o (r : outcome (list Addr * Route * string * option error)) : Prop :=
  match r with
  | Panicked => False
  | Returned (l, _, _, Some _) => l = []
  | Returned (l, RouteTunnel, _, None) =>
      l <> [] /\ Forall (fun a => Addr_ok a /\ isPrivate (o_rules o) a = false) l
  | Returned (l, RouteDirect, reason, None) =>
      l <> [] /\ Forall (fun a => familyMatches (o_family o) (AsSlice a) = true) l /\
      (reason = "local-private" ->
       Forall (fun a => isPrivate (o_rules o) a = true /\ exists l0, Forall Addr_ok l0 /\ a ∈ dropHostLocal l0) l)
  end.

Lemma isPrivate_dropHostLocal o addrs a :
  filter (fun a => isPrivate (o_rules o) a = false) addrs = [] ->
  a ∈ dropHostLocal addrs -> isPrivate (o_rules o) a = true.
Proof.
  intros Hp Ha. apply dropHostLocal_elem in Ha as ((b & Hb & ->) & _).
  rewrite isPrivate_canon. apply not_false_iff_true. intros Hf.
  assert (b ∈ filter (fun a => isPrivate (o_rules o) a = false) addrs)
    by by apply list_elem_of_filter.
  rewrite Hp in *. set_solver.
Qed.

Lemma tunnel_candidates_spec o host addrs ld reason :
  addrs <> [] -> Forall Addr_ok addrs ->
  candidates_spec o (tunnel_candidates o host addrs ld reason).
Proof.
  intros Ha Hok.
  destruct (tunnel_candidates_cases o host addrs ld reason Ha)
    as [(Hp & out & Hl & ->)|[(Hp & _ & a & ->)|(Hp & _ & ->)]]; [|done|].
  - split; [by destruct Hl as (? & -> & _)|]. apply Forall_forall. intros a Hin.
    apply (tunnel_list_elem _ _ _ _ Hl) in Hin as [Hin ?]. rewrite Forall_forall in Hok. auto.
  - destruct (direct_candidates_cases o host (dropHostLocal addrs) RouteDirect "local-private")
      as [[e ->]|[Hne ->]]; [done|]. cbn.
    split; [done|]. split; [|intros _]; apply Forall_forall; intros a [Hin Hm]%keep_family_elem; [done|].
    split; [by eapply isPrivate_dropHostLocal|eauto].
Qed.

Lemma direct_candidates_spec o host addrs reason :
  reason <> "local-private" -> candidates_spec o (direct_candidates o host addrs RouteDirect reason).
Proof.
  intros Hr. destruct (direct_candidates_cases o host addrs RouteDirect reason) as [[e ->]|[Hne ->]]; [done|].
  split; [done|]. split; [|done]. apply Forall_forall. by intros a [? ?]%keep_family_elem.
Qed.

Lemma candidates_wf o host port :
  runs sys_wf (candidates (W := W) o host port) (fun r s => candidates_spec o r /\ sys_wf s).
Proof.
  unfold candidates. eapply runs_bind; [apply Decide_wf|]. intros [route reason].
  apply runs_pure. cbn [snd]. intros Hreason. destruct route.
  - eapply runs_bind; [apply localResolveAll_wf|]. intros [l [er|]]; apply runs_pure; intros Hg;
      apply runs_ret_wf; [done|by apply direct_candidates_spec].
  - eapply runs_bind; [apply resolveTunnel_wf|]. intros [[l ld] [er|]]; apply runs_pure; intros Hg;
      apply runs_ret_wf; [done|]. destruct Hg; [done|]. by apply tunnel_candidates_spec.
Qed.
End Route.

(** ** Events *)

Section Events.
Context `{Regexp} {W : Type} `{World W}.
Implicit Types (s : Sys W) (o : Opener) (src proto host : string) (port : Z).

Lemma lookup_loop_emits ctx tctx dl host active :
  keeps (emits is_dns) (lookup_loop (W := W) ctx tctx dl host active).
Proof.
  assert (Hl : forall A (m : M (Sys W) A), keeps (emits is_local) m -> keeps (emits is_dns) m).
  { intros A m. apply keeps_weaken. intros s s'. apply emits_weaken. by left. }
  assert (Hu : forall A (m : M (Sys W) A), keeps (emits is_upstream) m -> keeps (emits is_dns) m).
  { intros A m. apply keeps_weaken. intros s s'. apply emits_weaken. by right. }
  pose proof (fun c h => Hl _ _ (notFound_emits (W := W) c h)).
  pose proof (fun c h => Hl _ _ (lookup_fallback_emits (W := W) c h)).
  pose proof (fun u c h => Hu _ _ (upstream_lookup_emits (W := W) u c h)).
  induction active as [|i l IH]; cbn [lookup_loop]; walk.
Qed.
Lemma lookup_emits ctx host : keeps (emits is_dns) (lookup (W := W) ctx host).
Proof. unfold lookup. walk; [apply lookup_loop_emits|apply on_dns_emits]. Qed.
Lemma resolveTunnel_emits host : keeps (emits is_dns) (resolveTunnel (W := W) host).
Proof. unfold resolveTunnel. walk. apply cachedLookup_emits, lookup_emits. Qed.
#[local] Hint Resolve resolveTunnel_emits : gate.
Lemma first_match_emits rs host : keeps (emits is_dns) (first_match (W := W) rs host).
Proof. induction rs as [|r rs IH]; cbn [first_match]; unfold matches, ResolveAll; walk. Qed.
#[local] Hint Resolve first_match_emits : gate.
Lemma candidates_emits o host port : keeps (emits is_dns) (candidates (W := W) o host port).
Proof.
  assert (Hl : keeps (emits is_dns) (localResolveAll (W := W) host)).
  { eapply keeps_weaken; [|apply localResolveAll_emits]. intros s s'. apply emits_weaken. by left. }
  unfold candidates, Decide. walk.
Qed.

(** The resolution asks resolvers only, and those of the configuration. *)
Lemma first_match_asks res rs host : keeps (asks res) (first_match (W := W) rs host).
Proof. induction rs as [|r rs IH]; cbn [first_match]; unfold matches, ResolveAll; walk. Qed.
Lemma candidates_asks res o host port : keeps (asks res) (candidates (W := W) o host port).
Proof. pose proof (first_match_asks res) as Hm. unfold candidates, Decide. walk. Qed.

(** The dial of one address by a route, with its outcome. *)
Definition dial_event (route : Route) port (ip : Addr) (r : error + Z) : event :=
  let addr := JoinHostPort (Addr_String ip) (Itoa port) in
  match route with
  | RouteDirect => EvDialDirect (if Is4 ip then "tcp4" else "tcp6") addr r
  | RouteTunnel => EvDialTunnel addr r
  end.
Definition failed_dials (route : Route) port (fails : list (Addr * error)) : list event :=
  (fun x => dial_event route port (fst x) (inl (snd x))) <$> fails.
(** What the trace of the dials down a list of addresses is: some that failed
    with their errors, and then the one that connected, or the end. *)
Definition dials_down (route : Route) port (addrs : list Addr) (fails : list (Addr * error))
    (won : option (Addr * Z)) (new : list event) : Prop :=
  match won with
  | Some (ip, conn) => (exists rest, addrs = (fst <$> fails) ++ ip :: rest) /\
      new = failed_dials route port fails ++ [dial_event route port ip (inr conn)]
  | None => addrs = fst <$> fails /\ new = failed_dials route port fails
  end.
Lemma dials_down_cons route port ip e addrs fails won new :
  dials_down route port addrs fails won new ->
  dials_down route port (ip :: addrs) ((ip, e) :: fails) won (dial_event route port ip (inl e) :: new).
Proof.
  destruct won as [[a c]|]; cbn; [intros [[rest ->] ->]; split; [by exists rest|done]|]. by intros [-> ->].
Qed.

(** The dial loops: down the list, up to the first that connects; with none,
    the first error is kept. *)
Lemma dial_tunnel_loop_run meta addrs port first s :
  let r := fst (dial_tunnel_loop (W := W) meta addrs port first s) in
  let s' := snd (dial_tunnel_loop meta addrs port first s) in
  exists fails new, s_trace s' = s_trace s ++ new /\
    dials_down RouteTunnel port addrs fails (match r with inl (c, ip) => Some (ip, c) | inr _ => None end) new /\
    match r with
    | inl _ => True
    | inr f => f = match first, fails with
                   | Some _, _ | None, [] => first
                   | None, (ip, e) :: _ => Some (e, JoinHostPort (Addr_String ip) (Itoa port))
                   end
    end.
Proof.
  cbv zeta. revert first s. induction addrs as [|ip rest IH]; intros first s; cbn [dial_tunnel_loop].
  { exists [], []. cbn. rewrite app_nil_r. repeat split. by destruct first. }
  cbv zeta. rewrite bind_run, perform_run. cbn [fst snd].
  destruct (fst (w_dialTunnel _ _ _)) as [derr|conn].
  - match goal with |- context [dial_tunnel_loop meta rest port ?f ?s1] =>
      destruct (IH f s1) as (fails & new & Et & Hd & Hr) end.
    exists ((ip, derr) :: fails), (dial_event RouteTunnel port ip (inl derr) :: new). split_and!.
    + rewrite Et. cbn. by rewrite <- (assoc_L (++)).
    + by apply dials_down_cons.
    + destruct (fst _) as [?|f]; [done|]. subst f. by destruct first.
  - exists [], [dial_event RouteTunnel port ip (inr conn)]. split_and!; [done| |done]. split; [by exists rest|done].
Qed.

(** The error of one direct dial. *)
Definition direct_error (ip : Addr) port (e : error) : error :=
  Errorf ("dial " +:+ Addr_String ip +:+ ":" +:+ Itoa port +:+ ": " +:+ Error e) (Some e).
Lemma dialDirectIP_run ip port family s :
  familyMatches family (AsSlice ip) = true ->
  exists x, s_trace (snd (dialDirectIP (W := W) ip port family s)) = s_trace s ++ [dial_event RouteDirect port ip x] /\
    fst (dialDirectIP ip port family s) = match x with inl e => inl (direct_error ip port e) | inr c => inr c end.
Proof.
  intros Hf. unfold dialDirectIP. cbv zeta. rewrite Hf. cbn [negb].
  rewrite bind_run, perform_run. eexists. split; [done|]. cbn [fst snd mret M_ret].
  destruct (fst _); [|done]. unfold direct_error. by rewrite !str_app_assoc.
Qed.

Lemma dial_direct_loop_run addrs port family first s :
  Forall (fun a => familyMatches family (AsSlice a) = true) addrs ->
  let r := fst (dial_direct_loop (W := W) addrs port family first s) in
  let s' := snd (dial_direct_loop addrs port family first s) in
  exists fails new, s_trace s' = s_trace s ++ new /\
    dials_down RouteDirect port addrs fails (match r with inl (c, ip) => Some (ip, c) | inr _ => None end) new /\
    match r with
    | inl _ => True
    | inr f => f = match first, fails with
                   | Some _, _ | None, [] => first
                   | None, (ip, e) :: _ => Some (direct_error ip port e)
                   end
    end.
Proof.
  cbv zeta. intros Hf. revert first s. induction Hf as [|ip rest Hip Hrest IH]; intros first s; cbn [dial_direct_loop].
  { exists [], []. cbn. rewrite app_nil_r. repeat split. by destruct first. }
  rewrite bind_run. destruct (dialDirectIP_run ip port family s Hip) as (x & Ed & Ex).
  destruct (dialDirectIP ip port family s) as [y s1]; cbn [fst snd] in *. subst y. destruct x as [derr|conn].
  - match goal with |- context [dial_direct_loop rest port family ?f ?s1] =>
      destruct (IH f s1) as (fails & new & Et & Hd & Hr) end.
    exists ((ip, derr) :: fails), (dial_event RouteDirect port ip (inl derr) :: new). split_and!.
    + rewrite Et, Ed. by rewrite <- (assoc_L (++)).
    + by apply dials_down_cons.
    + destruct (fst _) as [?|f]; [done|]. subst f. by destruct first.
  - exists [], [dial_event RouteDirect port ip (inr conn)]. split_and!; [done| |done]. split; [by exists rest|done].
Qed.

(** What a failed [Open] says of the error [e] of the address [ip]. *)
Definition dial_error (route : Route) host port (ip : Addr) (e : error) : error :=
  match route with
  | RouteDirect =>
      let derr := direct_error ip port e in
      Errorf ("direct dial to " +:+ host +:+ ":" +:+ Itoa port +:+ " failed: " +:+ Error derr) (Some derr)
  | RouteTunnel => NewNetworkError "SSH dial" (JoinHostPort (Addr_String ip) (Itoa port)) e
  end.
(** What the run of [Open] after [candidates] succeeded looks like: the dials
    down the list, and the connection of the last, or the error of the
    first with the number of addresses. *)
Definition dial_report (route : Route) host port (addrs : list Addr) s1 (r : opened) s' : Prop :=
  exists fails won new, s_trace s' = s_trace s1 ++ new /\ dials_down route port addrs fails won new /\
    match won with
    | Some (ip, conn) => r = MkOpened (Some conn) (Addr_String ip) route (op_reason r) None
    | None => exists ip e rest, fails = (ip, e) :: rest /\
        r = MkOpened None "" route (op_reason r)
              (Some (withAttempts (dial_error route host port ip e) (length addrs)))
    end.

Lemma Open_run o src proto host port s addrs route reason s1 :
  candidates o host port s = (Returned (addrs, route, reason, None), s1) ->
  candidates_spec o (Returned (addrs, route, reason, None)) ->
  exists r s', Open o src proto host port s = (Returned r, s') /\ op_reason r = reason /\
    dial_report route host port addrs s1 r s'.
Proof.
  intros Hc Hspec. unfold Open. rewrite bind_run, Hc. cbn [fst snd].
  destruct route; cbn in Hspec.
  - destruct Hspec as (Hne & Hf & _). pose proof (dial_direct_loop_run addrs port (o_family o) None s1 Hf) as Hl.
    rewrite bind_run. destruct (dial_direct_loop addrs port (o_family o) None s1) as [[[c ip]|f] s2];
      cbn [fst snd] in *; destruct Hl as (fails & new & Et & Hd & Hr);
      (eexists _, _; split; [reflexivity|split; [done|]]).
    + by exists fails, (Some (ip, c)), new.
    + exists fails, None, new. split_and!; [done..|]. destruct Hd as [Ea _].
      destruct fails as [|[ip e] fails]; [by destruct Hne|]. subst f. by exists ip, e, fails.
  - destruct Hspec as (Hne & _). pose proof (dial_tunnel_loop_run (MkMeta proto src host "") addrs port None s1) as Hl.
    rewrite bind_run. destruct (dial_tunnel_loop _ addrs port None s1) as [[[c ip]|f] s2];
      cbn [fst snd] in *; destruct Hl as (fails & new & Et & Hd & Hr);
      (eexists _, _; split; [reflexivity|split; [done|]]).
    + by exists fails, (Some (ip, c)), new.
    + exists fails, None, new. split_and!; [done..|]. destruct Hd as [Ea _].
      destruct fails as [|[ip e] fails]; [by destruct Hne|]. subst f. by exists ip, e, fails.
Qed.

(** The error path of [Open] dials nothing. *)
Lemma Open_error o src proto host port s l route reason e s1 :
  candidates o host port s = (Returned (l, route, reason, Some e), s1) ->
  Open o src proto host port s = (Returned (MkOpened None "" route reason (Some e)), s1).
Proof. intros Hc. unfold Open. rewrite bind_run, Hc. cbn [fst snd]. by destruct route. Qed.

(** The dial loops leave the resolver state alone. *)
Lemma dial_tunnel_loop_frame meta addrs port first : keeps frame (dial_tunnel_loop (W := W) meta addrs port first).
Proof. revert first. induction addrs as [|ip l IH]; intros first; cbn [dial_tunnel_loop]; walk. Qed.
Lemma dial_direct_loop_frame addrs port family first : keeps frame (dial_direct_loop (W := W) addrs port family first).
Proof. revert first. induction addrs as [|ip l IH]; intros first; cbn [dial_direct_loop]; unfold dialDirectIP; walk. Qed.
Lemma Open_dns o src proto host port s :
  resolvers (s_dns (snd (Open (W := W) o src proto host port s))) = resolvers (s_dns (snd (candidates o host port s))).
Proof.
  unfold Open. rewrite bind_run. destruct (candidates o host port s) as [[[[[l route] reason] [e|]]|] s1]; cbn [fst snd];
    [by destruct route| |done].
  destruct route; rewrite bind_run; cbn; apply frame_resolvers.
  - apply dial_direct_loop_frame.
  - apply dial_tunnel_loop_frame.
Qed.
Lemma Open_wf o src proto host port s : sys_wf s -> sys_wf (snd (Open (W := W) o src proto host port s)).
Proof.
  intros Hs. unfold Open. rewrite bind_run. destruct (candidates_wf o host port s Hs) as [_ Hw].
  destruct (candidates o host port s) as [[[[[l route] reason] [e|]]|] s1]; cbn [fst snd] in *; [by destruct route| |done].
  destruct route; rewrite bind_run; cbn; (eapply frame_wf; [|exact Hw]).
  - apply dial_direct_loop_frame.
  - apply dial_tunnel_loop_frame.
Qed.

(** From a well-formed state, [Open] is one of the two. *)
Lemma Open_cases o src proto host port s :
  sys_wf s ->
  exists s1, emits is_dns s s1 /\ (forall res, asks res s s1) /\
  ((exists route reason e, Open o src proto host port s = (Returned (MkOpened None "" route reason (Some e)), s1)) \/
   (exists addrs route reason r s', candidates_spec o (Returned (addrs, route, reason, None)) /\
      candidates o host port s = (Returned (addrs, route, reason, None), s1) /\
      Open o src proto host port s = (Returned r, s') /\ op_reason r = reason /\ dial_report route host port addrs s1 r s')).
Proof.
  intros Hs. destruct (candidates_wf o host port s Hs) as [Hspec _].
  pose proof (candidates_emits o host port s) as He. pose proof (fun res => candidates_asks res o host port s) as Ha.
  destruct (candidates o host port s) as [[[[[l route] reason] [e|]]|] s1] eqn:Hc; cbn [fst snd] in *; [| |done];
    exists s1; (split; [done|split; [done|]]).
  - left. eexists _, _, _. by eapply Open_error.
  - right. destruct (Open_run _ src proto _ _ _ _ _ _ _ Hc Hspec) as (r & s' & ? & ? & ?). eauto 12.
Qed.
End Events.

(** ** Names with a direct rule *)

Section Named.
Context `{Regexp} {W : Type} `{World W}.
Implicit Types (s : Sys W) (o : Opener) (src proto host : string) (port : Z).

Lemma first_match_named rs tl host s :
  Forall (fun r => ~ is_ip r) rs -> Exists (fun r => matches_name r host = true) rs ->
  exists r, first_match (W := W) (rs ++ tl) host s = (Some r, s).
Proof.
  intros Hn He. induction Hn as [|r rs Hr Hn IH]; [by inversion He|]. cbn [first_match app].
  rewrite bind_run. unfold matches, is_ip in *. destruct (ipPrefix r); [by exfalso; apply Hr|].
  cbn. destruct (matches_name r host) eqn:Em; [by eexists|]. apply IH.
  apply Exists_cons in He as [?|?]; [congruence|done].
Qed.

Lemma Decide_named direct (e : RuleEngine) host port s (r : ruleEntry) :
  NewRuleEngine direct = Some (inr e) -> r ∈ Rules.rules e -> ipPrefix r = None ->
  matches_name r (normalizeHost host) = true ->
  exists reason, Decide (W := W) e host port s = ((RouteDirect, reason), s).
Proof.
  intros (l & _ & ->)%NewRuleEngine_accepts Hr Hi Hm. unfold Decide. cbv zeta. split_if; [by eexists|].
  cbn [Rules.rules] in *. rewrite bind_run.
  destruct (first_match_named (filter (fun x => ~ is_ip x) l) (filter is_ip l) (normalizeHost host) s) as [r' E].
  - apply Forall_forall. by intros x [Hx _]%list_elem_of_filter.
  - apply Exists_exists. exists r. split; [|done]. apply elem_of_app in Hr as [Hr|Hr]; [done|].
    apply list_elem_of_filter in Hr as [Hr _]. done.
  - rewrite E. by eexists.
Qed.

Definition is_direct (ev : event) : Prop := match ev with EvDialDirect _ _ _ => True | _ => False end.

Lemma dial_direct_loop_emits (P : event -> Prop) addrs port family first :
  (forall n a r, P (EvDialDirect n a r)) ->
  keeps (emits P) (dial_direct_loop (W := W) addrs port family first).
Proof.
  intros HP. revert first. induction addrs as [|ip l IH]; intros first; cbn [dial_direct_loop]; unfold dialDirectIP; walk.
Qed.

(** [Open] once the route is direct: the local resolver, then direct dials. *)
Lemma Open_direct o src proto host port s reason :
  Decide (W := W) (o_rules o) host port s = ((RouteDirect, reason), s) ->
  emits (fun ev => is_local ev \/ is_direct ev) s (snd (Open o src proto host port s)) /\
  exists r, fst (Open o src proto host port s) = Returned r /\ op_route r = RouteDirect.
Proof.
  intros HD. unfold Open, candidates. rewrite !bind_run, HD. cbn [fst snd]. rewrite !bind_run.
  pose proof (localResolveAll_emits (W := W) host s) as He.
  apply (emits_weaken _ (fun ev => is_local ev \/ is_direct ev)) in He; [|by left].
  destruct (localResolveAll host s) as [[l [e|]] s1]; cbn [fst snd] in *.
  - split; [done|by eexists].
  - destruct (direct_candidates_cases o host l RouteDirect reason) as [[e ->]|[_ ->]]; cbn [mret M_ret fst snd].
    + split; [done|by eexists].
    + rewrite bind_run. split.
      * etrans; [apply He|]. cbn. apply dial_direct_loop_emits. by right.
      * destruct (fst (dial_direct_loop _ _ _ _ _)) as [[c ip]|f]; by eexists.
Qed.
End Named.

(** ** With the option off, a local answer never makes a route direct *)

Section FlagOff.
Context `{Regexp} {W : Type} `{World W}.
Implicit Types (s : Sys W) (o : Opener) (src proto host : string) (port : Z).

Definition no_local_direct s : Prop :=
  localOnNXDomain (s_dns s) = false /\
  map_Forall (fun _ e => localDirect e = false) (cache (s_dns s)).
Definition not_local (r : lookupResult * option error) : Prop := r_localDirect (fst r) = false.

Lemma frame_nld s s' : frame s s' -> no_local_direct s -> no_local_direct s'.
Proof. unfold no_local_direct. by intros (-> & _ & _ & -> & _). Qed.
Lemma nld_keep {A} (m : M (Sys W) A) : keeps frame m -> runs no_local_direct m (fun _ s => no_local_direct s).
Proof. intros Hf s Hs. eapply frame_nld; [apply Hf|done]. Qed.
Lemma nld_ret {A} (Q : A -> Prop) (a : A) :
  Q a -> runs no_local_direct (mret a : M (Sys W) A) (fun a s => Q a /\ no_local_direct s).
Proof. intros Ha s Hs. by split. Qed.
#[local] Ltac nld := eapply runs_bind; [apply nld_keep; solve [auto with gate | by apply on_dns_frame]|intros ?].

Lemma notFound_nld ctx host :
  runs no_local_direct (notFound (W := W) ctx host) (fun r s => not_local r /\ no_local_direct s).
Proof.
  intros s Hs. unfold notFound. rewrite bind_run. cbn [gets fst snd]. rewrite (proj1 Hs). by split.
Qed.
Lemma lookup_fallback_nld ctx host :
  runs no_local_direct (lookup_fallback (W := W) ctx host) (fun r s => not_local r /\ no_local_direct s).
Proof.
  unfold lookup_fallback. do 3 nld. destruct a1 as [l e].
  intros s Hs. rewrite bind_run. cbn [gets fst snd]. rewrite (proj1 Hs). by split.
Qed.
Lemma lookup_loop_nld ctx tctx dl host active :
  runs no_local_direct (lookup_loop (W := W) ctx tctx dl host active)
    (fun r s => not_local r /\ no_local_direct s).
Proof.
  induction active as [|i l IH]; cbn [lookup_loop]; [apply lookup_fallback_nld|].
  do 4 nld. case_match; [|done]. nld. destruct a3 as [as' [e|]]; cbv beta; nld; cbv zeta.
  - destruct (errors_Is e errNotFound); nld; [apply notFound_nld|done].
  - nld. by apply nld_ret.
Qed.
Lemma lookup_nld ctx host :
  runs no_local_direct (lookup (W := W) ctx host) (fun r s => not_local r /\ no_local_direct s).
Proof.
  unfold lookup. do 3 nld. cbv zeta. eapply runs_bind; [apply lookup_loop_nld|]. intros r.
  apply runs_pure. intros Hr. nld. by apply nld_ret.
Qed.

Lemma local_policy_nld ctx host :
  runs no_local_direct (local_policy (W := W) ctx host) (fun r s => not_local r /\ no_local_direct s).
Proof. unfold local_policy. nld. destruct a. by apply nld_ret. Qed.

Lemma store_nld key e :
  localDirect e = false -> runs no_local_direct (store (W := W) key e) (fun _ s => no_local_direct s).
Proof.
  intros He s [Hf Hs]. unfold store. rewrite bind_run. cbn [gets fst snd].
  destruct (dnsCacheMaxSize <=? _).
  - rewrite bind_run. unfold no_local_direct, range_keys, on_dns, modify. rewrite perform_run. cbn.
    split; [done|]. apply map_Forall_insert_2; [done|]. unfold evict. cbv zeta.
    split_if; [done|]. by apply map_Forall_delete.
  - split; [done|]. cbn. by apply map_Forall_insert_2.
Qed.

Section Policy.
Context (lk : Ctx -> string -> M (Sys W) (lookupResult * option error)).
Context (lk_nld : forall ctx h, runs no_local_direct (lk ctx h) (fun r s => not_local r /\ no_local_direct s)).

Lemma nld_seq {A B} (m : M (Sys W) A) (k : M (Sys W) B) (T : B -> Sys W -> Prop) :
  runs no_local_direct m (fun _ s => no_local_direct s) -> runs no_local_direct k T ->
  runs no_local_direct (m ≫= fun _ => k) T.
Proof. intros Hm Hk. eapply runs_bind; [apply Hm|]. done. Qed.

Lemma shared_lookup_nld key host :
  runs no_local_direct (shared_lookup key host lk) (fun r s => not_local r /\ no_local_direct s).
Proof.
  unfold shared_lookup. do 2 nld. eapply runs_bind; [apply lk_nld|]. intros [res err].
  apply runs_pure. intros Hr. destruct err as [e|].
  - apply nld_seq; [|by apply nld_ret]. split_if; [|by apply runs_ret]. do 2 nld. by apply store_nld.
  - split_if; [by apply nld_ret|].
    apply nld_seq; [|by apply nld_ret]. split_if; [|by apply runs_ret]. do 2 nld. by apply store_nld.
Qed.
Lemma cachedLookup_nld key host :
  runs no_local_direct (cachedLookup key host lk) (fun r s => not_local r /\ no_local_direct s).
Proof.
  unfold cachedLookup. destruct (ParseAddr host); [by apply nld_ret|].
  intros s Hs. rewrite bind_run. cbn [gets fst snd].
  destruct (cache (s_dns s) !! key) as [e|] eqn:Ek; [|by apply shared_lookup_nld].
  rewrite bind_run. pose proof (time_now_frame s) as Hf.
  destruct (Before _ _); [|apply shared_lookup_nld; by eapply frame_nld].
  split; [|by eapply frame_nld]. cbn. destruct (neg e); [done|]. exact (proj2 Hs _ _ Ek).
Qed.
End Policy.

Lemma resolveTunnel_nld host :
  runs no_local_direct (resolveTunnel (W := W) host) (fun r s => snd (fst r) = false /\ no_local_direct s).
Proof.
  unfold resolveTunnel. eapply runs_bind; [apply cachedLookup_nld, lookup_nld|].
  intros [res err]. apply runs_pure. intros Hr. by apply nld_ret.
Qed.
Lemma first_match_nld rs host : runs no_local_direct (first_match (W := W) rs host) (fun _ s => no_local_direct s).
Proof.
  induction rs as [|r rs IH]; cbn [first_match]; [by apply runs_ret|].
  apply (runs_bind _ (fun _ s => no_local_direct s)); [|intros [|]; [by apply runs_ret|done]].
  unfold matches, ResolveAll. destruct (ipPrefix r); [|by apply runs_ret].
  apply (runs_bind _ (fun _ s => no_local_direct s)); [|intros [? ?]; by apply runs_ret].
  eapply runs_bind; [apply resolveTunnel_nld|]. intros [[? ?] ?] s [_ Hs]. exact Hs.
Qed.
Lemma Decide_nld e host port :
  runs no_local_direct (Decide (W := W) e host port) (fun _ s => no_local_direct s).
Proof.
  unfold Decide. cbv zeta. split_if; [by apply runs_ret|].
  eapply runs_bind; [apply first_match_nld|]. intros ?. by apply runs_ret.
Qed.
End FlagOff.

(** ** Properties *)

Section OpenerClaims.
Context `{Regexp} {W : Type} `{World W}.
Implicit Types (s : Sys W) (o : Opener) (src proto host : string) (port : Z).

(** The addresses the VPS may be asked to dial: for a client, an address
    outside every private range; for a lookup, one of the resolvers [rs]. *)
Definition vps_dial (rs : list lookupFn * string) (ev : event) : Prop :=
  match ev with
  | EvDialTunnel a _ =>
      exists ip port, a = JoinHostPort (Addr_String ip) (Itoa port) /\ private_range (canon ip) = false
  | EvDialResolver _ | EvDialRedirect _ => dns_event rs ev
  | _ => True
  end.
Definition reaches (rs : list lookupFn * string) s s' : Prop := res_are rs s -> res_are rs s' /\ emits (vps_dial rs) s s'.
#[global] Instance reaches_refl rs : Reflexive (reaches rs).
Proof. intros s Hs. split; [done|reflexivity]. Qed.
#[global] Instance reaches_trans rs : Transitive (reaches rs).
Proof. intros a b c Hab Hbc Ha. destruct (Hab Ha) as [Hb E]. destruct (Hbc Hb) as [Hc E']. split; [done|by etrans]. Qed.
Lemma asks_reaches rs s s' : asks rs s s' -> reaches rs s s'.
Proof.
  intros Ha Hs. destruct (Ha Hs) as [Hs' He]. split; [done|]. eapply emits_weaken; [|exact He]. by intros [].
Qed.

Lemma dials_down_public (P : event -> Prop) route port addrs fails won new :
  (forall a x, a ∈ addrs -> P (dial_event route port a x)) -> dials_down route port addrs fails won new -> Forall P new.
Proof.
  intros HP Hd.
  assert (Hf : forall a, a ∈ fst <$> fails -> a ∈ addrs).
  { intros a Ha. destruct won as [[ip c]|]; [destruct Hd as [[rest ->] _]; set_solver|by destruct Hd as [-> _]]. }
  assert (Hfs : Forall P (failed_dials route port fails)).
  { apply Forall_fmap, Forall_forall. intros [a e] Ha. apply HP, Hf. by apply (list_elem_of_fmap_2 fst _ (a, e)). }
  destruct won as [[ip c]|]; [|by destruct Hd as [_ ->]]. destruct Hd as [[rest ->] ->].
  apply Forall_app. split; [done|]. repeat constructor. apply HP. set_solver.
Qed.

Lemma Open_public (direct : string) o src proto host port s :
  NewRuleEngine direct = Some (inr (o_rules o)) -> sys_wf s ->
  (exists r, fst (Open o src proto host port s) = Returned r) /\
  forall rs, reaches rs s (snd (Open o src proto host port s)).
Proof.
  intros He Hs. apply NewRuleEngine_private in He. pose proof (Open_dns o src proto host port s) as Hsame.
  destruct (Open_cases o src proto host port s Hs) as (s1 & _ & Hd & [(? & ? & ? & E)|Hok]).
  - rewrite E. split; [by eexists|]. intros rs. apply asks_reaches, Hd.
  - destruct Hok as (addrs & route & reason & r & s' & Hspec & Ec & E & _ & fails & won & new & Et & Hdn & _).
    rewrite E, Ec in *. cbn [fst snd] in *. split; [by eexists|]. intros rs. etrans; [apply asks_reaches, Hd|].
    intros Hrs. split; [unfold res_are; by rewrite Hsame|]. exists new. split; [done|].
    eapply dials_down_public; [|exact Hdn]. intros a x Ha. destruct route; [done|]. exists a, port. split; [done|].
    destruct Hspec as [_ Hall]. destruct (proj1 (Forall_forall _ _) Hall a Ha) as [Hok Hp].
    by rewrite <- (isPrivate_range (o_rules o)).
Qed.

(** The VPS is never asked to dial a private address for a client: whatever a
    name resolves to (DNS rebinding, forged answers, cached entries), every
    dial that [Open] sends through the tunnel is to an address outside the
    documented private, loopback and link-local ranges, or is one of a
    lookup, to a configured resolver; and [Open] never panics. *)
Theorem tunnel_dials_public_only (direct : string) o src proto host port s
    (He : NewRuleEngine direct = Some (inr (o_rules o))) (Hs : sys_wf s) :
  (exists r, fst (Open o src proto host port s) = Returned r) /\
  emits (vps_dial (resolvers (s_dns s))) s (snd (Open o src proto host port s)).
Proof.
  destruct (Open_public direct o src proto host port s He Hs) as [Hr Hem]. split; [done|]. by apply Hem.
Qed.

(** C6: a tunneled name whose only answers are private goes direct only to
    intranet addresses (RFC 1918, CGNAT, unique local): never to loopback,
    the unspecified address or link-local ones. *)
Theorem local_private_is_intranet (direct : string) o host port s addrs s'
    (He : NewRuleEngine direct = Some (inr (o_rules o))) (Hs : sys_wf s)
    (Hc : candidates o host port s = (Returned (addrs, RouteDirect, "local-private", None), s')) :
  addrs <> [] /\ Forall (fun a => intranet_range a = true) addrs.
Proof.
  apply NewRuleEngine_private in He. destruct (candidates_wf o host port s Hs) as [Hspec _].
  rewrite Hc in Hspec. destruct Hspec as (Hne & _ & Hall). split; [done|].
  eapply Forall_impl; [by apply Hall|]. intros a (Hp & l0 & Hok & Ha).
  apply (dropHostLocal_intranet l0); [done|done|].
  apply dropHostLocal_elem in Ha as ((b & Hb & ->) & _). rewrite Forall_forall in Hok.
  rewrite isPrivate_range in Hp; [|done|by apply canon_ok, Hok]. by rewrite canon_idem in Hp.
Qed.

(** C7: a host that a domain or regexp rule of DIRECT_RULES matches, in
    whatever position the rule was written, is opened directly and its name
    reaches no tunnel resolver and no tunnel dial. *)
Theorem named_direct_rule_stays_local (direct : string) o src proto host port s (r : ruleEntry)
    (He : NewRuleEngine direct = Some (inr (o_rules o))) (Hr : r ∈ Rules.rules (o_rules o))
    (Hn : ipPrefix r = None) (Hm : matches_name r (normalizeHost host) = true) :
  emits (fun ev => is_local ev \/ is_direct ev) s (snd (Open o src proto host port s)) /\
  exists res, fst (Open o src proto host port s) = Returned res /\ op_route res = RouteDirect.
Proof.
  destruct (Decide_named direct (o_rules o) host port s r He Hr Hn Hm) as [reason HD].
  by eapply Open_direct.
Qed.

(** C27: [Open] dials down the candidate list: in order, each address once,
    each after the one before failed, up to the first that connects, whose
    connection and text are returned; when none connects every candidate was
    dialed, and the error wraps the one of the FIRST address, whatever the
    later ones failed with, with the number of addresses. *)
Theorem Open_dials_in_order o src proto host port s addrs route reason s1 (Hs : sys_wf s)
    (Hc : candidates o host port s = (Returned (addrs, route, reason, None), s1)) :
  exists r s', Open o src proto host port s = (Returned r, s') /\ op_reason r = reason /\
    dial_report route host port addrs s1 r s'.
Proof.
  apply Open_run; [done|]. destruct (candidates_wf o host port s Hs) as [Hspec _]. by rewrite Hc in Hspec.
Qed.

(** C5: with LOCAL_DNS_ON_NXDOMAIN off the resolver's answers cannot change
    the route: what [candidates] dials has the route [Decide] chose, so a
    tunneled name with private answers is refused. *)
Theorem route_fixed_when_option_off o host port s addrs route reason err s1
    (Hoff : no_local_direct s) (Hs : sys_wf s)
    (Hc : candidates o host port s = (Returned (addrs, route, reason, err), s1)) :
  (route, reason) = fst (Decide (o_rules o) host port s).
Proof.
  revert Hc. unfold candidates. rewrite bind_run.
  pose proof (Decide_nld (o_rules o) host port s Hoff) as Hoff'.
  pose proof (proj2 (Decide_wf (o_rules o) host port s Hs)) as Hs'.
  destruct (Decide (o_rules o) host port s) as [[route0 reason0] s2]. cbn [fst snd] in *. destruct route0.
  - rewrite bind_run. destruct (localResolveAll host s2) as [[l [e|]] s3]; cbn; intros [= E]; simplify_eq; [done|].
    destruct (direct_candidates_cases o host l RouteDirect reason0) as [[e E']|[_ E']]; congruence.
  - rewrite bind_run. pose proof (resolveTunnel_wf host s2 Hs') as [Hg _].
    pose proof (resolveTunnel_nld host s2 Hoff') as [Hl _].
    destruct (resolveTunnel host s2) as [[[l ld] [e|]] s3]; cbn in *; intros [= E]; simplify_eq; [done|].
    destruct Hg as [Hne _]; [done|]. cbn in Hne.
    destruct (tunnel_candidates_cases o host l false reason0 Hne)
      as [(_ & out & _ & E')|[(_ & _ & a & E')|(_ & E' & _)]]; congruence.
Qed.

(** Tunnel candidates are exactly the public addresses of the answer, an
    IPv4 one first whenever there is one, and each is offered once where the
    answer has no repeats. *)
Theorem tunnel_candidates_order o host addrs ld reason
    (Hp : exists a, a ∈ addrs /\ isPrivate (o_rules o) a = false) :
  exists hd tl, tunnel_candidates o host addrs ld reason = Returned (hd :: tl, RouteTunnel, reason, None) /\
    (forall a, a ∈ hd :: tl <-> a ∈ addrs /\ isPrivate (o_rules o) a = false) /\
    (Is4 hd = false -> forall a, a ∈ addrs -> isPrivate (o_rules o) a = false -> Is4 a = false) /\
    (NoDup addrs -> NoDup (hd :: tl)).
Proof.
  destruct Hp as (a0 & Ha0 & Hp0).
  assert (Hin : a0 ∈ filter (fun a => isPrivate (o_rules o) a = false) addrs) by by apply list_elem_of_filter.
  destruct (tunnel_candidates_cases o host addrs ld reason) as [(_ & out & Hl & E)|[(Hnil & _)|(Hnil & _)]];
    [intros ->; inversion Ha0| |rewrite Hnil in Hin; inversion Hin|rewrite Hnil in Hin; inversion Hin].
  pose proof Hl as (hd & -> & Hpick). eexists _, _. split; [exact E|].
  split; [by intros a; apply tunnel_list_elem|]. split.
  - intros H4 a Ha Hpa. unfold pickTunnelAddr in Hpick.
    destruct (find _ _) as [b|] eqn:Ef; simplify_eq.
    + apply find_some in Ef as [_ Hb]. congruence.
    + apply (find_none _ _ Ef), list_elem_of_In, list_elem_of_filter. done.
  - intros Hnd. constructor; [rewrite list_elem_of_filter; tauto|]. by apply NoDup_filter, NoDup_filter.
Qed.
End OpenerClaims.

(** *** Instances *)

(** A rule engine with an ip: and a domain rule, over the scripted world: the
    resolver answers a loopback, a private and a public address. *)
Definition demo_rules : RuleEngine (H := literal_regexp) :=
  Eval vm_compute in
  match NewRuleEngine (H := literal_regexp) "ip:9.0.0.0/8, corp.example" with
  | Some (inr e) => e
  | _ => MkEngine [] [] false
  end.
Definition demo_opener : Opener (H := literal_regexp) := MkOpener demo_rules FamilyBoth.
Definition bytes4 (a b c d : nat) : list ascii := ascii_of_nat <$> [a; b; c; d].
Definition demo_sys (onNX : bool) (answer : list (list ascii)) (local : list (list ascii)) : Sys script :=
  MkSys (demo_cache onNX)
    (MkScript (1000 * Second) true
       [MkResolverReply [true] (match answer with [] => inl (net_DNSError "no such host" true false) | _ => inr answer end)]
       [] [inr local] [inl timeout_error; inr 7] [inr 8]) [].
Lemma demo_sys_wf onNX answer local : sys_wf (demo_sys onNX answer local).
Proof. apply map_Forall_empty. Qed.
Lemma demo_rules_ok : NewRuleEngine (H := literal_regexp) "ip:9.0.0.0/8, corp.example" = Some (inr demo_rules).
Proof. vm_compute. reflexivity. Qed.

Lemma tunnel_dials_public_only_witness :
  let s := demo_sys false [bytes4 127 0 0 1; bytes4 8 8 4 4; bytes4 1 1 1 1] [] in
  emits (vps_dial ([dnsServerLookupFn "1.1.1.1:53"; dnsServerLookupFn "8.8.8.8:53"], "")) s (snd (Open demo_opener "10.0.0.2:4000" "http" "rebind.example" 443 s)) /\
  fst (Open demo_opener "10.0.0.2:4000" "http" "rebind.example" 443 s)
  = Returned (MkOpened (Some 7) "1.1.1.1" RouteTunnel "fallback" None).
Proof.
  intros s. split.
  - apply (tunnel_dials_public_only (H := literal_regexp) "ip:9.0.0.0/8, corp.example");
      [apply demo_rules_ok | apply demo_sys_wf].
  - vm_compute. reflexivity.
Defined.

Lemma local_private_is_intranet_witness :
  let s := demo_sys true [] [bytes4 127 0 0 1; bytes4 10 1 2 3] in
  Forall (fun a => intranet_range a = true) [Addr4 (ip4 10 1 2 3)] /\
  fst (candidates demo_opener "wiki.corp" 443 s)
  = Returned ([Addr4 (ip4 10 1 2 3)], RouteDirect, "local-private", None).
Proof.
  intros s. split; [|vm_compute; reflexivity].
  apply (local_private_is_intranet (H := literal_regexp) "ip:9.0.0.0/8, corp.example" demo_opener
           "wiki.corp" 443 s _ (snd (candidates demo_opener "wiki.corp" 443 s)));
    [apply demo_rules_ok | apply demo_sys_wf | vm_compute; reflexivity].
Defined.

Lemma named_direct_rule_stays_local_witness :
  let s := demo_sys false [bytes4 8 8 4 4] [bytes4 10 1 2 3] in
  emits (fun ev => is_local ev \/ is_direct ev) s (snd (Open demo_opener "10.0.0.2:4000" "http" "WIKI.corp.example." 443 s)).
Proof.
  intros s.
  refine (proj1 (named_direct_rule_stays_local (H := literal_regexp) "ip:9.0.0.0/8, corp.example" demo_opener
    "10.0.0.2:4000" "http" "WIKI.corp.example." 443 s (MkRule (H := literal_regexp) "corp.example" None None "corp.example")
    demo_rules_ok _ eq_refl eq_refl)).
  by left.
Defined.

(** Both addresses fail, with different errors. *)
Definition refused_error : error := net_OpError "connect: connection refused" None false.
Lemma Open_dials_in_order_witness :
  let s0 := demo_sys false [bytes4 8 8 4 4; bytes4 1 1 1 1] [] in
  let s := MkSys (s_dns s0) (MkScript (1000 * Second) true (sc_dns (s_world s0)) [] [] [inl timeout_error; inl refused_error] []) [] in
  exists r s', Open demo_opener "10.0.0.2:4000" "http" "two.example" 443 s = (Returned r, s') /\ op_reason r = "fallback" /\
    dial_report RouteTunnel "two.example" 443 [Addr4 (ip4 8 8 4 4); Addr4 (ip4 1 1 1 1)]
      (snd (candidates demo_opener "two.example" 443 s)) r s' /\
    op_err r = Some (withAttempts (NewNetworkError "SSH dial" "8.8.4.4:443" timeout_error) 2).
Proof.
  intros s0 s.
  destruct (Open_dials_in_order (H := literal_regexp) demo_opener "10.0.0.2:4000" "http" "two.example" 443 s
    [Addr4 (ip4 8 8 4 4); Addr4 (ip4 1 1 1 1)] RouteTunnel "fallback" (snd (candidates demo_opener "two.example" 443 s)))
    as (r & s' & E & Hr & Hd); [apply map_Forall_empty|vm_compute; reflexivity|].
  exists r, s'. split; [exact E|]. split; [exact Hr|]. split; [exact Hd|].
  vm_compute in E. injection E as <- <-. vm_compute. reflexivity.
Defined.

Lemma route_fixed_when_option_off_witness :
  let s := demo_sys false [bytes4 10 1 2 3] [] in
  (RouteTunnel, "fallback") = fst (Decide demo_rules "rebind.example" 443 s).
Proof.
  intros s.
  eapply (route_fixed_when_option_off (H := literal_regexp) demo_opener "rebind.example" 443 s);
    [split; [reflexivity|apply map_Forall_empty] | apply demo_sys_wf | vm_compute; reflexivity].
Defined.

Lemma tunnel_candidates_order_witness :
  exists hd tl,
    tunnel_candidates demo_opener "x" [Addr6 (2 ^ 125) ""; Addr4 (ip4 8 8 8 8); Addr4 (ip4 10 0 0 1)] false "fallback"
      = Returned (hd :: tl, RouteTunnel, "fallback", None) /\ Is4 hd = true.
Proof.
  destruct (tunnel_candidates_order (H := literal_regexp) demo_opener "x"
    [Addr6 (2 ^ 125) ""; Addr4 (ip4 8 8 8 8); Addr4 (ip4 10 0 0 1)] false "fallback") as (hd & tl & E & _ & H4 & _).
  - exists (Addr4 (ip4 8 8 8 8)). split; [set_solver|vm_compute; reflexivity].
  - exists hd, tl. split; [exact E|]. destruct (Is4 hd); [reflexivity|].
    symmetry. apply (H4 eq_refl (Addr4 (ip4 8 8 8 8))); [set_solver|vm_compute; reflexivity].
Defined.
