(* ===== verification/OpenFlight.v ===== *)
(** opener.go under concurrency: the connections of both proxies, each in its
    own goroutine, opening destinations at the same time over the interleaved
    resolver of Flight.v.

    [open_task] is [Open] cut at its sections (one dial each) and at its calls
    of [cachedLookup]; run with the sequential resolver it is the [Open] of
    Opener.v ([open_alone]).  In the machine a goroutine that calls the
    resolver hands it a call and goes on when that call has replied. *)

From S2P Require Import Prelude GoStrings NetIP Errors Rules World Prog Dns DnsFacts DnsProps CacheProps Opener OpenerProps Flight FlightProps FlightInv FlightClaims.

Section Tasks.
Context `{Regexp} {W : Type} `{World W}.
Abbreviation answer := (lookupResult * option error)%type (only parsing).
Abbreviation T := (task (Sys W) dnsRequest answer) (only parsing).

(** ** The code *)

(** [resolveTunnel], [ResolveAll] and [localResolveAll] as calls. *)
Definition resolveTunnel_task (host : string) : T (list Addr * bool * option error) :=
  '(res, err) ← invoke (TunnelReq host); mret (r_addrs res, r_localDirect res, err).
Definition ResolveAll_task (host : string) : T (list Addr * option error) :=
  '(addrs, _, err) ← resolveTunnel_task host; mret (addrs, err).
Definition localResolveAll_task (host : string) : T (list Addr * option error) :=
  '(res, err) ← invoke (LocalReq host); mret (r_addrs res, err).

(** [matches], [Decide] and [candidates]. *)
Definition matches_task (r : ruleEntry) (host : string) : T bool :=
  match ipPrefix r with
  | Some p =>
      '(addrs, err) ← ResolveAll_task host;
      mret (match err with
            | Some _ => false
            | None => existsb (fun a => Prefix_Contains p a) addrs
            end)
  | None => mret (matches_name r host)
  end.
Fixpoint first_match_task (rs : list ruleEntry) (host : string) : T (option ruleEntry) :=
  match rs with
  | [] => mret None
  | r :: rs' => b ← matches_task r host; if b : bool then mret (Some r) else first_match_task rs' host
  end.
Definition Decide_task (e : RuleEngine) (host : string) (port : Z) : T (Route * string) :=
  let host := normalizeHost host in
  if match ParseAddr host with Some ip => isPrivate e ip | None => false end
  then mret (RouteDirect, "private")
  else
    m ← first_match_task (rules e) host;
    mret (match m with
          | Some r => (RouteDirect, "direct:" +:+ raw r)
          | None => (RouteTunnel, "fallback")
          end).
Definition candidates_task (o : Opener) (host : string) (port : Z)
    : T (outcome (list Addr * Route * string * option error)) :=
  '(route, reason) ← Decide_task (o_rules o) host port;
  match route with
  | RouteDirect =>
      '(addrs, err) ← localResolveAll_task host;
      mret (match err with
            | Some e => Returned ([], route, reason, Some e)
            | None => direct_candidates o host addrs route reason
            end)
  | RouteTunnel =>
      '(addrs, localDirect, err) ← resolveTunnel_task host;
      mret (match err with
            | Some e => Returned ([], route, reason, Some e)
            | None => tunnel_candidates o host addrs localDirect reason
            end)
  end.

(** The dial loops: one section per dial. *)
Fixpoint direct_task (addrs : list Addr) (port : Z) (family : IPFamily) (firstErr : option error)
    : T ((Z * Addr) + option error) :=
  match addrs with
  | [] => mret (inr firstErr)
  | ip :: rest =>
      r ← section (dialDirectIP ip port family);
      match r with
      | inr conn => mret (inl (conn, ip))
      | inl derr =>
          direct_task rest port family (match firstErr with None => Some derr | Some _ => firstErr end)
      end
  end.
Fixpoint tunnel_task (meta : ConnMeta) (addrs : list Addr) (port : Z) (first : option (error * string))
    : T ((Z * Addr) + option (error * string)) :=
  match addrs with
  | [] => mret (inr first)
  | ip :: rest =>
      let addr := JoinHostPort (Addr_String ip) (Itoa port) in
      r ← section (perform (fun r => [EvDialTunnel addr r]) (w_dialTunnel meta addr));
      match r with
      | inr conn => mret (inl (conn, ip))
      | inl derr =>
          tunnel_task meta rest port (match first with None => Some (derr, addr) | Some _ => first end)
      end
  end.

(** What [Open] reports after its dials. *)
Definition direct_report (host : string) (port : Z) (reason : string) (attempts : nat)
    (r : (Z * Addr) + option error) : opened :=
  match r with
  | inl (conn, ip) => MkOpened (Some conn) (Addr_String ip) RouteDirect reason None
  | inr firstErr =>
      let text := "direct dial to " +:+ host +:+ ":" +:+ Itoa port +:+ " failed: " +:+
                  match firstErr with Some e => Error e | None => "%!w(<nil>)" end in
      MkOpened None "" RouteDirect reason (Some (withAttempts (Errorf text firstErr) attempts))
  end.
Definition tunnel_report (reason : string) (attempts : nat) (r : (Z * Addr) + option (error * string)) : opened :=
  match r with
  | inl (conn, ip) => MkOpened (Some conn) (Addr_String ip) RouteTunnel reason None
  | inr first =>
      let err := match first with
                 | Some (e, addr) => NewNetworkError "SSH dial" addr e
                 | None => NetworkError "SSH dial" "" None
                 end in
      MkOpened None "" RouteTunnel reason (Some (withAttempts err attempts))
  end.
Definition open_task (o : Opener) (src proto host : string) (port : Z) : T (outcome opened) :=
  c ← candidates_task o host port;
  match c with
  | Panicked => mret Panicked
  | Returned (_, route, reason, Some e) => mret (Returned (MkOpened None "" route reason (Some e)))
  | Returned (addrs, RouteDirect, reason, None) =>
      r ← direct_task addrs port (o_family o) None;
      mret (Returned (direct_report host port reason (length addrs) r))
  | Returned (addrs, RouteTunnel, reason, None) =>
      r ← tunnel_task (MkMeta proto src host "") addrs port None;
      mret (Returned (tunnel_report reason (length addrs) r))
  end.

(** ** The machine *)

(** The goroutine of a connection: in its own code, waiting for its call of
    [cachedLookup] (a position in the list of calls), or done with [Open]. *)
Inductive goroutine : Type :=
| Running (p : T (outcome opened))
| Resolving (i : nat) (k : answer -> T (outcome opened))
| Opened (r : outcome opened).

Context {G : Type} `{!Singleflight answer G}.
Record gstate := MkG { g_dns : dstate (W := W) (G := G); g_conns : list goroutine }.

Inductive conn_step : gstate -> gstate -> Prop :=
| step_section g j X (op : M (Sys W) X) k :
    g_conns g !! j = Some (Running (TAct op k)) ->
    conn_step g (MkG (MkD (snd (op (d_sys (g_dns g)))) (d_sf (g_dns g)) (d_calls (g_dns g)))
                     (<[j := Running (k (fst (op (d_sys (g_dns g)))))]> (g_conns g)))
| step_resolve g j q k :
    g_conns g !! j = Some (Running (TCall q k)) ->
    conn_step g (MkG (MkD (d_sys (g_dns g)) (d_sf (g_dns g)) (d_calls (g_dns g) ++ [Entering q]))
                     (<[j := Resolving (length (d_calls (g_dns g))) k]> (g_conns g)))
| step_resume g j i k q r how :
    g_conns g !! j = Some (Resolving i k) -> d_calls (g_dns g) !! i = Some (Replied q r how) ->
    conn_step g (MkG (g_dns g) (<[j := Running (k r)]> (g_conns g)))
| step_opened g j r :
    g_conns g !! j = Some (Running (TRet r)) ->
    conn_step g (MkG (g_dns g) (<[j := Opened r]> (g_conns g)))
| step_resolver g d' : call_step (g_dns g) d' -> conn_step g (MkG d' (g_conns g)).
Inductive purges : gstate -> gstate -> Prop :=
| step_purges g d' : purge_step (g_dns g) d' -> purges g (MkG d' (g_conns g)).
(** A client whose destination a handler opens. *)
Inductive accepts (o : Opener) : gstate -> gstate -> Prop :=
| step_accepts g src proto host port :
    accepts o g (MkG (g_dns g) (g_conns g ++ [Running (open_task o src proto host port)])).
Definition gstep (o : Opener) (g g' : gstate) : Prop := conn_step g g' \/ purges g g' \/ accepts o g g'.
Definition ginit (s : Sys W) : gstate := MkG (dinit s) [].
End Tasks.

(** ** Without interference *)

Section OpenAlone.
Context `{Regexp} {W : Type} `{World W}.
Implicit Types (s : Sys W) (o : Opener).

(** The sequential resolver. *)
Definition sequential (q : dnsRequest) : M (Sys W) (lookupResult * option error) :=
  cachedLookup (req_key q) (req_host q) (req_policy q).

Ltac talone := repeat (rewrite ?run_task_bind, ?bind_run, ?run_section, ?run_invoke; cbn [fst snd]).

Lemma resolveTunnel_alone host s : run_task sequential (resolveTunnel_task host) s = resolveTunnel host s.
Proof.
  unfold resolveTunnel_task, resolveTunnel. talone. unfold sequential. cbn [req_key req_host req_policy].
  by destruct (cachedLookup _ _ _ s) as [[res err] s'].
Qed.
Lemma localResolveAll_alone host s : run_task sequential (localResolveAll_task host) s = localResolveAll host s.
Proof.
  unfold localResolveAll_task, localResolveAll. talone. unfold sequential. cbn [req_key req_host req_policy].
  by destruct (cachedLookup _ _ _ s) as [[res err] s'].
Qed.
Lemma first_match_alone rs host s : run_task sequential (first_match_task rs host) s = first_match rs host s.
Proof.
  revert s. induction rs as [|r rs IH]; intros s; [done|]. cbn [first_match_task first_match]. talone.
  assert (Hm : run_task sequential (matches_task r host) s = matches r host s).
  { unfold matches_task, matches, ResolveAll_task, ResolveAll. destruct (ipPrefix r); [|done]. talone.
    rewrite resolveTunnel_alone. by destruct (resolveTunnel host s) as [[[l b] e] s']. }
  rewrite Hm. by destruct (fst (matches r host s)).
Qed.
Lemma Decide_alone e host port s : run_task sequential (Decide_task e host port) s = Decide e host port s.
Proof.
  unfold Decide_task, Decide. cbv zeta. destruct (match ParseAddr _ with Some _ => _ | None => _ end); [done|].
  talone. by rewrite first_match_alone.
Qed.
Lemma candidates_alone o host port s : run_task sequential (candidates_task o host port) s = candidates o host port s.
Proof.
  unfold candidates_task, candidates. talone. rewrite Decide_alone.
  destruct (Decide (o_rules o) host port s) as [[[] reason] s1]; cbn [fst snd]; talone.
  - rewrite localResolveAll_alone. by destruct (localResolveAll host s1) as [[l e] s2].
  - rewrite resolveTunnel_alone. by destruct (resolveTunnel host s1) as [[[l b] e] s2].
Qed.
Lemma direct_alone addrs port f first s :
  run_task sequential (direct_task addrs port f first) s = dial_direct_loop addrs port f first s.
Proof.
  revert first s. induction addrs as [|ip rest IH]; intros first s; [done|].
  cbn [direct_task dial_direct_loop]. talone. by destruct (dialDirectIP ip port f s) as [[e|c] s']; cbn [fst snd].
Qed.
Lemma tunnel_alone meta addrs port first s :
  run_task sequential (tunnel_task meta addrs port first) s = dial_tunnel_loop meta addrs port first s.
Proof.
  revert first s. induction addrs as [|ip rest IH]; intros first s; [done|].
  cbn [tunnel_task dial_tunnel_loop]. cbv zeta. talone.
  by destruct (perform _ _ s) as [[e|c] s']; cbn [fst snd].
Qed.
(** Run with the sequential resolver, the sections of [Open] are the [Open] of
    the sequential model, result and state. *)
Lemma open_alone o src proto host port s :
  run_task sequential (open_task o src proto host port) s = Open o src proto host port s.
Proof.
  unfold open_task, Open. talone. rewrite candidates_alone.
  destruct (candidates o host port s) as [[[[[addrs [|]] reason] [e|]]|] s1]; cbn [fst snd]; try done; talone.
  - rewrite direct_alone. by destruct (dial_direct_loop _ _ _ _ s1) as [[[c ip]|first] s2].
  - rewrite tunnel_alone. by destruct (dial_tunnel_loop _ _ _ _ s1) as [[[c ip]|[[e a]|]] s2].
Qed.
End OpenAlone.
