(* ===== verification/OpenFlightProps.v ===== *)
(** Theorems on OpenFlight.v: in every interleaving of any number of
    connections over the shared resolver, the VPS is asked to dial public
    addresses for clients and the tunnel resolvers only, no [Open] panics, the route stays what the rules say
    unless the option allows otherwise, and every [Open] returns. *)

From S2P Require Import Prelude GoStrings NetIP Errors Rules World Prog Dns DnsFacts Asks DnsProps CacheProps Opener OpenerProps Flight FlightProps FlightInv FlightClaims OpenFlight.

(** ** The events of a resolver call *)

Section Events.
Context {W : Type} `{World W} (rs : list lookupFn * string).
Implicit Types (s : Sys W) (ctx : Ctx) (host key : string) (u : upstream) (q : dnsRequest).

(** From a state with the resolvers [rs], each section of a call keeps them and
    makes the VPS dial them only. *)
Definition asking {A} (p : prog (Sys W) A) : Prop := guarantees (res_are rs) (asks rs) (fun _ => True) p.
#[local] Hint Unfold asking : gate.
#[local] Ltac awalk := unfold asking in *; gwalk.

Lemma claim_at_asks now i : keeps (asks rs) (claim_at (W := W) now i).
Proof.
  intros s Hs. unfold claim_at. destruct (_ !! i) as [u|] eqn:Eu; [|by split].
  pose proof (proj2 (claim_ids now u)) as El. destruct (claim now u) as [c u']. cbn in El.
  split; [|exists []; by rewrite app_nil_r]. unfold res_are. cbn. rewrite resolvers_tunnel; [done|].
  rewrite list_fmap_insert, El. apply list_insert_id. by rewrite list_lookup_fmap, Eu.
Qed.
Lemma upd_probing_asks i : keeps (asks rs) (upd_upstream (W := W) i (set_probing false)).
Proof. by apply asks_upd. Qed.
Lemma upd_failed_asks i r now e : keeps (asks rs) (upd_upstream (W := W) i (failed r now e)).
Proof. by apply asks_upd. Qed.
Lemma add_fallback_asks : keeps (asks rs) (on_dns (W := W) add_fallback).
Proof. by apply asks_on_dns. Qed.
Lemma set_lastFallback_asks now : keeps (asks rs) (on_dns (W := W) (set_lastFallback now)).
Proof. by apply asks_on_dns. Qed.
#[local] Hint Resolve claim_at_asks upd_probing_asks upd_failed_asks add_fallback_asks set_lastFallback_asks : gate.

Lemma claim_prog_asks now i n : asking (claim_prog (W := W) now i n).
Proof. revert i. induction n as [|n IH]; intros i; cbn [claim_prog]; awalk. Qed.
Lemma release_prog_asks l : asking (release_prog (W := W) l).
Proof. induction l as [|i l IH]; cbn [release_prog]; awalk. Qed.
Lemma failed_prog_asks i e : asking (failed_prog (W := W) i e).
Proof. unfold failed_prog. awalk. apply keeps_bind; [typeclasses eauto|auto with gate|auto with gate]. Qed.
Lemma doh_prog_asks ctx un host c qs out : dohLookupFn ∈ fst rs -> asking (doh_prog (W := W) ctx un (snd rs) host c qs out).
Proof.
  intros Hin. pose proof (fun dq => dohJSONQuery_asks rs (W := W) ctx un host dq Hin) as Hq.
  revert c out. induction qs as [|dq qs IH]; intros c out; cbn [doh_prog]; awalk.
Qed.
#[local] Hint Resolve claim_prog_asks release_prog_asks failed_prog_asks doh_prog_asks : gate.
Lemma upstream_prog_asks u ctx host : lookupBy u ∈ fst rs -> asking (upstream_prog (W := W) u ctx host).
Proof.
  intros Hin. unfold upstream_prog. destruct (lookupBy u) as [|sv].
  - apply guarantees_read; [typeclasses eauto|]. intros s Hs.
    replace (dohHost (s_dns s)) with (snd rs) by (by rewrite <- Hs). by apply doh_prog_asks.
  - apply guarantees_any. by apply dnsServerLookup_asks.
Qed.
Lemma notFound_prog_asks ctx host : asking (notFound_prog (W := W) ctx host).
Proof. unfold notFound_prog. awalk. Qed.
Lemma fallback_prog_asks ctx host : asking (fallback_prog (W := W) ctx host).
Proof. unfold fallback_prog. awalk. Qed.
#[local] Hint Resolve notFound_prog_asks fallback_prog_asks : gate.
Lemma loop_prog_asks ctx tctx dl host active : asking (loop_prog (W := W) ctx tctx dl host active).
Proof.
  induction active as [|i rest IH]; cbn [loop_prog]; [apply fallback_prog_asks|].
  do 3 (apply guarantees_seq; [auto with gate|intros ?]).
  apply guarantees_read; [typeclasses eauto|]. intros s Hs.
  destruct (tunnel (s_dns s) !! i) as [u|] eqn:Eu; [|exact IH].
  pose proof (fun c => upstream_prog_asks u c host (claimed_resolver rs s i u Hs Eu)) as Hu.
  pose proof (notFound_prog_asks ctx host) as Hn. pose proof (failed_prog_asks i) as Hf. awalk.
Qed.
#[local] Hint Resolve loop_prog_asks : gate.
Lemma lookup_prog_asks ctx host : asking (lookup_prog (W := W) ctx host).
Proof.
  unfold lookup_prog. pose proof claim_prog_asks. pose proof loop_prog_asks. pose proof release_prog_asks. awalk.
Qed.
#[local] Hint Resolve lookup_prog_asks : gate.
Lemma ask_prog_asks q : asking (ask_prog (W := W) q).
Proof.
  unfold ask_prog. apply guarantees_seq; [auto with gate|]. intros ctx.
  apply guarantees_seq; [auto with gate|]. intros _. destruct q; [apply lookup_prog_asks|].
  unfold req_prog, local_prog. awalk.
Qed.
Lemma settle_prog_asks key host ans : asking (settle_prog (W := W) key host ans).
Proof. unfold settle_prog. awalk. Qed.
End Events.

Section CallEvents.
Context {W : Type} `{World W} {G : Type} `{!Singleflight (lookupResult * option error) G}.
Context (rs : list lookupFn * string).
Implicit Types (s : Sys W) (t : thread (W := W)) (d : dstate (W := W) (G := G)).

Definition thread_asks t : Prop :=
  match t with Asking _ _ p => asking rs p | Settling _ _ _ p => asking rs p | _ => True end.
Lemma check_cache_asks key host : keeps (asks rs) (check_cache (W := W) key host).
Proof. unfold check_cache. walk. Qed.
Lemma advance_asks s g t s' g' t' : res_are rs s ->
  advance s g t = Some (s', g', t') -> thread_asks t -> asks rs s s' /\ thread_asks t'.
Proof.
  intros Hs. destruct t as [q|q|q id p|q id ans p|q id|q r how]; cbn; intros Ha Ht.
  - destruct (ParseAddr (req_host q)); [by simplify_eq|].
    pose proof (check_cache_asks (req_key q) (req_host q) s) as He.
    destruct (check_cache _ _ s) as [hit s1]. simplify_eq. by destruct hit.
  - destruct (sf_enter (req_key q) g) as [[id|id] g1]; simplify_eq; split; try done. apply ask_prog_asks.
  - destruct p as [ans|X op k]; simplify_eq; [split; [done|apply settle_prog_asks]|].
    destruct (op s) as [x s1] eqn:Eo. simplify_eq. specialize (Ht s Hs). by rewrite Eo in Ht.
  - destruct p as [r|X op k]; simplify_eq; [done|].
    destruct (op s) as [x s1] eqn:Eo. simplify_eq. specialize (Ht s Hs). by rewrite Eo in Ht.
  - destruct (sf_result g id); by simplify_eq.
  - done.
Qed.

Definition calls_ask d : Prop := forall i t, d_calls d !! i = Some t -> thread_asks t.
Lemma call_step_asks d d' : call_step d d' -> res_are rs (d_sys d) -> calls_ask d ->
  asks rs (d_sys d) (d_sys d') /\ calls_ask d'.
Proof.
  intros [d0 i t s' g' t' Ei Ha] Hs Hc. destruct (advance_asks _ _ _ _ _ _ Hs Ha (Hc _ _ Ei)) as [He Ht]. split; [done|].
  intros j u. cbn. destruct (decide (i = j)) as [<-|Hne].
  - intros [(_ & <- & _)|[? _]]%list_lookup_insert_Some; done.
  - rewrite list_lookup_insert_ne by done. apply Hc.
Qed.
Lemma purge_step_asks d d' : purge_step d d' -> calls_ask d -> asks rs (d_sys d) (d_sys d') /\ calls_ask d'.
Proof. intros [d0] Hc. split; [|done]. apply purge_asks. Qed.
End CallEvents.

(** ** What one [Open] guarantees *)

Section OpenTask.
Context `{Regexp} {W : Type} `{World W}.
Implicit Types (s : Sys W) (o : Opener) (src proto host : string) (port : Z).
Abbreviation answer := (lookupResult * option error)%type (only parsing).

Context (rs : list lookupFn * string).
(** A section of [Open] itself does not touch the resolver. *)
Definition dials s s' : Prop := s_dns s' = s_dns s /\ emits (vps_dial rs) s s'.

(** What [Open] relies on in a reply of the resolver; [b] is the option. *)
Definition reply_ok (b : bool) (q : dnsRequest) (r : answer) : Prop :=
  resolved r /\ (r_localDirect (fst r) = true -> b = true).
Definition reason_ok (b : bool) (reason : string) : Prop := reason = "local-private" -> b = true.
Definition opened_ok (b : bool) (r : outcome opened) : Prop :=
  exists x, r = Returned x /\ reason_ok b (op_reason x).

Context (b : bool).
Abbreviation ok := (task_ok dials (reply_ok b)) (only parsing).

Lemma resolveTunnel_task_ok host :
  ok (fun r : list Addr * bool * option error => good_answer (fst (fst r), snd r) /\ (snd (fst r) = true -> b = true))
    (resolveTunnel_task (W := W) host).
Proof. apply task_ok_call. intros [res err] [Hr Hd]. split; [|done]. exact Hr. Qed.
Lemma localResolveAll_task_ok host : ok good_answer (localResolveAll_task (W := W) host).
Proof. apply task_ok_call. intros [res err] [Hr _]. exact Hr. Qed.
Lemma first_match_task_ok l host : ok (fun _ => True) (first_match_task (W := W) l host).
Proof.
  induction l as [|r l IH]; cbn [first_match_task]; [done|].
  eapply (task_ok_bind _ _ (fun _ => True)); [|by intros []].
  unfold matches_task. destruct (ipPrefix r); [|done].
  eapply (task_ok_bind _ _ (fun _ => True)); [|by intros []].
  eapply task_ok_bind; [apply resolveTunnel_task_ok|]. by intros [[] ?].
Qed.
Lemma Decide_task_ok e host port : ok (fun r => snd r <> "local-private") (Decide_task (W := W) e host port).
Proof.
  unfold Decide_task. cbv zeta. destruct (match ParseAddr _ with Some _ => _ | None => _ end); [done|].
  eapply task_ok_bind; [apply first_match_task_ok|]. by intros [r|] _.
Qed.

Definition candidates_ok o (r : outcome (list Addr * Route * string * option error)) : Prop :=
  candidates_spec o r /\ match r with Returned (_, _, reason, _) => reason_ok b reason | Panicked => True end.
Lemma candidates_task_ok o host port : ok (candidates_ok o) (candidates_task (W := W) o host port).
Proof.
  unfold candidates_task. eapply task_ok_bind; [apply Decide_task_ok|]. intros [[] reason] Hreason; cbn in Hreason.
  - eapply task_ok_bind; [apply localResolveAll_task_ok|]. intros [l [e|]] Hg; [by split; [|intros ?]|].
    split; [by apply direct_candidates_spec|].
    destruct (direct_candidates_cases o host l RouteDirect reason) as [[e' ->]|[_ ->]]; by intros ?.
  - eapply task_ok_bind; [apply resolveTunnel_task_ok|]. intros [[l ld] [e|]] [Hg Hb]; [by split; [|intros ?]|].
    destruct Hg as [Hne Hok]; [done|]. cbn in *. split; [by apply tunnel_candidates_spec|].
    destruct (tunnel_candidates_cases o host l ld reason Hne)
      as [(_ & out & _ & ->)|[(_ & _ & a & ->)|(_ & Hld & ->)]]; [by intros ?|by intros ?|].
    destruct (direct_candidates_cases o host (dropHostLocal l) RouteDirect "local-private")
      as [[e' ->]|[_ ->]]; intros _; by apply Hb.
Qed.

Lemma dialDirectIP_dials ip port f : keeps dials (dialDirectIP (W := W) ip port f).
Proof.
  intros s. unfold dialDirectIP. cbv zeta. destruct (negb _); [by split|].
  rewrite bind_run, perform_run. cbn. split; [done|]. eexists. split; [done|]. by repeat constructor.
Qed.
Lemma direct_task_ok addrs port f first : ok (fun _ => True) (direct_task (W := W) addrs port f first).
Proof.
  revert first. induction addrs as [|ip rest IH]; intros first; cbn [direct_task]; [done|].
  eapply task_ok_section; [apply dialDirectIP_dials|apply returns_any|]. by intros [e|c] _.
Qed.
Lemma tunnel_task_ok meta addrs port first :
  Forall (fun a => private_range (canon a) = false) addrs ->
  ok (fun _ => True) (tunnel_task (W := W) meta addrs port first).
Proof.
  intros Hall. revert first. induction Hall as [|ip rest Hip _ IH]; intros first; cbn [tunnel_task]; [done|].
  eapply task_ok_section; [|apply returns_any|by intros [e|c] _].
  intros s. rewrite perform_run. split; [done|]. eexists. split; [done|].
  constructor; [|constructor]. by exists ip, port.
Qed.

Lemma open_task_ok (direct : string) o src proto host port :
  NewRuleEngine direct = Some (inr (o_rules o)) ->
  ok (opened_ok b) (open_task (W := W) o src proto host port).
Proof.
  intros He. apply NewRuleEngine_private in He.
  unfold open_task. eapply task_ok_bind; [apply candidates_task_ok|].
  intros [[[[addrs []] reason] [e|]]|] [Hspec Hr]; [by eexists| |by eexists| |done].
  - eapply task_ok_bind; [apply direct_task_ok|]. intros r _. eexists. split; [done|]. by destruct r as [[]|].
  - eapply task_ok_bind; [apply tunnel_task_ok|].
    + destruct Hspec as [_ Hall]. eapply Forall_impl; [exact Hall|]. intros a [Hok Hp].
      by rewrite <- (isPrivate_range (o_rules o)).
    + intros r _. eexists. split; [done|]. by destruct r as [[]|[[]|]].
Qed.
End OpenTask.

(** ** The invariant of the gate *)

Section Gate.
Context `{Regexp} {W : Type} `{World W} {G : Type} `{!Singleflight (lookupResult * option error) G}.
Implicit Types (s : Sys W) (g : gstate (W := W) (G := G)) (d : dstate (W := W) (G := G)) (o : Opener).

Context (rs : list lookupFn * string).
Definition goroutine_ok (b : bool) d (c : goroutine (W := W)) : Prop :=
  match c with
  | Running p => task_ok (dials rs) (reply_ok b) (opened_ok b) p
  | Resolving i k =>
      exists t, d_calls d !! i = Some t /\
        forall r, reply_ok b (request_of t) r -> task_ok (dials rs) (reply_ok b) (opened_ok b) (k r)
  | Opened r => opened_ok b r
  end.
Record ginv (b : bool) (s0 : Sys W) g : Prop := {
  g_dinv : dinv b (g_dns g);
  g_asks : calls_ask rs (g_dns g);
  g_res : res_are rs (d_sys (g_dns g));
  g_events : emits (vps_dial rs) s0 (d_sys (g_dns g));
  g_ok j c : g_conns g !! j = Some c -> goroutine_ok b (g_dns g) c }.

(** A section outside the resolver keeps the resolver's invariant. *)
Lemma dinv_same_dns b d s' : s_dns s' = s_dns (d_sys d) -> dinv b d -> dinv b (MkD s' (d_sf d) (d_calls d)).
Proof.
  intros Es [[Ib It Ic Ih] Hg]. split; [|exact Hg].
  constructor; cbn; [unfold opt; by rewrite Es|done| |done].
  intros key e. unfold cached. rewrite Es. apply Ic.
Qed.
(** Calls stay in their place and keep their request. *)
Definition calls_grow d d' : Prop :=
  forall i t, d_calls d !! i = Some t -> exists t', d_calls d' !! i = Some t' /\ request_of t' = request_of t.
Lemma goroutine_ok_grow b d d' c : calls_grow d d' -> goroutine_ok b d c -> goroutine_ok b d' c.
Proof.
  intros Hg. destruct c as [p|i k|r]; cbn; [done| |done]. intros (t & Ht & Hk).
  destruct (Hg _ _ Ht) as (t' & Ht' & Er). exists t'. rewrite Er. done.
Qed.
Lemma call_step_grow d d' : call_step d d' -> calls_grow d d'.
Proof.
  intros [d0 i t s' g' t' Ei Ha] j u Ej. cbn. destruct (decide (i = j)) as [<-|Hne].
  - simplify_eq. exists t'. split; [|by eapply advance_request].
    apply list_lookup_insert_eq. by eapply lookup_lt_Some.
  - exists u. by rewrite list_lookup_insert_ne.
Qed.

(** One goroutine replaced, the resolver grown. *)
Lemma conns_insert b d d' (conns : list (goroutine (W := W))) j c :
  calls_grow d d' -> goroutine_ok b d' c ->
  (forall i x, conns !! i = Some x -> goroutine_ok b d x) ->
  forall i x, <[j := c]> conns !! i = Some x -> goroutine_ok b d' x.
Proof.
  intros Hg Hc Hall i x. destruct (decide (j = i)) as [<-|Hne].
  - intros [(_ & <- & _)|[? _]]%list_lookup_insert_Some; done.
  - rewrite list_lookup_insert_ne by done. intros Hi. eapply goroutine_ok_grow; eauto.
Qed.
Lemma reply_is_ok b d i q r how : dinv b d -> d_calls d !! i = Some (Replied q r how) -> reply_ok b q r.
Proof.
  intros Hd Hi. destruct (reply_explained b d i q r how Hd Hi) as [(ip & Hp & ->)|(q' & ans & Hex)].
  - split; [|done]. intros _. split; [done|]. repeat constructor. eauto using Unmap_ok, ParseAddr_ok.
  - split; [by eapply explains_resolved|]. intros Hl. by apply (explains_direct _ _ _ _ _ _ Hex).
Qed.

Lemma section_inv b s0 g j X (op : M (Sys W) X) k :
  ginv b s0 g -> g_conns g !! j = Some (Running (TAct op k)) ->
  ginv b s0 (MkG (MkD (snd (op (d_sys (g_dns g)))) (d_sf (g_dns g)) (d_calls (g_dns g)))
               (<[j := Running (k (fst (op (d_sys (g_dns g)))))]> (g_conns g))).
Proof.
  intros [Hd Ha Hres He Hok] Hj. destruct (Hok _ _ Hj (d_sys (g_dns g))) as [[Es Hev] Hk].
  constructor; cbn; [by apply dinv_same_dns|done|unfold res_are; by rewrite Es|by etrans|].
  eapply (conns_insert b (g_dns g)); [|exact Hk|done]. intros i t Hi. by exists t.
Qed.
Lemma resolve_inv b s0 g j q k :
  ginv b s0 g -> g_conns g !! j = Some (Running (TCall q k)) ->
  ginv b s0 (MkG (MkD (d_sys (g_dns g)) (d_sf (g_dns g)) (d_calls (g_dns g) ++ [Entering q]))
               (<[j := Resolving (length (d_calls (g_dns g))) k]> (g_conns g))).
Proof.
  intros [Hd Ha Hres He Hok] Hj. pose proof (Hok _ _ Hj) as Hk. constructor; cbn.
  - destruct Hd as [H1 H2]. split; [eapply dstep_data|eapply dstep_group]; eauto; right; right; constructor.
  - intros i t [Hi|[_ Hi]]%lookup_app_Some; [by eapply Ha|]. by apply list_lookup_singleton_Some in Hi as [_ <-].
  - done.
  - done.
  - eapply (conns_insert b (g_dns g)); [| |done].
    + intros i t Hi. exists t. split; [|done]. by apply lookup_app_l_Some.
    + exists (Entering q). split; [|exact Hk]. by apply list_lookup_middle.
Qed.
Lemma conn_step_inv b s0 g g' : conn_step g g' -> ginv b s0 g -> ginv b s0 g'.
Proof.
  intros Hs Hi. destruct Hs as [g j X op k Hj|g j q k Hj|g j i k q r how Hj Hr|g j r Hj|g d' Hd'].
  - by apply section_inv.
  - by apply resolve_inv.
  - destruct Hi as [Hd Ha Hres He Hok]. constructor; cbn; [done..|].
    eapply conns_insert; [| |exact Hok]; [intros i' t Ht; by exists t|].
    destruct (Hok _ _ Hj) as (t & Ht & Hk). apply Hk. rewrite Hr in Ht. simplify_eq. by eapply reply_is_ok.
  - destruct Hi as [Hd Ha Hres He Hok]. constructor; cbn; [done..|].
    eapply conns_insert; [| |exact Hok]; [intros i' t Ht; by exists t|]. apply (Hok _ _ Hj).
  - destruct Hi as [[H1 H2] Ha Hres He Hok]. destruct (call_step_asks rs _ _ Hd' Hres Ha) as [Hev Ha'].
    destruct (asks_reaches _ _ _ Hev Hres) as [Hres' Hnew]. constructor; cbn.
    + split; [eapply dstep_data|eapply dstep_group]; eauto; by left.
    + done.
    + done.
    + by etrans.
    + intros j c Hj. eapply goroutine_ok_grow; [by apply call_step_grow|by eapply Hok].
Qed.
Lemma purges_ginv b s0 g g' : purges g g' -> ginv b s0 g -> ginv b s0 g'.
Proof.
  intros [g0 d' Hp] [[H1 H2] Ha Hres He Hok]. destruct (purge_step_asks rs _ _ Hp Ha) as [Hev Ha'].
  destruct (asks_reaches _ _ _ Hev Hres) as [Hres' Hnew]. constructor; cbn.
  - split; [eapply dstep_data|eapply dstep_group]; eauto; right; by left.
  - done.
  - done.
  - by etrans.
  - intros j c Hj. eapply goroutine_ok_grow; [|by eapply Hok]. destruct Hp. intros i t Hi. by exists t.
Qed.
Lemma gstep_inv (direct : string) o b s0 g g' :
  NewRuleEngine direct = Some (inr (o_rules o)) -> gstep o g g' -> ginv b s0 g -> ginv b s0 g'.
Proof.
  intros He [Hs|[Hs|Hs]] Hi; [by eapply conn_step_inv|by eapply purges_ginv|].
  destruct Hs as [g0 src proto host port]. destruct Hi as [Hd Ha Hres Hev Hok]. constructor; cbn; [done..|].
  intros j c [Hj|[_ Hj]]%lookup_app_Some; [by eapply Hok|].
  apply list_lookup_singleton_Some in Hj as [_ <-]. by eapply open_task_ok.
Qed.
End Gate.

Section GateClaims.
Context `{Regexp} {W : Type} `{World W} {G : Type} `{!Singleflight (lookupResult * option error) G}.
Implicit Types (s : Sys W) (g : gstate (W := W) (G := G)) (o : Opener).

Lemma gate_inv (direct : string) o s g :
  NewRuleEngine direct = Some (inr (o_rules o)) -> cached s = ∅ -> rtc (gstep o) (ginit s) g ->
  ginv (resolvers (s_dns s)) (localOnNXDomain (s_dns s)) s g.
Proof.
  intros He Hc Hr. apply (rtc_invariant (gstep o) (ginv (resolvers (s_dns s)) (localOnNXDomain (s_dns s)) s) (ginit s)); [|done|].
  - intros x y Hx Hxy. by eapply gstep_inv.
  - constructor; cbn; [by apply dinit_inv|done|done|reflexivity|done].
Qed.

(** Many connections at once: whatever the interleaving of their lookups,
    shared lookups, cache hits, purges and dials, whatever the resolvers and
    the network answer, every address the VPS is asked to dial is public or a
    tunnel resolver's, no [Open] panics, and one that turns direct for a
    private answer does so only with the option on. *)
Theorem interleaved_opens_safe (direct : string) o s g
    (He : NewRuleEngine direct = Some (inr (o_rules o)))
    (Hcold : cached s = ∅) (Hr : rtc (gstep o) (ginit s) g) :
  emits (vps_dial (resolvers (s_dns s))) s (d_sys (g_dns g)) /\
  forall j r, g_conns g !! j = Some (Opened r) ->
    exists x, r = Returned x /\ (op_reason x = "local-private" -> localOnNXDomain (s_dns s) = true).
Proof.
  pose proof (gate_inv direct o s g He Hcold Hr) as Hg. split; [by eapply g_events|].
  intros j r Hj. exact (g_ok _ _ _ _ Hg _ _ Hj).
Qed.
End GateClaims.

(** ** Termination *)

Section Ends.
Context `{Regexp} {W : Type} `{World W} {G : Type} `{!Singleflight (lookupResult * option error) G}.
Implicit Types (s : Sys W) (g : gstate (W := W) (G := G)) (d : dstate (W := W) (G := G)) (o : Opener).
Abbreviation answer := (lookupResult * option error)%type (only parsing).
Abbreviation opening := (task (Sys W) dnsRequest answer (outcome opened)) (only parsing).

(** Each goroutine has at most one call out, and every call that has not
    replied is somebody's. *)
Record owned g : Prop := {
  owns_one j i k : g_conns g !! j = Some (Resolving i k) -> is_Some (d_calls (g_dns g) !! i);
  owner_one j j' i k k' :
    g_conns g !! j = Some (Resolving i k) -> g_conns g !! j' = Some (Resolving i k') -> j = j';
  owner i t : d_calls (g_dns g) !! i = Some t -> has_replied t = false ->
    exists j k, g_conns g !! j = Some (Resolving i k) }.

(** How far a goroutine is: its code, or its call and the code after it. *)
Inductive progress : Type := PRun (p : opening) | PCall (t : thread (W := W)) (k : answer -> opening) | PDone.
Definition progress_of d (c : goroutine (W := W)) : progress :=
  match c with
  | Running p => PRun p
  | Resolving i k => match d_calls d !! i with Some t => PCall t k | None => PDone end
  | Opened _ => PDone
  end.
Definition rest_of_task (p p' : opening) : Prop :=
  match p with TAct op k => exists x, p' = k x | _ => False end.
Inductive closer : progress -> progress -> Prop :=
| closer_section p p' : rest_of_task p p' -> closer (PRun p') (PRun p)
| closer_call q k : closer (PCall (Entering q) k) (PRun (TCall q k))
| closer_further t t' k : further t' t -> closer (PCall t' k) (PCall t k)
| closer_resume t k r : closer (PRun (k r)) (PCall t k)
| closer_done p : closer PDone (PRun p).

Lemma closer_acc_call k : (forall r, Acc closer (PRun (k r))) -> forall t, Acc closer (PCall t k).
Proof.
  intros Hk t. induction (further_acc t) as [t _ IH]. constructor. intros y Hy.
  inversion Hy; subst; auto.
Qed.
Lemma closer_acc x : Acc closer x.
Proof.
  assert (Hdone : Acc closer PDone) by (constructor; intros y Hy; inversion Hy).
  assert (Hrun : forall p, Acc closer (PRun p)).
  { induction p as [r|X op k IH|q k IH]; constructor; intros y Hy; inversion Hy as [p0 p' Hp| | | |]; subst; auto.
    - destruct Hp.
    - destruct Hp as [x0 ->]. apply IH.
    - destruct Hp.
    - by apply closer_acc_call. }
  destruct x as [p|t k|]; [done| |done]. by apply closer_acc_call.
Qed.

Definition progress_list g : list progress := progress_of (g_dns g) <$> g_conns g.

(** The resolver moved on for one goroutine at most. *)
Lemma progress_insert d d' (conns : list (goroutine (W := W))) j c y x :
  conns !! j = Some c -> progress_of d c = x -> closer y x ->
  (forall i u, i <> j -> conns !! i = Some u -> progress_of d' u = progress_of d u) ->
  forall c', progress_of d' c' = y ->
  pool_lt closer (progress_of d' <$> <[j := c']> conns) (progress_of d <$> conns).
Proof.
  intros Hj Hx Hlt Hsame c' Hy. exists j, x, y. split; [by rewrite list_lookup_fmap, Hj, <- Hx|]. split; [done|].
  apply list_eq. intros i. destruct (decide (i = j)) as [->|Hne].
  - rewrite list_lookup_fmap, !list_lookup_insert_eq; [by rewrite <- Hy|..].
    + rewrite length_fmap. by eapply lookup_lt_Some.
    + by eapply lookup_lt_Some.
  - rewrite list_lookup_fmap, !list_lookup_insert_ne, list_lookup_fmap by done.
    destruct (conns !! i) as [u|] eqn:Ei; [|done]. cbn. f_equal. by apply (Hsame i).
Qed.

Lemma call_step_at d d' : call_step d d' ->
  exists i t t', d_calls d !! i = Some t /\ has_replied t = false /\ further t' t /\
    d_calls d' = <[i := t']> (d_calls d).
Proof.
  intros [d0 i t s' g' t' Ei Ha]. exists i, t, t'. split; [done|].
  split; [by destruct t|]. split; [by eapply advance_further|done].
Qed.

(** A step of a goroutine or of its call brings it closer to its end. *)
Lemma conn_step_closer g g' : conn_step g g' -> owned g -> pool_lt closer (progress_list g') (progress_list g).
Proof.
  unfold progress_list. intros Hs [Ho1 Ho2 Ho3].
  destruct Hs as [g j X op k Hj|g j q k Hj|g j i k q r how Hj Hr|g j r Hj|g d' Hd']; cbn [g_dns g_conns].
  - eapply (progress_insert (g_dns g)); [done|reflexivity| |done|reflexivity]. apply closer_section. by eexists.
  - eapply (progress_insert (g_dns g)); [done|reflexivity|apply closer_call| |].
    + intros i u _ Hu. destruct u as [|i' k'|]; [done| |done]. cbn. destruct (Ho1 _ _ _ Hu) as [t Ht].
      by rewrite Ht, (lookup_app_l_Some _ _ _ _ Ht).
    + cbn. by rewrite list_lookup_middle.
  - eapply (progress_insert (g_dns g)); [done|cbn; by rewrite Hr|apply closer_resume|done|reflexivity].
  - eapply (progress_insert (g_dns g)); [done|reflexivity|apply closer_done|done|reflexivity].
  - destruct (call_step_at _ _ Hd') as (i & t & t' & Hi & Hrep & Hf & Ed').
    destruct (Ho3 i t Hi Hrep) as (j & k & Hj).
    rewrite <- (list_insert_id (g_conns g) j (Resolving i k) Hj) at 1.
    eapply (progress_insert (g_dns g) d'); [done|cbn; by rewrite Hi|by apply closer_further| |].
    + intros m u Hm Hu. destruct u as [|i' k'|]; [done| |done]. cbn. rewrite Ed'.
      rewrite list_lookup_insert_ne; [done|]. intros ->. apply Hm. by eapply Ho2.
    + cbn. rewrite Ed', list_lookup_insert_eq; [done|]. by eapply lookup_lt_Some.
Qed.

Lemma owned_init s : owned (ginit s).
Proof. constructor; cbn; by intros *. Qed.
(** Replacing a goroutine that is not waiting by one that is not. *)
Lemma owned_insert g d' j c c' :
  owned g -> g_conns g !! j = Some c -> d_calls d' = d_calls (g_dns g) ->
  (forall i k, c = Resolving i k -> exists t, d_calls (g_dns g) !! i = Some t /\ has_replied t = true) ->
  (forall i k, c' <> Resolving i k) ->
  owned (MkG d' (<[j := c']> (g_conns g))).
Proof.
  intros [Ho1 Ho2 Ho3] Hj Ed Hc Hc'.
  assert (Hin : forall m i k, <[j := c']> (g_conns g) !! m = Some (Resolving i k) ->
    g_conns g !! m = Some (Resolving i k)).
  { intros m i k. destruct (decide (j = m)) as [<-|Hne]; [|by rewrite list_lookup_insert_ne].
    intros [(_ & E & _)|[? _]]%list_lookup_insert_Some; [|done]. by destruct (Hc' i k). }
  constructor; cbn; rewrite ?Ed.
  - intros m i k Hm%Hin. by eapply Ho1.
  - intros m m' i k k' Hm%Hin Hm'%Hin. by eapply Ho2.
  - intros i t Hi Hrep. destruct (Ho3 i t Hi Hrep) as (m & k & Hm). exists m, k.
    rewrite list_lookup_insert_ne; [done|]. intros <-. simplify_eq.
    destruct (Hc i k eq_refl) as (t0 & Ht0 & Hr0). congruence.
Qed.
Lemma conn_step_owned g g' : conn_step g g' -> owned g -> owned g'.
Proof.
  intros Hs Ho.
  destruct Hs as [g j X op k Hj|g j q k Hj|g j i k q r how Hj Hr|g j r Hj|g d' Hd'].
  - by eapply owned_insert.
  - destruct Ho as [Ho1 Ho2 Ho3]. set (n := length (d_calls (g_dns g))).
    assert (Hfresh : forall m k', g_conns g !! m <> Some (Resolving n k')).
    { intros m k' Hm. destruct (Ho1 _ _ _ Hm) as [t Ht]. apply lookup_lt_Some in Ht. unfold n in Ht. lia. }
    assert (Hin : forall m i k', <[j := Resolving n k]> (g_conns g) !! m = Some (Resolving i k') ->
      (m = j /\ i = n) \/ (i <> n /\ g_conns g !! m = Some (Resolving i k'))).
    { intros m i k'. destruct (decide (j = m)) as [<-|Hne].
      - intros [(_ & E & _)|[? _]]%list_lookup_insert_Some; [|done]. simplify_eq. by left.
      - rewrite list_lookup_insert_ne by done. intros Hm. right. split; [|done]. intros ->. by eapply Hfresh. }
    constructor; cbn.
    + intros m i k' [[-> ->]|[_ Hm]]%Hin; [rewrite list_lookup_middle by done; by eexists|].
      destruct (Ho1 _ _ _ Hm) as [t Ht]. exists t. by apply lookup_app_l_Some.
    + intros m m' i k1 k2 [[-> ->]|[Hi Hm]]%Hin [[-> Hi']|[Hi' Hm']]%Hin; [done..|]. by eapply Ho2.
    + intros i t [Hi|[Hi Hlast]]%lookup_app_Some Hrep.
      * destruct (Ho3 i t Hi Hrep) as (m & k' & Hm). exists m, k'. rewrite list_lookup_insert_ne; [done|].
        intros <-. congruence.
      * apply list_lookup_singleton_Some in Hlast as [Hn _]. assert (i = n) as -> by (unfold n; lia).
        exists j, k. apply list_lookup_insert_eq. by eapply lookup_lt_Some.
  - eapply owned_insert; [done|done|done| |done]. intros i' k' [= <- <-]. eauto.
  - by eapply owned_insert.
  - destruct Ho as [Ho1 Ho2 Ho3]. destruct (call_step_at _ _ Hd') as (i & t & t' & Hi & Hrep & Hf & Ed').
    constructor; cbn; rewrite ?Ed'.
    + intros m i' k' Hm. destruct (Ho1 _ _ _ Hm) as [u Hu]. apply lookup_lt_is_Some_2.
      rewrite length_insert. by eapply lookup_lt_Some.
    + done.
    + intros i' u Hu Hr. destruct (decide (i = i')) as [<-|Hne]; [by eapply Ho3|].
      rewrite list_lookup_insert_ne in Hu by done. by eapply Ho3.
Qed.

Definition has_opened (c : goroutine (W := W)) : bool := match c with Opened _ => true | _ => false end.
Definition all_opened g : Prop := Forall (fun c => has_opened c = true) (g_conns g).
(** A step of some goroutine, after any purges. *)
Definition gwork_step g g' : Prop := exists g1, rtc purges g g1 /\ conn_step g1 g'.

Lemma conns_progress res b s0 g : ginv res b s0 g -> all_opened g \/ exists g', conn_step g g'.
Proof.
  intros [Hd _ _ _ Hok].
  destruct (decide (Forall (fun c => has_opened c = true) (g_conns g))) as [?|Hex]; [by left|right].
  apply not_Forall_Exists, Exists_exists in Hex as (c & [j Hj]%list_elem_of_lookup & Hc); [|apply _].
  destruct c as [p|i k|r]; [| |by destruct Hc].
  - destruct p as [r|X op k|q k]; eexists; [by apply step_opened|by apply step_section|by apply step_resolve].
  - destruct (Hok _ _ Hj) as (t & Ht & _). destruct (calls_progress _ _ Hd) as [Hall|[d' Hd']].
    + pose proof (proj1 (Forall_lookup _ _) Hall _ _ Ht) as Hr. destruct t; try done.
      eexists. by eapply step_resume.
    + eexists. by apply step_resolver.
Qed.
Lemma purges_keep res b s0 g g' : rtc purges g g' -> ginv res b s0 g /\ owned g ->
  (ginv res b s0 g' /\ owned g') /\ progress_list g' = progress_list g.
Proof.
  induction 1 as [g|g g1 g2 Hp _ IH]; [done|]. intros [Hi Ho].
  assert (Hs : (ginv res b s0 g1 /\ owned g1) /\ progress_list g1 = progress_list g).
  { split; [split; [by eapply purges_ginv|]|].
    - destruct Hp as [g0 d' Hp], Ho as [Ho1 Ho2 Ho3]. inversion Hp; subst. by constructor.
    - destruct Hp as [g0 d' Hp]. by inversion Hp; subst. }
  destruct Hs as [Hg1 <-]. by apply IH.
Qed.
Lemma gwork_closer res b s0 g g' : ginv res b s0 g /\ owned g -> gwork_step g g' ->
  (ginv res b s0 g' /\ owned g') /\ pool_lt closer (progress_list g') (progress_list g).
Proof.
  intros Hg (g1 & Hp & Hs). destruct (purges_keep res b s0 _ _ Hp Hg) as [[Hi Ho] <-].
  split; [split; [by eapply conn_step_inv|by eapply conn_step_owned]|by apply conn_step_closer].
Qed.
Lemma gstep_owned o g g' : gstep o g g' -> owned g -> owned g'.
Proof.
  intros [Hs|[Hs|Hs]] Ho; [by eapply conn_step_owned| |].
  - destruct Hs as [g0 d' Hp], Ho as [Ho1 Ho2 Ho3]. inversion Hp; subst. by constructor.
  - destruct Hs as [g0 src proto host port]. destruct Ho as [H1 H2 H3].
    assert (Hin : forall m i k, (g_conns g0 ++ [Running (open_task o src proto host port)]) !! m = Some (Resolving i k) ->
      g_conns g0 !! m = Some (Resolving i k)).
    { intros m i k [Hm|[_ Hm]]%lookup_app_Some; [done|]. by apply list_lookup_singleton_Some in Hm as [_ [=]]. }
    constructor; cbn.
    + intros m i k Hm%Hin. by eapply H1.
    + intros m m' i k k' Hm%Hin Hm'%Hin. by eapply H2.
    + intros i t Hi Hr. destruct (H3 i t Hi Hr) as (m & k & Hm). exists m, k. by apply lookup_app_l_Some.
Qed.

(** Every [Open] returns: from every state the gate can reach, however the
    goroutines, the resolver calls and the purges are scheduled from there on,
    every open in progress comes to its result. *)
Theorem every_open_returns (direct : string) o s g
    (He : NewRuleEngine direct = Some (inr (o_rules o)))
    (Hcold : cached s = ∅) (Hr : rtc (gstep o) (ginit s) g) :
  inevitable gwork_step all_opened g.
Proof.
  apply (inevitable_acc gwork_step progress_list (pool_lt closer)
    (fun g => ginv (resolvers (s_dns s)) (localOnNXDomain (s_dns s)) s g /\ owned g)).
  - intros a b. apply gwork_closer.
  - intros a [Ha _]. destruct (conns_progress _ _ _ a Ha) as [?|[b Hb]]; [by left|]. right. exists b, a. by split.
  - apply pool_lt_acc, Forall_forall. intros x _. apply closer_acc.
  - split; [by eapply gate_inv|].
    apply (rtc_invariant (gstep o) owned (ginit s)); [intros x y Hx Hxy; by eapply gstep_owned|done|apply owned_init].
Qed.
End Ends.

(** ** A scheduler, for concrete runs *)

Inductive gaction : Type := Conn (j : nat) | ResolverCall (i : nat).
Section GatePlay.
Context `{Regexp} {W : Type} `{World W} {G : Type} `{!Singleflight (lookupResult * option error) G}.
Implicit Types (g : gstate (W := W) (G := G)).

Definition gplay1 (a : gaction) g : gstate :=
  let d := g_dns g in
  match a with
  | Conn j =>
      match g_conns g !! j with
      | Some (Running (TAct op k)) =>
          MkG (MkD (snd (op (d_sys d))) (d_sf d) (d_calls d)) (<[j := Running (k (fst (op (d_sys d))))]> (g_conns g))
      | Some (Running (TCall q k)) =>
          MkG (MkD (d_sys d) (d_sf d) (d_calls d ++ [Entering q])) (<[j := Resolving (length (d_calls d)) k]> (g_conns g))
      | Some (Running (TRet r)) => MkG d (<[j := Opened r]> (g_conns g))
      | Some (Resolving i k) =>
          match d_calls d !! i with
          | Some (Replied q r how) => MkG d (<[j := Running (k r)]> (g_conns g))
          | _ => g
          end
      | _ => g
      end
  | ResolverCall i =>
      match d_calls d !! i with
      | Some t => match advance (d_sys d) (d_sf d) t with
                  | Some (s', sf', t') => MkG (MkD s' sf' (<[i := t']> (d_calls d))) (g_conns g)
                  | None => g
                  end
      | None => g
      end
  end.
Definition gplay (acts : list gaction) g : gstate := foldl (fun g a => gplay1 a g) g acts.
Lemma gplay1_steps a g : rtc conn_step g (gplay1 a g).
Proof.
  destruct a as [j|i]; cbn.
  - destruct (g_conns g !! j) as [[[r|X op k|q k]|i k|r]|] eqn:Ej; try apply rtc_refl.
    + apply rtc_once. by apply step_opened.
    + apply rtc_once. by apply step_section.
    + apply rtc_once. by apply step_resolve.
    + destruct (d_calls (g_dns g) !! i) as [[| | | | |q r how]|] eqn:Ei; try apply rtc_refl.
      apply rtc_once. by eapply step_resume.
  - destruct (d_calls (g_dns g) !! i) as [t|] eqn:Ei; [|apply rtc_refl].
    destruct (advance _ _ t) as [[[s' sf'] t']|] eqn:Ea; [|apply rtc_refl].
    apply rtc_once, step_resolver. by eapply step_call.
Qed.
Lemma gplay_steps o acts g : rtc (gstep o) g (gplay acts g).
Proof.
  revert g. induction acts as [|a acts IH]; intros g; [apply rtc_refl|]. cbn. etrans; [|apply IH].
  eapply rtc_subrel; [|apply gplay1_steps]. intros x y Hxy. by left.
Qed.
End GatePlay.

(** Two connections to one name at once, whose answer holds a loopback
    address: one lookup serves both, and each dials the public address. *)
Section Demo.
#[local] Existing Instance literal_regexp.
Abbreviation demo_g := (gstate (W := script) (G := sfGroup (lookupResult * option error))) (only parsing).

Definition rebind_sys : Sys script := demo_sys false [bytes4 127 0 0 1; bytes4 93 184 216 34] [].
Definition gate_start : demo_g := ginit rebind_sys.
Definition accepted (host : string) (g : demo_g) : demo_g :=
  MkG (g_dns g) (g_conns g ++ [Running (open_task demo_opener "10.0.0.2:4000" "http" host 443)]).
Definition gate_two : demo_g := accepted "REBIND.example." (accepted "rebind.example" gate_start).
(** Both call the resolver (for the address rule), miss and meet in one
    lookup; then each goes on by itself. *)
Definition schedule : list gaction :=
  [Conn 0; Conn 1; ResolverCall 0; ResolverCall 1; ResolverCall 0; ResolverCall 1] ++
  replicate 40 (ResolverCall 0) ++ [ResolverCall 1; Conn 0; Conn 1; Conn 0; Conn 1] ++
  [ResolverCall 2; ResolverCall 3] ++ flat_map (fun _ => [Conn 0; Conn 1]) (seq 0 6).
Definition gate_end : demo_g := gplay schedule gate_two.

Lemma gate_two_reached : rtc (gstep demo_opener) gate_start gate_two.
Proof. do 2 (eapply rtc_l; [right; right; constructor|]). apply rtc_refl. Qed.
Lemma gate_end_reached : rtc (gstep demo_opener) gate_start gate_end.
Proof. etrans; [apply gate_two_reached|apply gplay_steps]. Qed.
(** One query, two dials, both to the public address. *)
Lemma gate_end_trace : s_trace (d_sys (g_dns gate_end)) =
  [EvDialResolver "1.1.1.1:53";
   EvUpstream "1.1.1.1" "rebind.example" (ByResolver (MkResolverReply [true] (inr [bytes4 127 0 0 1; bytes4 93 184 216 34])));
   EvDialTunnel "93.184.216.34:443" (inl timeout_error); EvDialTunnel "93.184.216.34:443" (inr 7)].
Proof. vm_compute. reflexivity. Qed.
Definition second_open : opened := MkOpened (Some 7) "93.184.216.34" RouteTunnel "fallback" None.
Lemma gate_end_opened : g_conns gate_end !! 1%nat = Some (Opened (Returned second_open)).
Proof. vm_compute. reflexivity. Qed.

Lemma interleaved_opens_safe_witness :
  emits (vps_dial (resolvers (s_dns rebind_sys))) rebind_sys (d_sys (g_dns gate_end)) /\
  exists x, Returned second_open = Returned x /\
    (op_reason x = "local-private" -> localOnNXDomain (s_dns rebind_sys) = true).
Proof.
  assert (Hcold : cached rebind_sys = ∅) by reflexivity.
  destruct (interleaved_opens_safe "ip:9.0.0.0/8, corp.example" demo_opener rebind_sys gate_end
    demo_rules_ok Hcold gate_end_reached) as [Hev Hop].
  split; [exact Hev|]. exact (Hop 1%nat _ gate_end_opened).
Defined.
Lemma every_open_returns_witness : inevitable gwork_step all_opened gate_two.
Proof.
  apply (every_open_returns "ip:9.0.0.0/8, corp.example" demo_opener rebind_sys).
  - exact demo_rules_ok.
  - reflexivity.
  - apply gate_two_reached.
Defined.
End Demo.
