(* ===== verification/ConnTrack.v ===== *)
(** conntrack.go: the table of tunneled connections, the ring buffer of the
    finished ones, and the wrapper that counts bytes.  Wrapped connections
    are shared between the table and their users, so they live in a store and
    are referred to by index. *)

From S2P Require Import Prelude GoStrings NetIP Errors World.

(** ** Data *)

Inductive ConnState : Type := StateDialing | StateActive | StateClosed | StateError.
#[global] Instance ConnState_eq_dec : EqDecision ConnState.
Proof. solve_decision. Defined.

Record ConnView := MkView {
  v_ID : Z; v_Proto : string; v_Src : string; v_Host : string; v_DstIP : string; v_Port : Z;
  v_Status : ConnState; v_StartedAt : Z; v_DurationMs : Z; v_BytesUp : Z; v_BytesDown : Z;
  v_Reason : string }.

Record connRecord := MkRecord {
  cr_id : Z; cr_proto : string; cr_src : string; cr_host : string; cr_dstIP : string; cr_port : Z;
  cr_status : ConnState; cr_startedAt : Z; cr_closedAt : Z; cr_bytesUp : Z; cr_bytesDown : Z;
  cr_reason : string; cr_live : option nat }.
(** The zero connRecord that fills a fresh ring. *)
Definition zeroRecord : connRecord :=
  MkRecord 0 "" "" "" "" 0 StateDialing time_zero time_zero 0 0 "" None.

(** The wrapper; [tc_base] names the wrapped connection. *)
Record trackedConn := MkTracked {
  tc_base : Z; tc_id : Z; tc_up : Z; tc_down : Z; tc_firstErr : option error; tc_closed : bool }.

Record ConnTracker := MkTracker {
  active : gmap Z connRecord;
  ring : list connRecord;
  ringHead : nat;
  ringCount : nat;
  capacity : nat;
  maxAge : Z;
  nextID : Z }.

Definition NewConnTracker (capacity maxAge : Z) : ConnTracker :=
  let capacity := if capacity <=? 0 then 1000 else capacity in
  MkTracker ∅ (replicate (Z.to_nat capacity) zeroRecord) 0 0 (Z.to_nat capacity) maxAge 0.

(** Field updates. *)
Definition with_active (m : gmap Z connRecord) (t : ConnTracker) : ConnTracker :=
  MkTracker m (ring t) (ringHead t) (ringCount t) (capacity t) (maxAge t) (nextID t).
Definition with_ring (r : list connRecord) (hd cnt : nat) (t : ConnTracker) : ConnTracker :=
  MkTracker (active t) r hd cnt (capacity t) (maxAge t) (nextID t).
Definition set_live (i : nat) (r : connRecord) : connRecord :=
  MkRecord (cr_id r) (cr_proto r) (cr_src r) (cr_host r) (cr_dstIP r) (cr_port r) StateActive
    (cr_startedAt r) (cr_closedAt r) (cr_bytesUp r) (cr_bytesDown r) (cr_reason r) (Some i).
Definition set_end (st : ConnState) (reason : string) (at_ up down : Z) (r : connRecord) : connRecord :=
  MkRecord (cr_id r) (cr_proto r) (cr_src r) (cr_host r) (cr_dstIP r) (cr_port r) st
    (cr_startedAt r) at_ up down reason (cr_live r).

(** ** The ring buffer *)

(** [pruneRing]: the loop runs at most [ringCount] times. *)
Fixpoint prune_loop (fuel : nat) (now : Z) (t : ConnTracker) : ConnTracker :=
  match fuel with
  | O => t
  | S fuel' =>
      if Nat.ltb 0 (ringCount t) then
        match ring t !! ringHead t with
        | None => t                      (* ringHead < len(ring) *)
        | Some oldest =>
            if time_Sub now (cr_closedAt oldest) <=? maxAge t then t
            else prune_loop fuel' now
                   (with_ring (ring t) ((ringHead t + 1) mod capacity t)%nat (ringCount t - 1)%nat t)
        end
      else t
  end.
Definition pruneRing (now : Z) (t : ConnTracker) : ConnTracker := prune_loop (ringCount t) now t.

(** [pushRing]; [now] is its reading of the clock. *)
Definition pushRing (now : Z) (rec : connRecord) (t : ConnTracker) : ConnTracker :=
  let t := pruneRing now t in
  let idx := ((ringHead t + ringCount t) mod capacity t)%nat in
  if Nat.eqb (ringCount t) (capacity t)
  then with_ring (<[ringHead t := rec]> (ring t)) ((ringHead t + 1) mod capacity t)%nat (ringCount t) t
  else with_ring (<[idx := rec]> (ring t)) (ringHead t) (ringCount t + 1)%nat t.

(** ** The runtime the tracker runs on *)

(** The clock and the order of [range] over the active map.  The clock has a
    monotonic reading, as the documentation of package time states. *)
Class Runtime (W : Type) : Type := {
  rt_time : W -> Z;
  rt_now : W -> Z * W;
  rt_mono : forall w, rt_time w <= fst (rt_now w) /\ fst (rt_now w) <= rt_time (snd (rt_now w));
  rt_range : list Z -> W -> list Z * W;
  rt_range_perm : forall ids w, visits (fst (rt_range ids w)) ids;
  rt_range_time : forall ids w, rt_time (snd (rt_range ids w)) = rt_time w }.

Section Track.
Context {W : Type} `{Runtime W}.

Record TSys := MkTSys { t_tr : ConnTracker; t_conns : list trackedConn; t_world : W }.

Definition t_now : M TSys Z :=
  fun s => let '(t, w) := rt_now (t_world s) in (t, MkTSys (t_tr s) (t_conns s) w).
Definition t_range (ids : list Z) : M TSys (list Z) :=
  fun s => let '(l, w) := rt_range ids (t_world s) in (l, MkTSys (t_tr s) (t_conns s) w).
Definition on_tr (f : ConnTracker -> ConnTracker) : M TSys unit :=
  modify (fun s => MkTSys (f (t_tr s)) (t_conns s) (t_world s)).
Definition on_conn (i : nat) (f : trackedConn -> trackedConn) : M TSys unit :=
  modify (fun s => MkTSys (t_tr s) (alter f i (t_conns s)) (t_world s)).

(** ** Operations on the table *)

Definition Begin (meta : ConnMeta) (host : string) (port : Z) : M TSys Z :=
  now ← t_now;
  tr ← gets t_tr;
  let next := wrapu64 (nextID tr + 1) in
  _ ← on_tr (fun t =>
        MkTracker
          (<[next := MkRecord next (m_Proto meta) (m_Src meta) host (m_DstIP meta) port StateDialing
                       now time_zero 0 0 "" None]> (active t))
          (ring t) (ringHead t) (ringCount t) (capacity t) (maxAge t) next);
  mret next.

(** A [net.Conn] as the callers see it. *)
Inductive netConn : Type := NilConn | BaseConn (c : Z) | TrackedConn (i : nat).

Definition Done (id : Z) (conn : option Z) : M TSys netConn :=
  match conn with
  | None => mret NilConn
  | Some c =>
      tr ← gets t_tr;
      match active tr !! id with
      | None => mret (BaseConn c)
      | Some rec =>
          i ← gets (fun s => length (t_conns s));
          _ ← modify (fun s => MkTSys (with_active (<[id := set_live i rec]> (active (t_tr s))) (t_tr s))
                                 (t_conns s ++ [MkTracked c id 0 0 None false]) (t_world s));
          mret (TrackedConn i)
      end
  end.

(** The common end of [Fail], [finish] and of one step of [dropStalled]: the
    record leaves the table and enters the ring. *)
Definition retire (id : Z) (rec : connRecord) : M TSys unit :=
  _ ← on_tr (fun t => with_active (delete id (active t)) t);
  now ← t_now;
  on_tr (pushRing now rec).

Definition Fail (id : Z) (err : error) : M TSys unit :=
  tr ← gets t_tr;
  match active tr !! id with
  | None => mret tt
  | Some rec =>
      now ← t_now;
      retire id (set_end StateError (Error err) now (cr_bytesUp rec) (cr_bytesDown rec) rec)
  end.

Definition finish (id bytesUp bytesDown : Z) (firstErr : option error) : M TSys unit :=
  tr ← gets t_tr;
  match active tr !! id with
  | None => mret tt
  | Some rec =>
      now ← t_now;
      retire id (match firstErr with
                 | Some e => set_end StateError (Error e) now bytesUp bytesDown rec
                 | None => set_end StateClosed (cr_reason rec) now bytesUp bytesDown rec
                 end)
  end.

Definition stalled (now : Z) (t : ConnTracker) (rec : connRecord) : bool :=
  bool_decide (cr_status rec = StateDialing) && (maxAge t <? time_Sub now (cr_startedAt rec)).
Fixpoint drop_loop (now : Z) (ids : list Z) : M TSys unit :=
  match ids with
  | [] => mret tt
  | id :: rest =>
      tr ← gets t_tr;
      _ ← match active tr !! id with
          | None => mret tt
          | Some rec =>
              if stalled now tr rec
              then retire id (set_end StateError "dial timeout" now (cr_bytesUp rec) (cr_bytesDown rec) rec)
              else mret tt
          end;
      drop_loop now rest
  end.
Definition dropStalled (now : Z) : M TSys unit :=
  tr ← gets t_tr;
  ids ← t_range (fst <$> map_to_list (active tr));
  drop_loop now ids.

Definition count_proto (m : gmap string Z) (r : connRecord) : gmap string Z :=
  <[cr_proto r := default 0 (m !! cr_proto r) + 1]> m.
Definition ActiveByProto : M TSys (gmap string Z) :=
  now ← t_now;
  _ ← dropStalled now;
  tr ← gets t_tr;
  ids ← t_range (fst <$> map_to_list (active tr));
  mret (foldl count_proto ∅ (omap (fun id => active tr !! id) ids)).

(** ** The wrapper *)

(** [isBenignCloseErr]. *)
Definition isBenignCloseErr (err : option error) : bool :=
  match err with
  | None => true
  | Some e => errors_Is e io_EOF || errors_Is e net_ErrClosed
  end.

Definition count_io (up : bool) (n : Z) (err : option error) (c : trackedConn) : trackedConn :=
  let add z := if 0 <? n then wrap64 (z + n) else z in
  MkTracked (tc_base c) (tc_id c)
    (if up then add (tc_up c) else tc_up c) (if up then tc_down c else add (tc_down c))
    (if isBenignCloseErr err then tc_firstErr c
     else match tc_firstErr c with None => err | Some _ => tc_firstErr c end)
    (tc_closed c).
(** [Read] and [Write]: [n] and [err] are what the base connection returned. *)
Definition Read (i : nat) (n : Z) (err : option error) : M TSys (Z * option error) :=
  _ ← on_conn i (count_io false n err); mret (n, err).
Definition Write (i : nat) (n : Z) (err : option error) : M TSys (Z * option error) :=
  _ ← on_conn i (count_io true n err); mret (n, err).

Definition set_closed (c : trackedConn) : trackedConn :=
  MkTracked (tc_base c) (tc_id c) (tc_up c) (tc_down c) (tc_firstErr c) true.
(** [Close]; [err] is what closing the base connection returned.  The flag,
    the base and the record are taken as one step: only the caller that swaps
    the flag gets to the record. *)
Definition Close (i : nat) (err : option error) : M TSys (option error) :=
  conns ← gets t_conns;
  match conns !! i with
  | None => mret err                    (* not a wrapper *)
  | Some c =>
      if tc_closed c then mret err
      else _ ← on_conn i set_closed;
           _ ← finish (tc_id c) (tc_up c) (tc_down c) (tc_firstErr c);
           mret err
  end.

(** ** Listing *)

(** [toView]; [conns] is the store at the time the view is built. *)
Definition toView (conns : list trackedConn) (now : Z) (r : connRecord) : ConnView :=
  let '(up, down) :=
    match cr_live r ≫= fun i => conns !! i with
    | Some c => if bool_decide (cr_status r = StateActive \/ cr_status r = StateDialing)
                then (tc_up c, tc_down c) else (cr_bytesUp r, cr_bytesDown r)
    | None => (cr_bytesUp r, cr_bytesDown r)
    end in
  let dur := if bool_decide (cr_status r = StateClosed \/ cr_status r = StateError)
             then Milliseconds (time_Sub (cr_closedAt r) (cr_startedAt r))
             else Milliseconds (time_Sub now (cr_startedAt r)) in
  MkView (cr_id r) (cr_proto r) (cr_src r) (cr_host r) (cr_dstIP r) (cr_port r) (cr_status r)
    (Unix (cr_startedAt r)) dur up down (cr_reason r).

(** The records of the ring, oldest first. *)
Definition ring_records (t : ConnTracker) : list connRecord :=
  omap (fun i => ring t !! ((ringHead t + i) mod capacity t)%nat) (seq 0 (ringCount t)).

Definition matches_query (q : string) (r : connRecord) : bool :=
  let fq := ToLower q in
  Contains (ToLower (cr_host r)) fq || Contains (ToLower (cr_dstIP r)) fq || Contains (ToLower (cr_src r)) fq.
Definition filter_recs (q proto : string) (recs : list connRecord) : list connRecord :=
  let recs := if String.eqb q "" then recs else filter (fun r => matches_query q r = true) recs in
  if String.eqb proto "" then recs else filter (fun r => cr_proto r = proto) recs.

(** The comparison given to sort.Slice, and the order it sorts by. *)
Definition less (a b : connRecord) : bool :=
  if negb (cr_startedAt a =? cr_startedAt b) then After (cr_startedAt a) (cr_startedAt b)
  else cr_id b <? cr_id a.
Definition not_after (a b : connRecord) : Prop := less b a = false.
#[global] Instance not_after_dec : RelDecision not_after.
Proof. intros a b. unfold not_after. apply _. Defined.

(** The page arithmetic at the end of [List]: [None] is the panic of a slice
    expression with a negative bound. *)
Definition slice {A : Type} (l : list A) (start stop : Z) : option (list A) :=
  if (0 <=? start) && (start <=? stop) && (stop <=? Z.of_nat (length l))
  then Some (firstn (Z.to_nat (stop - start)) (skipn (Z.to_nat start) l)) else None.
Definition page_of {A : Type} (recs : list A) (page pageSize : Z) : option (list A) :=
  let total := Z.of_nat (length recs) in
  let start := wrap64 (wrap64 (page - 1) * pageSize) in
  if total <=? start then Some []
  else
    let stop := wrap64 (start + pageSize) in
    let stop := if total <? stop then total else stop in
    slice recs start stop.

(** [List]; the text of the first error leaves out the quoted tab. *)
Definition List (tab q proto : string) (page pageSize : Z)
    : M TSys (outcome (string + (list ConnView * Z))) :=
  if negb (String.eqb tab "active") && negb (String.eqb tab "history")
  then mret (Returned (inl "invalid tab"))
  else if page <? 1 then mret (Returned (inl "page must be >= 1"))
  else if (pageSize <? 1) || (200 <? pageSize) then mret (Returned (inl "page_size must be in 1..200"))
  else
    now ← t_now;
    _ ← on_tr (pruneRing now);
    _ ← dropStalled now;
    tr ← gets t_tr;
    recs ← (if String.eqb tab "active"
            then ids ← t_range (fst <$> map_to_list (active tr));
                 mret (omap (fun id => active tr !! id) ids)
            else mret (ring_records tr));
    let recs := merge_sort not_after (filter_recs q proto recs) in
    conns ← gets t_conns;
    mret (match page_of recs page pageSize with
          | None => Panicked
          | Some l => Returned (inr (toView conns now <$> l, Z.of_nat (length recs)))
          end).
End Track.
Arguments TSys : clear implicits.
