(* ===== verification/RingProps.v ===== *)
(** The ring buffer of conntrack.go implements a bounded queue: [history] is
    the abstract list, oldest first, and each operation on the ring is the
    corresponding operation on the list. *)

From S2P Require Import Prelude GoStrings Errors World ConnTrack.

(** ** Geometry *)

Record ring_ok (t : ConnTracker) : Prop := MkRingOk {
  rk_cap : (0 < capacity t)%nat;
  rk_len : length (ring t) = capacity t;
  rk_head : (ringHead t < capacity t)%nat;
  rk_count : (ringCount t <= capacity t)%nat }.
#[export] Hint Resolve rk_cap rk_len rk_head rk_count : gate.

Lemma NewConnTracker_ring (cap age : Z) : ring_ok (NewConnTracker cap age).
Proof.
  unfold NewConnTracker. cbv zeta. destruct (cap <=? 0) eqn:E; prop_of_bool.
  - change (Z.to_nat 1000) with 1000%nat. split; cbn [capacity ring ringHead ringCount]; rewrite ?length_replicate; lia.
  - split; cbn [capacity ring ringHead ringCount]; rewrite ?length_replicate; lia.
Qed.

(** Index arithmetic modulo the capacity, without division. *)
Lemma mod_ring (c h i : nat) :
  (h < c)%nat -> (i <= c)%nat -> ((h + i) mod c = if Nat.ltb (h + i) c then h + i else h + i - c)%nat.
Proof.
  intros Hh Hi. destruct (Nat.ltb_spec (h + i) c) as [Hlt|Hge].
  - by apply Nat.mod_small.
  - symmetry. apply (Nat.mod_unique _ _ 1); lia.
Qed.

Lemma tail_len {A : Type} (l : list A) : length (tail l) = pred (length l).
Proof. by destruct l. Qed.

(** ** The abstract history *)

Definition history (t : ConnTracker) : list connRecord := ring_records t.

Section Ring.
Context (t : ConnTracker) (Ht : ring_ok t).

Lemma ring_slot i : (i < ringCount t)%nat -> is_Some (ring t !! ((ringHead t + i) mod capacity t)%nat).
Proof.
  intros Hi. apply lookup_lt_is_Some. rewrite (rk_len _ Ht). apply Nat.mod_upper_bound.
  pose proof (rk_cap _ Ht). lia.
Qed.

Lemma omap_total {A B} (f : A -> option B) (l : list A) i :
  Forall (fun x => is_Some (f x)) l -> omap f l !! i = l !! i ≫= f.
Proof.
  intros Hf. revert i. induction Hf as [|x l [y Hy] Hl IH]; intros i; [done|]. cbn. rewrite Hy.
  destruct i; cbn; [by rewrite Hy|]. apply IH.
Qed.

Lemma slots_total : Forall (fun i => is_Some (ring t !! ((ringHead t + i) mod capacity t)%nat)) (seq 0 (ringCount t)).
Proof. apply Forall_forall. intros i Hi%elem_of_seq. apply ring_slot. lia. Qed.

Lemma history_lookup i :
  history t !! i = if Nat.ltb i (ringCount t) then ring t !! ((ringHead t + i) mod capacity t)%nat else None.
Proof.
  unfold history, ring_records. rewrite omap_total by apply slots_total.
  destruct (Nat.ltb_spec i (ringCount t)).
  - rewrite lookup_seq_lt by done. done.
  - rewrite lookup_seq_ge by done. done.
Qed.

Lemma history_length : length (history t) = ringCount t.
Proof.
  apply Nat.le_antisymm; apply Nat.nlt_ge; intros Hl.
  - apply lookup_lt_is_Some in Hl as [x Hx]. rewrite history_lookup, Nat.ltb_irrefl in Hx. done.
  - assert (Hn : history t !! length (history t) = None) by by apply lookup_ge_None.
    rewrite history_lookup in Hn. destruct (Nat.ltb_spec (length (history t)) (ringCount t)); [|lia].
    destruct (ring_slot _ Hl) as [x Hx]. congruence.
Qed.
End Ring.

(** One step of the prune loop drops the oldest record. *)
Definition drop_oldest (t : ConnTracker) : ConnTracker :=
  with_ring (ring t) ((ringHead t + 1) mod capacity t)%nat (ringCount t - 1)%nat t.

Lemma drop_oldest_ok t : ring_ok t -> ring_ok (drop_oldest t).
Proof.
  intros [Hc Hl Hh Hn]. split; cbn; [done|done| |lia]. apply Nat.mod_upper_bound. lia.
Qed.

Lemma drop_oldest_history t : ring_ok t -> history (drop_oldest t) = tail (history t).
Proof.
  intros Ht. apply list_eq. intros i. rewrite lookup_tail, !history_lookup by auto using drop_oldest_ok.
  cbn [drop_oldest with_ring ringCount ringHead capacity ring].
  destruct Ht as [Hc Hl Hh Hn].
  destruct (Nat.ltb_spec i (ringCount t - 1)), (Nat.ltb_spec (S i) (ringCount t)); try lia; [|done].
  f_equal. rewrite (mod_ring _ (ringHead t) 1), (mod_ring _ (ringHead t) (S i)) by lia.
  destruct (Nat.ltb_spec (ringHead t + 1) (capacity t)), (Nat.ltb_spec (ringHead t + S i) (capacity t));
    rewrite mod_ring by lia; cases_lia;
    repeat match goal with
    | H : Nat.ltb _ _ = _ |- _ => first [apply Nat.ltb_lt in H | apply Nat.ltb_ge in H]
    end; lia.
Qed.

(** ** Pruning *)

Definition expired (now age : Z) (r : connRecord) : bool := negb (time_Sub now (cr_closedAt r) <=? age).
Fixpoint drop_expired (now age : Z) (l : list connRecord) : list connRecord :=
  match l with
  | [] => []
  | r :: l' => if expired now age r then drop_expired now age l' else l
  end.

Lemma history_nil t : ring_ok t -> ringCount t = 0%nat -> history t = [].
Proof. intros Ht E. apply nil_length_inv. by rewrite history_length. Qed.

Lemma history_cons t : ring_ok t -> (0 < ringCount t)%nat ->
  exists r, ring t !! ringHead t = Some r /\ history t = r :: tail (history t).
Proof.
  intros Ht Hc. pose proof (history_lookup t Ht 0) as H0. destruct (ring_slot t Ht 0 Hc) as [r Hr].
  rewrite Nat.add_0_r, Nat.mod_small in * by apply Ht.
  apply Nat.ltb_lt in Hc. rewrite Hc, Hr in H0. exists r. split; [done|].
  destruct (history t); [done|]. by simplify_eq/=.
Qed.

Lemma prune_loop_spec fuel now t : ring_ok t -> (ringCount t <= fuel)%nat ->
  let t' := prune_loop fuel now t in
  ring_ok t' /\ history t' = drop_expired now (maxAge t) (history t) /\
  active t' = active t /\ capacity t' = capacity t /\ maxAge t' = maxAge t /\ nextID t' = nextID t.
Proof.
  revert t. induction fuel as [|fuel IH]; intros t Ht Hf; cbn [prune_loop].
  { rewrite history_nil by (done || lia). done. }
  destruct (Nat.ltb_spec 0 (ringCount t)) as [Hc|Hc]; [|rewrite history_nil by (done || lia); done].
  destruct (history_cons t Ht Hc) as (r & -> & Eh). rewrite Eh. cbn [drop_expired]. unfold expired.
  destruct (_ <=? _); cbn [negb]; [done|]. fold (drop_oldest t).
  destruct (IH (drop_oldest t)) as (? & E & ?); [by apply drop_oldest_ok|cbn; lia|].
  rewrite drop_oldest_history in E by done. done.
Qed.

Lemma pruneRing_spec now t : ring_ok t ->
  let t' := pruneRing now t in
  ring_ok t' /\ history t' = drop_expired now (maxAge t) (history t) /\
  active t' = active t /\ capacity t' = capacity t /\ maxAge t' = maxAge t /\ nextID t' = nextID t.
Proof. intros Ht. by apply prune_loop_spec. Qed.

(** ** Pushing *)

(** The bounded queue: the oldest entry makes room when the queue is full. *)
Definition enqueue (cap : nat) (r : connRecord) (l : list connRecord) : list connRecord :=
  (if Nat.eqb (length l) cap then tail l else l) ++ [r].

Lemma push_free_history t r : ring_ok t -> (ringCount t < capacity t)%nat ->
  let t' := with_ring (<[((ringHead t + ringCount t) mod capacity t)%nat := r]> (ring t)) (ringHead t) (ringCount t + 1)%nat t in
  ring_ok t' /\ history t' = history t ++ [r].
Proof.
  intros Ht Hlt t'.
  assert (Ht' : ring_ok t').
  { destruct Ht. split; cbn; rewrite ?length_insert; try done; lia. }
  split; [done|]. apply list_eq. intros i. rewrite lookup_app, !history_lookup by done.
  rewrite history_length by done. subst t'. cbn [with_ring ringCount ringHead capacity ring].
  destruct Ht as [Hc Hl Hh Hn]. destruct (Nat.ltb_spec i (ringCount t + 1)), (Nat.ltb_spec i (ringCount t)); try lia.
  - rewrite list_lookup_insert_ne by (rewrite !mod_ring by lia; intros E; revert E;
      repeat match goal with |- context [Nat.ltb ?a ?b] => destruct (Nat.ltb_spec a b) end; lia).
    destruct (ring t !! _) eqn:E; [done|]. apply lookup_ge_None in E.
    pose proof (Nat.mod_upper_bound (ringHead t + i) (capacity t)). lia.
  - assert (i = ringCount t) as -> by lia.
    rewrite list_lookup_insert_eq by (rewrite Hl; apply Nat.mod_upper_bound; lia).
    by rewrite Nat.sub_diag.
  - destruct (i - ringCount t)%nat eqn:E; [lia|done].
Qed.

Lemma push_full_history t r : ring_ok t -> ringCount t = capacity t ->
  let t' := with_ring (<[ringHead t := r]> (ring t)) ((ringHead t + 1) mod capacity t)%nat (ringCount t) t in
  ring_ok t' /\ history t' = tail (history t) ++ [r].
Proof.
  intros Ht Hfull t'. pose proof (Nat.mod_upper_bound (ringHead t + 1) (capacity t)) as Hub.
  assert (Ht' : ring_ok t').
  { destruct Ht. split; cbn; rewrite ?length_insert; try done; lia. }
  split; [done|]. apply list_eq. intros i. rewrite lookup_app, lookup_tail, !history_lookup by done.
  rewrite tail_len, history_length by done. subst t'. cbn [with_ring ringCount ringHead capacity ring].
  destruct Ht as [Hc Hl Hh Hn]. rewrite Hfull.
  destruct (Nat.ltb_spec i (capacity t)) as [Hi|Hi], (Nat.ltb_spec (S i) (capacity t)) as [Hsi|Hsi]; try lia.
  - replace (((ringHead t + 1) mod capacity t + i) mod capacity t)%nat
      with ((ringHead t + S i) mod capacity t)%nat.
    2: { rewrite Nat.Div0.add_mod_idemp_l. f_equal. lia. }
    rewrite list_lookup_insert_ne by (rewrite mod_ring by lia; destruct (Nat.ltb_spec (ringHead t + S i) (capacity t)); lia).
    destruct (ring t !! _) eqn:E; [done|]. apply lookup_ge_None in E.
    pose proof (Nat.mod_upper_bound (ringHead t + S i) (capacity t)). lia.
  - replace (((ringHead t + 1) mod capacity t + i) mod capacity t)%nat with (ringHead t).
    2: { rewrite Nat.Div0.add_mod_idemp_l. replace (ringHead t + 1 + i)%nat with (ringHead t + capacity t)%nat by lia.
         rewrite mod_ring by lia. destruct (Nat.ltb_spec (ringHead t + capacity t) (capacity t)); lia. }
    rewrite list_lookup_insert_eq by lia. replace (i - pred (capacity t))%nat with 0%nat by lia. done.
  - destruct (i - pred (capacity t))%nat eqn:E; [lia|done].
Qed.

Lemma pushRing_spec now r t : ring_ok t ->
  let t' := pushRing now r t in
  ring_ok t' /\ history t' = enqueue (capacity t) r (drop_expired now (maxAge t) (history t)) /\
  active t' = active t /\ capacity t' = capacity t /\ maxAge t' = maxAge t /\ nextID t' = nextID t.
Proof.
  intros Ht. destruct (pruneRing_spec now t Ht) as (Hp & Eh & Ea & Ec & Em & En).
  unfold pushRing, enqueue. cbv zeta. rewrite <- Eh, history_length, <- Ec by done.
  destruct (Nat.eqb_spec (ringCount (pruneRing now t)) (capacity (pruneRing now t))) as [E|E].
  - destruct (push_full_history _ r Hp E) as [? ->]. done.
  - destruct (push_free_history _ r Hp) as [? ->]; [pose proof (rk_count _ Hp); lia|done].
Qed.

(** ** Pruning and order *)

Definition closed_before (a b : connRecord) : Prop := cr_closedAt a <= cr_closedAt b.

Lemma drop_expired_suffix now age l : exists k, l = k ++ drop_expired now age l.
Proof.
  induction l as [|r l [k IH]]; [by exists []|]. cbn. destruct (expired now age r); [|by exists []].
  exists (r :: k). cbn. by rewrite <- IH.
Qed.

(** What enters and leaves the history is a suffix of what was there plus the
    new record. *)
Lemma enqueue_suffix cap r now age l : exists k, l ++ [r] = k ++ enqueue cap r (drop_expired now age l).
Proof.
  destruct (drop_expired_suffix now age l) as [k E]. unfold enqueue.
  destruct (Nat.eqb _ _); [|exists k; by rewrite (assoc_L (++)), <- E].
  destruct (drop_expired now age l) as [|x l'] eqn:El.
  - exists l. done.
  - exists (k ++ [x]). cbn. rewrite E at 1. by rewrite <- !(assoc_L (++)).
Qed.

(** On a history in closing order the prune loop is a filter. *)
Lemma drop_expired_filter now age l : StronglySorted closed_before l ->
  drop_expired now age l = filter (fun r => expired now age r = false) l.
Proof.
  induction 1 as [|r l Hs IH Hr]; [done|]. cbn [drop_expired].
  destruct (expired now age r) eqn:E.
  - rewrite filter_cons_False by congruence. done.
  - rewrite filter_cons_True by done. f_equal. symmetry. apply filter_all.
    apply Forall_impl with (1 := Hr). intros x Hx. unfold expired, closed_before, time_Sub in *.
    prop_of_bool. apply negb_false_iff, Z.leb_le. lia.
Qed.

(** ** Properties *)

Inductive ringOp : Type := OpPush (now : Z) (r : connRecord) | OpPrune (now : Z).
Definition ring_exec (t : ConnTracker) (op : ringOp) : ConnTracker :=
  match op with OpPush now r => pushRing now r t | OpPrune now => pruneRing now t end.
Definition queue_exec (cap : nat) (age : Z) (l : list connRecord) (op : ringOp) : list connRecord :=
  match op with
  | OpPush now r => enqueue cap r (drop_expired now age l)
  | OpPrune now => drop_expired now age l
  end.

Lemma ring_exec_spec t op : ring_ok t ->
  ring_ok (ring_exec t op) /\ history (ring_exec t op) = queue_exec (capacity t) (maxAge t) (history t) op /\
  capacity (ring_exec t op) = capacity t /\ maxAge (ring_exec t op) = maxAge t.
Proof.
  intros Ht. destruct op as [now r|now]; cbn.
  - destruct (pushRing_spec now r t Ht) as (? & ? & ? & ? & ? & ?). done.
  - destruct (pruneRing_spec now t Ht) as (? & ? & ? & ? & ? & ?). done.
Qed.

(** C19: the ring buffer refines a bounded queue: after any sequence of pushes
    and prunes on a new tracker, whatever the wrap-around of its indices, the
    records it holds, oldest first, are those of the abstract queue that
    drops expired records from the front and the oldest one when full, and
    there are at most [capacity] of them. *)
Theorem ring_refines_queue (cap age : Z) (ops : list ringOp) :
  let t := foldl ring_exec (NewConnTracker cap age) ops in
  let n := if cap <=? 0 then 1000%nat else Z.to_nat cap in
  history t = foldl (queue_exec n age) [] ops /\ (length (history t) <= n)%nat.
Proof.
  cbv zeta.
  assert (Hgen : forall t, ring_ok t ->
    history (foldl ring_exec t ops) = foldl (queue_exec (capacity t) (maxAge t)) (history t) ops /\
    (length (history (foldl ring_exec t ops)) <= capacity t)%nat).
  { induction ops as [|op ops IH]; intros t Ht; cbn [foldl].
    - split; [done|]. rewrite history_length by done. apply Ht.
    - destruct (ring_exec_spec t op Ht) as (Hok & <- & <- & <-). by apply IH. }
  destruct (Hgen _ (NewConnTracker_ring cap age)) as [E L]. unfold NewConnTracker in *. cbv zeta in *.
  destruct (cap <=? 0); split; (exact L || exact E).
Qed.

(** Pruning is exact: on a history in closing order [pruneRing], which
    only looks at the head, removes every record older than [maxAge] and no
    other, and changes nothing else. *)
Theorem pruneRing_exact (t : ConnTracker) (now : Z)
    (Ht : ring_ok t) (Hs : StronglySorted closed_before (history t)) :
  history (pruneRing now t)
  = filter (fun r => time_Sub now (cr_closedAt r) <= maxAge t) (history t) /\
  active (pruneRing now t) = active t.
Proof.
  destruct (pruneRing_spec now t Ht) as (_ & -> & -> & _). split; [|done].
  rewrite drop_expired_filter by done. apply list_filter_iff. intros r. unfold expired.
  rewrite negb_false_iff, Z.leb_le. done.
Qed.

Definition demo_record (id closed : Z) : connRecord :=
  MkRecord id "http" "" "" "" 0 StateClosed 0 closed 0 0 "" None.
Lemma pruneRing_exact_witness :
  let t := foldl ring_exec (NewConnTracker 2 10)
             [OpPush 1 (demo_record 1 1); OpPush 5 (demo_record 2 5); OpPush 9 (demo_record 3 9)] in
  history (pruneRing 16 t) = [demo_record 3 9].
Proof.
  intros t.
  assert (Ht : ring_ok t) by (split; vm_compute; lia).
  assert (Hh : history t = [demo_record 2 5; demo_record 3 9]) by (vm_compute; reflexivity).
  assert (Hs : StronglySorted closed_before (history t)).
  { rewrite Hh. repeat constructor. unfold closed_before. cbn. lia. }
  rewrite (proj1 (pruneRing_exact t 16 Ht Hs)), Hh. vm_compute. reflexivity.
Defined.
