(* ===== verification/TrackProps.v ===== *)
(** The invariant of the connection table and the properties of its
    operations. *)

From S2P Require Import Prelude GoStrings Errors World ConnTrack RingProps.

(** ** The invariant *)

(** A record of the table: dialing and not wrapped yet, or active with an
    open wrapper that carries its id. *)
Definition live_ok (cs : list trackedConn) (id : Z) (r : connRecord) : Prop :=
  cr_id r = id /\
  match cr_status r with
  | StateDialing => cr_live r = None
  | StateActive => exists i c, cr_live r = Some i /\ cs !! i = Some c /\ tc_id c = id /\ tc_closed c = false
  | _ => False
  end.
Definition ended (r : connRecord) : Prop := cr_status r = StateClosed \/ cr_status r = StateError.

Record inv (t : ConnTracker) (cs : list trackedConn) (tm : Z) : Prop := MkInv {
  i_ring : ring_ok t;
  i_next : 0 <= nextID t < 2 ^ 64;
  i_active : forall id r, active t !! id = Some r ->
    live_ok cs id r /\ 0 < id <= nextID t /\ cr_startedAt r <= tm;
  i_hist : Forall (fun r => ended r /\ cr_id r <= nextID t /\ active t !! cr_id r = None) (history t);
  i_sorted : StronglySorted closed_before (history t);
  i_closed : Forall (fun r => cr_closedAt r <= tm) (history t);
  i_ids : NoDup (cr_id <$> history t) }.

Lemma inv_new cap age tm : inv (NewConnTracker cap age) [] tm.
Proof.
  assert (Hh : history (NewConnTracker cap age) = []) by (apply history_nil; [apply NewConnTracker_ring|done]).
  split; rewrite ?Hh; [apply NewConnTracker_ring|done| |constructor..].
  intros id r Hr. cbn in Hr. by rewrite lookup_empty in Hr.
Qed.

Lemma inv_time t cs tm tm' : tm <= tm' -> inv t cs tm -> inv t cs tm'.
Proof.
  intros Hle [Hr Hn Ha Hh Hs Hc Hi]. split; try done.
  - intros id r E. destruct (Ha id r E) as (? & ? & ?). split; [done|lia].
  - eapply Forall_impl; [exact Hc|]. cbn. lia.
Qed.

(** Moving a record from the table to the ring. *)
Lemma push_inv t cs cs' tm now id r0 rec :
  inv t cs tm -> active t !! id = Some r0 -> cr_id rec = id -> ended rec ->
  Forall (fun r => cr_closedAt r <= cr_closedAt rec) (history t) ->
  cr_closedAt rec <= now -> tm <= now ->
  (forall id' r, id' <> id -> live_ok cs id' r -> live_ok cs' id' r) ->
  inv (pushRing now rec (with_active (delete id (active t)) t)) cs' now.
Proof.
  intros [Hr Hn Ha Hh Hs Hc Hi] Hid Eid Hend Hle Hnow Htm Hcs.
  set (t1 := with_active (delete id (active t)) t).
  assert (Ht1 : ring_ok t1) by (destruct Hr; by split).
  destruct (pushRing_spec now rec t1 Ht1) as (Hok & Eh & Ea & Ec & Em & En).
  change (history t1) with (history t) in Eh. change (capacity t1) with (capacity t) in *.
  change (nextID t1) with (nextID t) in En. change (maxAge t1) with (maxAge t) in *.
  destruct (enqueue_suffix (capacity t) rec now (maxAge t) (history t)) as [k Ek]. rewrite <- Eh in Ek.
  assert (Hall : forall P : connRecord -> Prop, Forall P (history t) -> P rec -> Forall P (history (pushRing now rec t1))).
  { intros P HP Hrec. assert (Forall P (k ++ history (pushRing now rec t1))) as [_ ?]%Forall_app; [|done].
    rewrite <- Ek. apply Forall_app. by repeat constructor. }
  destruct (Ha id r0 Hid) as (_ & Hrange & _).
  split; rewrite ?En, ?Ea; [done|done| | | | | ].
  - intros id' r Hr'. cbn in Hr'. apply lookup_delete_Some in Hr' as [Hne Hr'].
    destruct (Ha id' r Hr') as (? & ? & ?). split; [by apply Hcs|lia].
  - apply Hall.
    + eapply Forall_impl; [exact Hh|]. intros x (? & ? & Hx). repeat split; [done|lia|]. cbn.
      destruct (decide (cr_id x = id)) as [->|]; [by rewrite lookup_delete_eq|by rewrite lookup_delete_ne].
    + repeat split; [done|lia|]. cbn. rewrite Eid. by rewrite lookup_delete_eq.
  - assert (Hsk : StronglySorted closed_before (k ++ history (pushRing now rec t1))).
    { rewrite <- Ek. apply StronglySorted_app_2; [|done|by repeat constructor].
      intros x y Hx Hy%list_elem_of_singleton. subst y. rewrite Forall_forall in Hle. by apply Hle. }
    by apply StronglySorted_app_1_r in Hsk.
  - apply Hall; [|done]. eapply Forall_impl; [exact Hc|]. cbn. lia.
  - assert (Hnd : NoDup (cr_id <$> (k ++ history (pushRing now rec t1)))).
    { rewrite <- Ek, fmap_app. apply NoDup_app. split; [done|]. split; [|by apply NoDup_singleton].
      intros x (r & -> & Hx)%list_elem_of_fmap Hy%list_elem_of_singleton.
      rewrite Forall_forall in Hh. destruct (Hh r Hx) as (_ & _ & Hnone). congruence. }
    rewrite fmap_app in Hnd. by apply NoDup_app in Hnd as (_ & _ & ?).
Qed.

Section Track.
Context {W : Type} `{Runtime W}.
Implicit Types (s : TSys W).

Definition tinv s : Prop := inv (t_tr s) (t_conns s) (rt_time (t_world s)).

Lemma t_now_run s : exists now w, t_now s = (now, MkTSys (t_tr s) (t_conns s) w) /\
  rt_time (t_world s) <= now /\ now <= rt_time w.
Proof.
  unfold t_now. pose proof (rt_mono (t_world s)) as [? ?]. destruct (rt_now (t_world s)) as [now w].
  by exists now, w.
Qed.
Lemma t_range_run ids s : exists l w, t_range ids s = (l, MkTSys (t_tr s) (t_conns s) w) /\
  visits l ids /\ rt_time w = rt_time (t_world s).
Proof.
  unfold t_range. pose proof (rt_range_perm ids (t_world s)). pose proof (rt_range_time ids (t_world s)).
  destruct (rt_range ids (t_world s)) as [l w]. by exists l, w.
Qed.

(** [retire], as one transition. *)
Lemma retire_run id rec s : exists now w,
  retire id rec s = (tt, MkTSys (pushRing now rec (with_active (delete id (active (t_tr s))) (t_tr s))) (t_conns s) w) /\
  rt_time (t_world s) <= now /\ now <= rt_time w.
Proof.
  unfold retire. rewrite bind_run. cbn [on_tr modify fst snd]. rewrite bind_run.
  match goal with |- context [t_now ?s1] => destruct (t_now_run s1) as (now & w & -> & ? & ?) end.
  exists now, w. done.
Qed.

(** What [Fail], [finish] and a step of [dropStalled] do to the invariant. *)
Lemma retire_inv id r0 rec s :
  tinv s -> active (t_tr s) !! id = Some r0 -> cr_id rec = id -> ended rec ->
  Forall (fun r => cr_closedAt r <= cr_closedAt rec) (history (t_tr s)) ->
  cr_closedAt rec <= rt_time (t_world s) ->
  tinv (snd (retire id rec s)).
Proof.
  intros Hi Hid Eid Hend Hle Hc. destruct (retire_run id rec s) as (now & w & -> & ? & ?). unfold tinv.
  cbn [snd t_tr t_conns t_world]. eapply inv_time; [|eapply push_inv; eauto; lia]. done.
Qed.

Lemma history_closed now s : tinv s -> rt_time (t_world s) <= now ->
  Forall (fun r => cr_closedAt r <= now) (history (t_tr s)).
Proof. intros Hi Hn. eapply Forall_impl; [apply (i_closed _ _ _ Hi)|]. cbn. lia. Qed.

(** ** Operations preserve the invariant *)

Lemma tinv_world s w : tinv s -> rt_time (t_world s) <= rt_time w -> tinv (MkTSys (t_tr s) (t_conns s) w).
Proof. intros Hi Hw. by eapply inv_time. Qed.

Lemma Begin_inv meta host port s : tinv s -> nextID (t_tr s) + 1 < 2 ^ 64 ->
  tinv (snd (Begin meta host port s)) /\ nextID (t_tr (snd (Begin meta host port s))) = nextID (t_tr s) + 1.
Proof.
  intros Hi Hlt. unfold Begin. rewrite bind_run. destruct (t_now_run s) as (now & w & -> & Hn & Hw).
  cbn [fst snd]. rewrite bind_run. cbn [gets fst snd]. cbv zeta. rewrite bind_run. cbn [on_tr modify fst snd t_tr].
  destruct Hi as [Hr Hne Ha Hh Hs Hc Hd]. rewrite wrapu64_id by lia. split; [|done].
  split; cbn [t_tr t_conns t_world snd mret M_ret active nextID]; try done; [destruct Hr; by split|lia| | |].
  - intros id r. destruct (decide (id = nextID (t_tr s) + 1)) as [->|Hne'].
    + rewrite lookup_insert_eq. intros [= <-]. cbn. split; [done|lia].
    + rewrite lookup_insert_ne by done. intros E. destruct (Ha id r E) as (? & ? & ?). split; [done|lia].
  - eapply Forall_impl; [exact Hh|]. intros x (? & ? & ?). repeat split; [done|lia|].
    rewrite lookup_insert_ne by lia. done.
  - eapply Forall_impl; [exact Hc|]. cbn. lia.
Qed.

Lemma live_ok_store cs cs' id r :
  (forall i c, cs !! i = Some c -> tc_id c = id -> exists c', cs' !! i = Some c' /\ tc_id c' = tc_id c /\ tc_closed c' = tc_closed c) ->
  live_ok cs id r -> live_ok cs' id r.
Proof.
  intros Hcs [Eid Hl]. split; [done|]. destruct (cr_status r); try done.
  destruct Hl as (i & c & ? & Hc & ? & ?). destruct (Hcs i c Hc) as (c' & ? & ? & ?); [done|].
  exists i, c'. repeat split; congruence.
Qed.

Lemma inv_store t cs cs' tm :
  (forall i c, cs !! i = Some c -> exists c', cs' !! i = Some c' /\ tc_id c' = tc_id c /\ tc_closed c' = tc_closed c) ->
  inv t cs tm -> inv t cs' tm.
Proof.
  intros Hcs [Hr Hne Ha Hh Hs Hc Hd]. split; try done. intros id r E.
  destruct (Ha id r E) as (? & ?). split; [|done]. eapply live_ok_store; [|done]. eauto.
Qed.

Lemma Done_inv id conn s : tinv s -> tinv (snd (Done id conn s)).
Proof.
  intros Hi. unfold Done. destruct conn as [c|]; [|done]. rewrite bind_run. cbn [gets fst snd].
  destruct (active (t_tr s) !! id) as [rec|] eqn:E; [|done]. rewrite !bind_run. cbn [gets modify fst snd].
  assert (Hi' : inv (t_tr s) (t_conns s ++ [MkTracked c id 0 0 None false]) (rt_time (t_world s))).
  { eapply inv_store; [|exact Hi]. intros i c' Hc'. exists c'. by rewrite (lookup_app_l_Some _ _ _ _ Hc'). }
  destruct Hi' as [Hr Hne Ha Hh Hs Hc Hd]. destruct (Ha id rec E) as ([Eid _] & ? & ?).
  split; cbn [t_tr t_conns t_world snd mret M_ret active nextID with_active]; try done; [destruct Hr; by split| |].
  - intros id' r. destruct (decide (id' = id)) as [->|Hne'].
    + rewrite lookup_insert_eq. intros [= <-]. cbn. split; [|done]. split; [done|]. cbn.
      exists (length (t_conns s)). eexists. rewrite lookup_app_r, Nat.sub_diag by done. done.
    + rewrite lookup_insert_ne by done. intros E'. exact (Ha id' r E').
  - eapply Forall_impl; [exact Hh|]. intros x (? & ? & Hx). repeat split; [done|done|].
    rewrite lookup_insert_ne by congruence. done.
Qed.

Lemma finish_cases id up down err s :
  finish id up down err s = (tt, s) /\ active (t_tr s) !! id = None \/
  exists r0 now s1 rec, active (t_tr s) !! id = Some r0 /\ t_tr s1 = t_tr s /\ t_conns s1 = t_conns s /\
    rt_time (t_world s) <= now <= rt_time (t_world s1) /\
    rec = match err with
          | Some e => set_end StateError (Error e) now up down r0
          | None => set_end StateClosed (cr_reason r0) now up down r0
          end /\
    finish id up down err s = retire id rec s1.
Proof.
  unfold finish. rewrite bind_run. cbn [gets fst snd].
  destruct (active (t_tr s) !! id) as [r0|] eqn:E; [|by left]. right. rewrite bind_run.
  destruct (t_now_run s) as (now & w & -> & Hn & Hw). cbn [fst snd].
  eexists r0, now, (MkTSys (t_tr s) (t_conns s) w), _. repeat split; done.
Qed.

Lemma Fail_inv id err s : tinv s -> tinv (snd (Fail id err s)).
Proof.
  intros Hi. unfold Fail. rewrite bind_run. cbn [gets fst snd].
  destruct (active (t_tr s) !! id) as [rec|] eqn:E; [|done]. rewrite bind_run.
  destruct (t_now_run s) as (now & w & -> & Hn & Hw). cbn [fst snd].
  assert (Hi' : tinv (MkTSys (t_tr s) (t_conns s) w)) by (apply tinv_world; [done|lia]).
  eapply retire_inv; [done|done| |by right|exact (history_closed now s Hi Hn)|done].
  by destruct (i_active _ _ _ Hi id rec E) as ([? _] & _).
Qed.

Lemma count_io_inv up i n err t cs tm : inv t cs tm -> inv t (alter (count_io up n err) i cs) tm.
Proof.
  apply inv_store. intros j c Hc. rewrite list_lookup_alter.
  case_decide; [subst j|eauto]. rewrite Hc. cbn. eauto.
Qed.
Lemma Read_inv i n err s : tinv s -> tinv (snd (Read i n err s)).
Proof. apply count_io_inv. Qed.
Lemma Write_inv i n err s : tinv s -> tinv (snd (Write i n err s)).
Proof. apply count_io_inv. Qed.

(** Closing a wrapper leaves the other records' wrappers as they were. *)
Lemma set_closed_others cs i c id r : cs !! i = Some c -> id <> tc_id c ->
  live_ok cs id r -> live_ok (alter set_closed i cs) id r.
Proof.
  intros Hc Hne. apply live_ok_store. intros j c' Hc' Eid. rewrite list_lookup_alter.
  case_decide; [subst j|eauto]. rewrite Hc in Hc'. simplify_eq.
Qed.

Lemma Close_inv i err s : tinv s -> tinv (snd (Close i err s)).
Proof.
  intros Hi. unfold Close. rewrite bind_run. cbn [gets fst snd].
  destruct (t_conns s !! i) as [c|] eqn:Ec; [|done]. destruct (tc_closed c) eqn:Ecl; [done|].
  rewrite bind_run. cbn [on_conn modify fst snd]. rewrite bind_run. cbn [snd mret M_ret].
  set (s1 := MkTSys (t_tr s) (alter set_closed i (t_conns s)) (t_world s)).
  destruct (finish_cases (tc_id c) (tc_up c) (tc_down c) (tc_firstErr c) s1)
    as [[-> Hnone]|(r0 & now & s2 & rec & Ea & Et & Ecs & Hnow & Er & ->)]; cbn [fst snd].
  - destruct Hi as [Hr Hne Ha Hh Hs Hcl Hd]. split; try done. intros id r E.
    destruct (Ha id r E) as (? & ?). split; [|done].
    eapply set_closed_others; [done| |done]. intros ->. cbn in Hnone, E. congruence.
  - destruct (retire_run (tc_id c) rec s2) as (now' & w & -> & ? & ?). unfold tinv.
    cbn [snd t_tr t_conns t_world]. rewrite Et, Ecs. cbn in Ea, Hnow. subst rec.
    eapply inv_time; [|eapply (push_inv (t_tr s)); [exact Hi|exact Ea|..]]; [done| | | | |lia|].
    + destruct (i_active _ _ _ Hi _ _ Ea) as ([? _] & _). by destruct (tc_firstErr c).
    + destruct (tc_firstErr c); [by right|by left].
    + destruct (tc_firstErr c); exact (history_closed now s Hi (proj1 Hnow)).
    + destruct (tc_firstErr c); cbn; lia.
    + intros id' r Hne. by apply set_closed_others with (c := c).
Qed.

(** ** Stalled dials *)

(** The table after the records of [ids] that are stalled were dropped. *)
Definition dropped now (t : ConnTracker) (ids : list Z) (id : Z) : option connRecord :=
  r ← active t !! id; if bool_decide (id ∈ ids) && stalled now t r then None else Some r.

(** What [dropStalled] does: stalled dials leave the table, the rest stays. *)
Record drop_post now (ids : list Z) s s' : Prop := MkDropPost {
  dp_inv : tinv s';
  dp_closed : Forall (fun r => cr_closedAt r <= now) (history (t_tr s'));
  dp_conns : t_conns s' = t_conns s;
  dp_age : maxAge (t_tr s') = maxAge (t_tr s);
  dp_next : nextID (t_tr s') = nextID (t_tr s);
  dp_time : rt_time (t_world s) <= rt_time (t_world s');
  dp_active : forall id, active (t_tr s') !! id = dropped now (t_tr s) ids id }.

Lemma dropped_nil now t id : dropped now t [] id = active t !! id.
Proof. unfold dropped. by destruct (active t !! id). Qed.

Lemma stalled_dialing now t r : stalled now t r = true -> cr_status r = StateDialing.
Proof. unfold stalled. intros ?. prop_of_bool. done. Qed.

Lemma drop_loop_post now ids s :
  tinv s -> Forall (fun r => cr_closedAt r <= now) (history (t_tr s)) -> now <= rt_time (t_world s) ->
  drop_post now ids s (snd (drop_loop now ids s)).
Proof.
  revert s. induction ids as [|id ids IH]; intros s Hi Hle Hn; cbn [drop_loop].
  { split; try done. intros id. by rewrite dropped_nil. }
  rewrite bind_run. cbn [gets fst snd]. rewrite bind_run. cbn [snd].
  assert (Hskip : forall s1, s1 = s -> dropped now (t_tr s) [id] id = active (t_tr s) !! id ->
    drop_post now (id :: ids) s (snd (drop_loop now ids s1))).
  { intros s1 -> Hid. destruct (IH s Hi Hle Hn) as [? ? ? ? ? ? Ha]. split; try done. intros id'. rewrite Ha.
    unfold dropped in *. destruct (active (t_tr s) !! id') as [r'|] eqn:E'; [|done]. cbn.
    destruct (decide (id' = id)) as [->|Hne].
    - rewrite E' in Hid. cbn in Hid. rewrite bool_decide_eq_true_2 in Hid by set_solver. cbn in Hid.
      destruct (stalled now (t_tr s) r'); [done|]. by rewrite !andb_false_r.
    - rewrite (bool_decide_ext (id' ∈ id :: ids) (id' ∈ ids)) by (rewrite elem_of_cons; tauto). done. }
  destruct (active (t_tr s) !! id) as [rec|] eqn:E;
    [destruct (stalled now (t_tr s) rec) eqn:Est|]; [|apply Hskip; [done|unfold dropped; rewrite E; cbn..]..];
    [|by rewrite Est, andb_false_r|done].
  clear Hskip. set (rec' := set_end _ _ _ _ _ _).
  assert (Hi1 : tinv (snd (retire id rec' s))).
  { eapply retire_inv; [done|done| |by right|done|done]. by destruct (i_active _ _ _ Hi id rec E) as ([? _] & _). }
  revert Hi1. destruct (retire_run id rec' s) as (now' & w & -> & Hn' & Hw). cbn [snd]. intros Hi1.
  set (t1 := with_active (delete id (active (t_tr s))) (t_tr s)) in *.
  assert (Ht1 : ring_ok t1) by (destruct (i_ring _ _ _ Hi); by split).
  destruct (pushRing_spec now' rec' t1 Ht1) as (_ & Eh & Ea & _ & Em & En).
  destruct (IH _ Hi1) as [H1 H2 H3 H4 H5 H6 H7]; cbn [t_tr t_conns t_world] in *; [|lia|].
  { rewrite Eh. destruct (enqueue_suffix (capacity t1) rec' now' (maxAge t1) (history t1)) as [k Ek].
    assert (Forall (fun r => cr_closedAt r <= now) (history t1 ++ [rec'])) as Hall
      by (apply Forall_app; split; [done|by repeat constructor]).
    rewrite Ek in Hall. by apply Forall_app in Hall as [_ ?]. }
  split; try done; [by rewrite H4, Em|by rewrite H5, En|lia|]. intros id'. rewrite H7.
  unfold dropped. rewrite Ea. cbn [active t1 with_active].
  replace (stalled now (pushRing now' rec' t1)) with (stalled now (t_tr s)) by (unfold stalled; by rewrite Em).
  destruct (decide (id' = id)) as [->|Hne].
  - rewrite lookup_delete_eq, E. cbn. rewrite bool_decide_eq_true_2 by set_solver. by rewrite Est.
  - rewrite lookup_delete_ne by done. rewrite (bool_decide_ext (id' ∈ id :: ids) (id' ∈ ids)) by (rewrite elem_of_cons; tauto). done.
Qed.

Lemma keys_visited (m : gmap Z connRecord) (ids : list Z) id r :
  visits ids (fst <$> map_to_list m) -> m !! id = Some r -> id ∈ ids.
Proof.
  intros Hv E. rewrite Hv. apply list_elem_of_fmap. exists (id, r). split; [done|]. by apply elem_of_map_to_list.
Qed.

Lemma dropStalled_post now s :
  tinv s -> Forall (fun r => cr_closedAt r <= now) (history (t_tr s)) -> now <= rt_time (t_world s) ->
  let s' := snd (dropStalled now s) in
  tinv s' /\ t_conns s' = t_conns s /\ nextID (t_tr s') = nextID (t_tr s) /\
  rt_time (t_world s) <= rt_time (t_world s') /\
  active (t_tr s') = filter (fun kv => stalled now (t_tr s) (snd kv) = false) (active (t_tr s)).
Proof.
  intros Hi Hle Hn s'. unfold s', dropStalled. rewrite bind_run. cbn [gets fst snd]. rewrite bind_run.
  destruct (t_range_run (fst <$> map_to_list (active (t_tr s))) s) as (ids & w & -> & Hv & Hw). cbn [fst snd].
  destruct (drop_loop_post now ids (MkTSys (t_tr s) (t_conns s) w)) as [H1 H2 H3 H4 H5 H6 H7];
    [apply tinv_world; [done|lia]|done|cbn; lia|]. cbn [t_tr t_conns t_world] in *.
  split; [done|]. split; [done|]. split; [done|]. split; [lia|].
  apply map_eq. intros id. rewrite H7. unfold dropped. destruct (active (t_tr s) !! id) as [r|] eqn:E.
  - cbn. rewrite bool_decide_eq_true_2 by (by eapply keys_visited). cbn.
    destruct (stalled now (t_tr s) r) eqn:Est; symmetry.
    + apply map_lookup_filter_None. right. intros r' Hr'. simplify_eq. cbn. congruence.
    + apply map_lookup_filter_Some. done.
  - symmetry. apply map_lookup_filter_None. by left.
Qed.
End Track.
