(* ===== verification/TrackClaims.v ===== *)
(** The properties of the connection tracker: reachable states, byte totals,
    listing. *)

From S2P Require Import Prelude GoStrings Errors World ConnTrack RingProps TrackProps.

(** ** Listing *)

Lemma not_after_iff a b :
  not_after a b <-> cr_startedAt b < cr_startedAt a \/ (cr_startedAt a = cr_startedAt b /\ cr_id b <= cr_id a).
Proof. unfold not_after, less, After. cases_lia; rewrite ?Z.ltb_ge; lia. Qed.
#[global] Instance not_after_total : Total not_after.
Proof. intros a b. rewrite !not_after_iff. lia. Qed.
#[global] Instance not_after_trans : Transitive not_after.
Proof. intros a b c. rewrite !not_after_iff. lia. Qed.

(** The page arithmetic where it does not overflow. *)
Lemma page_of_spec {A : Type} (l : list A) (page pageSize : Z) :
  1 <= page -> 1 <= pageSize -> page * pageSize <= int64_max ->
  page_of l page pageSize = Some (take (Z.to_nat pageSize) (drop (Z.to_nat ((page - 1) * pageSize)) l)).
Proof.
  unfold int64_max. intros Hp Hs Hm.
  assert (Hle : 0 <= (page - 1) * pageSize /\ page <= page * pageSize) by nia.
  unfold page_of. cbv zeta.
  rewrite (wrap64_id (page - 1)) by (unfold in_int64, int64_min, int64_max; lia).
  rewrite (wrap64_id ((page - 1) * pageSize)) by (unfold in_int64, int64_min, int64_max; lia).
  rewrite wrap64_id by (unfold in_int64, int64_min, int64_max; lia).
  remember ((page - 1) * pageSize) as start eqn:Est.
  destruct (Z.leb_spec (Z.of_nat (length l)) start) as [Hge|Hlt].
  - rewrite drop_ge by lia. by rewrite take_nil.
  - unfold slice. destruct (Z.ltb_spec (Z.of_nat (length l)) (start + pageSize)) as [Hc|Hc].
    + rewrite !(proj2 (Z.leb_le _ _)) by lia. cbn [andb]. f_equal.
      rewrite !take_ge; [done|rewrite length_drop; lia..].
    + rewrite !(proj2 (Z.leb_le _ _)) by lia. cbn [andb]. do 2 f_equal. lia.
Qed.

(** A negative start panics. *)
Lemma page_of_negative {A : Type} (l : list A) (page pageSize : Z) :
  wrap64 (wrap64 (page - 1) * pageSize) < 0 -> page_of l page pageSize = None.
Proof.
  intros Hn. unfold page_of. cbv zeta.
  destruct (Z.leb_spec (Z.of_nat (length l)) (wrap64 (wrap64 (page - 1) * pageSize))) as [Hge|_]; [lia|].
  unfold slice. destruct (Z.leb_spec 0 (wrap64 (wrap64 (page - 1) * pageSize))); [lia|]. by cases_lia.
Qed.

Section Claims.
Context {W : Type} `{Runtime W}.
Implicit Types (s : TSys W).

(** What a tab shows, in no particular order. *)
Definition tab_records (tab : string) (t : ConnTracker) : list connRecord :=
  if String.eqb tab "active" then snd <$> map_to_list (active t) else history t.

Lemma visited_records (m : gmap Z connRecord) ids :
  visits ids (fst <$> map_to_list m) -> omap (fun id => m !! id) ids ≡ₚ snd <$> map_to_list m.
Proof.
  intros Hv. rewrite Hv.
  assert (Hl : forall l : list (Z * connRecord), (forall k v, (k, v) ∈ l -> m !! k = Some v) ->
    omap (fun id => m !! id) (fst <$> l) = snd <$> l).
  { induction l as [|[k v] l IH]; intros Hl; [done|]. cbn. rewrite (Hl k v) by left.
    f_equal. apply IH. intros k' v' Hk. apply Hl. by right. }
  rewrite Hl; [done|]. intros k v. by rewrite elem_of_map_to_list.
Qed.

Definition valid_list (tab : string) (page pageSize : Z) : Prop :=
  (tab = "active" \/ tab = "history") /\ 1 <= page /\ 1 <= pageSize <= 200.

(** Pruning at a time that has come keeps the invariant. *)
Lemma prune_tinv s now w : tinv s -> rt_time (t_world s) <= now -> now <= rt_time w ->
  tinv (MkTSys (pruneRing now (t_tr s)) (t_conns s) w) /\
  Forall (fun r => cr_closedAt r <= now) (history (pruneRing now (t_tr s))).
Proof.
  intros Hi Hn Hw.
  destruct (pruneRing_spec now (t_tr s) (i_ring _ _ _ Hi)) as (Hok & Eh & Ea & _ & Em & En).
  destruct (drop_expired_suffix now (maxAge (t_tr s)) (history (t_tr s))) as [k Ek]. rewrite <- Eh in Ek.
  split.
  - destruct Hi as [_ Hne Ha Hh Hs Hc Hd]. rewrite Ek in Hh, Hs, Hc, Hd.
    apply Forall_app in Hh as [_ Hh]. apply Forall_app in Hc as [_ Hc].
    apply StronglySorted_app_1_r in Hs. rewrite fmap_app in Hd. apply NoDup_app in Hd as (_ & _ & Hd).
    split; cbn [t_tr t_conns t_world]; rewrite ?Ea, ?En; try done.
    + intros id r E. destruct (Ha id r E) as (? & ? & ?). split; [done|lia].
    + eapply Forall_impl; [exact Hc|]. cbn. lia.
  - assert (Hc : Forall (fun r => cr_closedAt r <= now) (history (t_tr s))) by (apply history_closed; done).
    rewrite Ek in Hc. by apply Forall_app in Hc as [_ Hc].
Qed.

(** The records of a tab are read in some order. *)
Lemma tab_read tab s : exists recs s',
  (if String.eqb tab "active"
   then ids ← t_range (fst <$> map_to_list (active (t_tr s))); mret (omap (fun id => active (t_tr s) !! id) ids)
   else mret (ring_records (t_tr s))) s = (recs, s') /\
  recs ≡ₚ tab_records tab (t_tr s') /\ t_tr s' = t_tr s /\ t_conns s' = t_conns s /\
  rt_time (t_world s') = rt_time (t_world s).
Proof.
  unfold tab_records. destruct (String.eqb tab "active"); [|by eexists _, _].
  rewrite bind_run. destruct (t_range_run (fst <$> map_to_list (active (t_tr s))) s) as (ids & w & -> & Hv & Hw).
  eexists _, _. split; [reflexivity|]. cbn. split; [by apply visited_records|done].
Qed.

(** [List] on valid arguments: clean-up, then the sorted page. *)
Lemma List_run tab q proto page pageSize s : tinv s -> valid_list tab page pageSize ->
  exists now recs s', tinv s' /\ nextID (t_tr s') = nextID (t_tr s) /\
    rt_time (t_world s) <= now /\
    recs ≡ₚ filter_recs q proto (tab_records tab (t_tr s')) /\
    active (t_tr s') = filter (fun kv => stalled now (t_tr s) (snd kv) = false) (active (t_tr s)) /\
    List tab q proto page pageSize s =
      (match page_of (merge_sort not_after recs) page pageSize with
       | None => Panicked
       | Some l => Returned (inr (toView (t_conns s) now <$> l, Z.of_nat (length recs)))
       end, s').
Proof.
  intros Hi (Htab & Hp & Hps). unfold List.
  assert (Et : negb (String.eqb tab "active") && negb (String.eqb tab "history") = false)
    by (destruct Htab as [-> | ->]; reflexivity).
  rewrite Et. rewrite (proj2 (Z.ltb_ge page 1)) by lia.
  rewrite (proj2 (Z.ltb_ge pageSize 1)), (proj2 (Z.ltb_ge 200 pageSize)) by lia. cbn [orb].
  rewrite bind_run. destruct (t_now_run s) as (now & w & -> & Hn & Hw). cbn [fst snd].
  rewrite bind_run. cbn [on_tr modify fst snd t_tr t_conns t_world].
  destruct (pruneRing_spec now (t_tr s) (i_ring _ _ _ Hi)) as (Hok & Eh & Ea & _ & Em & En).
  set (s1 := MkTSys (pruneRing now (t_tr s)) (t_conns s) w).
  destruct (prune_tinv s now w Hi) as [Hi1 Hc1]; [lia..|].
  rewrite bind_run.
  destruct (dropStalled_post now s1 Hi1) as (Hi2 & Ec & En2 & Ht2 & Ea2); [done|done|].
  destruct (dropStalled now s1) as [[] s2]. cbn [fst snd] in *.
  assert (Hst : active (t_tr s2) = filter (fun kv => stalled now (t_tr s) (snd kv) = false) (active (t_tr s))).
  { rewrite Ea2. cbn [s1 t_tr]. rewrite Ea. unfold stalled. by rewrite Em. }
  rewrite bind_run. cbn [gets fst snd]. rewrite bind_run.
  destruct (tab_read tab s2) as (recs0 & s3 & -> & Hperm & Et3 & Ec3 & Htm3). cbn [fst snd]. cbv zeta.
  rewrite bind_run. cbn [gets fst snd]. rewrite Ec3, Ec.
  assert (Hlen : forall l, length (merge_sort not_after l) = length l)
    by (intros l; by rewrite merge_sort_Permutation).
  exists now, (filter_recs q proto recs0), s3. rewrite Hlen.
  split; [|split; [|split; [done|split; [|split; [|done]]]]].
  - unfold tinv. rewrite Et3, Ec3. eapply inv_time; [|exact Hi2]. lia.
  - rewrite Et3, En2. cbn. done.
  - unfold filter_recs. cbv zeta. repeat split_if; by rewrite Hperm.
  - by rewrite Et3.
Qed.

Lemma List_invalid tab q proto page pageSize s : ~ valid_list tab page pageSize ->
  exists msg, List tab q proto page pageSize s = (Returned (inl msg), s).
Proof.
  intros Hv. unfold List. repeat (split_if; [by eexists|]). exfalso. apply Hv. prop_of_bool.
  split; [|lia]. apply andb_false_iff in Heqb as [E|E]; prop_of_bool; auto.
Qed.

(** ** Reachable states *)

Inductive trackOp : Type :=
| OpBegin (meta : ConnMeta) (host : string) (port : Z)
| OpDone (id : Z) (conn : option Z)
| OpFail (id : Z) (err : error)
| OpRead (i : nat) (n : Z) (err : option error)
| OpWrite (i : nat) (n : Z) (err : option error)
| OpClose (i : nat) (err : option error)
| OpActiveByProto
| OpList (tab q proto : string) (page pageSize : Z).

Definition exec (op : trackOp) s : TSys W :=
  match op with
  | OpBegin m h p => snd (Begin m h p s)
  | OpDone id c => snd (Done id c s)
  | OpFail id e => snd (Fail id e s)
  | OpRead i n e => snd (Read i n e s)
  | OpWrite i n e => snd (Write i n e s)
  | OpClose i e => snd (Close i e s)
  | OpActiveByProto => snd (ActiveByProto s)
  | OpList tab q p pg ps => snd (List tab q p pg ps s)
  end.

Lemma ActiveByProto_run s : tinv s ->
  exists now ids s', visits ids (fst <$> map_to_list (active (t_tr s'))) /\ tinv s' /\
    nextID (t_tr s') = nextID (t_tr s) /\ rt_time (t_world s) <= now /\
    active (t_tr s') = filter (fun kv => stalled now (t_tr s) (snd kv) = false) (active (t_tr s)) /\
    ActiveByProto s = (foldl count_proto ∅ (omap (fun id => active (t_tr s') !! id) ids), s').
Proof.
  intros Hi. unfold ActiveByProto. rewrite bind_run. destruct (t_now_run s) as (now & w & -> & Hn & Hw).
  cbn [fst snd]. rewrite bind_run. set (s1 := MkTSys (t_tr s) (t_conns s) w).
  assert (Hi1 : tinv s1) by (apply tinv_world; [done|lia]).
  destruct (dropStalled_post now s1 Hi1) as (Hi2 & Ec & En2 & Ht2 & Ea2); [by apply (history_closed now s)|done|].
  destruct (dropStalled now s1) as [[] s2]. cbn [fst snd] in *.
  rewrite bind_run. cbn [gets fst snd]. rewrite bind_run.
  destruct (t_range_run (fst <$> map_to_list (active (t_tr s2))) s2) as (ids & w3 & -> & Hv & Hw3).
  exists now, ids, (MkTSys (t_tr s2) (t_conns s2) w3). split; [done|]. split; [apply tinv_world; [done|lia]|done].
Qed.

Lemma retire_next id rec s : ring_ok (t_tr s) -> nextID (t_tr (snd (retire id rec s))) = nextID (t_tr s).
Proof.
  intros Hr. destruct (retire_run id rec s) as (now & w & -> & _). cbn [snd t_tr].
  set (t1 := with_active _ _). assert (Ht1 : ring_ok t1) by (destruct Hr; by split).
  by destruct (pushRing_spec now rec t1 Ht1) as (_ & _ & _ & _ & _ & ->).
Qed.
Lemma Fail_next id err s : ring_ok (t_tr s) -> nextID (t_tr (snd (Fail id err s))) = nextID (t_tr s).
Proof.
  intros Hr. unfold Fail. rewrite bind_run. cbn [gets fst snd]. destruct (active (t_tr s) !! id); [|done].
  rewrite bind_run. destruct (t_now_run s) as (now & w & -> & _). cbn [fst snd]. by rewrite retire_next.
Qed.
Lemma Close_next i err s : ring_ok (t_tr s) -> nextID (t_tr (snd (Close i err s))) = nextID (t_tr s).
Proof.
  intros Hr. unfold Close. rewrite bind_run. cbn [gets fst snd]. destruct (t_conns s !! i) as [c|]; [|done].
  destruct (tc_closed c); [done|]. rewrite !bind_run. cbn [on_conn modify fst snd mret M_ret].
  match goal with |- context [finish ?a ?b ?c ?d ?s1] =>
    destruct (finish_cases a b c d s1) as [[-> _]|(r0 & now & s2 & rec & _ & Et & _ & _ & _ & ->)] end; [done|].
  rewrite retire_next by (rewrite Et; done). by rewrite Et.
Qed.

Lemma exec_inv op s : tinv s -> nextID (t_tr s) + 1 < 2 ^ 64 ->
  tinv (exec op s) /\ nextID (t_tr s) <= nextID (t_tr (exec op s)) <= nextID (t_tr s) + 1.
Proof.
  intros Hi Hn. pose proof (i_ring _ _ _ Hi) as Hr. destruct op; cbn [exec].
  - destruct (Begin_inv meta host port s Hi Hn) as [? ->]. split; [done|lia].
  - split; [by apply Done_inv|]. unfold Done. destruct conn; [|cbn; lia]. rewrite bind_run. cbn [gets fst snd].
    destruct (active (t_tr s) !! id); [rewrite !bind_run|]; cbn; lia.
  - split; [by apply Fail_inv|]. rewrite Fail_next by done. lia.
  - split; [by apply Read_inv|]. change (t_tr (snd (Read i n err s))) with (t_tr s). lia.
  - split; [by apply Write_inv|]. change (t_tr (snd (Write i n err s))) with (t_tr s). lia.
  - split; [by apply Close_inv|]. rewrite Close_next by done. lia.
  - destruct (ActiveByProto_run s Hi) as (now & ids & s' & _ & ? & En & _ & _ & ->). cbn [snd]. split; [done|lia].
  - destruct (decide ((tab = "active" \/ tab = "history") /\ 1 <= page /\ 1 <= pageSize <= 200)) as [Hv|Hv].
    + destruct (List_run tab q proto page pageSize s Hi Hv) as (now & recs & s' & ? & En & _ & _ & _ & ->).
      cbn [snd]. split; [done|lia].
    + destruct (List_invalid tab q proto page pageSize s Hv) as [msg ->]. cbn [snd]. split; [done|lia].
Qed.

Lemma run_inv ops s : tinv s -> nextID (t_tr s) + Z.of_nat (length ops) < 2 ^ 64 ->
  tinv (foldl (fun s op => exec op s) s ops).
Proof.
  revert s. induction ops as [|op ops IH]; intros s Hi Hn; [done|]. cbn [foldl length] in *.
  destruct (exec_inv op s Hi) as [Hi' Hn']; [lia|]. apply IH; [done|lia].
Qed.

(** C12: every state the tracker can reach, by any sequence of fewer than 2^64
    calls in any order (repeated or late [Done], [Fail] and [Close] included),
    satisfies the invariant: the ring's geometry; every record of the table is
    dialing, or active with an open wrapper of its own id; every record of the
    history has ended, is in closing order, and is in no other place; ids are
    unique. *)
Theorem tracker_invariant (cap age : Z) (w : W) (ops : list trackOp)
    (Hops : Z.of_nat (length ops) < 2 ^ 64) :
  let s := foldl (fun s op => exec op s) (MkTSys (NewConnTracker cap age) [] w) ops in
  inv (t_tr s) (t_conns s) (rt_time (t_world s)).
Proof. apply run_inv; [apply inv_new|]. cbn. lia. Qed.

(** C33: for every page whose end is within an int, [List] on a tab returns
    the page of the connections of that tab (stalled dials moved away) that
    pass the filters, newest first and then by descending id, with the total
    number of them. *)
Theorem List_pages tab q proto page pageSize s (Hi : tinv s)
    (Hv : valid_list tab page pageSize) (Hm : page * pageSize <= int64_max) :
  exists now recs s',
    StronglySorted not_after recs /\ recs ≡ₚ filter_recs q proto (tab_records tab (t_tr s')) /\
    active (t_tr s') = filter (fun kv => stalled now (t_tr s) (snd kv) = false) (active (t_tr s)) /\
    List tab q proto page pageSize s =
      (Returned (inr (toView (t_conns s) now <$> take (Z.to_nat pageSize) (drop (Z.to_nat ((page - 1) * pageSize)) recs),
                      Z.of_nat (length recs))), s').
Proof.
  destruct (List_run tab q proto page pageSize s Hi Hv) as (now & recs & s' & _ & _ & _ & Hp & Ha & E).
  exists now, (merge_sort not_after recs), s'. destruct Hv as (_ & ? & ? & ?).
  rewrite page_of_spec in E by done.
  split; [apply StronglySorted_merge_sort; apply _|]. split; [by rewrite merge_sort_Permutation|].
  split; [done|]. by rewrite (Permutation_length (merge_sort_Permutation not_after recs)).
Qed.

(** ** Byte totals *)

(** One call on a wrapper: written or read, what the base returned. *)
Definition io : Type := bool * Z * option error.
Definition io_exec (i : nat) s (x : io) : TSys W :=
  let '(up, n, err) := x in if up then snd (Write i n err s) else snd (Read i n err s).
Definition transferred (up : bool) (xs : list io) : Z :=
  foldr (fun '(b, n, _) acc => (if Bool.eqb b up then Z.max 0 n else 0) + acc) 0 xs.
(** The first error that is not a routine close. *)
Definition first_bad (xs : list io) : option error :=
  head (omap (fun '(_, _, err) => if isBenignCloseErr err then None else err) xs).

Lemma io_exec_run i s x c : t_conns s !! i = Some c ->
  let s' := io_exec i s x in
  t_tr s' = t_tr s /\ t_world s' = t_world s /\
  t_conns s' !! i = Some (let '(up, n, err) := x in count_io up n err c) /\
  (forall j, j <> i -> t_conns s' !! j = t_conns s !! j).
Proof.
  intros Hc. destruct x as [[[] n] err]; cbn [io_exec];
    (split; [done|]; split; [done|]; split; [|intros j Hj]).
  all: unfold Write, Read; rewrite bind_run; cbn [on_conn modify snd mret M_ret t_conns].
  all: rewrite list_lookup_alter; case_decide; try congruence; by rewrite ?Hc.
Qed.

Lemma transferred_nonneg up xs : 0 <= transferred up xs.
Proof.
  induction xs as [|[[b n] e] xs IH]; [done|]. unfold transferred in *. cbn [foldr].
  destruct (Bool.eqb b up); lia.
Qed.
Lemma transferred_cons up b n e xs :
  transferred up ((b, n, e) :: xs) = (if Bool.eqb b up then Z.max 0 n else 0) + transferred up xs.
Proof. done. Qed.

Lemma wrap_add z n k : 0 <= z -> z + (Z.max 0 n + k) <= int64_max -> 0 <= k ->
  (if 0 <? n then wrap64 (z + n) else z) = z + Z.max 0 n.
Proof.
  intros Hz Hle Hk. destruct (Z.ltb_spec 0 n); [|lia]. rewrite wrap64_id; [lia|].
  unfold in_int64, int64_min, int64_max in *. lia.
Qed.

(** The counters of a wrapper after a sequence of reads and writes. *)
Lemma ios_run i xs s c : t_conns s !! i = Some c -> 0 <= tc_up c -> 0 <= tc_down c ->
  tc_up c + transferred true xs <= int64_max -> tc_down c + transferred false xs <= int64_max ->
  let s' := foldl (io_exec i) s xs in
  t_tr s' = t_tr s /\ t_world s' = t_world s /\
  t_conns s' !! i = Some (MkTracked (tc_base c) (tc_id c) (tc_up c + transferred true xs)
    (tc_down c + transferred false xs)
    (match tc_firstErr c with Some e => Some e | None => first_bad xs end) (tc_closed c)).
Proof.
  revert s c. induction xs as [|x xs IH]; intros s c Hc Hu Hd Hbu Hbd; cbn [foldl].
  - rewrite Hc. repeat split. cbn. rewrite !Z.add_0_r. by destruct c as [? ? ? ? [] ?].
  - destruct (io_exec_run i s x c Hc) as (Et & Ew & Hc1 & _). rewrite <- Et, <- Ew.
    pose proof (transferred_nonneg true xs). pose proof (transferred_nonneg false xs).
    destruct x as [[up n] err]. rewrite transferred_cons in Hbu, Hbd.
    assert (Ecount : count_io up n err c = MkTracked (tc_base c) (tc_id c)
       (tc_up c + (if Bool.eqb up true then Z.max 0 n else 0)) (tc_down c + (if Bool.eqb up false then Z.max 0 n else 0))
       (match tc_firstErr c with Some e => Some e | None => if isBenignCloseErr err then None else err end) (tc_closed c)).
    { unfold count_io. cbv zeta. destruct up; cbn [Bool.eqb] in *; rewrite Z.add_0_r; f_equal;
        try (eapply wrap_add; [done|eassumption|done]); destruct (tc_firstErr c), (isBenignCloseErr err); done. }
    destruct (IH _ _ Hc1) as (? & ? & Hc2); try (rewrite Ecount; cbn [tc_up tc_down]; destruct up; cbn [Bool.eqb] in *; lia).
    split; [done|]. split; [done|]. rewrite Hc2, Ecount. cbn [tc_base tc_id tc_up tc_down tc_firstErr tc_closed].
    rewrite !transferred_cons. unfold first_bad. cbn [omap list_omap]. rewrite !Z.add_assoc. do 2 f_equal.
    destruct (tc_firstErr c); [done|]. destruct (isBenignCloseErr err) eqn:E; [done|].
    destruct err; [done|]. cbn in E. done.
Qed.

(** Closing a live wrapper files its record, once. *)
Lemma Close_run i err s c r0 : tinv s -> t_conns s !! i = Some c -> tc_closed c = false ->
  active (t_tr s) !! tc_id c = Some r0 ->
  let s' := snd (Close i err s) in
  exists rec, last (history (t_tr s')) = Some rec /\ active (t_tr s') = delete (tc_id c) (active (t_tr s)) /\
    t_conns s' !! i = Some (set_closed c) /\
    cr_id rec = tc_id c /\ cr_bytesUp rec = tc_up c /\ cr_bytesDown rec = tc_down c /\
    cr_status rec = match tc_firstErr c with Some _ => StateError | None => StateClosed end /\
    (forall e, tc_firstErr c = Some e -> cr_reason rec = Error e).
Proof.
  intros Hi Hc Hcl Ha s'. subst s'. unfold Close. rewrite bind_run. cbn [gets fst snd]. rewrite Hc, Hcl.
  rewrite !bind_run. cbn [on_conn modify fst snd mret M_ret].
  match goal with |- context [finish ?a ?b ?c ?d ?s1] =>
    destruct (finish_cases a b c d s1) as [[_ Hn]|(r1 & now & s2 & rec & Ea & Et & Ecs & _ & Er & ->)] end;
    cbn in *; [congruence|].
  rewrite Ha in Ea. injection Ea as <-.
  destruct (retire_run (tc_id c) rec s2) as (now' & w & -> & _).
  cbn [snd t_tr t_conns]. rewrite Et, Ecs. set (t1 := with_active _ _).
  assert (Ht1 : ring_ok t1) by (destruct (i_ring _ _ _ Hi); by split).
  destruct (pushRing_spec now' rec t1 Ht1) as (_ & -> & -> & _).
  exists rec. unfold enqueue. rewrite last_snoc, list_lookup_alter, decide_True by done. rewrite Hc.
  destruct (i_active _ _ _ Hi _ _ Ha) as ([Eid _] & _).
  repeat split; rewrite Er; destruct (tc_firstErr c); cbn; congruence.
Qed.

(** The history tells the truth about a connection: after any sequence of
    reads and writes on a live wrapper, [Close] files one record under its id
    whose byte counts are the sums of what was written and read, failed
    exactly when some call returned an error other than a routine close, with
    the first such error as its reason; closing again changes nothing. *)
Theorem closed_record_totals i s c r0 xs err err'
    (Hi : tinv s) (Hc : t_conns s !! i = Some c) (Hr : active (t_tr s) !! tc_id c = Some r0)
    (Hnew : tc_up c = 0 /\ tc_down c = 0 /\ tc_firstErr c = None /\ tc_closed c = false)
    (Hsum : transferred true xs <= int64_max /\ transferred false xs <= int64_max) :
  let s' := snd (Close i err (foldl (io_exec i) s xs)) in
  (exists rec, last (history (t_tr s')) = Some rec /\ active (t_tr s') !! cr_id rec = None /\
    cr_id rec = tc_id c /\
    cr_bytesUp rec = transferred true xs /\ cr_bytesDown rec = transferred false xs /\
    cr_status rec = (match first_bad xs with Some _ => StateError | None => StateClosed end) /\
    (forall e, first_bad xs = Some e -> cr_reason rec = Error e)) /\
  snd (Close i err' s') = s'.
Proof.
  destruct Hnew as (Eu & Ed & Ee & Ecl), Hsum as [Hsu Hsd].
  destruct (ios_run i xs s c Hc) as (Et & Ew & Hc1); try (rewrite ?Eu, ?Ed; lia).
  rewrite Eu, Ed, Ee, Ecl in Hc1. set (s1 := foldl (io_exec i) s xs) in *.
  assert (Hi1 : tinv s1).
  { subst s1. clear -Hi. revert s Hi. induction xs as [|[[[] n] e] xs IH]; intros s Hi; [done|apply IH..]; cbn.
    - by apply Write_inv. - by apply Read_inv. }
  destruct (Close_run i err s1 _ r0 Hi1 Hc1 eq_refl) as (rec & Hl & Ea & Hc2 & E1 & E2 & E3 & E4 & E5);
    [rewrite Et; done|]. cbn [tc_id tc_up tc_down tc_firstErr] in *. split.
  - exists rec. rewrite Ea, E1, lookup_delete_eq, E2, E3, Z.add_0_l. done.
  - unfold Close at 1. rewrite bind_run. cbn [gets fst snd]. rewrite Hc2. done.
Qed.

(** ** Counts by protocol *)

Lemma count_proto_spec p l m :
  default 0 (foldl count_proto m l !! p) = default 0 (m !! p) + Z.of_nat (length (filter (fun r => cr_proto r = p) l)).
Proof.
  revert m. induction l as [|r l IH]; intros m; cbn [foldl]; [cbn; lia|]. rewrite IH. unfold count_proto.
  destruct (decide (cr_proto r = p)) as [<-|Hne].
  - rewrite lookup_insert_eq, filter_cons_True by done. cbn [from_option length]. unfold id. lia.
  - rewrite lookup_insert_ne, filter_cons_False by done. done.
Qed.

(** [ActiveByProto] first moves exactly the dials older than [maxAge] to
    the history, and then reports for each protocol the number of connections
    left in the table, whatever the order of the iteration. *)
Theorem ActiveByProto_counts s (Hi : tinv s) :
  exists now m s', ActiveByProto s = (m, s') /\ rt_time (t_world s) <= now /\
    active (t_tr s') = filter (fun kv => stalled now (t_tr s) (snd kv) = false) (active (t_tr s)) /\
    forall p, default 0 (m !! p)
      = Z.of_nat (length (filter (fun r => cr_proto r = p) (snd <$> map_to_list (active (t_tr s'))))).
Proof.
  destruct (ActiveByProto_run s Hi) as (now & ids & s' & Hv & _ & _ & Hn & Ha & E).
  eexists now, _, s'. split; [exact E|]. split; [done|]. split; [done|]. intros p.
  rewrite count_proto_spec, lookup_empty. cbn [default].
  by rewrite (visited_records _ _ Hv).
Qed.
End Claims.

(** *** Instances *)

(** A clock that ticks at every reading. *)
#[global] Program Instance ticking : Runtime Z := {
  rt_time w := w; rt_now w := (w, w + 1); rt_range ids w := (ids, w) }.
Next Obligation. cbn. lia. Qed.
Next Obligation. done. Qed.
Next Obligation. done. Qed.

Definition demo_ops : list trackOp :=
  [OpBegin (MkMeta "http" "10.0.0.2:5000" "a.example" "1.1.1.1") "a.example" 443;
   OpBegin (MkMeta "socks5" "10.0.0.3:5001" "b.example" "8.8.8.8") "b.example" 80;
   OpDone 1 (Some 70); OpFail 2 (net_Error "i/o timeout" true)].
Definition demo_tracker : TSys Z :=
  foldl (fun s op => exec op s) (MkTSys (NewConnTracker 2 (5 * Minute)) [] 1000) demo_ops.
Lemma demo_tracker_inv : tinv demo_tracker.
Proof. apply (run_inv demo_ops (MkTSys (NewConnTracker 2 (5 * Minute)) [] 1000)); [apply inv_new|]. vm_compute. reflexivity. Qed.

Lemma tracker_invariant_witness :
  inv (t_tr demo_tracker) (t_conns demo_tracker) (rt_time (t_world demo_tracker)).
Proof. apply (tracker_invariant 2 (5 * Minute) 1000 demo_ops). vm_compute. reflexivity. Defined.

Lemma List_pages_witness :
  exists items, fst (List "active" "A.EX" "http" 1 50 demo_tracker) = Returned (inr (items, 1)) /\ length items = 1%nat.
Proof.
  destruct (List_pages "active" "A.EX" "http" 1 50 demo_tracker demo_tracker_inv) as (now & recs & s' & _ & _ & _ & E).
  - split; [by left|]. lia.
  - unfold int64_max. lia.
  - assert (E1 : exists items, fst (List "active" "A.EX" "http" 1 50 demo_tracker) = Returned (inr (items, 1)))
      by (eexists; vm_compute; reflexivity).
    destruct E1 as [items E1]. exists items. split; [exact E1|]. rewrite E in E1. cbn [fst] in E1.
    injection E1 as <- El. rewrite length_fmap, length_take, length_drop. lia.
Defined.

Lemma closed_record_totals_witness :
  let s' := snd (Close 0 None (foldl (io_exec 0) demo_tracker [(true, 100, None); (false, 5000, None); (false, 0, Some io_EOF)])) in
  exists rec, last (history (t_tr s')) = Some rec /\ cr_bytesUp rec = 100 /\ cr_bytesDown rec = 5000 /\
    cr_status rec = StateClosed.
Proof.
  destruct (closed_record_totals 0 demo_tracker (MkTracked 70 1 0 0 None false)
    (MkRecord 1 "http" "10.0.0.2:5000" "a.example" "1.1.1.1" 443 StateActive 1000 time_zero 0 0 "" (Some 0%nat))
    [(true, 100, None); (false, 5000, None); (false, 0, Some io_EOF)] None None demo_tracker_inv)
    as [(rec & Hl & _ & _ & Hu & Hd & Hs & _) _].
  - reflexivity.
  - vm_compute. reflexivity.
  - repeat split.
  - split; vm_compute; discriminate.
  - exists rec. repeat split; [exact Hl|exact Hu|exact Hd|exact Hs].
Defined.

Lemma ActiveByProto_counts_witness :
  exists m, fst (ActiveByProto demo_tracker) = m /\ default 0 (m !! "http") = 1.
Proof.
  destruct (ActiveByProto_counts demo_tracker demo_tracker_inv) as (now & m & s' & E & _ & _ & _).
  exists m. rewrite E. split; [reflexivity|].
  assert (Em : m = fst (ActiveByProto demo_tracker)) by by rewrite E. rewrite Em. vm_compute. reflexivity.
Defined.
