(* ===== verification/Files.v ===== *)
(** Files: [writeFileAtomic] of utils.go as the sequence of its system calls,
    with every state a crash could leave, and the key pair of keys.go. *)

From stdpp Require Import infinite.
From S2P Require Import Prelude GoStrings Errors.

(** ** A file system *)

Record file := MkFile { f_data : string; f_perm : Z }.
Abbreviation FS := (gmap string file) (only parsing).
(** The modes 0600 and 0644. *)
Definition mode_0600 : Z := 6 * 64.
Definition mode_0644 : Z := 6 * 64 + 4 * 8 + 4.

(** The outcome of each system call of one run: [None] is success.  A failing
    write may have written a part of the data; CreateTemp picks the name from
    the path and the existing files. *)
Record wfaEnv := MkWfa {
  e_create : string -> FS -> error + string;
  e_write : option (error * string);
  e_chmod : option error;
  e_sync : option error;
  e_close : option error;
  e_rename : option error;
  e_removed : bool }.

(** The states of the file system after each call, oldest first, and the
    result.  The deferred [os.Remove] runs last; its error is ignored. *)
Definition writeFileAtomic (env : wfaEnv) (path data : string) (perm : Z) (fs : FS)
    : option error * list FS :=
  match e_create env path fs with
  | inl e => (Some e, [fs])
  | inr tmp =>
      let removed (fs : FS) : FS := if e_removed env then delete tmp fs else fs in
      let fs1 := <[tmp := MkFile "" mode_0600]> fs in
      match e_write env with
      | Some (e, part) =>
          let fs2 := <[tmp := MkFile part mode_0600]> fs1 in (Some e, [fs; fs1; fs2; removed fs2])
      | None =>
          let fs2 := <[tmp := MkFile data mode_0600]> fs1 in
          match e_chmod env with
          | Some e => (Some e, [fs; fs1; fs2; removed fs2])
          | None =>
              let fs3 := <[tmp := MkFile data perm]> fs2 in
              match e_sync env with
              | Some e => (Some e, [fs; fs1; fs2; fs3; removed fs3])
              | None =>
                  match e_close env with
                  | Some e => (Some e, [fs; fs1; fs2; fs3; removed fs3])
                  | None =>
                      match e_rename env with
                      | Some e => (Some e, [fs; fs1; fs2; fs3; removed fs3])
                      | None =>
                          let fs4 := <[path := MkFile data perm]> (delete tmp fs3) in
                          (None, [fs; fs1; fs2; fs3; fs4; removed fs4])
                      end
                  end
              end
          end
      end
  end.
(** The state after the call. *)
Definition wfa_final (r : option error * list FS) (fs : FS) : FS := List.last (snd r) fs.

(** What os.CreateTemp documents: a new file, so not an existing path. *)
Definition fresh_temp (env : wfaEnv) : Prop :=
  forall path fs tmp, e_create env path fs = inr tmp -> fs !! tmp = None /\ tmp <> path.

Section Wfa.
Context (env : wfaEnv) (path data : string) (perm : Z) (fs : FS) (Hfresh : fresh_temp env).

#[local] Ltac wfa :=
  unfold writeFileAtomic, wfa_final, fresh_temp in *;
  pose proof (Hfresh path fs) as Hf;
  destruct (e_create env path fs) as [e|tmp]; [|destruct (Hf tmp eq_refl) as [Hnone Hne]];
  [|destruct (e_write env) as [[? ?]|]; [|destruct (e_chmod env); [|destruct (e_sync env);
    [|destruct (e_close env); [|destruct (e_rename env)]]]]];
  cbn [fst snd List.last]; destruct (e_removed env).

(** Every intermediate state has the old file or the whole new one. *)
Lemma wfa_states :
  Forall (fun fs' => fs' !! path = fs !! path \/ fs' !! path = Some (MkFile data perm))
    (snd (writeFileAtomic env path data perm fs)).
Proof.
  wfa; repeat first [apply Forall_nil_2 | apply Forall_cons_2]; simplify_map_eq; auto.
Qed.

Lemma wfa_other_paths p : p <> path -> fs !! p <> None ->
  wfa_final (writeFileAtomic env path data perm fs) fs !! p = fs !! p.
Proof.
  intros Hp Hex. wfa; try done;
    (assert (p <> tmp) by congruence; by simplify_map_eq).
Qed.

Lemma wfa_result :
  match fst (writeFileAtomic env path data perm fs) with
  | None => wfa_final (writeFileAtomic env path data perm fs) fs = <[path := MkFile data perm]> fs
  | Some _ => e_removed env = true -> wfa_final (writeFileAtomic env path data perm fs) fs = fs
  end.
Proof.
  wfa; try done; try intros _; apply map_eq; intros p;
    (destruct (decide (p = tmp)) as [->|]; [|destruct (decide (p = path)) as [->|]]); by simplify_map_eq.
Qed.
End Wfa.

(** C36: [writeFileAtomic] is atomic: whichever call fails, and whenever the
    process is killed, the target path holds either what it held before or
    the complete new data with its permissions, no other existing file is
    touched, and success means the new data is in place and no temporary file
    is left. *)
Theorem writeFileAtomic_atomic (env : wfaEnv) (path data : string) (perm : Z) (fs : FS)
    (Hfresh : fresh_temp env) :
  let r := writeFileAtomic env path data perm fs in
  Forall (fun fs' => fs' !! path = fs !! path \/ fs' !! path = Some (MkFile data perm)) (snd r) /\
  (forall p, p <> path -> fs !! p <> None -> wfa_final r fs !! p = fs !! p) /\
  (fst r = None -> wfa_final r fs = <[path := MkFile data perm]> fs) /\
  (fst r <> None -> wfa_final r fs !! path = fs !! path).
Proof.
  cbv zeta. split; [by apply wfa_states|]. split; [by intros; apply wfa_other_paths|].
  pose proof (wfa_result env path data perm fs Hfresh) as Hr. split.
  - by intros E; rewrite E in Hr.
  - unfold writeFileAtomic, wfa_final, fresh_temp in *.
    pose proof (Hfresh path fs) as Hf.
    destruct (e_create env path fs) as [e|tmp]; [done|]. destruct (Hf tmp eq_refl) as [Hnone Hne].
    repeat case_match; cbn; intros; try done; by simplify_map_eq.
Qed.

(** A run in which every call succeeds. *)
Definition all_ok : wfaEnv :=
  MkWfa (fun path fs => inr (fresh (path :: (fst <$> map_to_list fs)))) None None None None None true.
Lemma all_ok_fresh : fresh_temp all_ok.
Proof.
  intros path fs tmp [= E]. pose proof (infinite_is_fresh (path :: (fst <$> map_to_list fs))) as Hf.
  rewrite E in Hf. clear E.
  apply not_elem_of_cons in Hf as [Hp Hf]. split; [|done]. apply eq_None_not_Some. intros [f Ef].
  apply Hf, list_elem_of_fmap. eexists (_, f). split; [done|]. by apply elem_of_map_to_list.
Qed.
Lemma writeFileAtomic_atomic_witness :
  let fs : FS := {["d/k" := MkFile "old" mode_0600]} in
  wfa_final (writeFileAtomic all_ok "d/k" "new" mode_0600 fs) fs = <["d/k" := MkFile "new" mode_0600]> fs.
Proof.
  intros fs. destruct (writeFileAtomic_atomic all_ok "d/k" "new" mode_0600 fs all_ok_fresh) as (_ & _ & Hok & _).
  apply Hok. reflexivity.
Defined.

(** ** The key pair *)

(** What the ssh and ed25519 packages give: keys, their two text forms.  The
    law is the documented one: a marshalled private key parses to a signer of
    the same public key. *)
Class KeyLib : Type := {
  privKey : Type;
  signer : Type;
  ParsePrivateKey : string -> error + signer;
  MarshalPEM : privKey -> error + string;
  NewSignerFromKey : privKey -> error + signer;
  MarshalAuthorizedKey : signer -> string;
  marshal_parse : forall k pem s, MarshalPEM k = inr pem -> NewSignerFromKey k = inr s ->
    exists s', ParsePrivateKey pem = inr s' /\ MarshalAuthorizedKey s' = MarshalAuthorizedKey s }.

(** [os.ReadFile]: the file, its absence, or another error. *)
Inductive readResult : Type := ReadOK (data : string) | NotExist | ReadErr (e : error).
Definition ReadFile (fs : FS) (denied : option error) (path : string) : readResult :=
  match denied with
  | Some e => ReadErr e
  | None => match fs !! path with Some f => ReadOK (f_data f) | None => NotExist end
  end.

Definition newline : string := String (ascii_of_nat 10) "".

Section Keys.
Context `{KeyLib}.

Definition formatPublicKey (s : signer) : string :=
  TrimSuffix (MarshalAuthorizedKey s) newline +:+ " ssh-gate".

(** The environment of one start: read errors, the generated key, and the two
    file writes. *)
Record keyEnv := MkKeyEnv {
  k_denied : option error;
  k_pubDenied : option error;
  k_generate : error + privKey;
  k_writePriv : wfaEnv;
  k_writePub : wfaEnv }.

Definition sshKeyFile : string := "ssh_key".
Definition privPath (dataDir : string) : string := filepath_Join dataDir sshKeyFile.
Definition pubPath (dataDir : string) : string := privPath dataDir +:+ ".pub".

(** The end of [EnsureSSHKeyPair]: the public half is derived and rewritten
    when the file differs. *)
Definition publish (env : keyEnv) (dataDir : string) (s : signer) (fs : FS) : (error + string) * FS :=
  let pubKey := formatPublicKey s in
  let same := match ReadFile fs (k_pubDenied env) (pubPath dataDir) with
              | ReadOK cur => String.eqb cur pubKey
              | _ => false
              end in
  if same then (inr pubKey, fs)
  else
    let r := writeFileAtomic (k_writePub env) (pubPath dataDir) pubKey mode_0644 fs in
    match fst r with
    | Some e => (inl (Errorf ("write public key: " +:+ Error e) (Some e)), wfa_final r fs)
    | None => (inr pubKey, wfa_final r fs)
    end.

Definition EnsureSSHKeyPair (env : keyEnv) (dataDir : string) (fs : FS) : (error + string) * FS :=
  match ReadFile fs (k_denied env) (privPath dataDir) with
  | ReadErr e =>
      (inl (Errorf ("read SSH key " +:+ privPath dataDir +:+ ": " +:+ Error e +:+
             " (check the file owner; a new key would not match authorized_keys on the server)") (Some e)), fs)
  | ReadOK privData =>
      match ParsePrivateKey privData with
      | inl e => (inl (Errorf ("parse existing SSH key " +:+ privPath dataDir +:+ ": " +:+ Error e) (Some e)), fs)
      | inr s => publish env dataDir s fs
      end
  | NotExist =>
      match k_generate env with
      | inl e => (inl (Errorf ("generate ed25519 key: " +:+ Error e) (Some e)), fs)
      | inr priv =>
          match MarshalPEM priv with
          | inl e => (inl (Errorf ("marshal private key: " +:+ Error e) (Some e)), fs)
          | inr pem =>
              let r := writeFileAtomic (k_writePriv env) (privPath dataDir) pem mode_0600 fs in
              match fst r with
              | Some e => (inl (Errorf ("write private key: " +:+ Error e) (Some e)), wfa_final r fs)
              | None =>
                  match NewSignerFromKey priv with
                  | inl e => (inl (Errorf ("create signer: " +:+ Error e) (Some e)), wfa_final r fs)
                  | inr s => publish env dataDir s (wfa_final r fs)
                  end
              end
          end
      end
  end.

(** The temporary files of a run are new. *)
Definition env_ok (env : keyEnv) : Prop := fresh_temp (k_writePriv env) /\ fresh_temp (k_writePub env).

Lemma priv_pub_ne dataDir : privPath dataDir <> pubPath dataDir.
Proof.
  intros E. apply (f_equal String.length) in E. unfold pubPath in E. rewrite str_app_length in E.
  cbn in E. lia.
Qed.

(** [publish] leaves the private key alone and, on success, the public file
    holds what it returned. *)
Lemma publish_spec env dataDir s fs :
  fresh_temp (k_writePub env) ->
  fs !! privPath dataDir <> None ->
  let r := publish env dataDir s fs in
  snd r !! privPath dataDir = fs !! privPath dataDir /\
  forall pub, fst r = inr pub -> pub = formatPublicKey s /\ f_data <$> snd r !! pubPath dataDir = Some pub.
Proof.
  intros Hfresh Hex. unfold publish, ReadFile. cbv zeta.
  destruct (match _ with ReadOK cur => _ | _ => _ end) eqn:Es.
  - split; [done|]. intros pub [= <-]. split; [done|]. destruct (k_pubDenied env); [done|].
    cbn [snd].
    destruct (fs !! pubPath dataDir) as [f|]; [|done]. apply String.eqb_eq in Es. cbn. congruence.
  - pose proof (wfa_other_paths (k_writePub env) (pubPath dataDir) (formatPublicKey s) mode_0644 fs
      Hfresh (privPath dataDir) (priv_pub_ne dataDir) Hex) as Hpriv.
    pose proof (wfa_result (k_writePub env) (pubPath dataDir) (formatPublicKey s) mode_0644 fs Hfresh) as Hr.
    destruct (fst (writeFileAtomic _ _ _ _ _)); (split; [done|]); [done|].
    intros pub [= <-]. cbn [snd]. rewrite Hr, lookup_insert_eq. done.
Qed.

(** An existing private key is never replaced or lost: whatever fails, an
    [ssh_key] that exists keeps its content, and a read error other than a
    missing file generates nothing and changes no file. *)
Theorem key_never_replaced env dataDir fs (f : file) (Henv : env_ok env)
    (Hkey : fs !! privPath dataDir = Some f) :
  snd (EnsureSSHKeyPair env dataDir fs) !! privPath dataDir = Some f /\
  (k_denied env <> None -> snd (EnsureSSHKeyPair env dataDir fs) = fs).
Proof.
  unfold EnsureSSHKeyPair, ReadFile. destruct (k_denied env) as [e|]; [done|]. rewrite Hkey.
  split; [|done]. destruct (ParsePrivateKey (f_data f)); [done|].
  rewrite (proj1 (publish_spec env dataDir s fs (proj2 Henv) ltac:(congruence))). done.
Qed.

(** C37: the key survives a restart: when a first run (no key yet) succeeds,
    the public key it returned is in the .pub file, and every later run in
    which the files can be read and parsed returns that same public key and
    changes no file. *)
Theorem key_survives_restart env env' dataDir fs pub (Henv : env_ok env)
    (Hnew : fs !! privPath dataDir = None)
    (Hrun : fst (EnsureSSHKeyPair env dataDir fs) = inr pub)
    (Hread : k_denied env' = None /\ k_pubDenied env' = None) :
  let fs1 := snd (EnsureSSHKeyPair env dataDir fs) in
  f_data <$> fs1 !! pubPath dataDir = Some pub /\ EnsureSSHKeyPair env' dataDir fs1 = (inr pub, fs1).
Proof.
  destruct Henv as [Hp Hq]. revert Hrun. unfold EnsureSSHKeyPair, ReadFile. destruct Hread as [-> Hpd].
  destruct (k_denied env); [done|]. rewrite Hnew.
  destruct (k_generate env) as [|priv]; [done|]. destruct (MarshalPEM priv) as [|pem] eqn:Epem; [done|].
  pose proof (wfa_result (k_writePriv env) (privPath dataDir) pem mode_0600 fs Hp) as Hr.
  destruct (fst (writeFileAtomic _ _ _ _ _)); [done|]. rewrite Hr.
  destruct (NewSignerFromKey priv) as [|s] eqn:Es; [done|]. intros Hrun.
  set (fs1 := <[privPath dataDir := MkFile pem mode_0600]> fs) in *.
  assert (Hfs1 : fs1 !! privPath dataDir = Some (MkFile pem mode_0600)) by (subst fs1; by simplify_map_eq).
  destruct (publish_spec env dataDir s fs1 Hq ltac:(congruence)) as [Hpriv Hpub].
  destruct (Hpub pub Hrun) as [-> Hfile]. split; [done|].
  rewrite Hpriv, Hfs1. cbn [f_data].
  destruct (marshal_parse priv pem s Epem Es) as (s' & -> & Em).
  assert (Ef : formatPublicKey s' = formatPublicKey s) by (unfold formatPublicKey; by rewrite Em).
  unfold publish at 1, ReadFile at 1. cbv zeta. rewrite Hpd, Ef.
  destruct (snd (publish env dataDir s fs1) !! pubPath dataDir) as [fp|]; [|done].
  cbn in Hfile. injection Hfile as ->. by rewrite String.eqb_refl.
Qed.
End Keys.

(** A toy key library: the key is its text. *)
Program Definition text_keys : KeyLib := {|
  privKey := string; signer := string; ParsePrivateKey := inr; MarshalPEM := inr;
  NewSignerFromKey := inr; MarshalAuthorizedKey s := s +:+ newline |}.
Next Obligation. naive_solver. Qed.
Definition demo_env : keyEnv (H := text_keys) :=
  MkKeyEnv (H := text_keys) None None (inr "k1" : error + privKey (KeyLib := text_keys)) all_ok all_ok.

Lemma key_never_replaced_witness :
  snd (EnsureSSHKeyPair demo_env "d" {["d/ssh_key" := MkFile "k0" mode_0600]}) !! "d/ssh_key"
  = Some (MkFile "k0" mode_0600).
Proof.
  apply (key_never_replaced (H := text_keys) demo_env "d" {["d/ssh_key" := MkFile "k0" mode_0600]}
    (MkFile "k0" mode_0600)); [split; apply all_ok_fresh|reflexivity].
Defined.

Lemma key_survives_restart_witness :
  let fs1 := snd (EnsureSSHKeyPair demo_env "d" ∅) in
  EnsureSSHKeyPair demo_env "d" fs1 = (inr "k1 ssh-gate", fs1).
Proof.
  apply (key_survives_restart (H := text_keys) demo_env demo_env "d" ∅ "k1 ssh-gate");
    [split; apply all_ok_fresh|reflexivity|vm_compute; reflexivity|split; reflexivity].
Defined.
