(* ===== verification/Status.v ===== *)
(** status.go and notify.go: the tunnel states, the classification of connect
    errors, the status line and its delivery to systemd. *)

From S2P Require Import Prelude GoStrings Errors.

(** ** Tunnel states *)

Definition stateNotConfigured : string := "not_configured".
Definition stateConnecting : string := "connecting".
Definition stateConnected : string := "connected".
Definition stateReconnecting : string := "reconnecting".
Definition stateKeyRejected : string := "key_rejected".
Definition stateUnreachable : string := "unreachable".
Definition stateHostKeyMismatch : string := "host_key_mismatch".
Definition stateSSHError : string := "ssh_error".

Record tunnelStatus := MkStatus { State : string; s_Err : option error; Attempt : Z; Retry : Z }.
Definition status_of (state : string) : tunnelStatus := MkStatus state None 0 0.

(** The configuration of the SSH dialer (dialer.go). *)
Record sshDialerCfg := MkCfg {
  c_host : string; c_port : Z; c_user : string; c_keyPath : string; c_fingerprint : string;
  c_keepalivePeriod : Z; c_keepaliveInterval : Z; c_keepaliveProbes : Z;
  c_dialTimeout : Z; c_handshakeTimeout : Z }.
Definition with_fingerprint (fp : string) (c : sshDialerCfg) : sshDialerCfg :=
  MkCfg (c_host c) (c_port c) (c_user c) (c_keyPath c) fp (c_keepalivePeriod c)
    (c_keepaliveInterval c) (c_keepaliveProbes c) (c_dialTimeout c) (c_handshakeTimeout c).

(** ** Classification *)

Definition failState (err : error) : string :=
  match errors_As as_connectError err with
  | Some (state, _) => state
  | None => stateSSHError
  end.

Definition handshakeState (err : error) : string :=
  match errors_As as_mismatch err with
  | Some _ => stateHostKeyMismatch
  | None => if Contains (Error err) "ssh: unable to authenticate" then stateKeyRejected else stateSSHError
  end.

(** ** The status line *)

(** [Duration.Round] to a multiple of [m]: half away from zero. *)
Definition Duration_Round (d m : Z) : Z :=
  let r := Z.rem d m in
  if d <? 0 then (if - r + - r <? m then d - r else d - r - m)
  else (if r + r <? m then d - r else d - r + m).
(** [Duration.String] of a whole number of seconds. *)
Definition Duration_String (d : Z) : string :=
  let sec := Z.quot (Z.abs d) Second in
  let h := sec / 3600 in let m := (sec / 60) mod 60 in let s := sec mod 60 in
  (if d <? 0 then "-" else "") +:+
  (if 0 <? h then Itoa h +:+ "h" else "") +:+
  (if (0 <? h) || (0 <? m) then Itoa m +:+ "m" else "") +:+ Itoa s +:+ "s".

Definition sshKnownHostsFile : string := "ssh_known_hosts".
Definition knownHosts (cfg : sshDialerCfg) : string :=
  filepath_Join (filepath_Dir (c_keyPath cfg)) sshKnownHostsFile.

Definition dialCause (err : option error) : string :=
  match err with
  | None => "unknown error"
  | Some e =>
      match errors_As as_OpError e with
      | Some (Some inner) => Error inner
      | _ => Error e
      end
  end.

Definition statusText (cfg : sshDialerCfg) (st : tunnelStatus) : string :=
  let ep := c_user cfg +:+ "@" +:+ JoinHostPort (c_host cfg) (Itoa (c_port cfg)) in
  let retry := "retry in " +:+ Duration_String (Duration_Round (Retry st) Second) +:+
               " (attempt " +:+ Itoa (Attempt st) +:+ ")" in
  if String.eqb (State st) stateConnecting then "Connecting to " +:+ ep
  else if String.eqb (State st) stateConnected then "Connected to " +:+ ep
  else if String.eqb (State st) stateReconnecting then "Tunnel to " +:+ ep +:+ " lost, reconnecting"
  else if String.eqb (State st) stateKeyRejected then
    "Key not accepted by " +:+ ep +:+ ": add " +:+ c_keyPath cfg +:+ ".pub to authorized_keys; " +:+ retry
  else if String.eqb (State st) stateUnreachable then
    "Cannot reach " +:+ ep +:+ ": " +:+ dialCause (s_Err st) +:+ "; " +:+ retry
  else if String.eqb (State st) stateHostKeyMismatch then
    match s_Err st ≫= errors_As as_mismatch with
    | Some (want, got) =>
        "Host key of " +:+ ep +:+ " changed (expected " +:+ want +:+ ", got " +:+ got +:+ "): delete " +:+
        knownHosts cfg +:+ " to trust the new key"
    | None => "Host key of " +:+ ep +:+ " changed: delete " +:+ knownHosts cfg +:+ " to trust the new key"
    end
  else "SSH error: " +:+ match s_Err st with Some e => Error e | None => "<nil>" end +:+ "; " +:+ retry.

Definition notConfiguredText (missing : list string) : string :=
  "Not configured: set " +:+ Join missing " and " +:+ " in /etc/default/ssh-gate, then restart the service".

(** [unconfiguredDialer]. *)
Definition unconfigured_DialContext : error + Z :=
  inl (Errorf "not configured: SSH_HOST and SSH_USER are required" None).
Definition unconfigured_Connected : bool := false.
Definition unconfigured_Status : tunnelStatus := status_of stateNotConfigured.

(** ** Delivery to systemd *)

(** [sdNotify]: what is written to which socket name; nothing outside systemd. *)
Definition sdNotify (notifySocket msg : string) : option (string * string) :=
  if String.eqb notifySocket "" then None
  else Some (match strip_prefix "@" notifySocket with
             | Some rest => String (ascii_of_nat 0) rest
             | None => notifySocket
             end, msg).

(** [sdStatus] with the messages handed to notify so far. *)
Record sdStatus := MkSD { stopping : bool; sent : list string }.
Definition newSDStatus : sdStatus := MkSD false [].
Definition sd_write (msg : string) (s : sdStatus) : sdStatus := MkSD (stopping s) (sent s ++ [msg]).
Definition sd_send (msg : string) (s : sdStatus) : sdStatus := if stopping s then s else sd_write msg s.
Definition sd_set (text : string) (s : sdStatus) : sdStatus := sd_send ("STATUS=" +:+ text) s.
Definition sd_ready (s : sdStatus) : sdStatus := sd_send "READY=1" s.
Definition sd_stop (text : string) (s : sdStatus) : sdStatus :=
  sd_write ("STOPPING=1" +:+ String (ascii_of_nat 10) "" +:+ "STATUS=" +:+ text) (MkSD true (sent s)).

Inductive sdOp : Type := SdSet (text : string) | SdReady.
Definition sd_exec (s : sdStatus) (op : sdOp) : sdStatus :=
  match op with SdSet t => sd_set t s | SdReady => sd_ready s end.

(** ** Properties *)

Lemma sd_stopped s op : stopping s = true -> sd_exec s op = s.
Proof. intros Hs. destruct op; cbn; unfold sd_set, sd_ready, sd_send; by rewrite Hs. Qed.

(** Once [stop] is called nothing hides the stopping message: whatever
    updates follow, in any order, the messages sent to systemd are those sent
    before followed by the one STOPPING message. *)
Theorem stopping_is_last (s : sdStatus) (text : string) (ops : list sdOp) :
  sent (foldl sd_exec (sd_stop text s) ops)
  = sent s ++ ["STOPPING=1" +:+ String (ascii_of_nat 10) "" +:+ "STATUS=" +:+ text].
Proof.
  assert (Hfix : forall s', stopping s' = true -> foldl sd_exec s' ops = s').
  { induction ops as [|op ops IH]; intros s' Hs'; [done|]. cbn. rewrite sd_stopped by done. by apply IH. }
  by rewrite Hfix.
Qed.
