(* ===== verification/TcpInfo.v ===== *)
(** tcpinfo.go, tcpinfo_linux.go and tcpinfo_other.go: the kernel's counters of
    the tunnel connection, and the numbers the Web UI gets from them. *)

From Stdlib Require Import QArith.
From S2P Require Import Prelude Errors.
#[local] Open Scope Z_scope.

(** The fields of the kernel's struct tcp_info that are read, in its units:
    round-trip times in microseconds, the times since the last data and the
    last acknowledgement in milliseconds (jiffies_to_msecs). *)
Record TCPInfo := MkTCPInfo {
  Rtt : Z; Min_rtt : Z; Rttvar : Z; Total_retrans : Z; Snd_cwnd : Z; Bytes_sent : Z; Bytes_received : Z;
  Last_data_recv : Z; Last_ack_recv : Z }.

(** [tcpStats]; the float64 quotients of 32-bit counters as exact rationals. *)
Record tcpStats := MkTcpStats {
  RTTMs : Q; MinRTTMs : Q; RTTVarMs : Q; st_TotalRetrans : Z; st_Cwnd : Z; st_BytesSent : Z; st_BytesReceived : Z;
  LastDataRecvS : Q; LastAckRecvS : Q }.

(** [readTCPStats] on Linux: whether there is a handle, what Control returned
    (an error once the socket is closed), and what getsockopt returned in it. *)
Definition readTCPStats (rc : bool) (control : option error) (sockopt : error + option TCPInfo) : option tcpStats :=
  if negb rc then None
  else match control with
       | Some _ => None
       | None =>
           match sockopt with
           | inl _ | inr None => None
           | inr (Some info) =>
               Some (MkTcpStats (Rtt info # 1000) (Min_rtt info # 1000) (Rttvar info # 1000)
                       (Total_retrans info) (Snd_cwnd info) (Bytes_sent info) (Bytes_received info)
                       (Last_data_recv info # 1000000) (Last_ack_recv info # 1000000))
           end
       end.
(** On other platforms. *)
Definition readTCPStats_other (rc : bool) : option tcpStats := None.

(** [int64(math.Round(x))] of a quotient that is not negative: to the nearest,
    halves up. *)
Definition math_Round (x : Q) : Z := (2 * Qnum x + Zpos (Qden x)) / (2 * Zpos (Qden x)).

(** The rounded RTT is within half a millisecond of the kernel's value. *)
Theorem rtt_rounded info s (Hs : readTCPStats true None (inr (Some info)) = Some s) :
  Z.abs (1000 * math_Round (RTTMs s) - Rtt info) <= 500.
Proof.
  injection Hs as <-. unfold math_Round. cbn [RTTMs Qnum Qden].
  pose proof (Z.div_mod (2 * Rtt info + 1000) (2 * 1000) ltac:(lia)).
  pose proof (Z.mod_pos_bound (2 * Rtt info + 1000) (2 * 1000) ltac:(lia)). lia.
Qed.

(** The silence of the tunnel is under-reported by a factor of 1000: the
    kernel counts milliseconds, the code divides as if they were
    microseconds, so after [ms] milliseconds without data the field for
    seconds holds a thousandth of the seconds that passed, and it exceeds the
    60 of the Web UI's warning only after 60000 seconds. *)
Theorem silence_is_under_reported info s (Hs : readTCPStats true None (inr (Some info)) = Some s) :
  (LastDataRecvS s * (1000 # 1) == Last_data_recv info # 1000)%Q /\
  (LastAckRecvS s * (1000 # 1) == Last_ack_recv info # 1000)%Q /\
  ((60 # 1 < LastDataRecvS s)%Q <-> 60000 * 1000 < Last_data_recv info).
Proof.
  injection Hs as <-. cbn [LastDataRecvS LastAckRecvS]. unfold Qeq, Qlt. cbn. lia.
Qed.

(** Two minutes of silence. *)
Definition demo_info : TCPInfo := MkTCPInfo 1500 900 200 0 10 4096 8192 120000 120000.
Lemma rtt_rounded_witness : Z.abs (1000 * math_Round (1500 # 1000) - 1500) <= 500.
Proof. exact (rtt_rounded demo_info _ eq_refl). Defined.
Lemma silence_is_under_reported_witness :
  ~ (60 # 1 < 120000 # 1000000)%Q /\ ((120000 # 1000000) * (1000 # 1) == 120000 # 1000)%Q.
Proof.
  split; [|exact (proj1 (silence_is_under_reported demo_info _ eq_refl))].
  intros Hlt. apply (proj1 (proj2 (proj2 (silence_is_under_reported demo_info _ eq_refl)))) in Hlt.
  cbn in Hlt. lia.
Defined.
