(* ===== verification/Connect.v ===== *)
(** dialer.go, one connection: [connectSSH] with the host key check and the
    trust on first use, the known hosts file, the keepalive socket options,
    and the backoff delay. *)

From S2P Require Import Prelude GoStrings Errors Files Status.

(** ** Backoff *)

Definition reconnectDelay (attempt : Z) : Z :=
  let baseDelay := Second in
  let maxDelay := 60 * Second in
  let shift := if 6 <? attempt then 6 else attempt in
  let delay := wrap64 (Z.shiftl baseDelay shift) in
  if maxDelay <? delay then maxDelay else delay.

(** ** Keepalive options *)

Definition keepaliveIntervalUnit (goos : string) : Z :=
  if String.eqb goos "darwin" then Millisecond else Second.
Inductive sockopt : Type :=
| TCP_KEEPINTVL (v : Z) | TCP_KEEPCNT (v : Z) | KeepAliveOn (period : Z) | KeepAliveOff
| SetDeadline (at_ : Z) | ClearDeadline.
Definition setKeepaliveProbeOpts (goos : string) (intervalSecs probes : Z) : list sockopt :=
  if (intervalSecs =? 0) && (probes =? 0) then []
  else
    (if 0 <? intervalSecs
     then [TCP_KEEPINTVL (Z.quot (wrap64 (intervalSecs * Second)) (keepaliveIntervalUnit goos))] else []) ++
    (if 0 <? probes then [TCP_KEEPCNT probes] else []).
(** The options that [connectSSH] sets on the tunnel's TCP connection. *)
Definition keepalive_opts (goos : string) (cfg : sshDialerCfg) : list sockopt :=
  if 0 <? c_keepalivePeriod cfg
  then KeepAliveOn (c_keepalivePeriod cfg) ::
       setKeepaliveProbeOpts goos (c_keepaliveInterval cfg) (c_keepaliveProbes cfg)
  else [KeepAliveOff].

(** ** Known hosts *)

Definition readKnownHostFingerprint (fs : FS) (denied : option error) (dir : string) : error + string :=
  match ReadFile fs denied (filepath_Join dir sshKnownHostsFile) with
  | NotExist => inr ""
  | ReadErr e => inl (Errorf ("read " +:+ sshKnownHostsFile +:+ ": " +:+ Error e) (Some e))
  | ReadOK data =>
      let fp := TrimSpace data in
      if String.eqb fp ""
      then inl (Errorf (sshKnownHostsFile +:+ " exists but is empty — delete the file to re-trust the host key") None)
      else inr fp
  end.
(** [newSSHDialer] up to the start of the monitor: the configuration it runs
    with. *)
Definition newSSHDialer (fs : FS) (denied : option error) (cfg : sshDialerCfg) : error + sshDialerCfg :=
  match readKnownHostFingerprint fs denied (filepath_Dir (c_keyPath cfg)) with
  | inl e => inl e
  | inr fp => inr (if String.eqb fp "" then cfg else with_fingerprint fp cfg)
  end.

(** ** Connecting *)

(** The ssh package: host keys, their fingerprint text, and the handshake of
    [ssh.NewClientConn], which gets the host key callback and reports the key
    it passed to it.  The laws are the documented ones: a handshake succeeds only
    after the callback was called and accepted the key, and the base64 text of
    a hash has no white space. *)
Class SSHLib : Type := {
  hostKey : Type;
  hash_text : hostKey -> string;
  hash_text_plain : forall k, existsb is_space (String.list_ascii_of_string (hash_text k)) = false;
  handshakeReply : Type;
  NewClientConn : handshakeReply -> (hostKey -> option error) -> option hostKey * (error + Z);
  callback_respected : forall reply cb seen c,
    NewClientConn reply cb = (seen, inr c) -> exists k, seen = Some k /\ cb k = None }.

Section Connect.
Context `{SSHLib}.

Definition sshFingerprint (k : hostKey) : string := "SHA256:" +:+ hash_text k.

(** The host key callback.  The key it stores in [remoteKey] is the one
    [NewClientConn] reports as seen. *)
Definition hostKeyCallback (cfg : sshDialerCfg) (k : hostKey) : option error :=
  if String.eqb (c_fingerprint cfg) "" then None
  else if String.eqb (sshFingerprint k) (c_fingerprint cfg) then None
  else Some (hostKeyMismatchError (c_fingerprint cfg) (sshFingerprint k)).

(** What the outside does during one call. *)
Record connectEnv := MkConnectEnv {
  n_readKey : error + string;
  n_parseKey : option error;
  n_dial : error + Z;              (* dl.Dial; the connection *)
  n_isTCP : bool;
  n_goos : string;
  n_now : Z;                       (* time.Now() before the handshake *)
  n_setDeadline : option error;
  n_handshake : handshakeReply;
  n_clearDeadline : option error;
  n_saveHosts : wfaEnv }.

(** The bound of the TCP dial and of the handshake. *)
Definition handshakeTimeout (cfg : sshDialerCfg) : Z :=
  if c_handshakeTimeout cfg <=? 0 then 10 * Second else c_handshakeTimeout cfg.

(** The result, the file system, the socket options set and whether the
    connection that was dialed has been closed again. *)
Record connected := MkConnected {
  r_result : error + (Z * string);   (* client and fingerprint *)
  r_fs : FS;
  r_opts : list sockopt;
  r_closed : bool }.

Definition wrapf (text : string) (e : error) : error := Errorf (text +:+ Error e) (Some e).

Definition connectSSH (env : connectEnv) (cfg : sshDialerCfg) (fs : FS) : connected :=
  match n_readKey env with
  | inl e => MkConnected (inl (wrapf "read SSH key: " e)) fs [] false
  | inr keyData =>
  match n_parseKey env with
  | Some e => MkConnected (inl (wrapf "parse SSH key: " e)) fs [] false
  | None =>
  let addr := JoinHostPort (c_host cfg) (Itoa (c_port cfg)) in
  match n_dial env with
  | inl e => MkConnected (inl (connectError stateUnreachable (wrapf ("SSH dial to " +:+ addr +:+ ": ") e))) fs [] false
  | inr conn =>
  let opts := if n_isTCP env then keepalive_opts (n_goos env) cfg else [] in
  match n_setDeadline env with
  | Some e => MkConnected (inl (wrapf ("SSH handshake deadline to " +:+ addr +:+ ": ") e)) fs opts true
  | None =>
  let opts := opts ++ [SetDeadline (time_Add (n_now env) (handshakeTimeout cfg))] in
  match NewClientConn (n_handshake env) (hostKeyCallback cfg) with
  | (_, inl e) =>
      MkConnected (inl (connectError (handshakeState e) (wrapf ("SSH handshake to " +:+ addr +:+ ": ") e))) fs opts true
  | (remoteKey, inr client) =>
  match n_clearDeadline env with
  | Some e => MkConnected (inl (wrapf ("clear SSH handshake deadline on " +:+ addr +:+ ": ") e)) fs opts true
  | None =>
  let opts := opts ++ [ClearDeadline] in
  match remoteKey with
  | None => MkConnected (inr (client, "")) fs opts false
  | Some key =>
      let fp := sshFingerprint key in
      if String.eqb (c_fingerprint cfg) "" then
        let r := writeFileAtomic (n_saveHosts env) (knownHosts cfg) fp mode_0600 fs in
        match fst r with
        | Some e => MkConnected (inl (wrapf "save SSH host key fingerprint: " e)) (wfa_final r fs) opts true
        | None => MkConnected (inr (client, fp)) (wfa_final r fs) opts false
        end
      else MkConnected (inr (client, fp)) fs opts false
  end end end end end end end.

(** *** Lemmas *)

Lemma no_space_trim (t : string) :
  existsb is_space (String.list_ascii_of_string t) = false -> TrimSpace t = t.
Proof.
  intros Ht. unfold TrimSpace, TrimFunc.
  assert (Hl : trim_left is_space t = t).
  { destruct t as [|a t]; [done|]. cbn in *. by destruct (is_space a). }
  rewrite Hl. clear Hl. induction t as [|a t IH]; [done|]. cbn in *.
  apply orb_false_iff in Ht as [Ha Ht]. rewrite IH by done. rewrite Ha. by destruct t.
Qed.
Lemma sshFingerprint_trim k : TrimSpace (sshFingerprint k) = sshFingerprint k.
Proof. apply no_space_trim. cbn. apply hash_text_plain. Qed.

(** The successful runs of [connectSSH]. *)
Lemma connectSSH_success env cfg fs client fp :
  r_result (connectSSH env cfg fs) = inr (client, fp) ->
  exists seen, NewClientConn (n_handshake env) (hostKeyCallback cfg) = (seen, inr client) /\
    r_closed (connectSSH env cfg fs) = false /\
    match seen with
    | None => fp = "" /\ r_fs (connectSSH env cfg fs) = fs
    | Some k => fp = sshFingerprint k /\
        if String.eqb (c_fingerprint cfg) ""
        then fst (writeFileAtomic (n_saveHosts env) (knownHosts cfg) fp mode_0600 fs) = None /\
             r_fs (connectSSH env cfg fs) = wfa_final (writeFileAtomic (n_saveHosts env) (knownHosts cfg) fp mode_0600 fs) fs
        else r_fs (connectSSH env cfg fs) = fs
    end.
Proof.
  unfold connectSSH. cbv zeta.
  destruct (n_readKey env); [done|]. destruct (n_parseKey env); [done|]. destruct (n_dial env); [done|].
  destruct (n_setDeadline env); [done|].
  destruct (NewClientConn _ _) as [seen [e|c]] eqn:En; [by destruct seen|].
  destruct (n_clearDeadline env); [by destruct seen|].
  destruct seen as [k|]; [|intros [= <- <-]; by exists None].
  destruct (String.eqb (c_fingerprint cfg) "") eqn:Ef; [|intros [= <- <-]; by exists (Some k)].
  destruct (fst (writeFileAtomic _ _ _ _ _)) eqn:Ew; [done|]. intros [= <- <-]. by exists (Some k).
Qed.

(** ** Properties *)

Lemma connectSSH_fingerprint env cfg fs client fp :
  r_result (connectSSH env cfg fs) = inr (client, fp) -> fp <> "".
Proof.
  intros Hok. destruct (connectSSH_success env cfg fs client fp Hok) as (seen & En & _ & Hs).
  destruct (callback_respected _ _ _ _ En) as (k & -> & _). by destruct Hs as [-> _].
Qed.

(** With a fingerprint configured only that key is accepted. *)
Lemma connectSSH_pinned env cfg fs client fp : c_fingerprint cfg <> "" ->
  r_result (connectSSH env cfg fs) = inr (client, fp) ->
  fp = c_fingerprint cfg /\ r_fs (connectSSH env cfg fs) = fs /\
  exists k, fst (NewClientConn (n_handshake env) (hostKeyCallback cfg)) = Some k /\
            sshFingerprint k = c_fingerprint cfg.
Proof.
  intros Hpin Hok.
  destruct (connectSSH_success env cfg fs client fp Hok) as (seen & En & _ & Hs).
  destruct (callback_respected _ _ _ _ En) as (k & -> & Hcb). unfold hostKeyCallback in Hcb.
  destruct (String.eqb_spec (c_fingerprint cfg) ""); [done|]. destruct Hs as [-> Hfs].
  destruct (String.eqb_spec (sshFingerprint k) (c_fingerprint cfg)); [|done].
  repeat split; try done. exists k. by rewrite En.
Qed.

(** C10: a pinned host key is enforced: with a fingerprint configured, a
    connection is established only if the key the server proved during the
    handshake has that very fingerprint, which is also the one returned, and
    the known hosts file is not written. *)
Theorem pinned_key_enforced env cfg fs client fp (Hpin : c_fingerprint cfg <> "")
    (Hok : r_result (connectSSH env cfg fs) = inr (client, fp)) :
  fp = c_fingerprint cfg /\ r_fs (connectSSH env cfg fs) = fs /\
  exists k, fst (NewClientConn (n_handshake env) (hostKeyCallback cfg)) = Some k /\
            sshFingerprint k = c_fingerprint cfg.
Proof. by apply (connectSSH_pinned env cfg fs client fp). Qed.

(** C11: trust on first use survives a restart: when a first connection
    succeeds, the fingerprint it returned has been saved, and a dialer built
    later on those files runs with that fingerprint pinned; when it could not
    be saved, the connection fails. *)
Theorem tofu_pins_next_start env cfg fs (Hfirst : c_fingerprint cfg = "")
    (Hfresh : fresh_temp (n_saveHosts env)) :
  (forall client fp, r_result (connectSSH env cfg fs) = inr (client, fp) ->
     newSSHDialer (r_fs (connectSSH env cfg fs)) None cfg = inr (with_fingerprint fp cfg)) /\
  (forall k client, NewClientConn (n_handshake env) (hostKeyCallback cfg) = (Some k, inr client) ->
     fst (writeFileAtomic (n_saveHosts env) (knownHosts cfg) (sshFingerprint k) mode_0600 fs) <> None ->
     forall r, r_result (connectSSH env cfg fs) <> inr r).
Proof.
  split.
  - intros client fp Hok. destruct (connectSSH_success env cfg fs client fp Hok) as (seen & En & _ & Hs).
    destruct (callback_respected _ _ _ _ En) as (k & -> & _). destruct Hs as [-> Hs].
    rewrite Hfirst, String.eqb_refl in Hs. destruct Hs as [Hw ->].
    pose proof (wfa_result (n_saveHosts env) (knownHosts cfg) (sshFingerprint k) mode_0600 fs Hfresh) as Hr.
    rewrite Hw in Hr. rewrite Hr. unfold newSSHDialer, readKnownHostFingerprint, ReadFile.
    fold (knownHosts cfg). rewrite lookup_insert_eq. cbn [f_data]. rewrite sshFingerprint_trim.
    reflexivity.
  - intros k client En Hw [c fp] Hok.
    destruct (connectSSH_success env cfg fs c fp Hok) as (seen & En' & _ & Hs). rewrite En in En'. simplify_eq.
    destruct Hs as [-> Hs]. rewrite Hfirst, String.eqb_refl in Hs. by destruct Hs.
Qed.

(** No transport is leaked: once the TCP connection to the server is
    made, [connectSSH] either returns a client on it or closes it, and every
    error of the handshake carries the state its cause leads to. *)
Theorem connectSSH_closes_on_error env cfg fs conn e
    (Hdial : n_dial env = inr conn) (Hkey : exists d, n_readKey env = inr d) (Hparse : n_parseKey env = None)
    (Herr : r_result (connectSSH env cfg fs) = inl e) :
  r_closed (connectSSH env cfg fs) = true /\
  (forall seen he, n_setDeadline env = None ->
     NewClientConn (n_handshake env) (hostKeyCallback cfg) = (seen, inl he) ->
     failState e = handshakeState he).
Proof.
  revert Herr. destruct Hkey as [d Hkey]. unfold connectSSH. cbv zeta. rewrite Hkey, Hparse, Hdial.
  destruct (n_setDeadline env) as [e0|]; [done|].
  destruct (NewClientConn _ _) as [seen [he|c]].
  { destruct seen; cbn; intros [= <-]; (split; [done|]); intros seen' he' _ [= <- <-]; done. }
  destruct (n_clearDeadline env); [destruct seen; (split; [done|]); intros; congruence|].
  destruct seen as [k|]; [|done]. destruct (String.eqb _ ""); [|done].
  destruct (fst (writeFileAtomic _ _ _ _ _)); [|done]. split; [done|]. intros; congruence.
Qed.

(** The backoff is bounded and never spins: the delay before a retry
    doubles from two seconds up to the cap, stays between one second and one
    minute for every attempt, and never decreases. *)
Theorem reconnectDelay_bounds (attempt : Z) (Ha : 0 <= attempt) :
  reconnectDelay attempt = Z.min (60 * Second) (Second * 2 ^ Z.min attempt 6) /\
  Second <= reconnectDelay attempt <= 60 * Second /\
  reconnectDelay attempt <= reconnectDelay (attempt + 1).
Proof.
  assert (Hd : forall a, 0 <= a -> reconnectDelay a = Z.min (60 * Second) (Second * 2 ^ Z.min a 6)).
  { intros a Ha'. unfold reconnectDelay. cbv zeta. replace (if 6 <? a then 6 else a) with (Z.min a 6) by cases_lia.
    rewrite Z.shiftl_mul_pow2 by lia.
    assert (2 ^ Z.min a 6 <= 2 ^ 6) by (apply Z.pow_le_mono_r; lia).
    assert (0 < 2 ^ Z.min a 6) by (apply Z.pow_pos_nonneg; lia).
    rewrite wrap64_id by (unfold in_int64, int64_min, int64_max, Second; lia). cases_lia. }
  split; [by apply Hd|]. rewrite !Hd by lia.
  assert (1 <= 2 ^ Z.min attempt 6) by (apply (Z.pow_le_mono_r 2 0); lia).
  assert (2 ^ Z.min attempt 6 <= 2 ^ Z.min (attempt + 1) 6) by (apply Z.pow_le_mono_r; lia).
  unfold Second. lia.
Qed.
End Connect.

(** *** Instances *)

(** A server that presents a key and completes the handshake when the callback
    accepts it. *)
Program Definition toy_ssh : SSHLib := {|
  hostKey := bool; hash_text k := if k then "AAAA" else "BBBB";
  handshakeReply := bool;
  NewClientConn k cb := (Some k, match cb k with Some e => inl e | None => inr 5 end) |}.
Next Obligation. by intros []. Qed.
Next Obligation. intros reply cb seen c. cbn. intros [= <-]. exists reply. by destruct (cb reply). Qed.

Definition demo_connect (k : bool) : connectEnv (H := toy_ssh) :=
  MkConnectEnv (H := toy_ssh) (inr "key") None (inr 3) true "linux" 0 None k None all_ok.
Definition demo_cfg (fp : string) : sshDialerCfg :=
  MkCfg "vps.example" 22 "gate" "/data/ssh_key" fp (30 * Second) 15 3 (10 * Second) 0.

Lemma pinned_key_enforced_witness :
  r_result (connectSSH (demo_connect true) (demo_cfg "SHA256:AAAA") ∅) = inr (5, "SHA256:AAAA") /\
  exists k, fst (NewClientConn (SSHLib := toy_ssh) true (hostKeyCallback (demo_cfg "SHA256:AAAA"))) = Some k /\
            sshFingerprint k = "SHA256:AAAA".
Proof.
  split; [reflexivity|].
  apply (pinned_key_enforced (H := toy_ssh) (demo_connect true) (demo_cfg "SHA256:AAAA") ∅ 5 "SHA256:AAAA");
    [discriminate|reflexivity].
Defined.

Lemma tofu_pins_next_start_witness :
  newSSHDialer (r_fs (connectSSH (demo_connect false) (demo_cfg "") ∅)) None (demo_cfg "")
  = inr (demo_cfg "SHA256:BBBB").
Proof.
  apply (proj1 (tofu_pins_next_start (H := toy_ssh) (demo_connect false) (demo_cfg "") ∅ eq_refl all_ok_fresh)
           5 "SHA256:BBBB"). reflexivity.
Defined.

Lemma connectSSH_closes_on_error_witness :
  r_closed (connectSSH (demo_connect true) (demo_cfg "SHA256:BBBB") ∅) = true.
Proof.
  eapply (connectSSH_closes_on_error (H := toy_ssh) (demo_connect true) (demo_cfg "SHA256:BBBB") ∅ 3);
    [reflexivity|exists "key"; reflexivity|reflexivity|reflexivity].
Defined.

Lemma reconnectDelay_bounds_witness : reconnectDelay 34 = 60 * Second.
Proof. rewrite (proj1 (reconnectDelay_bounds 34 ltac:(lia))). vm_compute. reflexivity. Defined.
