(* ===== verification/Monitor.v ===== *)
(** dialer.go, the life of the tunnel: the monitor goroutine, [stop] and the
    keepalive loops as interleaved steps over the shared dialer.  A step is
    one access to the shared state or one blocking call, as the mutex and the
    atomic flag order them. *)

From S2P Require Import Prelude GoStrings Errors Files Status TcpInfo Connect.

(** ** What the monitor needs of a connection attempt *)

(** [connect fp r]: an attempt with the fingerprint [fp] may end in [r].  The
    promise is the host key check. *)
Class Connector : Type := {
  connect : string -> error + (Z * string) -> Prop;
  connect_pinned : forall fp c fp', connect fp (inr (c, fp')) -> fp' <> "" /\ (fp <> "" -> fp' = fp) }.

(** [connectSSH] keeps it. *)
Program Definition ssh_connector `{SSHLib} (cfg : sshDialerCfg) : Connector := {|
  connect fp r := exists env fs, r_result (connectSSH env (with_fingerprint fp cfg) fs) = r |}.
Next Obligation.
  intros H cfg fp c fp' (env & fs & Hr). split; [by eapply connectSSH_fingerprint|]. intros Hfp.
  by destruct (connectSSH_pinned env (with_fingerprint fp cfg) fs c fp' Hfp Hr) as [-> _].
Qed.

(** ** State *)

(** The fields of sshDialer; [sh_closed] are the clients whose connection is
    down, [sh_known] all clients ever made, [sh_fps] the fingerprint each
    published client was verified with (these three are kept for the theorems,
    the dialer has no such fields), [sh_raw] the client whose socket handle
    [rawConn] is. *)
Record shared := MkShared {
  sh_client : option Z;
  sh_done : bool;
  sh_status : tunnelStatus;
  sh_closed : gset Z;
  sh_known : gset Z;
  sh_fps : gmap Z string;
  sh_raw : option Z }.

(** Where the monitor is, and its local variables. *)
Inductive mon_pc : Type :=
| PTop                              (* reads d.client *)
| PWait (c : Z)                     (* client.Wait() *)
| PWoken                            (* d.done.Load() after Wait *)
| PLost                             (* d.client = nil *)
| PReport                           (* setStatus(reconnecting) *)
| PSleep                            (* time.Sleep(delay), then d.done.Load() *)
| PDial                             (* connect(cfg) *)
| PGot (c : Z) (fp : string)        (* d.done.Load() after connect *)
| PPublish (c : Z) (fp : string)    (* d.client = newClient *)
| PAfter (old : option Z) (c : Z) (fp : string)
| PExit.
Record local := MkLocal { l_pc : mon_pc; l_attempt : Z; l_delay : Z; l_pinned : string }.

Inductive stop_pc : Type := SIdle | SStored | SGot (c : option Z) | SDone.
Inductive keep_pc : Type := KTick | KProbe.

Definition goto (pc : mon_pc) (lo : local) : local := MkLocal pc (l_attempt lo) (l_delay lo) (l_pinned lo).
Definition set_client (c : option Z) (sh : shared) : shared :=
  MkShared c (sh_done sh) (sh_status sh) (sh_closed sh) (sh_known sh) (sh_fps sh) (sh_raw sh).
(** [d.client] and [d.rawConn] are set under one lock. *)
Definition publish_client (c : Z) (sh : shared) : shared :=
  MkShared (Some c) (sh_done sh) (sh_status sh) (sh_closed sh) (sh_known sh) (sh_fps sh) (Some c).
Definition setStatus (st : tunnelStatus) (sh : shared) : shared :=
  MkShared (sh_client sh) (sh_done sh) st (sh_closed sh) (sh_known sh) (sh_fps sh) (sh_raw sh).
(** [Status]. *)
Definition dialer_Status (sh : shared) : tunnelStatus := sh_status sh.
Definition close_client (c : option Z) (sh : shared) : shared :=
  match c with
  | None => sh
  | Some c => MkShared (sh_client sh) (sh_done sh) (sh_status sh) ({[c]} ∪ sh_closed sh) (sh_known sh) (sh_fps sh) (sh_raw sh)
  end.
Definition add_known (c : Z) (sh : shared) : shared :=
  MkShared (sh_client sh) (sh_done sh) (sh_status sh) (sh_closed sh) ({[c]} ∪ sh_known sh) (sh_fps sh) (sh_raw sh).
Definition add_fp (c : Z) (fp : string) (sh : shared) : shared :=
  MkShared (sh_client sh) (sh_done sh) (sh_status sh) (sh_closed sh) (sh_known sh) (<[c := fp]> (sh_fps sh)) (sh_raw sh).

Definition Connected (sh : shared) : bool := match sh_client sh with Some _ => true | None => false end.
(** [TunnelTCPStats]: [read c] is what readTCPStats returns on the socket of
    the client [c]. *)
Definition TunnelTCPStats (read : Z -> option tcpStats) (sh : shared) : option tcpStats :=
  match sh_raw sh with None => None | Some c => read c end.

(** ** Steps *)

(** One step of [monitor]; [r] and [jitter] are the outcome of [connect] and
    of rand.Intn(500), used by [PDial] only.  [None]: blocked or ended.  The
    last component is the client of a started keepalive loop. *)
Definition monitor_step (cfg : sshDialerCfg) (r : error + (Z * string)) (jitter : Z)
    (sh : shared) (lo : local) : option (shared * local * option Z) :=
  match l_pc lo with
  | PTop =>
      Some (sh, goto (match sh_client sh with Some c => PWait c | None => PSleep end) lo, None)
  | PWait c => if bool_decide (c ∈ sh_closed sh) then Some (sh, goto PWoken lo, None) else None
  | PWoken => Some (sh, goto (if sh_done sh then PExit else PLost) lo, None)
  | PLost => Some (set_client None sh, goto PReport lo, None)
  | PReport => Some (setStatus (status_of stateReconnecting) sh, goto PSleep lo, None)
  | PSleep => Some (sh, goto (if sh_done sh then PExit else PDial) lo, None)
  | PDial =>
      match r with
      | inl err =>
          let attempt := wrap64 (l_attempt lo + 1) in
          let delay := reconnectDelay attempt + jitter * Millisecond in
          Some (setStatus (MkStatus (failState err) (Some err) attempt delay) sh,
                MkLocal PTop attempt delay (l_pinned lo), None)
      | inr (c, fp) => Some (add_known c sh, goto (PGot c fp) lo, None)
      end
  | PGot c fp =>
      if sh_done sh then Some (close_client (Some c) sh, goto PExit lo, None)
      else Some (sh, goto (PPublish c fp) lo, None)
  | PPublish c fp => Some (publish_client c sh, goto (PAfter (sh_client sh) c fp) lo, None)
  | PAfter old c fp =>
      Some (setStatus (status_of stateConnected) (add_fp c fp (close_client old sh)),
            MkLocal PTop 0 0 (if String.eqb (l_pinned lo) "" then fp else l_pinned lo),
            if 0 <? c_keepalivePeriod cfg then Some c else None)
  | PExit => None
  end.

(** One step of [stop]. *)
Definition stop_step (sh : shared) (pc : stop_pc) : option (shared * stop_pc) :=
  match pc with
  | SIdle => Some (MkShared (sh_client sh) true (sh_status sh) (sh_closed sh) (sh_known sh) (sh_fps sh)
                        (sh_raw sh), SStored)
  | SStored => Some (sh, SGot (sh_client sh))
  | SGot c => Some (close_client c sh, SDone)
  | SDone => None
  end.

(** One step of a keepalive loop on the client [c]: [None] ends the loop. *)
Definition keepalive_step (answered : bool) (c : Z) (pc : keep_pc) (sh : shared) : shared * option keep_pc :=
  match pc with
  | KTick => (sh, if bool_decide (sh_client sh = Some c) && negb (sh_done sh) then Some KProbe else None)
  | KProbe => if answered then (sh, Some KTick) else (close_client (Some c) sh, None)
  end.

Record mstate := MkState {
  ms_shared : shared; ms_local : local; ms_stop : stop_pc; ms_keepers : list (Z * keep_pc) }.

Section System.
Context `{Connector} (cfg : sshDialerCfg).

Definition init (sh_pinned : string) : mstate :=
  MkState (MkShared None false (status_of stateConnecting) ∅ ∅ ∅ None) (MkLocal PTop 0 0 sh_pinned) SIdle [].

Inductive step : mstate -> mstate -> Prop :=
| step_monitor sh lo sp ks r jitter sh' lo' k
    (Hconn : l_pc lo = PDial -> connect (l_pinned lo) r)
    (Hnew : l_pc lo = PDial -> forall c fp, r = inr (c, fp) -> c ∉ sh_known sh)
    (Hjit : 0 <= jitter < 500)
    (Hrun : monitor_step cfg r jitter sh lo = Some (sh', lo', k)) :
    step (MkState sh lo sp ks) (MkState sh' lo' sp (match k with Some c => (c, KTick) :: ks | None => ks end))
| step_stop sh lo sp ks sh' sp'
    (Hrun : stop_step sh sp = Some (sh', sp')) :
    step (MkState sh lo sp ks) (MkState sh' lo sp' ks)
| step_keepalive sh lo sp ks1 ks2 c pc answered sh' pc'
    (Hrun : keepalive_step answered c pc sh = (sh', pc')) :
    step (MkState sh lo sp (ks1 ++ (c, pc) :: ks2))
         (MkState sh' lo sp (ks1 ++ (match pc' with Some q => [(c, q)] | None => [] end) ++ ks2))
| step_drop sh lo sp ks c (Hc : c ∈ sh_known sh) :           (* the transport of a client dies *)
    step (MkState sh lo sp ks) (MkState (close_client (Some c) sh) lo sp ks).

(** States after [n] steps from the start. *)
Inductive reachable (pinned0 : string) : nat -> mstate -> Prop :=
| reach_init : reachable pinned0 0 (init pinned0)
| reach_step n s s' : reachable pinned0 n s -> step s s' -> reachable pinned0 (S n) s'.

(** ** The invariant *)

(** The client the monitor has made and not published yet. *)
Definition held (pc : mon_pc) : option Z :=
  match pc with PGot c _ | PPublish c _ => Some c | _ => None end.
(** The fingerprint of a client that is being published. *)
Definition pending (pc : mon_pc) : option string :=
  match pc with PGot _ fp | PPublish _ fp | PAfter _ _ fp => Some fp | _ => None end.

(** What [d.client] is at each point of the monitor, which alone writes it. *)
Definition client_at (sh : shared) (pc : mon_pc) : Prop :=
  match pc with
  | PTop => True
  | PWait c => sh_client sh = Some c
  | PWoken | PLost => exists c, sh_client sh = Some c /\ c ∈ sh_closed sh
  | PReport | PSleep | PDial | PGot _ _ | PPublish _ _ => sh_client sh = None
  | PAfter old c _ => old = None /\ sh_client sh = Some c
  | PExit => sh_known sh ⊆ sh_closed sh
  end.
Definition fp_ok (pinned fp : string) : Prop := fp <> "" /\ (pinned <> "" -> fp = pinned).

Record sinv (pinned0 : string) (sh : shared) (lo : local) : Prop := MkSinv {
  v_client : client_at sh (l_pc lo);
  v_open : forall c, c ∈ sh_known sh -> c ∈ sh_closed sh \/ sh_client sh = Some c \/ held (l_pc lo) = Some c;
  v_pin0 : pinned0 <> "" -> l_pinned lo = pinned0;
  v_fps : map_Forall (fun _ fp => fp <> "" /\ fp = l_pinned lo) (sh_fps sh);
  v_raw : forall c, sh_client sh = Some c -> sh_raw sh = Some c;
  v_pending : forall fp, pending (l_pc lo) = Some fp -> fp_ok (l_pinned lo) fp }.

Lemma init_sinv pinned0 : sinv pinned0 (ms_shared (init pinned0)) (ms_local (init pinned0)).
Proof.
  by split.
Qed.

(** Closing a client, by whoever, keeps the invariant. *)
Lemma close_sinv pinned0 c sh lo : sinv pinned0 sh lo -> sinv pinned0 (close_client c sh) lo.
Proof.
  destruct c as [c|]; [|done]. intros [Hc Ho Hp Hf Hraw Hg]. split; cbn; try done.
  - destruct (l_pc lo); cbn in *; try done; [destruct Hc as (c' & ? & ?); exists c'; set_solver..|set_solver].
  - intros c' Hc'. destruct (Ho c' Hc') as [?|?]; [left; set_solver|by right].
Qed.

Lemma monitor_sinv pinned0 r jitter sh lo sh' lo' k :
  (l_pc lo = PDial -> connect (l_pinned lo) r) ->
  monitor_step cfg r jitter sh lo = Some (sh', lo', k) -> sinv pinned0 sh lo -> sinv pinned0 sh' lo'.
Proof.
  intros Hconn Hrun [Hc Ho Hp Hf Hraw Hg]. unfold monitor_step in Hrun.
  destruct (l_pc lo) as [ |c| | | | | |c fp|c fp|old c fp| ] eqn:Epc; cbn in Hc, Ho, Hg.
  - (* PTop *) injection Hrun as <- <- <-. destruct (sh_client sh) eqn:E; split; cbn; try done; by rewrite ?E.
  - (* PWait *) case_bool_decide; [|done]. injection Hrun as <- <- <-. split; cbn; eauto.
  - (* PWoken *) injection Hrun as <- <- <-. destruct (sh_done sh); split; cbn; try done. intros c Hk.
    destruct Hc as (c' & Ec & ?). destruct (Ho c Hk) as [?|[E|?]]; [done| |done]. congruence.
  - (* PLost *) injection Hrun as <- <- <-. split; cbn; try done. intros c Hk. left. destruct Hc as (c' & Ec & ?).
    destruct (Ho c Hk) as [?|[E|?]]; [done| |done]. congruence.
  - (* PReport *) injection Hrun as <- <- <-. by split.
  - (* PSleep *) injection Hrun as <- <- <-. destruct (sh_done sh); split; cbn; try done. intros c Hk.
    destruct (Ho c Hk) as [?|[E|?]]; [done|congruence|done].
  - (* PDial *) specialize (Hconn eq_refl). destruct r as [err|[c fp]]; injection Hrun as <- <- <-; split; cbn; try done.
    + intros c' Hk. apply elem_of_union in Hk as [->%elem_of_singleton|Hk]; [by right; right|].
      destruct (Ho c' Hk) as [?|[?|?]]; [by left|by right; left|done].
    + intros fp' [= <-]. by eapply connect_pinned.
  - (* PGot *) destruct (sh_done sh); injection Hrun as <- <- <-; split; cbn; try done.
    + intros c' Hk. destruct (Ho c' Hk) as [?|[?|[= ->]]]; [set_solver|congruence|set_solver].
    + intros c' Hk. destruct (Ho c' Hk) as [?|[?|[= ->]]]; [left; set_solver|congruence|left; set_solver].
  - (* PPublish *) injection Hrun as <- <- <-. split; cbn; try done.
    intros c' Hk. destruct (Ho c' Hk) as [?|[?|[= ->]]]; [by left|congruence|by right; left].
  - (* PAfter *) injection Hrun as <- <- <-. destruct Hc as [-> Hcl]. split; cbn; try done.
    + intros Hne. rewrite (Hp Hne). by destruct (String.eqb_spec pinned0 "").
    + destruct (Hg fp eq_refl) as [Hne Heq].
      apply map_Forall_insert_2.
      * split; [done|]. destruct (String.eqb_spec (l_pinned lo) ""); [done|by apply Heq].
      * eapply map_Forall_impl; [exact Hf|]. intros c' fp' [Hok ->].
        by destruct (String.eqb_spec (l_pinned lo) "").
  - (* PExit *) done.
Qed.

Lemma step_sinv pinned0 s s' : step s s' ->
  sinv pinned0 (ms_shared s) (ms_local s) -> sinv pinned0 (ms_shared s') (ms_local s').
Proof.
  intros Hs Hi. destruct Hs; cbn in *.
  - by eapply monitor_sinv.
  - destruct sp; cbn in Hrun; simplify_eq; [by destruct Hi; split|done|by apply close_sinv].
  - destruct pc; cbn in Hrun; [by simplify_eq|]. destruct answered; simplify_eq; [done|by apply (close_sinv _ (Some c))].
  - by apply (close_sinv _ (Some c)).
Qed.

Lemma reachable_sinv pinned0 n s : reachable pinned0 n s -> sinv pinned0 (ms_shared s) (ms_local s).
Proof. induction 1; [apply init_sinv|by eapply step_sinv]. Qed.

(** ** Properties *)

(** C22: one tunnel at a time: in every interleaving of the monitor, stop, the
    keepalive loops and connection losses, every client ever made is closed,
    except the one in [d.client] and the one the monitor is about to publish;
    publishing never replaces a live client, and when the monitor has ended
    all clients are closed. *)
Theorem one_open_client pinned0 n s (Hr : reachable pinned0 n s) :
  let sh := ms_shared s in let pc := l_pc (ms_local s) in
  (forall c, c ∈ sh_known sh -> c ∈ sh_closed sh \/ sh_client sh = Some c \/ held pc = Some c) /\
  (held pc <> None -> sh_client sh = None) /\
  (pc = PExit -> sh_known sh ⊆ sh_closed sh).
Proof.
  destruct (reachable_sinv _ _ _ Hr) as [Hc Ho _ _ _ _]. cbv zeta. split; [done|].
  destruct (l_pc (ms_local s)); cbn in *; done.
Qed.

(** The statistics are those of the tunnel in use: when a client is
    published, [TunnelTCPStats] reads its socket and no older one, and before
    the first connection there are none. *)
Theorem stats_of_current_client pinned0 n s (read : Z -> option tcpStats) (Hr : reachable pinned0 n s) :
  (forall c, sh_client (ms_shared s) = Some c -> TunnelTCPStats read (ms_shared s) = read c) /\
  TunnelTCPStats read (ms_shared (init pinned0)) = None.
Proof.
  split; [|done]. intros c Hc. unfold TunnelTCPStats.
  by rewrite (v_raw _ _ _ (reachable_sinv _ _ _ Hr) c Hc).
Qed.

(** C24: the host key is pinned for the life of the process: the fingerprint
    from ssh_known_hosts, or else the one of the first connection, never
    changes, and every client that is ever published was verified with it. *)
Theorem pin_is_kept pinned0 n s s' (Hr : reachable pinned0 n s) (Hs : step s s') :
  (pinned0 <> "" -> l_pinned (ms_local s') = pinned0) /\
  (l_pinned (ms_local s) <> "" -> l_pinned (ms_local s') = l_pinned (ms_local s)) /\
  map_Forall (fun _ fp => fp <> "" /\ fp = l_pinned (ms_local s')) (sh_fps (ms_shared s')).
Proof.
  pose proof (reachable_sinv _ _ _ (reach_step _ _ _ _ Hr Hs)) as [_ _ Hp Hf _ _].
  split; [done|]. split; [|exact Hf].
  intros Hne. destruct Hs as [sh lo sp ks r jitter sh' lo' k _ _ _ Hrun| | |]; cbn in *; [|done..].
  unfold monitor_step in Hrun. destruct (l_pc lo); simplify_eq; try done; try (by case_match; simplify_eq).
  - destruct r as [|[? ?]]; by simplify_eq.
  - cbn. by destruct (String.eqb_spec (l_pinned lo) "").
Qed.

(** The delay before the next attempt against the failures so far: none
    before the first, then doubling from two seconds up to a minute, with less
    than half a second on top. *)
Definition backoff_ok (n : nat) (lo : local) : Prop :=
  (l_attempt lo = 0 /\ l_delay lo = 0) \/
  (1 <= l_attempt lo <= Z.of_nat n /\
   let base := Z.min (2 ^ l_attempt lo) 60 * Second in base <= l_delay lo < base + 500 * Millisecond).
Lemma reconnectDelay_doubles a : 0 <= a -> reconnectDelay a = Z.min (2 ^ a) 60 * Second.
Proof.
  intros Ha. unfold reconnectDelay. cbv zeta. replace (if 6 <? a then 6 else a) with (Z.min a 6) by cases_lia.
  rewrite Z.shiftl_mul_pow2 by lia.
  assert (2 ^ Z.min a 6 <= 2 ^ 6) by (apply Z.pow_le_mono_r; lia).
  assert (0 < 2 ^ Z.min a 6) by (apply Z.pow_pos_nonneg; lia).
  rewrite wrap64_id by (unfold in_int64, int64_min, int64_max, Second; lia).
  destruct (Z.le_gt_cases a 6); [rewrite Z.min_l by lia; unfold Second; cases_lia|].
  rewrite (Z.min_r a 6) by lia. assert (2 ^ 6 <= 2 ^ a) by (apply Z.pow_le_mono_r; lia). unfold Second. cases_lia.
Qed.
Lemma backoff_counts pinned0 n s : reachable pinned0 n s -> Z.of_nat n < 2 ^ 63 -> backoff_ok n (ms_local s).
Proof.
  intros Hr Hn. induction Hr as [|n s s' Hr IH Hs]; [by left|]. specialize (IH ltac:(lia)).
  assert (Hmono : forall lo, backoff_ok n lo -> backoff_ok (S n) lo) by (unfold backoff_ok; intros; lia).
  destruct Hs as [sh lo sp ks r jitter sh' lo' k _ _ Hjit Hrun| | |]; cbn in *; [|by apply Hmono..].
  unfold monitor_step in Hrun. destruct (l_pc lo); simplify_eq; try (apply Hmono, IH);
    try (case_match; simplify_eq; apply Hmono, IH); [|by left].
  destruct r as [err|[c fp]]; simplify_eq; [|apply Hmono, IH]. right. cbn.
  assert (Ha : 0 <= l_attempt lo <= Z.of_nat n) by (destruct IH; lia).
  rewrite wrap64_id by (unfold in_int64, int64_min, int64_max; lia).
  rewrite reconnectDelay_doubles by lia. unfold Millisecond. lia.
Qed.
(** A connection forgets the failures before it. *)
Definition rested (sh : shared) (lo : local) : Prop :=
  match l_pc lo with
  | PWait _ | PWoken | PLost | PReport => l_attempt lo = 0 /\ l_delay lo = 0
  | PTop => sh_client sh <> None -> l_attempt lo = 0 /\ l_delay lo = 0
  | _ => True
  end.
Lemma rests_when_connected pinned0 n s : reachable pinned0 n s -> rested (ms_shared s) (ms_local s).
Proof.
  induction 1 as [|n s s' Hr IH Hs]; [done|]. pose proof (v_client _ _ _ (reachable_sinv _ _ _ Hr)) as Hat.
  destruct Hs as [sh lo sp ks r jitter sh' lo' k _ _ _ Hrun|sh lo sp ks sh' sp' Hrun
    |sh lo sp ks1 ks2 c pc a sh' pc' Hrun|sh lo sp ks c Hc]; cbn in *.
  - unfold monitor_step, rested in *. destruct (l_pc lo) eqn:Epc; simplify_eq/=; try done;
      try (repeat case_match; simplify_eq/=; try done; by apply IH).
  - unfold rested in *. replace (sh_client sh') with (sh_client sh); [done|].
    destruct sp as [| |[]|]; cbn in Hrun; by simplify_eq.
  - unfold rested in *. replace (sh_client sh') with (sh_client sh); [done|].
    destruct pc, a; cbn in Hrun; by simplify_eq.
  - exact IH.
Qed.


(** Steps of the monitor and of stop, for building runs. *)
Lemma reach_mon pinned0 n sh lo sp ks r sh' lo' k :
  reachable pinned0 n (MkState sh lo sp ks) -> monitor_step cfg r 0 sh lo = Some (sh', lo', k) ->
  (l_pc lo = PDial -> connect (l_pinned lo) r /\ forall c fp, r = inr (c, fp) -> c ∉ sh_known sh) ->
  reachable pinned0 (S n) (MkState sh' lo' sp (match k with Some c => (c, KTick) :: ks | None => ks end)).
Proof.
  intros Hr Hrun Hd. eapply reach_step; [exact Hr|]. eapply (step_monitor sh lo sp ks r 0); [| |lia|exact Hrun].
  - intros E. by destruct (Hd E).
  - intros E. by destruct (Hd E).
Qed.
Lemma reach_stop pinned0 n sh lo sp ks sh' sp' :
  reachable pinned0 n (MkState sh lo sp ks) -> stop_step sh sp = Some (sh', sp') ->
  reachable pinned0 (S n) (MkState sh' lo sp' ks).
Proof. intros Hr Hrun. eapply reach_step; [exact Hr|]. by constructor. Qed.

(** Stopping can leave a client behind: when [stop] runs between the
    monitor's check of the flag after a connect and its publication of the
    client, stop finds no client to close and returns, and the client is then
    published, open, with the monitor waiting on it and nothing left that
    would close it. *)
Theorem stop_can_leave_a_client pinned0 c fp (Hc : connect pinned0 (inr (c, fp))) :
  exists n s, reachable pinned0 n s /\ ms_stop s = SDone /\ sh_done (ms_shared s) = true /\
    sh_client (ms_shared s) = Some c /\ (c ∉ sh_closed (ms_shared s)) /\ l_pc (ms_local s) = PWait c.
Proof.
  pose proof (reach_init pinned0) as R0. unfold init in R0.
  pose proof (reach_mon _ _ _ _ _ _ (inr (c, fp)) _ _ _ R0 eq_refl ltac:(done)) as R1.
  pose proof (reach_mon _ _ _ _ _ _ (inr (c, fp)) _ _ _ R1 eq_refl ltac:(done)) as R2.
  pose proof (reach_mon _ _ _ _ _ _ (inr (c, fp)) _ _ _ R2 eq_refl ltac:(intros _; split; [done|set_solver])) as R3.
  pose proof (reach_mon _ _ _ _ _ _ (inr (c, fp)) _ _ _ R3 eq_refl ltac:(done)) as R4.
  pose proof (reach_stop _ _ _ _ _ _ _ _ R4 eq_refl) as R5.
  pose proof (reach_stop _ _ _ _ _ _ _ _ R5 eq_refl) as R6.
  pose proof (reach_stop _ _ _ _ _ _ _ _ R6 eq_refl) as R7.
  pose proof (reach_mon _ _ _ _ _ _ (inr (c, fp)) _ _ _ R7 eq_refl ltac:(done)) as R8.
  pose proof (reach_mon _ _ _ _ _ _ (inr (c, fp)) _ _ _ R8 eq_refl ltac:(done)) as R9.
  pose proof (reach_mon _ _ _ _ _ _ (inr (c, fp)) _ _ _ R9 eq_refl ltac:(done)) as R10.
  eexists _, _. split; [exact R10|]. cbn. repeat split. set_solver.
Qed.

(** Outside that window stopping is final: once the flag is set while no
    client is published or about to be, no later step publishes one. *)
Theorem stop_prevents_publication s s'
    (Hdone : sh_done (ms_shared s) = true) (Hnone : sh_client (ms_shared s) = None)
    (Hpc : match l_pc (ms_local s) with PPublish _ _ | PAfter _ _ _ => False | _ => True end)
    (Hsteps : rtc step s s') :
  sh_done (ms_shared s') = true /\ sh_client (ms_shared s') = None.
Proof.
  cut (sh_done (ms_shared s') = true /\ sh_client (ms_shared s') = None /\
       match l_pc (ms_local s') with PPublish _ _ | PAfter _ _ _ => False | _ => True end); [tauto|].
  induction Hsteps as [s|s1 s2 s3 Hs _ IH]; [done|]. apply IH; clear IH; destruct Hs; cbn in *.
  all: try (destruct sp; cbn in Hrun; simplify_eq; by try destruct c).
  all: try (destruct pc, answered; cbn in Hrun; by simplify_eq).
  all: try done.
  all: unfold monitor_step in Hrun; rewrite ?Hdone, ?Hnone in Hrun; destruct (l_pc lo); try done;
    repeat case_match; simplify_eq; cbn; done.
Qed.
End System.

(** *** Instances *)

Definition demo_connector : Connector := ssh_connector (H := toy_ssh) (demo_cfg "").
Lemma demo_connects : connect (Connector := demo_connector) "" (inr (5, "SHA256:AAAA")).
Proof. exists (demo_connect true), ∅. reflexivity. Qed.

(** The dialer after its first connection. *)
Definition demo_state : mstate :=
  MkState (MkShared (Some 5) false (status_of stateConnected) ∅ {[5]} {[5 := "SHA256:AAAA"]} (Some 5))
    (MkLocal (PWait 5) 0 0 "SHA256:AAAA") SIdle [(5, KTick)].
Lemma demo_reachable : reachable (H := demo_connector) (demo_cfg "") "" 7 demo_state.
Proof.
  pose proof (reach_init (H := demo_connector) (demo_cfg "") "") as R0. unfold init in R0.
  pose proof (reach_mon _ _ _ _ _ _ _ (inr (5, "SHA256:AAAA")) _ _ _ R0 eq_refl ltac:(done)) as R1.
  pose proof (reach_mon _ _ _ _ _ _ _ (inr (5, "SHA256:AAAA")) _ _ _ R1 eq_refl ltac:(done)) as R2.
  pose proof (reach_mon _ _ _ _ _ _ _ (inr (5, "SHA256:AAAA")) _ _ _ R2 eq_refl
    ltac:(intros _; split; [apply demo_connects|set_solver])) as R3.
  pose proof (reach_mon _ _ _ _ _ _ _ (inr (5, "SHA256:AAAA")) _ _ _ R3 eq_refl ltac:(done)) as R4.
  pose proof (reach_mon _ _ _ _ _ _ _ (inr (5, "SHA256:AAAA")) _ _ _ R4 eq_refl ltac:(done)) as R5.
  pose proof (reach_mon _ _ _ _ _ _ _ (inr (5, "SHA256:AAAA")) _ _ _ R5 eq_refl ltac:(done)) as R6.
  pose proof (reach_mon _ _ _ _ _ _ _ (inr (5, "SHA256:AAAA")) _ _ _ R6 eq_refl ltac:(done)) as R7.
  exact R7.
Qed.

Lemma one_open_client_witness :
  5 ∈ sh_closed (ms_shared demo_state) \/ sh_client (ms_shared demo_state) = Some 5 \/
  held (l_pc (ms_local demo_state)) = Some 5.
Proof.
  apply (proj1 (one_open_client (H := demo_connector) (demo_cfg "") "" 7 demo_state demo_reachable) 5).
  cbn. set_solver.
Defined.

Lemma pin_is_kept_witness :
  l_pinned (ms_local (MkState (close_client (Some 5) (ms_shared demo_state)) (ms_local demo_state) SIdle [(5, KTick)]))
  = "SHA256:AAAA".
Proof.
  apply (pin_is_kept (H := demo_connector) (demo_cfg "") "" 7 demo_state
    (MkState (close_client (Some 5) (ms_shared demo_state)) (ms_local demo_state) SIdle [(5, KTick)]) demo_reachable).
  - apply step_drop. cbn. set_solver.
  - discriminate.
Defined.

(** After two refused attempts. *)
Definition demo_refused : mstate :=
  MkState (MkShared None false (MkStatus stateSSHError (Some io_EOF) 2 (4 * Second)) ∅ ∅ ∅ None)
    (MkLocal PTop 2 (4 * Second) "") SIdle [].
Definition refusing_connector : Connector :=
  {| connect fp r := r = inl io_EOF; connect_pinned fp c fp' H := match H with end |}.
Lemma demo_refused_reachable : reachable (H := refusing_connector) (demo_cfg "") "" 6 demo_refused.
Proof.
  pose proof (reach_init (H := refusing_connector) (demo_cfg "") "") as R0. unfold init in R0.
  pose proof (reach_mon _ _ _ _ _ _ _ (inl io_EOF) _ _ _ R0 eq_refl ltac:(done)) as R1.
  pose proof (reach_mon _ _ _ _ _ _ _ (inl io_EOF) _ _ _ R1 eq_refl ltac:(done)) as R2.
  pose proof (reach_mon _ _ _ _ _ _ _ (inl io_EOF) _ _ _ R2 eq_refl ltac:(done)) as R3.
  pose proof (reach_mon _ _ _ _ _ _ _ (inl io_EOF) _ _ _ R3 eq_refl ltac:(done)) as R4.
  pose proof (reach_mon _ _ _ _ _ _ _ (inl io_EOF) _ _ _ R4 eq_refl ltac:(done)) as R5.
  pose proof (reach_mon _ _ _ _ _ _ _ (inl io_EOF) _ _ _ R5 eq_refl ltac:(done)) as R6.
  exact R6.
Qed.

Lemma stop_can_leave_a_client_witness :
  exists n s, reachable (H := demo_connector) (demo_cfg "") "" n s /\ ms_stop s = SDone /\
    sh_client (ms_shared s) = Some 5 /\ 5 ∉ sh_closed (ms_shared s).
Proof.
  destruct (stop_can_leave_a_client (H := demo_connector) (demo_cfg "") "" 5 "SHA256:AAAA" demo_connects)
    as (n & s & ? & ? & _ & ? & ? & _).
  exists n, s. repeat split; assumption.
Defined.

Lemma stop_prevents_publication_witness :
  let s := MkState (MkShared None true (status_of stateConnecting) ∅ ∅ ∅ None) (MkLocal PDial 0 0 "") SDone [] in
  sh_client (ms_shared s) = None.
Proof.
  intros s. apply (stop_prevents_publication (H := demo_connector) (demo_cfg "") s s);
    [reflexivity|reflexivity|exact I|apply rtc_refl].
Defined.
