(* ===== verification/Reconnect.v ===== *)
(** The monitor brings the tunnel back: a liveness property of the steps of
    Monitor.v over infinite runs. *)

From S2P Require Import Prelude GoStrings Errors Files Status TcpInfo Connect Monitor.

Section Reconnect.
Context `{Connector} (cfg : sshDialerCfg).

(** ** Which clients there are *)

(** The clients the monitor has in its variables. *)
Definition mentions (pc : mon_pc) : list Z :=
  match pc with PGot c _ | PPublish c _ => [c] | PAfter old c _ => c :: option_list old | _ => [] end.
(** Every client anything refers to is one that was made. *)
Record known_inv (s : mstate) : Prop := MkKnown {
  k_closed : sh_closed (ms_shared s) ⊆ sh_known (ms_shared s);
  k_client : forall c, sh_client (ms_shared s) = Some c -> c ∈ sh_known (ms_shared s);
  k_local : forall c, c ∈ mentions (l_pc (ms_local s)) -> c ∈ sh_known (ms_shared s);
  k_stop : forall c, ms_stop s = SGot (Some c) -> c ∈ sh_known (ms_shared s);
  k_keepers : Forall (fun k => fst k ∈ sh_known (ms_shared s)) (ms_keepers s) }.

Lemma close_known c sh lo sp ks : known_inv (MkState sh lo sp ks) -> (forall x, c = Some x -> x ∈ sh_known sh) ->
  known_inv (MkState (close_client c sh) lo sp ks).
Proof.
  destruct c as [c|]; [|done]. intros [Hc Hcl Hl Hst Hk] Hx. specialize (Hx c eq_refl).
  split; cbn in *; try done. set_solver.
Qed.

Lemma monitor_known r jitter sh lo sp ks sh' lo' k :
  monitor_step cfg r jitter sh lo = Some (sh', lo', k) -> known_inv (MkState sh lo sp ks) ->
  known_inv (MkState sh' lo' sp (match k with Some c => (c, KTick) :: ks | None => ks end)).
Proof.
  intros Hrun [Hc Hcl Hl Hst Hk]. unfold monitor_step in Hrun. cbn in *.
  destruct (l_pc lo) as [ |c| | | | | |c fp|c fp|old c fp| ] eqn:Epc; cbn in Hl.
  - injection Hrun as <- <- <-. split; cbn; try done. by destruct (sh_client sh).
  - case_bool_decide; [|done]. injection Hrun as <- <- <-. split; cbn; try done; set_solver.
  - injection Hrun as <- <- <-. split; cbn; try done. by destruct (sh_done sh).
  - injection Hrun as <- <- <-. by split.
  - injection Hrun as <- <- <-. by split.
  - injection Hrun as <- <- <-. split; cbn; try done. by destruct (sh_done sh).
  - destruct r as [err|[c fp]]; injection Hrun as <- <- <-; split; cbn; try done; try set_solver.
    eapply Forall_impl; [exact Hk|]. cbn. set_solver.
  - pose proof (Hl c ltac:(set_solver)). destruct (sh_done sh); injection Hrun as <- <- <-; split; cbn; try done; set_solver.
  - pose proof (Hl c ltac:(set_solver)). injection Hrun as <- <- <-. split; cbn; try done; [by intros ? [= <-]|].
    intros c' [->|Hin]%elem_of_cons; [done|]. apply Hcl. by destruct (sh_client sh) as [x|]; [apply list_elem_of_singleton in Hin as ->|apply elem_of_nil in Hin].
  - pose proof (Hl c ltac:(set_solver)).
    assert (Ho : forall x, old = Some x -> x ∈ sh_known sh).
    { intros x ->. apply Hl. cbn. set_solver. }
    injection Hrun as <- <- <-.
    assert (Ek : sh_known (close_client old sh) = sh_known sh) by (by destruct old).
    assert (Ec : sh_client (close_client old sh) = sh_client sh) by (by destruct old).
    split; cbn; rewrite ?Ek, ?Ec; try done; [destruct old; cbn; [specialize (Ho z eq_refl); set_solver|done]|set_solver|].
    by destruct (0 <? _); [constructor|].
  - done.
Qed.

Lemma step_known s s' : step cfg s s' -> known_inv s -> known_inv s'.
Proof.
  intros Hs Hi. destruct Hs as [sh lo sp ks r jitter sh' lo' k _ _ _ Hrun|sh lo sp ks sh' sp' Hrun
    |sh lo sp ks1 ks2 c pc a sh' pc' Hrun|sh lo sp ks c Hc].
  - by eapply monitor_known.
  - destruct sp as [| |c|]; cbn in Hrun; simplify_eq.
    + destruct Hi. by split.
    + destruct Hi. split; cbn in *; try done. intros c [= E]. auto.
    + apply close_known; [destruct Hi; by split|]. intros x ->. exact (k_stop _ Hi x eq_refl).
  - assert (Hc : c ∈ sh_known sh).
    { pose proof (k_keepers _ Hi) as Hk. cbn in Hk. apply Forall_app in Hk as [_ Hk]. by apply Forall_cons in Hk as [? _]. }
    assert (Hi' : known_inv (MkState sh lo sp (ks1 ++ (match pc' with Some q => [(c, q)] | None => [] end) ++ ks2))).
    { destruct Hi as [? ? ? ? Hk]. split; cbn in *; try done. rewrite !Forall_app in *. rewrite Forall_cons in Hk.
      destruct Hk as (? & ? & ?). split_and!; try done. destruct pc'; by repeat constructor. }
    destruct pc, a; cbn in Hrun; simplify_eq; try done; apply (close_known (Some c)); [done|by intros x [= <-]].
  - apply (close_known (Some c)); [done|]. by intros x [= <-].
Qed.
Lemma reachable_known pinned0 n s : reachable cfg pinned0 n s -> known_inv s.
Proof. induction 1; [|by eapply step_known]. split; cbn; try done; set_solver. Qed.

(** A client that is down stays down. *)
Lemma step_closed s s' : step cfg s s' -> sh_closed (ms_shared s) ⊆ sh_closed (ms_shared s').
Proof.
  destruct 1 as [sh lo sp ks r jitter sh' lo' k _ _ _ Hrun|sh lo sp ks sh' sp' Hrun
    |sh lo sp ks1 ks2 c pc a sh' pc' Hrun|sh lo sp ks c Hc]; cbn.
  - unfold monitor_step in Hrun. destruct (l_pc lo) as [ | | | | | | | | |old| ]; simplify_eq/=; try done;
      try (case_match; simplify_eq/=; set_solver); [|destruct old; cbn; set_solver].
    destruct r as [|[]]; by simplify_eq/=.
  - destruct sp as [| |c|]; cbn in Hrun; simplify_eq/=; try done. destruct c; cbn; set_solver.
  - destruct pc, a; cbn in Hrun; simplify_eq/=; set_solver.
  - set_solver.
Qed.

(** ** Runs *)

(** A step of the monitor goroutine, and whether it can make one. *)
Definition monitor_moves (s s' : mstate) : Prop :=
  exists r jitter k,
    (l_pc (ms_local s) = PDial -> forall c fp, r = inr (c, fp) -> c ∉ sh_known (ms_shared s)) /\
    monitor_step cfg r jitter (ms_shared s) (ms_local s) = Some (ms_shared s', ms_local s', k).
Definition monitor_enabled (s : mstate) : Prop :=
  exists r jitter x, monitor_step cfg r jitter (ms_shared s) (ms_local s) = Some x.

(** An infinite run in which the service is not stopped, the scheduler does
    not pass over a monitor that can move for ever (a sleep and a dial are
    bounded), and every connection attempt succeeds; the keepalive loops and
    losses of connections come as they like. *)
Record healthy_run (run : nat -> mstate) : Prop := MkHealthy {
  hr_step : forall n, step cfg (run n) (run (S n)) \/ run (S n) = run n;
  hr_running : forall n, sh_done (ms_shared (run n)) = false;
  hr_fair : forall n, monitor_enabled (run n) ->
    exists k, (n <= k)%nat /\ (monitor_moves (run k) (run (S k)) \/ ~ monitor_enabled (run k));
  hr_up : forall n, l_pc (ms_local (run n)) = PDial ->
    l_pc (ms_local (run (S n))) = PDial \/ exists c fp, l_pc (ms_local (run (S n))) = PGot c fp }.

(** The monitor ends only when it saw the flag, which nothing resets. *)
Lemma exit_done pinned0 n s : reachable cfg pinned0 n s -> l_pc (ms_local s) = PExit -> sh_done (ms_shared s) = true.
Proof.
  induction 1 as [|n s s' Hr IH Hs]; [done|].
  destruct Hs as [sh lo sp ks r jitter sh' lo' k _ _ _ Hrun|sh lo sp ks sh' sp' Hrun|sh lo sp ks1 ks2 c pc a sh' pc' Hrun|];
    cbn in *.
  - unfold monitor_step in Hrun. destruct (l_pc lo) eqn:Epc; simplify_eq/=; try done;
      repeat (case_match; simplify_eq/=); try done.
  - intros E. specialize (IH E). destruct sp; cbn in Hrun; simplify_eq; cbn; try done. by destruct c.
  - intros E. specialize (IH E). destruct pc, a; cbn in Hrun; by simplify_eq.
  - done.
Qed.

(** ** Progress toward a client outside a set of dead ones *)

Section Dead.
Context (D : gset Z).

(** A client outside [D] is published. *)
Definition fresh_up (s : mstate) : bool :=
  match sh_client (ms_shared s) with Some c => bool_decide (c ∉ D) | None => false end.
(** How far the monitor is from publishing one. *)
Definition mon_rank (s : mstate) : nat :=
  match l_pc (ms_local s) with
  | PGot c _ => if bool_decide (c ∈ D) then 13 else 2
  | PPublish c _ => if bool_decide (c ∈ D) then 12 else 1
  | PAfter _ _ _ => 11
  | PTop => match sh_client (ms_shared s) with Some _ => 10 | None => 5 end
  | PWait _ => 9 | PWoken => 8 | PLost => 7 | PReport => 6 | PSleep => 4 | PDial => 3 | PExit => 0
  end.

(** Without such a client the monitor can move, *)
Lemma not_up_enabled pinned0 n s : reachable cfg pinned0 n s -> D ⊆ sh_closed (ms_shared s) ->
  sh_done (ms_shared s) = false -> fresh_up s = false -> monitor_enabled s.
Proof.
  intros Hr HD Hd Hup. pose proof (v_client _ _ _ (reachable_sinv cfg _ _ _ Hr)) as Hat.
  pose proof (exit_done _ _ _ Hr) as Hex. exists (inl io_EOF), 0. unfold monitor_step, fresh_up in *.
  destruct (l_pc (ms_local s)) as [ |c| | | | | |c fp|c fp|old c fp| ] eqn:Epc; cbn in *; try by eexists.
  - rewrite Hat in Hup. rewrite bool_decide_true; [by eexists|]. apply bool_decide_eq_false in Hup.
    apply HD. by apply dec_stable.
  - rewrite Hd. by eexists.
  - by rewrite Hex in Hd.
Qed.

(** its own steps bring it closer, *)
Lemma move_rank pinned0 n s s' : reachable cfg pinned0 n s -> D ⊆ sh_closed (ms_shared s) ->
  sh_done (ms_shared s) = false -> monitor_moves s s' -> fresh_up s' = false ->
  (l_pc (ms_local s) = PDial -> l_pc (ms_local s') = PDial \/ exists c fp, l_pc (ms_local s') = PGot c fp) ->
  (mon_rank s' < mon_rank s)%nat.
Proof.
  intros Hr HD Hd (r & jitter & k & Hnew & Hrun) Hup Hu.
  pose proof (v_client _ _ _ (reachable_sinv cfg _ _ _ Hr)) as Hat.
  pose proof (k_closed _ (reachable_known _ _ _ Hr)) as Hkn.
  unfold monitor_step, mon_rank, fresh_up in *.
  destruct (l_pc (ms_local s)) as [ |c| | | | | |c fp|c fp|old c fp| ] eqn:Epc; cbn in Hat;
    try (injection Hrun as Es El _; rewrite <- ?El, <- ?Es; cbn; rewrite ?Hd; cbn; lia).
  - injection Hrun as _ <- _. cbn. destruct (sh_client (ms_shared s)); lia.
  - case_bool_decide; [|done]. injection Hrun as _ <- _. cbn. lia.
  - destruct r as [err|[c fp]]; injection Hrun as _ El _; rewrite <- El in *; cbn in *;
      [by destruct (Hu eq_refl) as [?|(? & ? & ?)]|].
    rewrite bool_decide_false; [lia|]. specialize (Hnew eq_refl c fp eq_refl). set_solver.
  - rewrite Hd in Hrun. injection Hrun as _ <- _. cbn. case_bool_decide; lia.
  - injection Hrun as Es El _. rewrite <- El. rewrite <- Es in Hup. cbn in *.
    apply bool_decide_eq_false in Hup. rewrite bool_decide_true; [lia|by apply dec_stable].
  - injection Hrun as <- <- _. cbn. destruct Hat as [-> Ec]. cbn. rewrite Ec. lia.
  - done.
Qed.

(** and no step of anyone else takes it back. *)
Lemma run_rank pinned0 n (run : nat -> mstate) k : healthy_run run -> reachable cfg pinned0 n (run k) ->
  D ⊆ sh_closed (ms_shared (run k)) -> fresh_up (run (S k)) = false ->
  (mon_rank (run (S k)) <= mon_rank (run k))%nat /\
  (monitor_moves (run k) (run (S k)) -> (mon_rank (run (S k)) < mon_rank (run k))%nat).
Proof.
  intros Hrun Hr HD Hup.
  assert (Hown : monitor_moves (run k) (run (S k)) -> (mon_rank (run (S k)) < mon_rank (run k))%nat).
  { intros Hm. eapply move_rank; eauto using hr_running, hr_up. }
  split; [|exact Hown]. destruct (hr_step _ Hrun k) as [Hs| ->]; [|done].
  destruct Hs as [sh lo sp ks r jitter sh' lo' j _ Hnew _ Hm|sh lo sp ks sh' sp' Hm|sh lo sp ks1 ks2 c pc a sh' pc' Hm|].
  - apply Nat.lt_le_incl, Hown. by exists r, jitter, j.
  - assert (E : sh_client sh' = sh_client sh) by (destruct sp as [| |[]|]; cbn in Hm; by simplify_eq).
    unfold mon_rank. cbn. by rewrite E.
  - assert (E : sh_client sh' = sh_client sh) by (destruct pc, a; cbn in Hm; by simplify_eq).
    unfold mon_rank. cbn. by rewrite E.
  - done.
Qed.

Lemma run_fresh pinned0 n0 (run : nat -> mstate) n : healthy_run run -> reachable cfg pinned0 n0 (run 0%nat) ->
  D ⊆ sh_closed (ms_shared (run n)) -> exists m, (n <= m)%nat /\ fresh_up (run m) = true.
Proof.
  intros Hrun Hr HD.
  assert (Hreach : forall k, exists j, reachable cfg pinned0 j (run k)).
  { induction k as [|k [j Hj]]; [by exists n0|]. destruct (hr_step _ Hrun k) as [Hs|E]; [|exists j; by rewrite E].
    exists (S j). by eapply reach_step. }
  assert (Hdead : forall k, (n <= k)%nat -> D ⊆ sh_closed (ms_shared (run k))).
  { induction 1 as [|k _ IH]; [done|]. destruct (hr_step _ Hrun k) as [Hs| ->]; [|done].
    etrans; [exact IH|by apply step_closed]. }
  assert (Hmono : forall a b, (n <= a <= b)%nat ->
    (exists m, (a <= m)%nat /\ fresh_up (run m) = true) \/ (mon_rank (run b) <= mon_rank (run a))%nat).
  { intros a b [Ha Hab]. induction Hab as [|b Hab IH]; [by right|]. destruct IH as [?|IH]; [by left|].
    destruct (fresh_up (run (S b))) eqn:Ec; [left; exists (S b); split; [lia|done]|]. destruct (Hreach b) as [j Hj].
    right. destruct (run_rank _ _ _ b Hrun Hj (Hdead b ltac:(lia)) Ec) as [? _]. lia. }
  enough (Hgen : forall w a, (n <= a)%nat -> (mon_rank (run a) <= w)%nat ->
    exists m, (a <= m)%nat /\ fresh_up (run m) = true) by (by eapply (Hgen _ n)).
  induction w as [w IH] using lt_wf_ind. intros a Ha Hw.
  destruct (fresh_up (run a)) eqn:Ea; [by exists a|]. destruct (Hreach a) as [ja Hja].
  destruct (hr_fair _ Hrun a) as (k & Hk & Hm); [by eapply not_up_enabled; eauto using hr_running|].
  destruct (Hmono a k) as [?|Hle]; [done|done|].
  destruct (fresh_up (run k)) eqn:Ek; [by exists k|]. destruct (Hreach k) as [j Hj].
  destruct Hm as [Hm|Hm]; [|exfalso; apply Hm; eapply not_up_enabled; eauto using hr_running; apply Hdead; lia].
  destruct (fresh_up (run (S k))) eqn:Es; [exists (S k); split; [lia|done]|].
  destruct (run_rank _ _ _ k Hrun Hj (Hdead k ltac:(lia)) Es) as [_ Hlt]. specialize (Hlt Hm).
  destruct (IH (mon_rank (run (S k))) ltac:(lia) (S k) ltac:(lia) ltac:(lia)) as (m & ? & ?).
  exists m. split; [lia|done].
Qed.
End Dead.

(** ** Property *)

(** C23: the tunnel comes back.  At any moment of a run in which the server
    can be reached, the service is not stopped and the monitor is not starved,
    whatever clients have died by then, there is a later moment (or this one)
    at which a client that is not one of the dead ones is published: a lost
    connection is noticed, withdrawn and replaced by a new one. *)
Theorem tunnel_comes_back pinned0 (run : nat -> mstate) n0 (Hrun : healthy_run run)
    (Hr : reachable cfg pinned0 n0 (run 0%nat)) (n : nat) :
  exists m c, (n <= m)%nat /\ sh_client (ms_shared (run m)) = Some c /\ c ∉ sh_closed (ms_shared (run n)).
Proof.
  destruct (run_fresh (sh_closed (ms_shared (run n))) _ _ _ n Hrun Hr ltac:(done)) as (m & Hm & Hup).
  unfold fresh_up in Hup. destruct (sh_client (ms_shared (run m))) as [c|] eqn:Ec; [|done].
  exists m, c. split_and!; [done|done|by apply bool_decide_eq_true in Hup].
Qed.
End Reconnect.

(** ** Witness *)

(** A server with one host key; every attempt gives a new client. *)
Program Definition toy_connector : Connector := {|
  connect fp r := exists c, r = inr (c, "SHA256:AAAA") /\ (fp = "" \/ fp = "SHA256:AAAA") |}.
Next Obligation. intros fp c fp' (c' & [= -> ->] & Hfp). split; [done|]. intros Hne. by destruct Hfp as [->| ->]. Qed.

(** The first connection of a process, its loss, the second, then quiet. *)
Definition demo_next (n : nat) (s : mstate) : mstate :=
  if bool_decide (n = 7)%nat then MkState (close_client (Some 5) (ms_shared s)) (ms_local s) (ms_stop s) (ms_keepers s)
  else match monitor_step (demo_cfg "") (inr (if bool_decide (n < 7)%nat then 5 else 6, "SHA256:AAAA")) 0
               (ms_shared s) (ms_local s) with
       | Some (sh, lo, k) => MkState sh lo (ms_stop s) (match k with Some c => (c, KTick) :: ms_keepers s | None => ms_keepers s end)
       | None => s
       end.
Fixpoint demo_monitor_run (n : nat) : mstate :=
  match n with O => init "" | S n => demo_next n (demo_monitor_run n) end.
Definition demo_back : mstate :=
  MkState (MkShared (Some 6) false (status_of stateConnected) {[5]} {[6; 5]} {[6 := "SHA256:AAAA"; 5 := "SHA256:AAAA"]} (Some 6))
    (MkLocal (PWait 6) 0 0 "SHA256:AAAA") SIdle [(6, KTick); (5, KTick)].
Lemma demo_run_S n : demo_monitor_run (S n) = demo_next n (demo_monitor_run n).
Proof. reflexivity. Qed.
Lemma demo_run_18 : demo_monitor_run 18 = demo_back.
Proof. vm_compute. reflexivity. Qed.
Lemma demo_run_late k : demo_monitor_run (k + 18) = demo_back.
Proof.
  induction k as [|k IH]; [exact demo_run_18|]. rewrite Nat.add_succ_l, demo_run_S, IH. unfold demo_next.
  rewrite !bool_decide_false by lia. vm_compute. reflexivity.
Qed.
Lemma demo_run_quiet n : (18 <= n)%nat -> demo_monitor_run n = demo_back.
Proof. intros Hn. replace n with ((n - 18) + 18)%nat by lia. apply demo_run_late. Qed.
(** Whether the [n]th step is a legal step of the monitor. *)
Definition demo_legal (n : nat) : bool :=
  let s := demo_monitor_run n in
  let c := if bool_decide (n < 7)%nat then 5 else 6 in
  match monitor_step (demo_cfg "") (inr (c, "SHA256:AAAA")) 0 (ms_shared s) (ms_local s) with
  | Some _ =>
      match l_pc (ms_local s) with
      | PDial => (String.eqb (l_pinned (ms_local s)) "" || String.eqb (l_pinned (ms_local s)) "SHA256:AAAA")
                 && bool_decide (c ∉ sh_known (ms_shared s))
      | _ => true
      end
  | None => false
  end.
Lemma demo_legal_step n : n <> 7%nat -> demo_legal n = true ->
  step (H := toy_connector) (demo_cfg "") (demo_monitor_run n) (demo_monitor_run (S n)) /\
  monitor_moves (demo_cfg "") (demo_monitor_run n) (demo_monitor_run (S n)).
Proof.
  intros Hn. rewrite demo_run_S. unfold demo_legal, demo_next. cbv zeta. rewrite (bool_decide_false (n = 7)%nat) by done.
  generalize (if bool_decide (n < 7)%nat then 5 else 6). generalize (demo_monitor_run n). intros [sh lo sp ks] c. cbn.
  destruct (monitor_step _ _ _ _ _) as [[[sh' lo'] k]|] eqn:Hrun; [|done]. intros Hok.
  assert (Hd : l_pc lo = PDial -> (l_pinned lo = "" \/ l_pinned lo = "SHA256:AAAA") /\ c ∉ sh_known sh).
  { intros E. rewrite E in Hok. apply andb_true_iff in Hok as [Hp Hk%bool_decide_eq_true]. split; [|done].
    apply orb_true_iff in Hp as [?%String.eqb_eq|?%String.eqb_eq]; auto. }
  assert (Hnew : l_pc lo = PDial -> forall c' fp, inr (A := error) (c, "SHA256:AAAA") = inr (c', fp) -> c' ∉ sh_known sh).
  { intros E c' fp [= <- <-]. by apply Hd. }
  split.
  - eapply (step_monitor _ sh lo sp ks (inr (c, "SHA256:AAAA")) 0); [|exact Hnew|lia|exact Hrun].
    intros E. exists c. split; [done|by apply Hd].
  - by exists (inr (c, "SHA256:AAAA")), 0, k.
Qed.
Lemma demo_run_moves n : (n < 18)%nat -> n <> 7%nat ->
  step (H := toy_connector) (demo_cfg "") (demo_monitor_run n) (demo_monitor_run (S n)) /\
  monitor_moves (demo_cfg "") (demo_monitor_run n) (demo_monitor_run (S n)).
Proof.
  intros Hn H7. apply demo_legal_step; [done|].
  assert (Hall : forallb (fun n => bool_decide (n = 7%nat) || demo_legal n) (seq 0 18) = true) by (vm_compute; reflexivity).
  rewrite forallb_forall in Hall. specialize (Hall n ltac:(apply in_seq; lia)).
  by rewrite bool_decide_false in Hall by done.
Qed.
Lemma demo_run_healthy : healthy_run (H := toy_connector) (demo_cfg "") demo_monitor_run.
Proof.
  split.
  - intros n. destruct (decide (18 <= n)%nat); [right; by rewrite !demo_run_quiet by lia|left].
    destruct (decide (n = 7)%nat) as [->|]; [|apply demo_run_moves; lia].
    apply (step_drop (demo_cfg "") (ms_shared (demo_monitor_run 7)) (ms_local (demo_monitor_run 7)) SIdle [(5, KTick)]).
    by apply (bool_decide_unpack (5 ∈ sh_known (ms_shared (demo_monitor_run 7)))).
  - intros n. destruct (decide (18 <= n)%nat); [by rewrite demo_run_quiet by lia|].
    assert (Hall : forallb (fun n => negb (sh_done (ms_shared (demo_monitor_run n)))) (seq 0 18) = true) by (vm_compute; reflexivity).
    rewrite forallb_forall in Hall. specialize (Hall n ltac:(apply in_seq; lia)). by apply negb_true_iff in Hall.
  - intros n. destruct (decide (18 <= n)%nat).
    + intros _. exists n. split; [done|]. right. rewrite demo_run_quiet by lia. intros (r & j & x & Hx).
      vm_compute in Hx. discriminate Hx.
    + intros _. destruct (decide (n = 7)%nat) as [->|]; [exists 8%nat|exists n]; (split; [lia|left; apply demo_run_moves; lia]).
  - intros n Hpc. destruct (decide (18 <= n)%nat); [by rewrite demo_run_quiet in Hpc by lia|].
    assert (Hall : forallb (fun n => match l_pc (ms_local (demo_monitor_run n)), l_pc (ms_local (demo_monitor_run (S n))) with
      | PDial, PGot _ _ => true | PDial, _ => false | _, _ => true end) (seq 0 18) = true) by (vm_compute; reflexivity).
    rewrite forallb_forall in Hall. specialize (Hall n ltac:(apply in_seq; lia)). rewrite Hpc in Hall. right.
    destruct (l_pc (ms_local (demo_monitor_run (S n)))); try done. by eexists _, _.
Qed.
(** Client 5 is down after eight steps, and another one comes. *)
Lemma tunnel_comes_back_witness :
  exists m c, (8 <= m)%nat /\ sh_client (ms_shared (demo_monitor_run m)) = Some c /\ c <> 5.
Proof.
  destruct (tunnel_comes_back (H := toy_connector) (demo_cfg "") "" demo_monitor_run 0 demo_run_healthy
    (reach_init (H := toy_connector) (demo_cfg "") "") 8) as (m & c & Hm & Hc & Hd).
  exists m, c. split; [exact Hm|]. split; [exact Hc|]. intros ->. apply Hd.
  by apply (bool_decide_unpack (5 ∈ sh_closed (ms_shared (demo_monitor_run 8)))).
Defined.
