(* ===== verification/DialTrack.v ===== *)
(** dialer.go, one destination: [dial] through the tunnel and [trackDial],
    which registers it with the connection tracker. *)

From S2P Require Import Prelude GoStrings NetIP Errors World ConnTrack RingProps TrackProps TrackClaims Status.

(** [parseDialAddr]. *)
Definition parseDialAddr (addr : string) : string * Z :=
  match SplitHostPort addr with
  | None => (addr, 0)
  | Some (host, portStr) => (host, Atoi_value portStr)
  end.

(** [context.WithTimeout] on a context given by its deadline. *)
Definition ctx_timeout (now : Z) (ctx : option Z) (d : Z) : option Z :=
  Some (match ctx with Some t => Z.min t (time_Add now d) | None => time_Add now d end).

Section Dial.
(** [ssh.Client.DialContext]: the client, the deadline and the address. *)
Context (ssh_DialContext : Z -> option Z -> string -> error + Z).

Definition dial (cfg : sshDialerCfg) (client : option Z) (now : Z) (ctx : option Z) (addr : string) : error + Z :=
  match client with
  | None => inl (Errorf "SSH client not connected" None)
  | Some c =>
      let ctx := if 0 <? c_dialTimeout cfg then ctx_timeout now ctx (c_dialTimeout cfg) else ctx in
      match ssh_DialContext c ctx addr with
      | inl err => inl (NewNetworkError "SSH dial" addr err)
      | inr conn => inr conn
      end
  end.

Context {W : Type} `{Runtime W}.

(** The metadata and the host under which a dial is registered. *)
Definition dial_meta (meta : option ConnMeta) (addr : string) : ConnMeta * string * Z :=
  let '(dialHost, port) := parseDialAddr addr in
  match meta with
  | None => (MkMeta "" "" "" "", dialHost, port)
  | Some m =>
      let host := if String.eqb (m_Host m) "" then dialHost else m_Host m in
      let m := match ParseAddr dialHost with
               | Some ip => MkMeta (m_Proto m) (m_Src m) (m_Host m) (Addr_String ip)
               | None => m
               end in
      (m, host, port)
  end.

(** [trackDial]: [tracked] is false for an internal dial or without a tracker.
    [others] is what the rest of the program does to the tracker while the
    dial is in flight; [result] is the outcome of [dial]. *)
Definition trackDial (tracked : bool) (meta : option ConnMeta) (addr : string)
    (others : M (TSys W) unit) (result : error + Z) : M (TSys W) (error + netConn) :=
  if tracked then
    let '(m, host, port) := dial_meta meta addr in
    id ← Begin m host port;
    _ ← others;
    match result with
    | inl err => _ ← Fail id err; mret (inl err)
    | inr conn => c ← Done id (Some conn); mret (inr c)
    end
  else mret (match result with inl err => inl err | inr conn => inr (BaseConn conn) end).

(** *** Lemmas *)

Lemma Begin_run meta host port (s : TSys W) : tinv s -> nextID (t_tr s) + 1 < 2 ^ 64 ->
  exists rec, fst (Begin meta host port s) = nextID (t_tr s) + 1 /\
    active (t_tr (snd (Begin meta host port s))) = <[nextID (t_tr s) + 1 := rec]> (active (t_tr s)) /\
    cr_host rec = host /\ cr_port rec = port /\ cr_dstIP rec = m_DstIP meta /\ cr_status rec = StateDialing.
Proof.
  intros Hi Hn. unfold Begin. rewrite bind_run. destruct (t_now_run s) as (now & w & -> & _ & _).
  cbn [fst snd]. rewrite bind_run. cbn [gets fst snd]. cbv zeta. rewrite bind_run. cbn [on_tr modify fst snd t_tr].
  destruct (i_next _ _ _ Hi). rewrite wrapu64_id by lia. eexists. repeat split.
Qed.

Lemma Fail_gone id err (s : TSys W) : tinv s -> active (t_tr (snd (Fail id err s))) !! id = None.
Proof.
  intros Hi. unfold Fail. rewrite bind_run. cbn [gets fst snd].
  destruct (active (t_tr s) !! id) as [rec|] eqn:E; [|done]. rewrite bind_run.
  destruct (t_now_run s) as (now & w & -> & _). cbn [fst snd].
  match goal with |- context [retire id ?r ?s1] => destruct (retire_run id r s1) as (now' & w' & -> & _) end.
  cbn [snd t_tr t_conns].
  match goal with |- context [pushRing _ ?r ?t1] =>
    destruct (pushRing_spec now' r t1) as (_ & _ & -> & _); [destruct (i_ring _ _ _ Hi); by split|] end.
  cbn. by rewrite lookup_delete_eq.
Qed.

Lemma Done_active id conn (s : TSys W) r :
  active (t_tr (snd (Done id (Some conn) s))) !! id = Some r -> cr_status r = StateActive.
Proof.
  unfold Done. rewrite bind_run. cbn [gets fst snd].
  destruct (active (t_tr s) !! id) as [rec|] eqn:E; cbn [snd mret M_ret]; [|congruence].
  rewrite !bind_run. cbn [gets modify fst snd mret M_ret t_tr with_active active].
  rewrite lookup_insert_eq. by intros [= <-].
Qed.

(** A tracked dial never leaves a dialing record behind: whatever the rest
    of the program did to the tracker in the meantime, once [trackDial]
    returns its record is either out of the table (and its error is returned
    as it came) or active; the invariant is kept. *)
Theorem trackDial_settles meta addr others result (s : TSys W)
    (Hi : tinv s) (Hn : nextID (t_tr s) + 1 < 2 ^ 64)
    (Hothers : forall s1, tinv s1 -> tinv (snd (others s1))) :
  let id := nextID (t_tr s) + 1 in
  let '(r, s') := trackDial true meta addr others result s in
  tinv s' /\
  (forall rec, active (t_tr s') !! id = Some rec -> cr_status rec = StateActive) /\
  match result with
  | inl e => r = inl e /\ active (t_tr s') !! id = None
  | inr c => exists nc, r = inr nc /\ nc <> NilConn
  end.
Proof.
  cbv zeta. unfold trackDial. destruct (dial_meta meta addr) as [[m host] port]. rewrite bind_run.
  destruct (Begin_run m host port s Hi Hn) as (rec & -> & _).
  destruct (Begin_inv m host port s Hi Hn) as [Hi1 _].
  rewrite bind_run. specialize (Hothers _ Hi1).
  set (s2 := snd (others _)) in *. destruct result as [e|c]; rewrite bind_run; cbn [mret M_ret].
  - split; [by apply Fail_inv|]. rewrite Fail_gone by done. done.
  - split; [by apply Done_inv|]. split; [by apply Done_active|].
    eexists. split; [done|]. unfold Done. rewrite bind_run. cbn [gets fst snd].
    by destruct (active (t_tr s2) !! _).
Qed.

(** The table names the destination: while a tracked dial to an IP address
    with metadata is in flight, its record carries the original host name when
    there is one, the dialed address in canonical text, and the port. *)
Theorem trackDial_names m addr (ip : Addr) dialHost port (s : TSys W)
    (Hi : tinv s) (Hn : nextID (t_tr s) + 1 < 2 ^ 64)
    (Haddr : parseDialAddr addr = (dialHost, port)) (Hip : ParseAddr dialHost = Some ip) :
  let '(meta, host, p) := dial_meta (Some m) addr in
  let s1 := snd (Begin meta host p s) in
  exists rec, active (t_tr s1) !! (nextID (t_tr s) + 1) = Some rec /\
    cr_host rec = (if String.eqb (m_Host m) "" then dialHost else m_Host m) /\
    cr_dstIP rec = Addr_String ip /\ cr_port rec = port /\ cr_status rec = StateDialing.
Proof.
  unfold dial_meta. rewrite Haddr, Hip.
  destruct (Begin_run (MkMeta (m_Proto m) (m_Src m) (m_Host m) (Addr_String ip))
    (if String.eqb (m_Host m) "" then dialHost else m_Host m) port s Hi Hn) as (rec & _ & -> & ? & ? & ? & ?).
  exists rec. by rewrite lookup_insert_eq.
Qed.
End Dial.

Lemma trackDial_settles_witness :
  let '(r, s') := trackDial true (Some (MkMeta "http" "10.0.0.2:5000" "c.example" "")) "9.9.9.9:443" (mret tt : M (TSys Z) unit)
                    (inr 71) demo_tracker in
  tinv s' /\ r = inr (TrackedConn 1).
Proof.
  pose proof (trackDial_settles (Some (MkMeta "http" "10.0.0.2:5000" "c.example" "")) "9.9.9.9:443" (mret tt : M (TSys Z) unit)
    (inr 71) demo_tracker demo_tracker_inv ltac:(vm_compute; reflexivity) (fun s1 H => H)) as Ht.
  cbv zeta in Ht.
  assert (Er : fst (trackDial true (Some (MkMeta "http" "10.0.0.2:5000" "c.example" "")) "9.9.9.9:443" (mret tt : M (TSys Z) unit)
                    (inr 71) demo_tracker) = inr (TrackedConn 1)) by (vm_compute; reflexivity).
  destruct (trackDial true _ _ _ _ _) as [r s']. split; [apply Ht|exact Er].
Defined.

Lemma trackDial_names_witness :
  exists rec, active (t_tr (snd (Begin (MkMeta "http" "10.0.0.2:5000" "c.example" "9.9.9.9") "c.example" 443 demo_tracker))) !! 3
    = Some rec /\ cr_host rec = "c.example" /\ cr_dstIP rec = "9.9.9.9" /\ cr_port rec = 443 /\ cr_status rec = StateDialing.
Proof.
  exact (trackDial_names (MkMeta "http" "10.0.0.2:5000" "c.example" "") "9.9.9.9:443" (Addr4 151587081) "9.9.9.9" 443
    demo_tracker demo_tracker_inv ltac:(vm_compute; reflexivity) eq_refl ltac:(vm_compute; reflexivity)).
Defined.
