(* ===== verification/GateTrack.v ===== *)
(** The Opener over the tracker: the dials of [Open] go through [trackDial],
    which registers them.  The tracker is part of the world the Opener runs
    in, so that every theorem about [Open] holds over it, and here the table
    is shown to say what the Opener did. *)

From S2P Require Import Prelude GoStrings NetIP Errors Rules World Dns DnsFacts Opener OpenerProps ConnTrack RingProps TrackProps TrackClaims DialTrack.

(** ** One tracked dial, alone *)

Section OneDial.
Context {R : Type} `{Runtime R}.

Lemma Fail_run id err (s : TSys R) : tinv s -> nextID (t_tr (snd (Fail id err s))) = nextID (t_tr s) /\
  forall id', id' <> id -> active (t_tr (snd (Fail id err s))) !! id' = active (t_tr s) !! id'.
Proof.
  intros Hi. unfold Fail. rewrite bind_run. cbn [gets fst snd].
  destruct (active (t_tr s) !! id) as [rec|] eqn:E; [|done]. rewrite bind_run.
  destruct (t_now_run s) as (now & w & -> & _). cbn [fst snd].
  match goal with |- context [retire id ?r ?s1] => destruct (retire_run id r s1) as (now' & w' & -> & _) end.
  cbn [snd t_tr t_conns].
  match goal with |- context [pushRing _ ?r ?t1] =>
    destruct (pushRing_spec now' r t1) as (_ & _ & -> & _ & _ & ->); [destruct (i_ring _ _ _ Hi); by split|] end.
  cbn. split; [done|]. intros id' Hne. by rewrite lookup_delete_ne.
Qed.

Lemma Done_run id conn rec (s : TSys R) : active (t_tr s) !! id = Some rec ->
  (exists i, fst (Done id (Some conn) s) = TrackedConn i) /\
  nextID (t_tr (snd (Done id (Some conn) s))) = nextID (t_tr s) /\
  (exists i, active (t_tr (snd (Done id (Some conn) s))) = <[id := set_live i rec]> (active (t_tr s))).
Proof.
  intros E. unfold Done. rewrite bind_run. cbn [gets fst snd]. rewrite E.
  rewrite !bind_run. cbn [gets modify fst snd mret M_ret t_tr with_active active]. split; [by eexists|]. split; [done|]. by eexists.
Qed.

(** What [trackDial] leaves in the table when nothing else runs. *)
Lemma trackDial_table meta addr (result : error + Z) (s : TSys R) m host port :
  tinv s -> nextID (t_tr s) + 1 < 2 ^ 64 -> dial_meta meta addr = (m, host, port) ->
  let id := nextID (t_tr s) + 1 in
  let '(r, s') := trackDial true meta addr (mret tt) result s in
  tinv s' /\ nextID (t_tr s') = id /\
  (forall id', id' <> id -> active (t_tr s') !! id' = active (t_tr s) !! id') /\
  match result with
  | inl e => r = inl e /\ active (t_tr s') !! id = None
  | inr c => (exists i, r = inr (TrackedConn i)) /\ exists rec, active (t_tr s') !! id = Some rec /\
      cr_status rec = StateActive /\ cr_host rec = host /\ cr_port rec = port /\ cr_dstIP rec = m_DstIP m
  end.
Proof.
  intros Hi Hn Em. cbv zeta. unfold trackDial. rewrite Em, bind_run.
  destruct (Begin_run m host port s Hi Hn) as (rec & -> & Ea & Eh & Ep & Ed & _).
  destruct (Begin_inv m host port s Hi Hn) as [Hi1 En]. rewrite bind_run. cbn [mret M_ret fst snd].
  set (s1 := snd (Begin m host port s)) in *. destruct result as [e|c]; rewrite bind_run; cbn [mret M_ret].
  - destruct (Fail_run (nextID (t_tr s) + 1) e s1 Hi1) as [En' Hother].
    split; [by apply Fail_inv|]. split; [by rewrite En'|]. split; [|by rewrite Fail_gone].
    intros id' Hne. by rewrite Hother, Ea, lookup_insert_ne.
  - destruct (Done_run (nextID (t_tr s) + 1) c rec s1) as (Hr & En' & i & Ei); [by rewrite Ea, lookup_insert_eq|].
    split; [by apply Done_inv|]. split; [by rewrite En'|]. split.
    + intros id' Hne. by rewrite Ei, lookup_insert_ne, Ea, lookup_insert_ne.
    + split; [destruct Hr as [j ->]; by eexists|]. exists (set_live i rec). by rewrite Ei, lookup_insert_eq.
Qed.
End OneDial.

(** ** The Opener's world with the tracker in it *)

Record tracked (R W : Type) := MkTW { tw_tracker : TSys R; tw_net : W }.
Arguments MkTW {R W}. Arguments tw_tracker {R W}. Arguments tw_net {R W}.

Section Tracked.
Context {R W : Type} `{Runtime R} `{World W}.

Definition lift {A : Type} (op : W -> A * W) (t : tracked R W) : A * tracked R W :=
  let '(a, w) := op (tw_net t) in (a, MkTW (tw_tracker t) w).
(** [sshDialer.DialContext] of the Opener: the dial itself is the network's,
    [trackDial] wraps it. *)
Definition tracked_dial (meta : ConnMeta) (addr : string) (t : tracked R W) : (error + Z) * tracked R W :=
  let '(res, w) := w_dialTunnel meta addr (tw_net t) in
  let '(r, ts) := trackDial true (Some meta) addr (mret tt) res (tw_tracker t) in
  (match r with inl e => inl e | inr _ => res end, MkTW ts w).
#[global] Program Instance tracked_world : World (tracked R W) := {
  w_now := lift w_now;
  w_resolver server name ctx := lift (w_resolver server name ctx);
  w_http u ctx := lift (w_http u ctx);
  w_local host ctx := lift (w_local host ctx);
  w_connected := lift w_connected;
  w_dialTunnel := tracked_dial;
  w_dialDirect network addr := lift (w_dialDirect network addr);
  w_range keys := lift (w_range keys) }.
Next Obligation.
  intros keys w. unfold lift. pose proof (w_range_perm keys (tw_net w)). by destruct (w_range keys (tw_net w)).
Qed.

(** ** Only tunnel dials touch the tracker *)

Definition same_tracker (s s' : Sys (tracked R W)) : Prop :=
  tw_tracker (s_world s') = tw_tracker (s_world s).
#[local] Instance same_tracker_refl : Reflexive same_tracker.
Proof. by intros s. Qed.
#[local] Instance same_tracker_trans : Transitive same_tracker.
Proof. intros a b c. unfold same_tracker. congruence. Qed.

Lemma lift_same {A} evs (op : W -> A * W) : keeps same_tracker (perform evs (lift op)).
Proof. intros s. rewrite perform_run. unfold same_tracker, lift. cbn. by destruct (op _). Qed.
Lemma on_dns_same f : keeps same_tracker (on_dns f).
Proof. by intros s. Qed.
Lemma gets_same {A} (f : Sys (tracked R W) -> A) : keeps same_tracker (gets f).
Proof. by intros s. Qed.
Lemma ret_same {A} (a : A) : keeps same_tracker (mret a : M (Sys (tracked R W)) A).
Proof. by intros s. Qed.
#[local] Hint Resolve lift_same on_dns_same gets_same ret_same : gate.
#[local] Hint Extern 1 (keeps same_tracker (perform _ _)) => apply lift_same : gate.
#[local] Hint Extern 1 (keeps same_tracker time_now) => apply lift_same : gate.
#[local] Hint Extern 1 (keeps same_tracker tunnelUp) => apply lift_same : gate.
#[local] Hint Extern 1 (keeps same_tracker (range_keys _)) => apply lift_same : gate.

Lemma claim_upstreams_same now : keeps same_tracker (claim_upstreams now).
Proof. intros s. unfold claim_upstreams. by destruct (claim_all now 0 _). Qed.
Lemma WithTimeout_same ctx d : keeps same_tracker (WithTimeout ctx d).
Proof. unfold WithTimeout. walk. Qed.
Lemma upstreamAnswered_same i rtt : keeps same_tracker (upstreamAnswered i rtt).
Proof. unfold upstreamAnswered, upd_upstream. walk. Qed.
Lemma upstreamFailed_same i e : keeps same_tracker (upstreamFailed i e).
Proof. unfold upstreamFailed, upd_upstream. walk. Qed.
Lemma lookupLocal_same ctx host : keeps same_tracker (lookupLocal ctx host).
Proof. unfold lookupLocal. walk. Qed.
Lemma upstream_lookup_same u ctx host : keeps same_tracker (upstream_lookup u ctx host).
Proof. unfold upstream_lookup, dohLookup, dnsServerLookup. walk. Qed.
#[local] Hint Resolve claim_upstreams_same WithTimeout_same upstreamAnswered_same upstreamFailed_same
  lookupLocal_same upstream_lookup_same : gate.
Lemma notFound_same ctx host : keeps same_tracker (notFound ctx host).
Proof. unfold notFound. walk. Qed.
Lemma lookup_fallback_same ctx host : keeps same_tracker (lookup_fallback ctx host).
Proof. unfold lookup_fallback. walk. Qed.
#[local] Hint Resolve notFound_same lookup_fallback_same : gate.
Lemma lookup_loop_same ctx tctx dl host active : keeps same_tracker (lookup_loop ctx tctx dl host active).
Proof. induction active as [|i l IH]; cbn [lookup_loop]; walk. Qed.
#[local] Hint Resolve lookup_loop_same : gate.
Lemma lookup_same ctx host : keeps same_tracker (lookup ctx host).
Proof. unfold lookup, releaseProbes. walk. Qed.
Lemma local_policy_same ctx host : keeps same_tracker (local_policy ctx host).
Proof. unfold local_policy. walk. Qed.
Lemma store_same key e : keeps same_tracker (store key e).
Proof. unfold store. walk. Qed.
#[local] Hint Resolve lookup_same local_policy_same store_same : gate.
Lemma cachedLookup_same key host lk :
  (forall ctx h, keeps same_tracker (lk ctx h)) -> keeps same_tracker (cachedLookup key host lk).
Proof.
  intros Hl. assert (keeps same_tracker (shared_lookup key host lk)) by (unfold shared_lookup; walk).
  unfold cachedLookup. walk.
Qed.
Lemma localResolveAll_same host : keeps same_tracker (localResolveAll host).
Proof. unfold localResolveAll. walk. apply cachedLookup_same, local_policy_same. Qed.
Lemma resolveTunnel_same host : keeps same_tracker (resolveTunnel host).
Proof. unfold resolveTunnel. walk. apply cachedLookup_same, lookup_same. Qed.
#[local] Hint Resolve localResolveAll_same resolveTunnel_same : gate.

Context `{Regexp}.

Lemma first_match_same rs host : keeps same_tracker (first_match rs host).
Proof. induction rs as [|r rs IH]; cbn [first_match]; unfold matches; walk. Qed.
#[local] Hint Resolve first_match_same : gate.
Lemma candidates_same o host port : keeps same_tracker (candidates o host port).
Proof. unfold candidates, Decide. walk. Qed.
Lemma dial_direct_loop_same addrs port fam first : keeps same_tracker (dial_direct_loop addrs port fam first).
Proof.
  revert first. induction addrs as [|a addrs IH]; intros first; cbn [dial_direct_loop]; unfold dialDirectIP; walk.
Qed.

(** ** What the dials of one [Open] leave in the table *)

Abbreviation table s := (tw_tracker (s_world s)) (only parsing).
(** The tunnel dials of a trace, with their outcome. *)
Definition tunnel_dials (tr : list event) : list (string * (error + Z)) :=
  omap (fun ev => match ev with EvDialTunnel a x => Some (a, x) | _ => None end) tr.
(** What a dial leaves under its id: nothing when it failed; an active record
    that names its destination when it connected. *)
Definition dial_recorded (meta : ConnMeta) (t' : TSys R) (id : Z) (d : string * (error + Z)) : Prop :=
  let '(addr, x) := d in
  match x with
  | inl _ => active (t_tr t') !! id = None
  | inr _ => let '(m, host, port) := dial_meta (Some meta) addr in
      exists rec, active (t_tr t') !! id = Some rec /\ cr_status rec = StateActive /\
        cr_host rec = host /\ cr_port rec = port /\ cr_dstIP rec = m_DstIP m
  end.
(** After the dials [ds], in this order: one id each, the [k]th dial's the
    [k]th new one, and older records untouched. *)
Record table_after (meta : ConnMeta) (t t' : TSys R) (ds : list (string * (error + Z))) : Prop := MkAfter {
  ta_inv : tinv t';
  ta_ids : nextID (t_tr t') = nextID (t_tr t) + Z.of_nat (length ds);
  ta_old : forall id, id <= nextID (t_tr t) -> active (t_tr t') !! id = active (t_tr t) !! id;
  ta_dials : forall k d, ds !! k = Some d -> dial_recorded meta t' (nextID (t_tr t) + 1 + Z.of_nat k) d }.

Lemma tracked_dial_run meta addr t : tinv (tw_tracker t) -> nextID (t_tr (tw_tracker t)) + 1 < 2 ^ 64 ->
  let '(r, t') := tracked_dial meta addr t in table_after meta (tw_tracker t) (tw_tracker t') [(addr, r)].
Proof.
  intros Hi Hn. unfold tracked_dial. destruct (w_dialTunnel meta addr (tw_net t)) as [res w].
  destruct (dial_meta (Some meta) addr) as [[m host] port] eqn:Em.
  pose proof (trackDial_table (Some meta) addr res (tw_tracker t) m host port Hi Hn Em) as Ht. cbv zeta in Ht.
  destruct (trackDial true (Some meta) addr _ res (tw_tracker t)) as [r ts]. destruct Ht as (Hi' & En & Hold & Hres).
  split; cbn [tw_tracker]; [done|by rewrite En|intros; apply Hold; lia|].
  intros k d [-> <-]%list_lookup_singleton_Some. rewrite Z.add_0_r. unfold dial_recorded. rewrite Em.
  destruct res as [e|c]; destruct Hres as [Hr Hrec]; [by subst r|]. by destruct Hr as [i ->].
Qed.

Lemma table_after_cons meta t t1 t2 d ds : table_after meta t t1 [d] -> table_after meta t1 t2 ds ->
  table_after meta t t2 (d :: ds).
Proof.
  intros [Hi1 En1 Ho1 Hd1] [Hi2 En2 Ho2 Hd2]. cbn in En1. split; [done| | |].
  - rewrite En2, En1. cbn [length]. lia.
  - intros id Hid. rewrite Ho2, Ho1 by lia. done.
  - intros [|k] d' E; cbn in E.
    + injection E as <-. specialize (Hd1 0%nat d eq_refl). unfold dial_recorded in *. destruct d as [a x].
      rewrite Ho2 by (cbn; lia). exact Hd1.
    + specialize (Hd2 k d' E). rewrite En1 in Hd2. by replace (nextID (t_tr t) + 1 + Z.of_nat (S k))
        with (nextID (t_tr t) + 1 + 1 + Z.of_nat k) by lia.
Qed.

Lemma table_after_nil meta t : tinv t -> table_after meta t t [].
Proof. intros Hi. split; [done|cbn; lia|done|done]. Qed.

(** The outcome of a dial loop against its dials: all but the last failed, and
    the last is the connection that is returned, if one is. *)
Definition dials_end (ds : list (string * (error + Z))) (conn : option Z) : Prop :=
  match conn with
  | Some c => exists fails a, ds = fails ++ [(a, inr c)] /\ Forall (fun d => exists e, snd d = inl e) fails
  | None => Forall (fun d => exists e, snd d = inl e) ds
  end.
Lemma dials_end_cons a e ds conn : dials_end ds conn -> dials_end ((a, inl e) :: ds) conn.
Proof.
  destruct conn as [c|]; cbn; [|intros Hd; constructor; [by exists e|done]].
  intros (fails & b & -> & Hf). exists ((a, inl e) :: fails), b. split; [done|]. constructor; [by exists e|done].
Qed.

Lemma dial_tunnel_loop_table meta addrs port first (s : Sys (tracked R W)) :
  tinv (table s) -> nextID (t_tr (table s)) + Z.of_nat (length addrs) < 2 ^ 64 ->
  let '(r, s') := dial_tunnel_loop meta addrs port first s in
  exists new, s_trace s' = s_trace s ++ new /\ table_after meta (table s) (table s') (tunnel_dials new) /\
    dials_end (tunnel_dials new) (match r with inl (c, _) => Some c | inr _ => None end).
Proof.
  revert first s. induction addrs as [|a addrs IH]; intros first s Hi Hn; cbn [dial_tunnel_loop].
  - exists []. rewrite app_nil_r. split; [done|]. split; [by apply table_after_nil|constructor].
  - cbn [length] in Hn. rewrite bind_run, perform_run. set (addr := JoinHostPort _ _).
    pose proof (tracked_dial_run meta addr (s_world s) Hi ltac:(lia)) as Hd. cbn [w_dialTunnel tracked_world].
    destruct (tracked_dial meta addr (s_world s)) as [[derr|conn] t']; cbn [fst snd].
    + set (s1 := MkSys (s_dns s) t' (s_trace s ++ [EvDialTunnel addr (inl derr)])).
      specialize (IH (match first with None => Some (derr, addr) | Some _ => first end) s1 (ta_inv _ _ _ _ Hd)).
      pose proof (ta_ids _ _ _ _ Hd) as En. cbn in En. specialize (IH ltac:(subst s1; cbn; lia)).
      destruct (dial_tunnel_loop _ _ _ _ _) as [r s']. destruct IH as (new & Et & Ha & He).
      exists (EvDialTunnel addr (inl derr) :: new). split; [rewrite Et; subst s1; cbn; by rewrite <- app_assoc|].
      split; [by eapply table_after_cons|by apply dials_end_cons].
    + exists [EvDialTunnel addr (inr conn)]. split; [done|]. split; [done|]. by exists [], addr.
Qed.

(** Nothing but the tunnel loop dials through the tunnel for a client. *)
Lemma no_tunnel_dials (P : event -> Prop) (s s' : Sys (tracked R W)) :
  (forall a x, ~ P (EvDialTunnel a x)) -> emits P s s' -> exists new, s_trace s' = s_trace s ++ new /\ tunnel_dials new = [].
Proof.
  intros HP (new & Et & Hn). exists new. split; [done|]. clear Et. induction Hn as [|ev new Hev _ IH]; [done|].
  unfold tunnel_dials in *. cbn. destruct ev; try done. by destruct (HP addr r).
Qed.

Lemma tunnel_dials_app l1 l2 : tunnel_dials (l1 ++ l2) = tunnel_dials l1 ++ tunnel_dials l2.
Proof. unfold tunnel_dials. induction l1 as [|ev l1 IH]; [done|]. cbn. rewrite IH. by destruct ev. Qed.

End Tracked.

(** ** Witness *)

(** The first address fails, the second answers. *)
Definition demo_tracked : Sys (tracked Z script) :=
  MkSys (s_dns (demo_sys false [bytes4 8 8 4 4; bytes4 1 1 1 1] []))
    (MkTW demo_tracker (s_world (demo_sys false [bytes4 8 8 4 4; bytes4 1 1 1 1] []))) [].
Definition demo_opened : opened := MkOpened (Some 7) "1.1.1.1" RouteTunnel "fallback" None.
Lemma demo_opened_ok :
  fst (Open demo_opener "10.0.0.2:4000" "http" "two.example" 443 demo_tracked) = Returned demo_opened.
Proof. vm_compute. reflexivity. Qed.
Definition demo_tracked_end : Sys (tracked Z script) :=
  snd (Open demo_opener "10.0.0.2:4000" "http" "two.example" 443 demo_tracked).
Definition demo_dials : list (string * (error + Z)) := [("8.8.4.4:443", inl timeout_error); ("1.1.1.1:443", inr 7)].
