(* ===== verification/DialCtx.v ===== *)
(** The values a dial context carries (conntrack.go: [ctxWithConnMeta],
    [connMetaFromCtx]; dialer.go: [ctxWithNoTrack]) and the dials that are made
    with them: the Opener's, which the tracker shows, and the program's own
    DNS queries, which it must not show. *)

From S2P Require Import Prelude GoStrings NetIP Errors Rules World Dns DnsFacts Opener OpenerProps ConnTrack RingProps TrackProps TrackClaims DialTrack GateTrack.

(** [context.WithValue] hides an earlier value under the same key; the keys
    here are [connMetaKey] and [noTrackKey].  Innermost first. *)
Inductive ctxValue : Type := ConnMetaValue (meta : ConnMeta) | NoTrackValue.
Abbreviation ctxValues := (list ctxValue) (only parsing).

Definition ctxWithConnMeta (ctx : ctxValues) (meta : ConnMeta) : ctxValues := ConnMetaValue meta :: ctx.
Fixpoint connMetaFromCtx (ctx : ctxValues) : option ConnMeta :=
  match ctx with
  | [] => None
  | ConnMetaValue meta :: _ => Some meta
  | NoTrackValue :: ctx' => connMetaFromCtx ctx'
  end.
Definition ctxWithNoTrack (ctx : ctxValues) : ctxValues := NoTrackValue :: ctx.
Definition isNoTrack (v : ctxValue) : bool := match v with NoTrackValue => true | _ => false end.
(** [ctx.Value(noTrackKey{}) != nil]. *)
Definition noTrack (ctx : ctxValues) : bool := existsb isNoTrack ctx.

Section Dials.
Context {R : Type} `{Runtime R}.
(** Whether [cfg.tracker] is set. *)
Context (tracker : bool).
Implicit Types (ctx : ctxValues) (addr : string) (s : TSys R).

(** [sshDialer.DialContext]. *)
Definition DialContext ctx addr (others : M (TSys R) unit) (result : error + Z) : M (TSys R) (error + netConn) :=
  trackDial (negb (noTrack ctx) && tracker) (connMetaFromCtx ctx) addr others result.
(** The dial of [Opener.Open]. *)
Definition open_dial ctx (src proto host addr : string) := DialContext (ctxWithConnMeta ctx (MkMeta proto src host "")) addr.
(** The dials of [tunnelHTTPClient] and of [dnsServerLookup]. *)
Definition tunnelHTTPClient_dial ctx addr := DialContext (ctxWithNoTrack ctx) addr.
Definition dnsServer_dial ctx (server : string) := DialContext (ctxWithNoTrack ctx) server.

(** The program's own queries leave no trace in the tracker: whatever values
    the context of the connection that asked carries, the table does not
    change and the caller gets the bare connection. *)
Theorem internal_dials_untracked ctx addr others result s :
  tunnelHTTPClient_dial ctx addr others result s =
    (match result with inl err => inl err | inr conn => inr (BaseConn conn) end, s) /\
  dnsServer_dial ctx addr others result s = tunnelHTTPClient_dial ctx addr others result s.
Proof. done. Qed.

(** A dial of the Opener is tracked under its own metadata, whatever metadata
    an outer context carried. *)
Theorem open_dial_is_tracked ctx src proto host addr others result s :
  noTrack ctx = false -> tracker = true ->
  open_dial ctx src proto host addr others result s =
  trackDial true (Some (MkMeta proto src host "")) addr others result s.
Proof.
  intros Hn Ht. unfold open_dial, DialContext.
  assert (E : noTrack (ctxWithConnMeta ctx (MkMeta proto src host "")) = noTrack ctx) by done.
  by rewrite E, Hn, Ht.
Qed.
End Dials.

(** The dial of the Opener over the tracker (GateTrack.v) is [DialContext] with
    the context [Open] builds. *)
Lemma tracked_dial_is_open_dial {R W : Type} `{Runtime R} `{World W} ctx src proto host addr (t : tracked R W) :
  noTrack ctx = false ->
  tracked_dial (MkMeta proto src host "") addr t =
  let '(res, w) := w_dialTunnel (MkMeta proto src host "") addr (tw_net t) in
  let '(r, ts) := open_dial true ctx src proto host addr (mret tt) res (tw_tracker t) in
  (match r with inl e => inl e | inr _ => res end, MkTW ts w).
Proof.
  intros Hn. unfold tracked_dial. destruct (w_dialTunnel _ addr (tw_net t)) as [res w].
  by rewrite open_dial_is_tracked.
Qed.
