(* ===== verification/Listener.v ===== *)
(** listener.go: the accept loop that outlives transient errors, and the
    limit on concurrent client connections. *)

From S2P Require Import Prelude GoStrings Errors.

(** ** resilientListener *)

(** What the wrapped listener's [Accept] returns. *)
Inductive acceptReply : Type := AcceptOK (c : Z) | AcceptErr (e : error).

(** [Accept]: one observation per iteration, whether [Close] has run by then
    and what the wrapped listener returns.  Results: the connection or the
    error ([None]: still looping when the observations end) and the sleeps. *)
Fixpoint resilient_loop (delay : Z) (obs : list (bool * acceptReply)) : option (error + Z) * list Z :=
  match obs with
  | [] => (None, [])
  | (closed, reply) :: rest =>
      if closed then (Some (inl net_ErrClosed), [])
      else match reply with
           | AcceptOK c => (Some (inr c), [])
           | AcceptErr err =>
               if errors_Is err net_ErrClosed then (Some (inl err), [])
               else
                 let doubled := wrap64 (delay * 2) in
                 let next := if Second <? doubled then Second else doubled in
                 let '(r, sleeps) := resilient_loop next rest in (r, delay :: sleeps)
           end
  end.
Definition resilient_Accept (obs : list (bool * acceptReply)) : option (error + Z) * list Z :=
  resilient_loop (5 * Millisecond) obs.

(** [Close]: the wrapped listener is closed once. *)
Definition resilient_Close (closed : bool) (base : option error) : option error * bool * nat :=
  if closed then (None, true, 0%nat) else (base, true, 1%nat).

(** The k-th pause of a burst of errors. *)
Definition pause (k : nat) : Z := Z.min Second (5 * Millisecond * 2 ^ Z.of_nat k).

Lemma pause_next k : pause (S k) = if Second <? wrap64 (pause k * 2) then Second else wrap64 (pause k * 2).
Proof.
  unfold pause, Second, Millisecond.
  assert (0 < 2 ^ Z.of_nat k) by (apply Z.pow_pos_nonneg; lia).
  rewrite Nat2Z.inj_succ, Z.pow_succ_r by lia.
  rewrite wrap64_id by (unfold in_int64, int64_min, int64_max; lia). cases_lia.
Qed.

Definition transient (o : bool * acceptReply) : Prop :=
  match o with (false, AcceptErr e) => errors_Is e net_ErrClosed = false | _ => False end.

Lemma resilient_loop_skip k errs rest : Forall transient errs ->
  resilient_loop (pause k) (errs ++ rest)
  = (fst (resilient_loop (pause (k + length errs)) rest),
     (pause <$> seq k (length errs)) ++ snd (resilient_loop (pause (k + length errs)) rest)).
Proof.
  intros Hf. revert k. induction Hf as [|[closed reply] errs Ho Hf IH]; intros k; cbn [app length].
  - rewrite Nat.add_0_r. cbn. by destruct (resilient_loop _ _).
  - cbn in Ho. destruct closed; [done|]. destruct reply as [|e]; [done|]. cbn [resilient_loop].
    rewrite Ho. cbv zeta. rewrite <- pause_next, IH. cbn. by rewrite Nat.add_succ_r.
Qed.

Lemma resilient_served errs c : Forall transient errs ->
  fst (resilient_Accept (errs ++ [(false, AcceptOK c)])) = Some (inr c) /\
  snd (resilient_Accept (errs ++ [(false, AcceptOK c)])) = pause <$> seq 0 (length errs).
Proof.
  intros Hf. unfold resilient_Accept. change (5 * Millisecond) with (pause 0).
  rewrite resilient_loop_skip by done. cbn. by rewrite app_nil_r.
Qed.
Lemma resilient_error obs e : fst (resilient_Accept obs) = Some (inl e) -> errors_Is e net_ErrClosed = true.
Proof.
  unfold resilient_Accept. generalize (5 * Millisecond). induction obs as [|[closed reply] obs IH]; intros d; [done|].
  cbn [resilient_loop]. destruct closed; [by intros [= <-]|]. destruct reply as [|err]; [done|].
  destruct (errors_Is err net_ErrClosed) eqn:E; [by intros [= <-]|]. cbv zeta.
  specialize (IH (if Second <? wrap64 (d * 2) then Second else wrap64 (d * 2))).
  by destruct (resilient_loop _ obs).
Qed.

(** Transient accept errors never end the accept loop: after any burst of
    errors the next connection is returned, the pauses in between are 5 ms
    doubling up to one second, and the only error that [Accept] ever returns
    is the closed listener's. *)
Theorem accept_survives_errors (errs : list (bool * acceptReply)) (c : Z) (obs : list (bool * acceptReply))
    (Hf : Forall transient errs) :
  resilient_Accept (errs ++ [(false, AcceptOK c)]) = (Some (inr c), pause <$> seq 0 (length errs)) /\
  (forall e, fst (resilient_Accept obs) = Some (inl e) -> errors_Is e net_ErrClosed = true).
Proof.
  split; [|apply resilient_error]. by apply injective_projections; apply resilient_served.
Qed.

Lemma accept_survives_errors_witness :
  resilient_Accept ([(false, AcceptErr (net_Error "too many open files" false)); (false, AcceptErr (net_Error "too many open files" false))]
                    ++ [(false, AcceptOK 9)])
  = (Some (inr 9), [5 * Millisecond; 10 * Millisecond]).
Proof.
  apply (accept_survives_errors
    [(false, AcceptErr (net_Error "too many open files" false)); (false, AcceptErr (net_Error "too many open files" false))] 9 []).
  repeat constructor.
Defined.

(** ** connLimiter *)

(** [newConnLimiter]: no limiter for [n <= 0]. *)
Definition newConnLimiter (n : Z) : option nat := if n <=? 0 then None else Some (Z.to_nat n).

(** The limiter and the connections handed out: [slots] used of [cap], and
    for each connection whether its slot was returned. *)
Record limiter := MkLimiter { l_cap : nat; l_slots : nat; l_released : list bool; l_refusedBurst : bool }.

Definition tryAcquire (l : limiter) : option limiter :=
  if Nat.ltb (l_slots l) (l_cap l)
  then Some (MkLimiter (l_cap l) (S (l_slots l)) (l_released l) (l_refusedBurst l)) else None.

(** [limitListener.Accept] over what the wrapped listener returns: the new
    connection's index or the error, the number of refused connections (each
    closed at once), and whether a refusal was logged as a warning. *)
Fixpoint limit_Accept (replies : list acceptReply) (l : limiter) : option (error + nat) * nat * limiter :=
  match replies with
  | [] => (None, 0%nat, l)
  | AcceptErr e :: _ => (Some (inl e), 0%nat, l)
  | AcceptOK c :: rest =>
      match tryAcquire l with
      | Some l' =>
          (Some (inr (length (l_released l))), 0%nat,
           MkLimiter (l_cap l') (l_slots l') (l_released l ++ [false]) false)
      | None =>
          let '(r, refused, l') := limit_Accept rest (MkLimiter (l_cap l) (l_slots l) (l_released l) true) in
          (r, S refused, l')
      end
  end.

(** [release] blocks on an empty channel: [None]. *)
Definition release (l : limiter) : option limiter :=
  match l_slots l with
  | O => None
  | S n => Some (MkLimiter (l_cap l) n (l_released l) (l_refusedBurst l))
  end.
(** [limitedConn.Close]: the slot is returned by the first call only. *)
Definition limited_Close (i : nat) (l : limiter) : option limiter :=
  match l_released l !! i with
  | Some false =>
      l' ← release l;
      Some (MkLimiter (l_cap l') (l_slots l') (<[i := true]> (l_released l')) (l_refusedBurst l'))
  | _ => Some l
  end.

Inductive limitOp : Type := LAccept (replies : list acceptReply) | LClose (i : nat).
Definition limit_exec (l : limiter) (op : limitOp) : option limiter :=
  match op with LAccept rs => Some (snd (limit_Accept rs l)) | LClose i => limited_Close i l end.
Definition limit_run (ops : list limitOp) (l : limiter) : option limiter :=
  foldl (fun ml op => ml ≫= fun l => limit_exec l op) (Some l) ops.

(** A slot per open connection, within the limit. *)
Definition open_conns (l : limiter) : nat := length (filter (fun b => b = false) (l_released l)).
Definition limit_ok (l : limiter) : Prop := l_slots l = open_conns l /\ (l_slots l <= l_cap l)%nat.

Lemma limit_Accept_ok rs l : limit_ok l ->
  limit_ok (snd (limit_Accept rs l)) /\ l_cap (snd (limit_Accept rs l)) = l_cap l.
Proof.
  revert l. induction rs as [|[c|e] rs IH]; intros l Hl; cbn [limit_Accept]; [done| |done].
  unfold tryAcquire. destruct (Nat.ltb_spec (l_slots l) (l_cap l)) as [Hlt|Hge].
  - cbn. split; [|done]. destruct Hl as [Hs _]. split; cbn; [|lia]. unfold open_conns in *. cbn.
    rewrite filter_app, length_app, <- Hs, filter_cons_True by done. cbn. lia.
  - destruct (IH (MkLimiter (l_cap l) (l_slots l) (l_released l) true)) as [? ?]; [by destruct Hl|].
    by destruct (limit_Accept rs _) as [[r refused] l'].
Qed.

Lemma open_conns_close i (bs : list bool) : bs !! i = Some false ->
  length (filter (fun b => b = false) bs) = S (length (filter (fun b => b = false) (<[i := true]> bs))).
Proof.
  revert i. induction bs as [|b bs IH]; intros [|i] Hi; cbn in Hi; simplify_eq; [done|].
  cbn [insert list_insert]. destruct b.
  - rewrite !filter_cons_False by done. by apply IH.
  - rewrite !filter_cons_True by done. cbn. by rewrite <- IH.
Qed.

Lemma limited_Close_ok i l : limit_ok l ->
  exists l', limited_Close i l = Some l' /\ limit_ok l' /\ l_cap l' = l_cap l.
Proof.
  intros [Hs Hc]. unfold limited_Close, release, limit_ok, open_conns in *.
  destruct (l_released l !! i) as [[]|] eqn:E; [by eexists| |by eexists].
  rewrite (open_conns_close i _ E) in Hs. rewrite Hs. cbn. eexists. split; [done|]. split; [|done].
  cbn. split; [done|lia].
Qed.

(** The connection limit holds: over any sequence of accepts and closes,
    double closes included, the slots in use are exactly the connections
    handed out and not yet closed, never more than the limit, and returning a
    slot never blocks. *)
Theorem limit_holds (n : nat) (ops : list limitOp) :
  exists l, limit_run ops (MkLimiter n 0 [] false) = Some l /\
    l_slots l = open_conns l /\ (open_conns l <= n)%nat.
Proof.
  assert (Hgen : forall l, limit_ok l -> exists l', limit_run ops l = Some l' /\ limit_ok l' /\ l_cap l' = l_cap l).
  { unfold limit_run. induction ops as [|op ops IH]; intros l Hl; [by exists l|]. cbn [foldl mbind option_bind].
    assert (Hop : exists l1, limit_exec l op = Some l1 /\ limit_ok l1 /\ l_cap l1 = l_cap l).
    { destruct op as [rs|i]; cbn; [|by apply limited_Close_ok].
      eexists. split; [done|]. by apply limit_Accept_ok. }
    destruct Hop as (l1 & -> & H1 & <-). by apply IH. }
  destruct (Hgen (MkLimiter n 0 [] false)) as (l & -> & [Hs Hc] & Ecap); [by split; cbn; [|lia]|].
  exists l. split; [done|]. cbn in Ecap. rewrite Hs in Hc. split; [done|lia].
Qed.
