(* ===== verification/ConnStack.v ===== *)
(** The wrappers around listeners and connections, composed: the accept chain
    of a proxy (keepalive, resilient, limited) and the half-close through the
    connection wrappers of listener.go, conntrack.go, socks5.go and
    httpproxy.go. *)

From S2P Require Import Prelude GoStrings Errors Listener.

(** ** Accepting *)

(** The keepalive period of accepted connections. *)
Definition keepAlivePeriod : Z := 30 * Second.
Inductive sockopt : Type := KeepAlive (on : bool) | KeepAlivePeriod (d : Z).

(** [keepAliveListener.Accept]: what it returns and the options it sets;
    [isTCP] tells which connections are *net.TCPConn. *)
Definition keepAlive_Accept (isTCP : Z -> bool) (base : acceptReply) : acceptReply * list (Z * sockopt) :=
  match base with
  | AcceptErr e => (AcceptErr e, [])
  | AcceptOK c => (AcceptOK c, if isTCP c then [(c, KeepAlive true); (c, KeepAlivePeriod keepAlivePeriod)] else [])
  end.

(** The resilient listener over it: observations of [closed] and of the
    socket's Accept, one per iteration. *)
Definition resilient_keepAlive (isTCP : Z -> bool) (obs : list (bool * acceptReply))
    : option (error + Z) * list (Z * sockopt) :=
  let wrapped := (fun o => (fst o, keepAlive_Accept isTCP (snd o))) <$> obs in
  let r := fst (resilient_Accept ((fun o => (fst o, fst (snd o))) <$> wrapped)) in
  (r, match r with
      | Some (inr c) => wrapped ≫= fun o => filter (fun x => fst x = c) (snd (snd o))
      | _ => []
      end).

(** [limitConns] over it: each list of observations is one call of the inner
    Accept; a listener without limit returns the first result. *)
Definition reply_of (r : option (error + Z)) : option acceptReply :=
  match r with Some (inr c) => Some (AcceptOK c) | Some (inl e) => Some (AcceptErr e) | None => None end.
Definition limitConns (isTCP : Z -> bool) (calls : list (list (bool * acceptReply))) (limit : option limiter)
    : option (error + Z) * option limiter :=
  let replies := omap (fun obs => reply_of (fst (resilient_keepAlive isTCP obs))) calls in
  match limit with
  | None => (match replies with
             | AcceptOK c :: _ => Some (inr c)
             | AcceptErr e :: _ => Some (inl e)
             | [] => None
             end, None)
  | Some l =>
      let '(r, refused, l') := limit_Accept replies l in
      (match r with
       | Some (inl e) => Some (inl e)
       | Some (inr _) => match replies !! refused with Some (AcceptOK c) => Some (inr c) | _ => None end
       | None => None
       end, Some l')
  end.

(** ** Half-closing *)

(** A connection as the wrappers see it: a socket or SSH channel that may
    support half-closes, under any number of wrappers.  [GuardedConn] and the
    read side of [LogConn] have no method of their own and hide the one of
    the connection they embed as a net.Conn. *)
Inductive conn : Type :=
| Base (hasCloseRead hasCloseWrite : bool)
| LimitedConn (inner : conn) | TrackedConn (inner : conn) | LogConn (inner : conn) | GuardedConn (inner : conn).

(** The methods a type assertion finds. *)
Definition has_CloseWrite (c : conn) : bool :=
  match c with Base _ w => w | LimitedConn _ | TrackedConn _ | LogConn _ => true | GuardedConn _ => false end.
Definition has_CloseRead (c : conn) : bool :=
  match c with Base r _ => r | LimitedConn _ | TrackedConn _ => true | LogConn _ | GuardedConn _ => false end.
(** The forwarding methods: whether the assertion on the inner connection
    succeeds, and what its method returns: an error, and the number of times
    the bottom connection was half-closed. *)
Definition limited_CloseWrite (ok : bool) (inner : option error * nat) : option error * nat :=
  if ok then inner else (None, 0%nat).
Definition limited_CloseRead (ok : bool) (inner : option error * nat) : option error * nat :=
  if ok then inner else (None, 0%nat).
Definition tracked_CloseWrite (ok : bool) (inner : option error * nat) : option error * nat :=
  if ok then inner else (None, 0%nat).
Definition tracked_CloseRead (ok : bool) (inner : option error * nat) : option error * nat :=
  if ok then inner else (None, 0%nat).
Definition log_CloseWrite (ok : bool) (inner : option error * nat) : option error * nat :=
  if ok then inner else (None, 0%nat).
(** Through a whole stack; [base] is the result at the bottom. *)
Fixpoint CloseWrite (base : option error) (c : conn) : option error * nat :=
  match c with
  | Base _ _ => (base, 1%nat)
  | LimitedConn inner => limited_CloseWrite (has_CloseWrite inner) (CloseWrite base inner)
  | TrackedConn inner => tracked_CloseWrite (has_CloseWrite inner) (CloseWrite base inner)
  | LogConn inner => log_CloseWrite (has_CloseWrite inner) (CloseWrite base inner)
  | GuardedConn _ => (None, 0%nat)                  (* no such method *)
  end.
Fixpoint CloseRead (base : option error) (c : conn) : option error * nat :=
  match c with
  | Base _ _ => (base, 1%nat)
  | LimitedConn inner => limited_CloseRead (has_CloseRead inner) (CloseRead base inner)
  | TrackedConn inner => tracked_CloseRead (has_CloseRead inner) (CloseRead base inner)
  | LogConn _ | GuardedConn _ => (None, 0%nat)      (* no such method *)
  end.
(** The end of a copy toward the client: the assertion in [handleConnect]. *)
Definition half_close_client (base : option error) (c : conn) : nat :=
  if has_CloseWrite c then snd (CloseWrite base c) else 0%nat.

Fixpoint bottom (c : conn) : bool * bool :=
  match c with
  | Base r w => (r, w)
  | LimitedConn i | TrackedConn i | LogConn i | GuardedConn i => bottom i
  end.
Fixpoint guarded (c : conn) : bool :=
  match c with
  | Base _ _ => false
  | GuardedConn _ => true
  | LimitedConn i | TrackedConn i | LogConn i => guarded i
  end.

(** ** Properties *)

(** A half-close toward either side of a relay reaches the socket or SSH
    channel below exactly once when that supports it, with its result, and is
    dropped without an error when it does not; only a guarded connection,
    which is never relayed by half-closes, hides it. *)
Theorem half_close_reaches_bottom (base : option error) (c : conn) (Hg : guarded c = false) :
  half_close_client base c = (if snd (bottom c) then 1 else 0)%nat /\
  (snd (bottom c) = true -> CloseWrite base c = (base, 1%nat)).
Proof.
  assert (Hgen : has_CloseWrite c = true -> CloseWrite base c = if snd (bottom c) then (base, 1%nat) else (None, 0%nat)).
  { induction c as [r w|c IH|c IH|c IH|c IH]; cbn in *; [by intros ->| | | |done];
      intros _; destruct (has_CloseWrite c) eqn:E; try (by apply IH);
      (destruct c; cbn in *; [subst; done|done..]). }
  split.
  - unfold half_close_client. destruct (has_CloseWrite c) eqn:E; [rewrite Hgen by done; by destruct (snd (bottom c))|].
    destruct c; cbn in *; [by subst|done..].
  - intros Hb. destruct c; cbn [CloseWrite] in *; [done| | | |done]; rewrite Hgen; rewrite ?Hb; done.
Qed.

Lemma keepAlive_transparent isTCP base : fst (keepAlive_Accept isTCP base) = base.
Proof. by destruct base. Qed.
Lemma resilient_keepAlive_result isTCP obs : fst (resilient_keepAlive isTCP obs) = fst (resilient_Accept obs).
Proof.
  unfold resilient_keepAlive. cbn. do 2 f_equal. rewrite <- list_fmap_compose.
  rewrite <- (list_fmap_id obs) at 2. apply list_fmap_ext. intros i [cl r] _. cbn. by rewrite keepAlive_transparent.
Qed.

(** Failed accepts set no options. *)
Lemma bind_empty_errs isTCP errs c : Forall transient errs ->
  (((fun o => (fst o, keepAlive_Accept isTCP (snd o))) <$> errs) ≫= fun o => filter (fun x => fst x = c) (snd (snd o))) = [].
Proof. induction 1 as [|[[] [c'|e]] errs Ho Hf IH]; try done. Qed.

(** A proxy keeps serving: after any burst of transient accept errors, the
    next client is handed to the proxy as long as a slot is free, with
    keepalive on and its period set, and without a limit as well; the only
    error the accept loop ever sees is the closed listener's. *)
Theorem accept_chain_serves (isTCP : Z -> bool) (errs : list (bool * acceptReply)) (c : Z) (l : limiter)
    (Hf : Forall transient errs) (Htcp : isTCP c = true) (Hfree : (l_slots l < l_cap l)%nat) :
  let obs := errs ++ [(false, AcceptOK c)] in
  fst (limitConns isTCP [obs] (Some l)) = Some (inr c) /\
  fst (limitConns isTCP [obs] None) = Some (inr c) /\
  snd (resilient_keepAlive isTCP obs) = [(c, KeepAlive true); (c, KeepAlivePeriod (30 * Second))] /\
  (forall calls e, fst (limitConns isTCP calls None) = Some (inl e) -> errors_Is e net_ErrClosed = true).
Proof.
  cbv zeta.
  assert (Hr : fst (resilient_keepAlive isTCP (errs ++ [(false, AcceptOK c)])) = Some (inr c)).
  { rewrite resilient_keepAlive_result. destruct (resilient_served errs c Hf) as [-> _]. done. }
  split; [|split; [|split]].
  - unfold limitConns. cbn [omap list_omap]. rewrite Hr. cbn. unfold tryAcquire.
    by rewrite (proj2 (Nat.ltb_lt _ _)).
  - unfold limitConns. cbn [omap list_omap]. by rewrite Hr.
  - unfold resilient_keepAlive in *. cbn in Hr |- *. rewrite Hr, fmap_app, bind_app. cbn. rewrite Htcp. cbn.
    rewrite (bind_empty_errs isTCP errs c Hf). by destruct (decide (c = c)).
  - intros calls e. unfold limitConns. cbv zeta. cbn [fst].
    destruct (omap _ calls) as [|[c'|e'] rest] eqn:E; [done|done|]. intros [= ->].
    assert (Hin : AcceptErr e ∈ omap (fun obs => reply_of (fst (resilient_keepAlive isTCP obs))) calls) by (rewrite E; left).
    apply list_elem_of_omap in Hin as (obs & _ & Ho). rewrite resilient_keepAlive_result in Ho.
    eapply (resilient_error obs). destruct (fst (resilient_Accept obs)) as [[e'|c']|]; cbn in Ho; by simplify_eq.
Qed.

(** ** Witnesses *)

Definition emfile : bool * acceptReply := (false, AcceptErr (net_Error "too many open files" false)).
Lemma accept_chain_serves_witness :
  fst (limitConns (fun _ => true) [[emfile; emfile] ++ [(false, AcceptOK 9)]] (Some (MkLimiter 1 0 [] false))) = Some (inr 9).
Proof.
  apply (accept_chain_serves (fun _ => true) [emfile; emfile] 9 (MkLimiter 1 0 [] false));
    [repeat constructor|reflexivity|cbn; lia].
Defined.
Lemma half_close_reaches_bottom_witness :
  half_close_client None (LimitedConn (Base true true)) = 1%nat /\
  CloseWrite None (LogConn (TrackedConn (Base true true))) = (None, 1%nat).
Proof.
  split.
  - exact (proj1 (half_close_reaches_bottom None (LimitedConn (Base true true)) eq_refl)).
  - exact (proj2 (half_close_reaches_bottom None (LogConn (TrackedConn (Base true true))) eq_refl) eq_refl).
Defined.
