(* ===== verification/LogConn.v ===== *)
(** The access log of socks5.go: [connInfo], [logConn] and the counter of
    relays in flight that the shutdown drain waits for. *)

From S2P Require Import Prelude GoStrings NetIP Errors Rules World Dns DnsFacts Opener.

Record connInfo := MkInfo {
  ci_id : Z; ci_proto : string; ci_src : string; ci_host : string; ci_dst : string; ci_reason : string;
  ci_port : Z; ci_route : Route; ci_family : IPFamily; ci_dialMS : Z }.

(** [nextConnID]. *)
Definition nextConnID (connIDs : Z) : Z := wrapu64 (connIDs + 1).

(** One line of the access log: the fields, the result and, for a finished
    relay, its duration and byte counts. *)
Record accessLine := MkLine {
  al_info : connInfo; al_result : string; al_relay : option (Z * Z * Z) }.
(** What a connection adds to the two logs. *)
Record logs := MkLogs { lg_access : list accessLine; lg_service : list (accessLine * error) }.
Definition no_logs : logs := MkLogs [] [].

(** [logFailure]. *)
Definition logFailure (info : connInfo) (result : string) (err : error) (l : logs) : logs :=
  let line := MkLine info result None in
  MkLogs (lg_access l ++ [line]) (lg_service l ++ [(line, err)]).

(** [relayErr]: the comparison with io.EOF is by identity. *)
Definition relayErr (err : option error) : bool :=
  match err with
  | None => false
  | Some e => negb (same_var e io_EOF) && negb (errors_Is e net_ErrClosed)
  end.

(** [logConn]; [lc_drain] is whether onClose is set (SOCKS5). *)
Record logConn := MkLogConn {
  lc_base : Z; lc_up : Z; lc_down : Z; lc_firstErr : option error; lc_t0 : Z; lc_closed : bool;
  lc_drain : bool; lc_info : connInfo }.

Definition lc_count (up : bool) (n : Z) (err : option error) (c : logConn) : logConn :=
  MkLogConn (lc_base c)
    (if up then wrap64 (lc_up c + n) else lc_up c) (if up then lc_down c else wrap64 (lc_down c + n))
    (if relayErr err then match lc_firstErr c with None => err | Some _ => lc_firstErr c end else lc_firstErr c)
    (lc_t0 c) (lc_closed c) (lc_drain c) (lc_info c).
(** [Read] and [Write]: [n] and [err] come from the upstream connection. *)
Definition lc_Read (n : Z) (err : option error) (c : logConn) : logConn := lc_count false n err c.
Definition lc_Write (n : Z) (err : option error) (c : logConn) : logConn := lc_count true n err c.

(** [Close] at the time [now], with the logs and the number of relays the
    drain waits for. *)
Definition lc_Close (now : Z) (c : logConn) (l : logs) (inflight : Z) : logConn * logs * Z :=
  if lc_closed c then (c, l, inflight)
  else
    let c' := MkLogConn (lc_base c) (lc_up c) (lc_down c) (lc_firstErr c) (lc_t0 c) true (lc_drain c) (lc_info c) in
    let ms := Milliseconds (time_Sub now (lc_t0 c)) in
    let result := match lc_firstErr c with Some _ => "relay_error" | None => "ok" end in
    let line := MkLine (lc_info c) result (Some (ms, lc_up c, lc_down c)) in
    (c', MkLogs (lg_access l ++ [line])
                (lg_service l ++ match lc_firstErr c with Some e => [(line, e)] | None => [] end),
     if lc_drain c then inflight - 1 else inflight).

(** ** The state the proxies share *)

(** The connection id counter and the logs of the process, and of the SOCKS5
    server the in-flight counter ([conns]), the handshakes by client address
    and the deadlines set on client connections. *)
Record proxyState := MkProxy {
  connIDs : Z;
  p_logs : logs;
  conns : Z;
  handshakes : gmap string Z;
  deadlines : gmap Z Z }.
Definition with_logs (l : logs) (k : Z) (p : proxyState) : proxyState :=
  MkProxy (connIDs p) l k (handshakes p) (deadlines p).
Definition take_id (p : proxyState) : Z * proxyState :=
  let id := nextConnID (connIDs p) in
  (id, MkProxy id (p_logs p) (conns p) (handshakes p) (deadlines p)).

(** [lc.Close()] within the process. *)
Definition close_logged (now : Z) (c : logConn) (p : proxyState) : proxyState :=
  let '(_, l, k) := lc_Close now c (p_logs p) (conns p) in with_logs l k p.

(** [serveConn] before and after the library's [ServeConn]. *)
Definition serveConn_start (handshakeTimeout now conn : Z) (src : string) (p : proxyState) : proxyState :=
  MkProxy (connIDs p) (p_logs p) (conns p) (<[src := conn]> (handshakes p))
    (<[conn := time_Add now handshakeTimeout]> (deadlines p)).
Definition serveConn_end (src : string) (p : proxyState) : proxyState :=
  MkProxy (connIDs p) (p_logs p) (conns p) (delete src (handshakes p)) (deadlines p).
(** The dial callback's [SetDeadline(time.Time{})] on the client of [src]. *)
Definition lift_deadline (src : string) (p : proxyState) : proxyState :=
  match handshakes p !! src with
  | Some c => MkProxy (connIDs p) (p_logs p) (conns p) (handshakes p) (delete c (deadlines p))
  | None => p
  end.

(** ** Opening with access log *)

Section Access.
Context `{Regexp} {W : Type} `{World W}.

Definition blank_info (id : Z) (proto src host : string) (port : Z) (fam : IPFamily) : connInfo :=
  MkInfo id proto src host "" "" port RouteDirect fam 0.
Definition with_route (dst : string) (route : Route) (reason : string) (ms : Z) (i : connInfo) : connInfo :=
  MkInfo (ci_id i) (ci_proto i) (ci_src i) (ci_host i) dst reason (ci_port i) route (ci_family i) ms.

(** The common part of [openUpstream] (HTTP) and of the SOCKS5 dial callback:
    the timed [Open] and the log of its failure. *)
Definition open_logged (o : Opener) (info : connInfo) (drain : bool) (p : proxyState)
    : M (Sys W) (outcome ((error + logConn) * proxyState)) :=
  start ← time_now;
  r ← Open o (ci_src info) (ci_proto info) (ci_host info) (ci_port info);
  finish ← time_now;
  match r with
  | Panicked => mret Panicked
  | Returned op =>
      let info := with_route (op_dst op) (op_route op) (op_reason op) (Milliseconds (time_Sub finish start)) info in
      match op_err op, op_conn op with
      | Some e, _ => mret (Returned (inl e, with_logs (logFailure info "dial_error" e (p_logs p)) (conns p) p))
      | None, Some conn =>
          t0 ← time_now;
          mret (Returned (inr (MkLogConn conn 0 0 None t0 false drain info),
                          with_logs (p_logs p) (if drain then conns p + 1 else conns p) p))
      | None, None => mret Panicked                 (* Open returns one of them *)
      end
  end.

(** [openUpstream] of the HTTP proxy. *)
Definition openUpstream (o : Opener) (src host : string) (port : Z) (p : proxyState)
    : M (Sys W) (outcome ((error + logConn) * proxyState)) :=
  let '(id, p) := take_id p in
  open_logged o (blank_info id "http" src host port (o_family o)) false p.

(** A failed resolution carried by the request context ([resolveFailure]). *)
Record resolveFailure := MkRF { rf_route : Route; rf_reason : string; rf_err : error }.

(** [net.IPv4zero]: the 16-byte form. *)
Definition IPv4zero : list ascii := AsSlice (Addr6 (65535 * 2 ^ 32) "").

(** [openerResolver.Resolve]: the failure is not returned to the library but
    put into the context, with the zero address as the answer. *)
Definition resolver_Resolve (o : Opener) (host : string)
    : M (Sys W) (outcome (option resolveFailure * list ascii)) :=
  r ← Resolve o host 0;
  mret (match r with
        | Panicked => Panicked
        | Returned (_, route, reason, Some e) => Returned (Some (MkRF route reason e), IPv4zero)
        | Returned (ip, _, _, None) => Returned (None, ip)
        end).

(** The SOCKS5 dial callback. *)
Definition socks5_dial (o : Opener) (addr fqdn src : string) (rf : option resolveFailure) (p : proxyState)
    : M (Sys W) (outcome ((error + logConn) * proxyState)) :=
  match SplitHostPort addr with
  | None => mret (Returned (inl (Errorf ("invalid destination address " +:+ addr) None), p))
  | Some (host, port) =>
      let portInt := Atoi_value port in
      let host := if String.eqb fqdn "" then host else fqdn in
      let p := lift_deadline src p in
      let '(id, p) := take_id p in
      let info := blank_info id "socks5" src host portInt (o_family o) in
      match rf with
      | Some f =>
          let info := with_route "" (rf_route f) (rf_reason f) 0 info in
          mret (Returned (inl errResolveFailed,
                          with_logs (logFailure info "resolve_error" (rf_err f) (p_logs p)) (conns p) p))
      | None => open_logged o info true p
      end
  end.

(** ** The handshake deadline *)

Lemma open_logged_keeps o info drain p s r s' :
  open_logged o info drain p s = (Returned r, s') ->
  handshakes (snd r) = handshakes p /\ deadlines (snd r) = deadlines p.
Proof.
  unfold open_logged. rewrite !bind_run. destruct (fst (Open _ _ _ _ _ _)) as [op|]; [|done]. cbv zeta.
  destruct (op_err op); [by intros [= <- _]|]. destruct (op_conn op); [|done].
  rewrite bind_run. by intros [= <- _].
Qed.

(** The relay is unbounded: once the dial callback of a client ran, whatever
    it returned, no deadline of the handshake is left on that client, and the
    deadlines of every other client stand. *)
Theorem handshake_deadline_lifted o addr fqdn src rf timeout now conn p s r s' :
  SplitHostPort addr <> None ->
  socks5_dial o addr fqdn src rf (serveConn_start timeout now conn src p) s = (Returned r, s') ->
  deadlines (snd r) = delete conn (deadlines p).
Proof.
  unfold socks5_dial. destruct (SplitHostPort addr) as [[host port]|]; [|done]. intros _.
  unfold lift_deadline. cbn. rewrite lookup_insert_eq. destruct rf as [f|].
  - intros [= <- _]. cbn. by rewrite delete_insert_eq.
  - intros [_ ->]%open_logged_keeps. cbn. by rewrite delete_insert_eq.
Qed.
End Access.

(** The ASSOCIATE handler: the reply RepCommandNotSupported, and nothing is
    dialed or counted. *)
Definition socks5_associate (p : proxyState) : Z * proxyState := (7, p).

(** ** Properties *)

(** The life of a wrapped connection after the dial. *)
Inductive lcOp : Type := LcRead (n : Z) (err : option error) | LcWrite (n : Z) (err : option error) | LcClose (now : Z).
Definition lc_exec (st : logConn * logs * Z) (op : lcOp) : logConn * logs * Z :=
  let '(c, l, k) := st in
  match op with
  | LcRead n e => (lc_Read n e c, l, k)
  | LcWrite n e => (lc_Write n e c, l, k)
  | LcClose now => lc_Close now c l k
  end.
Definition closes (ops : list lcOp) : bool :=
  existsb (fun op => match op with LcClose _ => true | _ => false end) ops.

Lemma lc_run_closed ops c l k : lc_closed c = true ->
  exists c', foldl lc_exec (c, l, k) ops = (c', l, k) /\ lc_closed c' = true.
Proof.
  revert c. induction ops as [|op ops IH]; intros c Hc; [by exists c|]. cbn [foldl lc_exec].
  destruct op; cbn; [by apply IH..|]. unfold lc_Close. rewrite Hc. by apply IH.
Qed.

(** Every relay is logged exactly once and retired exactly once: over any
    sequence of reads, writes and closes of an opened connection, the access
    log gets one line and the drain counter loses one, both at the first close
    and never again, and nothing before it. *)
Theorem relay_logged_once (c : logConn) (l : logs) (inflight : Z) (ops : list lcOp)
    (Hopen : lc_closed c = false) (Hdrain : lc_drain c = true) :
  let '(c', l', k') := foldl lc_exec (c, l, inflight) ops in
  if closes ops
  then k' = inflight - 1 /\ exists line, lg_access l' = lg_access l ++ [line] /\ al_info line = lc_info c /\
         (al_result line = "ok" <-> lg_service l' = lg_service l)
  else k' = inflight /\ l' = l /\ lc_closed c' = false.
Proof.
  revert c Hopen Hdrain. induction ops as [|op ops IH]; intros c Hopen Hdrain; [done|].
  cbn [foldl lc_exec closes existsb]. destruct op as [n e|n e|now]; cbn [orb].
  - by apply (IH (lc_Read n e c)).
  - by apply (IH (lc_Write n e c)).
  - unfold lc_Close. rewrite Hopen, Hdrain. cbv zeta.
    match goal with |- context [foldl lc_exec (?c1, ?l1, ?k1) ops] =>
      destruct (lc_run_closed ops c1 l1 k1 eq_refl) as (c' & -> & _) end.
    split; [done|]. eexists. split; [done|]. split; [done|]. cbn.
    destruct (lc_firstErr c); [|by rewrite app_nil_r].
    split; [done|]. intros E. apply (f_equal length) in E. rewrite length_app in E. cbn in E. lia.
Qed.

Definition demo_logConn : logConn :=
  MkLogConn 7 0 0 None 100 false true (blank_info 1 "socks5" "10.0.0.2:4000" "a.example" 443 FamilyBoth).
Lemma relay_logged_once_witness :
  snd (foldl lc_exec (demo_logConn, no_logs, 1) [LcWrite 10 None; LcClose 200; LcClose 300]) = 0.
Proof.
  pose proof (relay_logged_once demo_logConn no_logs 1 [LcWrite 10 None; LcClose 200; LcClose 300] eq_refl eq_refl) as Hl.
  destruct (foldl lc_exec _ _) as [[c' l'] k']. exact (proj1 Hl).
Defined.
