(* ===== verification/Guard.v ===== *)
(** The idle guard of httpproxy.go: a goroutine that closes both sides of an
    absolute-form request once no byte has moved for the timeout. *)

From S2P Require Import Prelude.

Definition httpIdleTimeout : Z := 5 * (60 * Second).

(** The period of the checks in [newIdleGuard]. *)
Definition check_period (timeout : Z) : Z := let c := Z.quot timeout 10 in if Second <? c then Second else c.

(** [guardedConn.Read], [guardedConn.Write] and [guardedReader.Read]: the
    wrapped call moved [n] bytes and returned at [now]; [touch] stores the
    time. *)
Definition guarded_io (n now last : Z) : Z := if 0 <? n then now else last.

(** What reaches the guard: I/O through it, a tick of the checker taken by its
    select, [stop], and the select taking the closed channel. *)
Inductive guardEvent : Type := GuardIO (n now : Z) | CheckTick (now : Z) | GuardStop | GuardDone.
Record guard := MkGuard { g_last : Z; g_stopped : bool }.
Definition newIdleGuard (now : Z) : guard := MkGuard now false.

(** The goroutine of [newIdleGuard]: the time at which it runs onIdle, if it
    does before the events end. *)
Fixpoint guard_run (timeout : Z) (g : guard) (evs : list guardEvent) : option Z :=
  match evs with
  | [] => None
  | GuardIO n now :: rest => guard_run timeout (MkGuard (guarded_io n now (g_last g)) (g_stopped g)) rest
  | CheckTick now :: rest =>
      if timeout <=? time_Sub now (g_last g) then Some now else guard_run timeout g rest
  | GuardStop :: rest => guard_run timeout (MkGuard (g_last g) true) rest
  | GuardDone :: rest => if g_stopped g then None else guard_run timeout g rest
  end.

(** ** Lemmas *)

(** The time of the last progress among some events. *)
Definition progress (last : Z) (ev : guardEvent) : Z := match ev with GuardIO n now => guarded_io n now last | _ => last end.
Definition last_progress (start : Z) (evs : list guardEvent) : Z := foldl progress start evs.

Lemma idle_iff timeout now last : int64_min < timeout <= int64_max ->
  (timeout <=? time_Sub now last) = true <-> last + timeout <= now.
Proof. intros Ht. rewrite Z.leb_le. unfold time_Sub. lia. Qed.

Lemma guard_run_fires timeout g evs t : guard_run timeout g evs = Some t ->
  exists pre post, evs = pre ++ CheckTick t :: post /\ timeout <= time_Sub t (last_progress (g_last g) pre).
Proof.
  revert g. induction evs as [|ev evs IH]; intros g; [done|].
  assert (Hrec : forall g', g_last g' = progress (g_last g) ev -> guard_run timeout g' evs = Some t ->
    exists pre post, ev :: evs = pre ++ CheckTick t :: post /\ timeout <= time_Sub t (last_progress (g_last g) pre)).
  { intros g' El Hr. destruct (IH g' Hr) as (pre & post & -> & Hle). exists (ev :: pre), post. split; [done|].
    unfold last_progress in *. cbn. by rewrite <- El. }
  destruct ev as [n now|now| |]; cbn [guard_run].
  - by apply Hrec.
  - destruct (timeout <=? _) eqn:E; [|by apply Hrec]. intros [= <-]. exists [], evs. split; [done|]. by apply Z.leb_le.
  - by apply Hrec.
  - destruct (g_stopped g); [done|]. by apply Hrec.
Qed.

(** The time an event carries, and event lists in the order of time. *)
Definition ev_time (ev : guardEvent) : option Z := match ev with GuardIO _ now | CheckTick now => Some now | _ => None end.
Fixpoint in_time (from : Z) (evs : list guardEvent) : Prop :=
  match evs with
  | [] => True
  | ev :: rest => match ev_time ev with Some t => from <= t /\ in_time t rest | None => in_time from rest end
  end.
Definition moved (ev : guardEvent) (t : Z) : Prop := match ev with GuardIO n now => 0 < n /\ now = t | _ => False end.

Lemma last_progress_ge evs from start : in_time from evs -> start <= from -> start <= last_progress start evs.
Proof.
  revert from start. induction evs as [|ev evs IH]; intros from start Ht Hs; [done|]. cbn in *. unfold last_progress in *. cbn.
  destruct ev as [n now|now| |]; cbn in *; [|destruct Ht; apply (IH now); [done|lia]|by eapply IH|by eapply IH].
  destruct Ht as [Hf Ht]. unfold guarded_io. destruct (0 <? n).
  - specialize (IH now now Ht ltac:(lia)). lia.
  - apply (IH now); [done|lia].
Qed.
Lemma last_progress_latest from start evs ev t : in_time from evs -> start <= from -> ev ∈ evs -> moved ev t ->
  t <= last_progress start evs.
Proof.
  revert from start. induction evs as [|e evs IH]; intros from start Ht Hs Hin Hm; [by apply elem_of_nil in Hin|].
  apply elem_of_cons in Hin as [->|Hin].
  - destruct e as [n now|now| |]; cbn in *; try done. destruct Hm as [Hn ->]. destruct Ht as [_ Ht].
    unfold last_progress. cbn. unfold guarded_io. rewrite (proj2 (Z.ltb_lt 0 n)) by done. by apply (last_progress_ge evs t).
  - unfold last_progress. cbn. destruct e as [n now|now| |]; cbn in *; [|destruct Ht; apply (IH now); try done; lia|by eapply IH|by eapply IH].
    destruct Ht as [Hf Ht]. unfold guarded_io. destruct (0 <? n); apply (IH now); try done; lia.
Qed.

Lemma guard_run_app timeout g pre post : guard_run timeout g pre = None -> GuardStop ∉ pre -> g_stopped g = false ->
  guard_run timeout g (pre ++ post) = guard_run timeout (MkGuard (last_progress (g_last g) pre) false) post.
Proof.
  revert g. induction pre as [|ev pre IH]; intros g Hr Hs Hg; [by destruct g; cbn in *; subst|].
  apply not_elem_of_cons in Hs as [Hne Hs]. unfold last_progress. cbn.
  destruct ev as [n now|now| |]; cbn in Hr |- *; [|destruct (timeout <=? _); [done|]|done|rewrite Hg in *]; by apply IH.
Qed.

(** Ticks at most [period] apart, from the time [from] on. *)
Fixpoint ticks_every (period from : Z) (ticks : list Z) : Prop :=
  match ticks with [] => True | t :: rest => from <= t <= from + period /\ ticks_every period t rest end.

Lemma ticks_fire timeout last period from ticks : int64_min < timeout <= int64_max ->
  ticks_every period from ticks -> from < last + timeout -> Exists (fun t => last + timeout <= t) ticks ->
  exists t, guard_run timeout (MkGuard last false) (CheckTick <$> ticks) = Some t /\
    last + timeout <= t < last + timeout + period.
Proof.
  intros Ht. revert from. induction ticks as [|t ticks IH]; intros from Hev Hf Hl; [by apply Exists_nil in Hl|].
  destruct Hev as [Hgap Hev]. cbn [fmap list_fmap guard_run].
  change (g_last (MkGuard last false)) with last. destruct (timeout <=? time_Sub t last) eqn:E.
  - apply idle_iff in E; [|done]. exists t. split; [done|]. lia.
  - assert (Hlt : t < last + timeout).
    { apply not_true_iff_false in E. rewrite idle_iff in E by done. lia. }
    apply (IH t); [done|done|]. apply Exists_cons in Hl as [Hl|Hl]; [lia|done].
Qed.

(** ** Properties *)

(** The idle guard cuts a request exactly when it is idle.  It fires only
    at a check at which no byte has moved for the whole timeout; and when the
    checks come at their period and nothing moves any more, it fires, less
    than one second after the timeout has passed since the last byte. *)
Theorem idle_guard_bounds (timeout start : Z) (evs : list guardEvent) (Ht : 0 < timeout <= int64_max) :
  (forall t, guard_run timeout (newIdleGuard start) evs = Some t -> in_time start evs ->
     exists pre post, evs = pre ++ CheckTick t :: post /\ start + timeout <= t /\
       forall ev u, ev ∈ pre -> moved ev u -> u + timeout <= t) /\
  (forall ticks from, guard_run timeout (newIdleGuard start) evs = None -> GuardStop ∉ evs ->
     let last := last_progress start evs in
     ticks_every (check_period timeout) from ticks -> from < last + timeout ->
     Exists (fun t => last + timeout <= t) ticks ->
     exists t, guard_run timeout (newIdleGuard start) (evs ++ (CheckTick <$> ticks)) = Some t /\
       last + timeout <= t < last + timeout + Second).
Proof.
  assert (Ht' : int64_min < timeout <= int64_max) by (unfold int64_min, int64_max in *; lia). split.
  - intros t Hr Htime. destruct (guard_run_fires _ _ _ _ Hr) as (pre & post & -> & Hle).
    exists pre, post. split; [done|]. apply Z.leb_le, idle_iff in Hle; [|done]. cbn in Hle.
    assert (Hpre : in_time start pre).
    { clear -Htime. revert start Htime. induction pre as [|ev pre IH]; intros start; [done|]. cbn.
      destruct (ev_time ev); [intros [? ?]|intros ?]; [split; [done|]|]; by apply IH. }
    pose proof (last_progress_ge pre start start Hpre ltac:(lia)) as Hge. split; [lia|].
    intros ev u Hin Hm. pose proof (last_progress_latest start start pre ev u Hpre ltac:(lia) Hin Hm). lia.
  - cbv zeta. intros ticks from Hr Hs Hev Hf Hl. rewrite guard_run_app by done.
    destruct (ticks_fire timeout _ _ _ _ Ht' Hev Hf Hl) as (t & Hrun & Hb). exists t. split; [done|].
    assert (check_period timeout <= Second) by (unfold check_period; cases_lia). cbn in Hb. lia.
Qed.

(** ** Witness *)

Lemma idle_guard_bounds_witness :
  exists t, guard_run httpIdleTimeout (newIdleGuard 0)
    ([GuardIO 100 (2 * Second); CheckTick (3 * Second)] ++
     (CheckTick <$> [300 * Second; 301 * Second; 302 * Second])) = Some t /\
    2 * Second + httpIdleTimeout <= t < 2 * Second + httpIdleTimeout + Second.
Proof.
  apply (proj2 (idle_guard_bounds httpIdleTimeout 0 [GuardIO 100 (2 * Second); CheckTick (3 * Second)]
           ltac:(vm_compute; split; [reflexivity|discriminate])) [300 * Second; 301 * Second; 302 * Second] (299 * Second)).
  - reflexivity.
  - intros Hin. repeat (apply elem_of_cons in Hin as [?|Hin]; [discriminate|]). by apply elem_of_nil in Hin.
  - vm_compute. repeat split; discriminate.
  - reflexivity.
  - do 2 right. left. vm_compute. discriminate.
Defined.
