(* ===== verification/HttpProxy.v ===== *)
(** httpproxy.go: the dispatch of one client connection, the CONNECT and the
    absolute-form request, the rewritten head and the body framing and the error
    replies. *)

From S2P Require Import Prelude GoStrings NetIP Errors Rules World Dns DnsFacts Asks DnsProps CacheProps Opener OpenerProps LogConn.

Definition crlf : string := String (ascii_of_nat 13) (String (ascii_of_nat 10) "").
Definition len (s : string) : Z := Z.of_nat (String.length s).

(** ** Replies *)

(** [http.StatusText] of the codes in use. *)
Definition StatusText (code : Z) : string :=
  if code =? 400 then "Bad Request" else if code =? 413 then "Request Entity Too Large"
  else if code =? 431 then "Request Header Fields Too Large" else if code =? 502 then "Bad Gateway"
  else if code =? 504 then "Gateway Timeout" else "".
Definition writeHTTPErr (code : Z) (msg : string) : string :=
  let body := msg +:+ crlf in
  "HTTP/1.1 " +:+ Itoa code +:+ " " +:+ StatusText code +:+ crlf +:+
  "Content-Length: " +:+ Itoa (len body) +:+ crlf +:+ "Connection: close" +:+ crlf +:+ crlf +:+ body.

Definition statusForDialErr (err : error) : Z :=
  match errors_As as_net_Error err with Some true => 504 | _ => 502 end.

Definition validatePort (port : Z) : bool := (1 <=? port) && (port <=? 65535).

(** ** Requests *)

(** What [http.ReadRequest] parsed.  The header is in the order in which Go's
    [range] visits it; the body is what reading it to the end yields, and
    [q_BodyErr] the error that ends it after its last byte, if not EOF. *)
Record request := MkRequest {
  q_Method : string; q_URLHost : string; q_IsAbs : bool; q_Scheme : string; q_Hostname : string; q_Port : string;
  q_RequestURI : string; q_Host : string; q_TransferEncoding : list string; q_ContentLength : Z;
  q_Header : list (string * list string); q_Body : string; q_BodyErr : option error }.

(** What net/http documents of a request: chunked bodies carry no
    Content-Length header and have unknown length. *)
Record request_ok (r : request) : Prop := MkRequestOk {
  ro_chunked : q_TransferEncoding r <> [] -> q_ContentLength r = -1;
  ro_length : q_ContentLength r < 0 ->
    Forall (fun kv => ToLower (fst kv) <> "content-length") (q_Header r) }.

Definition maxReframedBody : Z := 32 * 2 ^ 20.

(** The names the header loop drops. *)
Definition dropped_names : list string :=
  ["host"; "connection"; "proxy-connection"; "proxy-authorization"; "transfer-encoding"].
Definition keeps_header (k : string) : bool := negb (existsb (String.eqb (ToLower k)) dropped_names).

(** The fields of the forwarded head, in order, as name and value. *)
Definition head_fields (r : request) (body : option string) : list (string * string) :=
  [("Host", if String.eqb (q_Host r) "" then q_URLHost r else q_Host r)] ++
  (match body with Some b => [("Content-Length", Itoa (len b))] | None => [] end) ++
  (filter (fun kv => keeps_header (fst kv) = true) (q_Header r) ≫= fun kv => (fun v => (fst kv, v)) <$> snd kv) ++
  [("Connection", "close")].
Definition render_field (kv : string * string) : string := fst kv +:+ ": " +:+ snd kv +:+ crlf.
Definition head_text (r : request) (body : option string) : string :=
  q_Method r +:+ " " +:+ q_RequestURI r +:+ " HTTP/1.1" +:+ crlf +:+
  Join (render_field <$> head_fields r body) "" +:+ crlf.

(** The framing decision: the body that is buffered and re-sent with a length,
    or the error reply. *)
Definition reframe (r : request) : string + option string :=
  let chunked := negb (bool_decide (q_TransferEncoding r = [])) in
  let closeDelimited := q_ContentLength r <? 0 in
  let hasBody := negb (q_ContentLength r =? 0) in
  if hasBody && (chunked || closeDelimited) then
    (* io.ReadAll of at most one byte more than the limit *)
    if maxReframedBody <? len (q_Body r) then inl (writeHTTPErr 413 "Body too large")
    else match q_BodyErr r with
         | Some _ => inl (writeHTTPErr 413 "Body read failed")
         | None => inr (Some (q_Body r))
         end
  else inr None.

(** ** The handlers *)

Section Handlers.
Context `{Regexp} {W : Type} `{World W}.

(** What the two ends of a connection do: how much of the head and of the
    body the upstream takes and with which error, the bytes it sends back and
    the error that ends them, and whether that happens before the client's
    side is done (CONNECT only, where the two copies run at once). *)
Record upstreamEnv := MkUp {
  up_head : string -> string * option error;
  up_body : string -> string * option error;
  up_reply : string;
  up_readErr : option error;
  up_repliesFirst : bool }.
(** Bytes written to the client and to the upstream ([None] when none was
    opened), and the state after. *)
Record served := MkServed { sv_client : string; sv_upstream : option string; sv_state : proxyState }.
Definition reply (text : string) (p : proxyState) : served := MkServed text None p.

(** The part of [handleHTTP] after the upstream was opened, up to the deferred
    close: bytes to the client, bytes to the upstream and the counted
    connection. *)
Definition forward (env : upstreamEnv) (r : request) (c : logConn) : string * string * logConn :=
  match reframe r with
  | inl err => (err, "", c)
  | inr body =>
      let '(head, headErr) := up_head env (head_text r body) in
      let c := lc_Write (len head) headErr c in
      let hasBody := negb (q_ContentLength r =? 0) in
      let '(sent, c, failed) :=
        match body with
        | Some b =>
            let '(part, err) := up_body env b in
            (part, lc_Write (len part) err c, bool_decide (err <> None))
        | None =>
            if hasBody then
              let '(part, err) := up_body env (q_Body r) in
              (part, lc_Write (len part) err c, bool_decide (err <> None) || bool_decide (q_BodyErr r <> None))
            else ("", c, false)
        end in
      if failed : bool then (writeHTTPErr 502 "Body transfer failed", head +:+ sent, c)
      else (up_reply env, head +:+ sent, lc_Read (len (up_reply env)) (up_readErr env) c)
  end.

Definition unsupported_encoding (r : request) : bool :=
  negb (bool_decide (q_TransferEncoding r = [])) && negb (bool_decide (q_TransferEncoding r = ["chunked"])).

(** [handleHTTP]. *)
Definition handleHTTP (o : Opener) (env : upstreamEnv) (src : string) (r : request) (p : proxyState)
    : M (Sys W) (outcome served) :=
  match (if String.eqb (q_Port r) "" then Some 80
         else match Atoi (q_Port r) with
              | Some port => if validatePort port then Some port else None
              | None => None
              end) with
  | None => mret (Returned (reply (writeHTTPErr 400 "Bad target port") p))
  | Some port =>
      if unsupported_encoding r
      then mret (Returned (reply (writeHTTPErr 400 "Unsupported Transfer-Encoding") p))
      else
        u ← openUpstream o src (q_Hostname r) port p;
        match u with
        | Panicked => mret Panicked
        | Returned (inl e, p) => mret (Returned (reply (writeHTTPErr (statusForDialErr e) "Connect failed") p))
        | Returned (inr c, p) =>
            let '(client, up, c) := forward env r c in
            now ← time_now;
            mret (Returned (MkServed client (Some up) (close_logged now c p)))
        end
  end.

(** The two copies of a CONNECT relay over the upstream connection; [sent] is
    what the buffered client reader yields, the bytes pipelined behind the
    request first. *)
Definition relay (env : upstreamEnv) (sent : string) (c : logConn) : string * logConn :=
  let '(part, err) := up_body env sent in
  let down := lc_Read (len (up_reply env)) (up_readErr env) in
  let up := lc_Write (len part) err in
  (part, if up_repliesFirst env then up (down c) else down (up c)).

(** [handleConnect]. *)
Definition handleConnect (o : Opener) (env : upstreamEnv) (src : string) (r : request) (sent : string)
    (p : proxyState) : M (Sys W) (outcome served) :=
  match SplitHostPort (q_URLHost r) with
  | None => mret (Returned (reply (writeHTTPErr 400 "Bad CONNECT target") p))
  | Some (host, port) =>
      match (n ← Atoi port; if validatePort n then Some n else None) with
      | None => mret (Returned (reply (writeHTTPErr 400 "Bad CONNECT target port") p))
      | Some portInt =>
          u ← openUpstream o src host portInt p;
          match u with
          | Panicked => mret Panicked
          | Returned (inl e, p) => mret (Returned (reply (writeHTTPErr (statusForDialErr e) "Connect failed") p))
          | Returned (inr c, p) =>
              let '(up, c) := relay env sent c in
              now ← time_now;
              mret (Returned (MkServed ("HTTP/1.1 200 Connection Established" +:+ crlf +:+ crlf +:+ up_reply env)
                                (Some up) (close_logged now c p)))
          end
      end
  end.

(** [handleConn]: what ReadRequest returned, or an error with whether the
    header limit was used up. *)
Definition handleConn (o : Opener) (env : upstreamEnv) (src : string)
    (parsed : bool + request) (sent : string) (p : proxyState) : M (Sys W) (outcome served) :=
  match parsed with
  | inl limitHit =>
      mret (Returned (reply (if limitHit then writeHTTPErr 431 "Request Header Fields Too Large"
                             else writeHTTPErr 400 "Bad Request") p))
  | inr r =>
      if String.eqb (q_Method r) "CONNECT" then handleConnect o env src r sent p
      else if q_IsAbs r && String.eqb (q_Scheme r) "http" then handleHTTP o env src r p
      else mret (Returned (reply (writeHTTPErr 400 "HTTP absolute-form or CONNECT requests only") p))
  end.
End Handlers.

(** ** Properties *)

(** The fields of a head with a given name, in any letter case. *)
Definition named (n : string) (fs : list (string * string)) : list (string * string) :=
  filter (fun kv => ToLower (fst kv) = n) fs.

Lemma named_app n fs gs : named n (fs ++ gs) = named n fs ++ named n gs.
Proof. apply filter_app. Qed.

Lemma keeps_header_spec k : keeps_header k = true <-> ToLower k ∉ dropped_names.
Proof.
  unfold keeps_header. rewrite negb_true_iff. split.
  - intros Hf Hin. apply not_true_iff_false in Hf. apply Hf, existsb_exists.
    exists (ToLower k). split; [by apply list_elem_of_In|apply String.eqb_refl].
  - intros Hn. apply not_true_iff_false. intros (x & Hx & E)%existsb_exists.
    apply String.eqb_eq in E. subst x. by apply Hn, list_elem_of_In.
Qed.

(** The client's own fields that are forwarded. *)
Definition client_fields (r : request) : list (string * string) :=
  filter (fun kv => keeps_header (fst kv) = true) (q_Header r) ≫= fun kv => (fun v => (fst kv, v)) <$> snd kv.

Lemma client_fields_elem r kv : kv ∈ client_fields r ->
  keeps_header (fst kv) = true /\ exists vs, (fst kv, vs) ∈ q_Header r /\ snd kv ∈ vs.
Proof.
  unfold client_fields. intros (kvs & Hv & Hk)%list_elem_of_bind.
  apply list_elem_of_fmap in Hv as (v & -> & Hv). apply list_elem_of_filter in Hk as [Hk Hin].
  destruct kvs as [k vs]. cbn in *. split; [done|]. by exists vs.
Qed.

Lemma named_none n fs : (forall kv, kv ∈ fs -> ToLower (fst kv) <> n) -> named n fs = [].
Proof.
  intros Hn. unfold named. induction fs as [|kv fs IH]; [done|].
  rewrite filter_cons_False by (apply Hn; left). apply IH. intros kv' Hk. apply Hn. by right.
Qed.

Lemma client_dropped r n : n ∈ dropped_names -> named n (client_fields r) = [].
Proof.
  intros Hn. apply named_none. intros kv [Hk _]%client_fields_elem E. apply keeps_header_spec in Hk. congruence.
Qed.

Lemma head_fields_named n r body :
  named n (head_fields r body) =
  named n [("Host", if String.eqb (q_Host r) "" then q_URLHost r else q_Host r)] ++
  named n (match body with Some b => [("Content-Length", Itoa (len b))] | None => [] end) ++
  named n (client_fields r) ++ named n [("Connection", "close")].
Proof. unfold head_fields. by rewrite !named_app. Qed.


Definition demo_request : request :=
  MkRequest "POST" "a.example" true "http" "a.example" "" "/x" "a.example" ["chunked"] (-1)
    [("Accept", ["*/*"]); ("PROXY-Authorization", ["Basic secret"]); ("Connection", ["keep-alive"])] "hello" None.
Lemma demo_request_ok : request_ok demo_request.
Proof. split; [done|]. intros _. repeat constructor; discriminate. Qed.

(** ** End to end *)

Section EndToEnd.
Context `{Regexp} {W : Type} `{World W}.
Implicit Types (s : Sys W) (o : Opener).

Context (rs : list lookupFn * string).

(** A run that returns, makes the VPS dial public addresses and the resolvers
    [rs] only, and leaves the resolver state well formed for the next one. *)
Definition safe_run {A : Type} (m : M (Sys W) (outcome A)) s : Prop :=
  (exists r, fst (m s) = Returned r) /\ reaches rs s (snd (m s)) /\ sys_wf (snd (m s)).

Lemma clock_wf s : sys_wf s -> sys_wf (snd (time_now s)).
Proof. apply frame_wf, time_now_frame. Qed.
Lemma clock_reaches s : reaches rs s (snd (time_now s)).
Proof. apply asks_reaches, time_now_asks. Qed.

(** A successful [Open] has a connection, a failed one has an error. *)
Lemma Open_conn o src proto host port s : sys_wf s -> exists r, fst (Open o src proto host port s) = Returned r /\
  (op_err r = None -> op_conn r <> None).
Proof.
  intros Hs. destruct (Open_cases o src proto host port s Hs) as (s1 & _ & _ & [(route & reason & e & ->)|Hok]).
  - eexists. split; [done|]. done.
  - destruct Hok as (addrs & route & reason & r & s' & _ & _ & -> & _ & fails & won & new & _ & _ & Hr).
    exists r. split; [done|]. destruct won as [[ip c]|]; [by rewrite Hr|]. by destruct Hr as (ip & e & rest & _ & ->).
Qed.

Lemma open_logged_safe direct o info drain p s :
  NewRuleEngine direct = Some (inr (o_rules o)) -> sys_wf s ->
  safe_run (open_logged o info drain p) s.
Proof.
  intros He Hs. unfold safe_run, open_logged. rewrite bind_run.
  pose proof (clock_reaches s) as E1. apply clock_wf in Hs. set (s1 := snd (time_now s)) in *.
  rewrite bind_run.
  destruct (Open_public direct o (ci_src info) (ci_proto info) (ci_host info) (ci_port info) s1 He Hs) as [_ Hem].
  destruct (Open_conn o (ci_src info) (ci_proto info) (ci_host info) (ci_port info) s1 Hs) as (r & Er & Hconn).
  pose proof (Open_wf o (ci_src info) (ci_proto info) (ci_host info) (ci_port info) s1 Hs) as Hwf.
  specialize (Hem rs).
  destruct (Open o (ci_src info) (ci_proto info) (ci_host info) (ci_port info) s1) as [x s2].
  cbn [fst snd] in *. subst x. rewrite bind_run. pose proof (transitivity E1 Hem) as Hem2.
  cbv zeta. destruct (op_err r) as [e|].
  - split; [by eexists|]. split; [|by apply clock_wf]. etrans; [exact Hem2|apply clock_reaches].
  - destruct (op_conn r) as [c|]; [|by destruct Hconn]. rewrite bind_run.
    split; [by eexists|]. split; [|by do 2 apply clock_wf]. etrans; [exact Hem2|]. etrans; apply clock_reaches.
Qed.

Lemma safe_ret {A : Type} (a : A) s : sys_wf s -> safe_run (mret (Returned a) : M (Sys W) (outcome A)) s.
Proof. intros Hs. split; [by eexists|]. split; [reflexivity|done]. Qed.

(** After the dial a handler only reads the clock. *)
Definition quiet {A : Type} (m : M (Sys W) (outcome A)) s : Prop :=
  (exists b, fst (m s) = Returned b) /\ reaches rs s (snd (m s)) /\ (sys_wf s -> sys_wf (snd (m s))).
Lemma quiet_reply {A : Type} (a : A) s : quiet (mret (Returned a)) s.
Proof. split; [by eexists|]. split; [cbn; reflexivity|done]. Qed.
Lemma quiet_close {A : Type} (f : Z -> A) s : quiet (now ← time_now; mret (Returned (f now))) s.
Proof. unfold quiet. rewrite bind_run. split; [by eexists|split; [apply clock_reaches|apply clock_wf]]. Qed.

Lemma safe_bind {A B : Type} (m : M (Sys W) (outcome A)) (k : outcome A -> M (Sys W) (outcome B)) s :
  safe_run m s -> (forall a s', quiet (k (Returned a)) s') -> safe_run (x ← m; k x) s.
Proof.
  intros [[a Ea] [Hem Hwf]] Hk. unfold safe_run. rewrite bind_run, Ea.
  destruct (Hk a (snd (m s))) as (Hb & Es & Hw). split; [done|]. split; [|by apply Hw]. by etrans.
Qed.

(** No HTTP request and no SOCKS5 request makes the tunnel dial a private
    address for the client, or the handler panic. *)
Lemma clients_safe (direct : string) o s : NewRuleEngine direct = Some (inr (o_rules o)) -> sys_wf s ->
  (forall env src parsed sent p, safe_run (handleConn o env src parsed sent p) s) /\
  (forall addr fqdn src rf p, safe_run (socks5_dial o addr fqdn src rf p) s).
Proof.
  intros He Hs. split.
  - intros env src parsed sent p. unfold handleConn.
    destruct parsed as [|r]; [by apply safe_ret|].
    destruct (String.eqb (q_Method r) "CONNECT").
    + unfold handleConnect. destruct (SplitHostPort (q_URLHost r)) as [[host port]|]; [|by apply safe_ret].
      case_match; [|by apply safe_ret]. apply safe_bind; [by eapply open_logged_safe|].
      intros [[e|c] p'] s'; [apply quiet_reply|]. destruct (relay env sent c). apply quiet_close.
    + destruct (q_IsAbs r && _); [|by apply safe_ret]. unfold handleHTTP.
      case_match; [|by apply safe_ret]. destruct (unsupported_encoding r); [by apply safe_ret|].
      apply safe_bind; [by eapply open_logged_safe|].
      intros [[e|c] p'] s'; [apply quiet_reply|]. destruct (forward env r c) as [[cl up] c']. apply quiet_close.
  - intros addr fqdn src rf p. unfold socks5_dial.
    destruct (SplitHostPort addr) as [[host port]|]; [|by apply safe_ret].
    destruct rf; [by apply safe_ret|]. by eapply open_logged_safe.
Qed.

(** The name resolution of a SOCKS5 handshake dials nothing and asks
    resolvers only. *)
Lemma resolver_safe (direct : string) o host s : NewRuleEngine direct = Some (inr (o_rules o)) -> sys_wf s ->
  safe_run (resolver_Resolve o host) s.
Proof.
  intros He Hs. unfold safe_run, resolver_Resolve, Resolve, resolveAddr. rewrite !bind_run.
  pose proof (asks_reaches _ _ _ (candidates_asks rs o host 0 s)) as Hem.
  destruct (candidates_wf o host 0 s Hs) as [Hspec Hwf].
  destruct (candidates o host 0 s) as [[[[[l route] reason] [e|]]|] s1]; cbn [fst snd] in *; [| |done].
  - destruct l; (split; [by eexists|]; split; done).
  - destruct l as [|a l]; [by destruct route, Hspec|]. split; [by eexists|]. split; done.
Qed.
End EndToEnd.

Definition demo_proxy : proxyState := MkProxy 0 no_logs 0 ∅ ∅.
