(* ===== verification/Relay.v ===== *)
(** The CONNECT relay of httpproxy.go in detail: two [io.Copy] goroutines,
    client to upstream and upstream to client, each ending with a half-close,
    and the close of the upstream once both ended; a Read or a Write may block
    for ever.  HttpProxy.v models the
    relay by its result; here it is refined to single reads and writes in any
    interleaving. *)

From S2P Require Import Prelude GoStrings Errors World Dns Opener LogConn HttpProxy.

(** ** One direction *)

(** [io.Copy] between a Read and a Write, then [CloseWrite]. *)
Inductive copy_pc : Type := CRead | CWrite (data : string) (er : option error) | CHalfClose | CDone.
(** What its source still returns, one entry per Read (a source that has
    nothing left is silent), and what its sink answers, one entry per Write:
    success, or an error after the given number of bytes (a sink that has no
    answer left no longer reads, and the Write blocks: the relay has no
    deadline and no idle limit).  The bytes read, the bytes written, the
    errors that ended the copy, and whether [CloseWrite] was called. *)
Record copier := MkCopier {
  cp_pc : copy_pc; cp_reads : list (string * option error); cp_writes : list (option (nat * error));
  cp_in : string; cp_out : string; cp_rerr : option error; cp_werr : option error; cp_shut : bool }.
Definition new_copier (reads : list (string * option error)) (writes : list (option (nat * error))) : copier :=
  MkCopier CRead reads writes "" "" None None false.

Definition after_write (er : option error) : copy_pc := match er with Some _ => CHalfClose | None => CRead end.
(** One step, with the bytes and the error of the Read or Write it made. *)
Definition copy_step (cp : copier) : option (copier * (option (string * option error)) * (option (string * option error))) :=
  match cp_pc cp with
  | CRead =>
      match cp_reads cp with
      | [] => None
      | (data, er) :: rest =>
          Some (MkCopier (if String.eqb data "" then after_write er else CWrite data er) rest (cp_writes cp)
                  (cp_in cp +:+ data) (cp_out cp) er (cp_werr cp) (cp_shut cp), Some (data, er), None)
      end
  | CWrite data er =>
      match cp_writes cp with
      | [] => None
      | None :: rest =>
          Some (MkCopier (after_write er) (cp_reads cp) rest (cp_in cp) (cp_out cp +:+ data) (cp_rerr cp)
                  (cp_werr cp) (cp_shut cp), None, Some (data, None))
      | Some (n, ew) :: rest =>
          let part := String.substring 0 n data in
          Some (MkCopier CHalfClose (cp_reads cp) rest (cp_in cp) (cp_out cp +:+ part) (cp_rerr cp)
                  (Some ew) (cp_shut cp), None, Some (part, Some ew))
      end
  | CHalfClose =>
      Some (MkCopier CDone (cp_reads cp) (cp_writes cp) (cp_in cp) (cp_out cp) (cp_rerr cp) (cp_werr cp) true, None, None)
  | CDone => None
  end.

(** ** Both directions *)

(** The upstream connection counts what is read from and written to it. *)
Definition counted_Read (io : option (string * option error)) (c : logConn) : logConn :=
  match io with Some (data, err) => lc_Read (len data) err c | None => c end.
Definition counted_Write (io : option (string * option error)) (c : logConn) : logConn :=
  match io with Some (data, err) => lc_Write (len data) err c | None => c end.

Record relaying := MkRelay { r_up : copier; r_down : copier; r_lc : logConn; r_logs : logs; r_inflight : Z }.
Inductive relay_step : relaying -> relaying -> Prop :=
| step_up r up io_r io_w (Hs : copy_step (r_up r) = Some (up, io_r, io_w)) :
    relay_step r (MkRelay up (r_down r) (counted_Write io_w (r_lc r)) (r_logs r) (r_inflight r))
| step_down r down io_r io_w (Hs : copy_step (r_down r) = Some (down, io_r, io_w)) :
    relay_step r (MkRelay (r_up r) down (counted_Read io_r (r_lc r)) (r_logs r) (r_inflight r))
| step_close r now lc l k (Hup : cp_pc (r_up r) = CDone) (Hdown : cp_pc (r_down r) = CDone)
    (Hopen : lc_closed (r_lc r) = false) (Hc : lc_Close now (r_lc r) (r_logs r) (r_inflight r) = (lc, l, k)) :
    relay_step r (MkRelay (r_up r) (r_down r) lc l k).
Definition relay_closed (r : relaying) : Prop := lc_closed (r_lc r) = true.

(** The steps as a function of whose turn it is. *)
Inductive turn : Type := TUp | TDown | TClose (now : Z).
Definition relay_do (t : turn) (r : relaying) : option relaying :=
  match t with
  | TUp => '(up, _, io_w) ← copy_step (r_up r);
           Some (MkRelay up (r_down r) (counted_Write io_w (r_lc r)) (r_logs r) (r_inflight r))
  | TDown => '(down, io_r, _) ← copy_step (r_down r);
             Some (MkRelay (r_up r) down (counted_Read io_r (r_lc r)) (r_logs r) (r_inflight r))
  | TClose now =>
      match cp_pc (r_up r), cp_pc (r_down r), lc_closed (r_lc r) with
      | CDone, CDone, false =>
          let '(lc, l, k) := lc_Close now (r_lc r) (r_logs r) (r_inflight r) in
          Some (MkRelay (r_up r) (r_down r) lc l k)
      | _, _, _ => None
      end
  end.
Fixpoint relay_play (ts : list turn) (r : relaying) : option relaying :=
  match ts with [] => Some r | t :: rest => relay_do t r ≫= relay_play rest end.
Lemma relay_do_sound t r r' : relay_do t r = Some r' -> relay_step r r'.
Proof.
  destruct t; cbn.
  - intros ([[up i] o] & Hs & [= <-])%bind_Some. by eapply step_up.
  - intros ([[dn i] o] & Hs & [= <-])%bind_Some. by eapply step_down.
  - intros E. destruct (cp_pc (r_up r)) eqn:Eu, (cp_pc (r_down r)) eqn:Ed, (lc_closed (r_lc r)) eqn:Ec; try done.
    destruct (lc_Close _ _ _ _) as [[lc l] k] eqn:El. injection E as <-. by eapply step_close.
Qed.
Lemma relay_play_sound ts r r' : relay_play ts r = Some r' -> rtc relay_step r r'.
Proof.
  revert r. induction ts as [|t ts IH]; intros r; cbn; [by intros [= <-]|].
  intros (r1 & H1 & H2)%bind_Some. eapply rtc_l; [by eapply relay_do_sound|by apply IH].
Qed.

(** ** Termination *)

Definition pc_weight (pc : copy_pc) : nat := match pc with CRead => 2 | CWrite _ _ => 4 | CHalfClose => 1 | CDone => 0 end.
Definition copy_weight (cp : copier) : nat := 3 * length (cp_reads cp) + pc_weight (cp_pc cp).
Definition relay_weight (r : relaying) : nat :=
  copy_weight (r_up r) + copy_weight (r_down r) + (if lc_closed (r_lc r) then 0 else 1).

Lemma copy_step_weight cp cp' i o : copy_step cp = Some (cp', i, o) -> (copy_weight cp' < copy_weight cp)%nat.
Proof.
  unfold copy_step, copy_weight, after_write. intros Hs.
  destruct (cp_pc cp) eqn:Epc; [|destruct (cp_writes cp) as [|[[n ew]|] rest]| |]; simplify_eq/=.
  - destruct (cp_reads cp) as [|[d er] rest]; simplify_eq/=. destruct (String.eqb d ""), er; cbn; lia.
  - lia.
  - destruct er; cbn; lia.
  - lia.
Qed.

Lemma counted_Read_closed io c : lc_closed (counted_Read io c) = lc_closed c.
Proof. by destruct io as [[]|]. Qed.
Lemma counted_Write_closed io c : lc_closed (counted_Write io c) = lc_closed c.
Proof. by destruct io as [[]|]. Qed.

Lemma relay_step_weight r r' : relay_step r r' -> (relay_weight r' < relay_weight r)%nat.
Proof.
  unfold relay_weight. intros [r0 up i o Hs|r0 down i o Hs|r0 now lc l k Hu Hd Ho Hc]; cbn [r_up r_down r_lc].
  - rewrite counted_Write_closed. apply copy_step_weight in Hs. lia.
  - rewrite counted_Read_closed. apply copy_step_weight in Hs. lia.
  - unfold lc_Close in Hc. rewrite Ho in *. simplify_eq. cbn. lia.
Qed.

(** ** What a copy has done so far *)

Definition source_text (reads : list (string * option error)) : string := Join (fst <$> reads) "".

Record copy_ok (cp : copier) : Prop := MkCopyOk {
  co_running : cp_pc cp = CRead -> cp_out cp = cp_in cp /\ cp_rerr cp = None /\ cp_werr cp = None;
  co_writing : forall d er, cp_pc cp = CWrite d er ->
    cp_in cp = cp_out cp +:+ d /\ cp_rerr cp = er /\ cp_werr cp = None;
  co_ended : cp_pc cp = CHalfClose \/ cp_pc cp = CDone ->
    (exists rest, cp_in cp = cp_out cp +:+ rest) /\
    (cp_werr cp = None -> cp_out cp = cp_in cp /\ cp_rerr cp <> None);
  co_shut : cp_shut cp = true <-> cp_pc cp = CDone }.

Lemma new_copier_ok reads writes : copy_ok (new_copier reads writes).
Proof. split; cbn; try done. by intros [?|?]. Qed.

Lemma substring_prefix n (s : string) : exists rest, s = String.substring 0 n s +:+ rest.
Proof.
  revert n. induction s as [|c s IH]; intros [|n]; cbn; [by eexists|by eexists|by eexists|].
  destruct (IH n) as [rest E]. exists rest. by rewrite <- E.
Qed.

Lemma copy_step_ok cp cp' i o : copy_ok cp -> copy_step cp = Some (cp', i, o) -> copy_ok cp'.
Proof.
  intros [Hr Hw He Hsh] Hs. unfold copy_step in Hs.
  assert (Hns : cp_pc cp <> CDone -> cp_shut cp = false) by (intros Hn; destruct (cp_shut cp); tauto).
  destruct (cp_pc cp) as [|d er| |] eqn:Epc.
  - destruct (Hr eq_refl) as (Eo & _ & Ew). rewrite Hns in * by done.
    destruct (cp_reads cp) as [|[d er] rest]; simplify_eq/=.
    destruct (String.eqb_spec d "") as [->|Hd].
    + rewrite str_app_nil_r. destruct er as [e|]; split; cbn; try done; try by rewrite str_app_nil_r.
      * intros _. split; [|done]. exists "". by rewrite str_app_nil_r.
      * by intros [?|?].
    + split; cbn; try done; [|by intros [?|?]]. intros d' er' [= -> ->]. by rewrite Eo.
  - destruct (Hw d er eq_refl) as (Ei & Er & Ew). rewrite Hns in * by done.
    destruct (cp_writes cp) as [|[[n ew]|] rest]; simplify_eq/=.
    + split; cbn; try done. intros _. split; [|done]. destruct (substring_prefix n d) as [rest' E].
      exists rest'. by rewrite Ei, str_app_assoc, <- E.
    + unfold after_write. destruct (cp_rerr cp) as [e|]; split; cbn; try done; try (by rewrite Ei).
      * intros _. rewrite Ei. split; [|done]. exists "". by rewrite str_app_nil_r.
      * by intros [?|?].
  - simplify_eq/=. destruct He as [Hp Hc]; [by left|]. split; cbn; done.
  - done.
Qed.

(** Whether a copy comes to its end: its source ends, and until then its sink
    answers every write, or fails one. *)
Fixpoint drains (reads : list (string * option error)) (writes : list (option (nat * error))) : bool :=
  match reads with
  | [] => false
  | (data, er) :: rest =>
      let on ws := match er with Some _ => true | None => drains rest ws end in
      if String.eqb data "" then on writes
      else match writes with [] => false | Some _ :: _ => true | None :: ws => on ws end
  end.
Definition will_end (cp : copier) : bool :=
  match cp_pc cp with
  | CRead => drains (cp_reads cp) (cp_writes cp)
  | CWrite _ er =>
      match cp_writes cp with
      | [] => false
      | Some _ :: _ => true
      | None :: ws => match er with Some _ => true | None => drains (cp_reads cp) ws end
      end
  | CHalfClose | CDone => true
  end.
(** No step changes whether the copy ends. *)
Lemma copy_step_ends cp cp' i o : copy_step cp = Some (cp', i, o) -> will_end cp' = will_end cp.
Proof.
  unfold will_end, copy_step, after_write. intros Hs.
  destruct (cp_pc cp) as [|d er| |]; [|destruct (cp_writes cp) as [|[[n ew]|] rest]| |]; simplify_eq/=; try done.
  - destruct (cp_reads cp) as [|[d er] rest]; simplify_eq/=. by destruct (String.eqb d ""), er.
  - by destruct er.
Qed.
Lemma copy_step_exists cp : will_end cp = true -> cp_pc cp = CDone \/ exists x, copy_step cp = Some x.
Proof.
  unfold will_end, copy_step. destruct (cp_pc cp) as [|d er| |]; intros He; [| | |by left]; right.
  - destruct (cp_reads cp) as [|[d er] rest]; [done|]. by eexists.
  - destruct (cp_writes cp) as [|[[n ew]|] rest]; [done|by eexists..].
  - by eexists.
Qed.

(** What a source sends up to its end. *)
Fixpoint delivered (reads : list (string * option error)) : string :=
  match reads with
  | [] => ""
  | (data, Some _) :: _ => data
  | (data, None) :: rest => data +:+ delivered rest
  end.
Definition copy_src (reads : list (string * option error)) (cp : copier) : Prop :=
  exists rest, delivered reads = cp_in cp +:+ rest /\
    rest = (match cp_rerr cp with Some _ => "" | None => delivered (cp_reads cp) end).

Lemma copy_step_src reads cp cp' i o : copy_ok cp -> copy_src reads cp -> copy_step cp = Some (cp', i, o) ->
  copy_src reads cp'.
Proof.
  intros Hok (rest & Ed & Er) Hs. unfold copy_src, copy_step in *.
  destruct (cp_pc cp) as [|d er| |] eqn:Epc; [|destruct (cp_writes cp) as [|[[n ew]|] ws]| |]; simplify_eq/=; eauto.
  destruct (co_running _ Hok Epc) as (_ & En & _). rewrite En in *.
  destruct (cp_reads cp) as [|[d er] rest]; simplify_eq/=. eexists. split; [|done]. rewrite Ed.
  destruct er; by rewrite ?str_app_nil_r, ?str_app_assoc.
Qed.

(** ** The whole relay *)

(** The access record counts every byte, and keeps one of the two errors. *)
Definition pick (a b : option error) : option error := match a with Some _ => a | None => b end.
Definition relay_error (e : option error) : option error := if relayErr e then e else None.
Definition fresh_conn (c : logConn) : Prop :=
  lc_up c = 0 /\ lc_down c = 0 /\ lc_firstErr c = None /\ lc_closed c = false.
Definition counts (c0 : logConn) (up down : Z) (e : option error) : logConn :=
  MkLogConn (lc_base c0) up down e (lc_t0 c0) false (lc_drain c0) (lc_info c0).

Record relay_ok (c0 : logConn) (l0 : logs) (k0 : Z) (from_client from_up : list (string * option error))
    (r : relaying) : Prop := MkRelayOk {
  ro_up : copy_ok (r_up r) /\ copy_src from_client (r_up r);
  ro_down : copy_ok (r_down r) /\ copy_src from_up (r_down r);
  ro_lc : exists e lc, (e = pick (relay_error (cp_werr (r_up r))) (relay_error (cp_rerr (r_down r))) \/
                        e = pick (relay_error (cp_rerr (r_down r))) (relay_error (cp_werr (r_up r)))) /\
    lc = counts c0 (wrap64 (len (cp_out (r_up r)))) (wrap64 (len (cp_in (r_down r)))) e /\
    ((r_lc r = lc /\ r_logs r = l0 /\ r_inflight r = k0) \/
     (cp_pc (r_up r) = CDone /\ cp_pc (r_down r) = CDone /\
      exists now, lc_Close now lc l0 k0 = (r_lc r, r_logs r, r_inflight r))) }.

Lemma len_app s t : len (s +:+ t) = len s + len t.
Proof. unfold len. rewrite str_app_length. lia. Qed.

Lemma lc_count_counts up c0 u d e n err :
  lc_count up n err (counts c0 u d e) =
  counts c0 (if up then wrap64 (u + n) else u) (if up then d else wrap64 (d + n)) (pick e (relay_error err)).
Proof. unfold lc_count, counts, pick, relay_error. cbn. by destruct (relayErr err), e. Qed.

(** The up copy: its writes are counted, an error only with the last. *)
Lemma copy_step_write cp cp' i o c0 u d e : copy_ok cp -> copy_step cp = Some (cp', i, o) ->
  u = wrap64 (len (cp_out cp)) ->
  counted_Write o (counts c0 u d e) =
  counts c0 (wrap64 (len (cp_out cp'))) d (pick e (match cp_werr cp with None => relay_error (cp_werr cp') | _ => None end))
  /\ (cp_werr cp <> None -> cp_werr cp' = cp_werr cp).
Proof.
  intros Hok Hs ->. unfold copy_step in Hs.
  assert (Hp0 : forall x : option error, pick e (match x with None => relay_error x | _ => None end) = e) by (by destruct e, x).
  destruct (cp_pc cp) as [|dt er| |] eqn:Epc; [|destruct (cp_writes cp) as [|[[n ew]|] ws]| |]; simplify_eq/=.
  - destruct (cp_reads cp) as [|[dt er] rest]; simplify_eq/=. by rewrite Hp0.
  - destruct (co_writing _ Hok _ _ Epc) as (_ & _ & ->). unfold lc_Write. rewrite lc_count_counts, wrap64_add, len_app. done.
  - destruct (co_writing _ Hok _ _ Epc) as (_ & _ & Ew). rewrite Ew. unfold lc_Write.
    rewrite lc_count_counts, wrap64_add, len_app. done.
  - by rewrite Hp0.
Qed.
(** The down copy: its reads are. *)
Lemma copy_step_read cp cp' i o c0 u d e : copy_ok cp -> copy_step cp = Some (cp', i, o) ->
  d = wrap64 (len (cp_in cp)) ->
  counted_Read i (counts c0 u d e) =
  counts c0 u (wrap64 (len (cp_in cp'))) (pick e (match cp_rerr cp with None => relay_error (cp_rerr cp') | _ => None end))
  /\ (cp_rerr cp <> None -> cp_rerr cp' = cp_rerr cp).
Proof.
  intros Hok Hs ->. unfold copy_step in Hs.
  assert (Hp0 : forall x : option error, pick e (match x with None => relay_error x | _ => None end) = e) by (by destruct e, x).
  destruct (cp_pc cp) as [|dt er| |] eqn:Epc; [|destruct (cp_writes cp) as [|[[n ew]|] ws]| |]; simplify_eq/=.
  - destruct (co_running _ Hok Epc) as (_ & -> & _). destruct (cp_reads cp) as [|[dt er] rest]; simplify_eq/=.
    unfold lc_Read. rewrite lc_count_counts, wrap64_add, len_app. done.
  - by rewrite Hp0.
  - by rewrite Hp0.
  - by rewrite Hp0.
Qed.

(** A new error is picked after what is there, and an old one is kept. *)
Lemma pick_step (a a' b : option error) (e : option error) :
  (a <> None -> a' = a) ->
  e = pick (relay_error a) b \/ e = pick b (relay_error a) ->
  pick e (match a with None => relay_error a' | _ => None end) = pick (relay_error a') b \/
  pick e (match a with None => relay_error a' | _ => None end) = pick b (relay_error a').
Proof.
  intros Ha He. destruct a as [x|].
  - rewrite Ha by done. by destruct He as [->| ->]; destruct (relay_error (Some x)), b; auto.
  - assert (E : e = b) by (by destruct He as [->| ->]; destruct b). subst e. by right.
Qed.

Lemma lc_Close_spec now c l k c' l' k' : lc_Close now c l k = (c', l', k') -> lc_closed c = false ->
  lc_closed c' = true /\ exists line, lg_access l' = lg_access l ++ [line] /\ al_info line = lc_info c.
Proof. unfold lc_Close. intros E Ho. rewrite Ho in E. simplify_eq. split; [done|]. by eexists. Qed.

Lemma copy_step_live cp x : copy_step cp = Some x -> cp_pc cp <> CDone.
Proof. unfold copy_step. by destruct (cp_pc cp). Qed.

Lemma relay_step_ok c0 l0 k0 fc fu r r' : relay_ok c0 l0 k0 fc fu r -> relay_step r r' -> relay_ok c0 l0 k0 fc fu r'.
Proof.
  intros Hok Hs. destruct Hs as [r up i o Hs|r down i o Hs|r now lc l k Hu Hd Ho Hc];
    destruct Hok as [[Hu1 Hu2] [Hd1 Hd2] (e & lc' & He & -> & Hlc)].
  - destruct Hlc as [(El & Eg & Ek)|(Hdone & _)]; [|by apply copy_step_live in Hs].
    destruct (copy_step_write _ _ _ _ c0 _ (wrap64 (len (cp_in (r_down r)))) e Hu1 Hs eq_refl) as [Ew Hk].
    split; [eauto using copy_step_ok, copy_step_src|done|]. cbn. eexists _, _.
    split; [exact (pick_step _ (cp_werr up) _ e Hk He)|]. split; [done|]. left. split; [by rewrite El, Ew|done].
  - destruct Hlc as [(El & Eg & Ek)|(_ & Hdone & _)]; [|by apply copy_step_live in Hs].
    destruct (copy_step_read _ _ _ _ c0 (wrap64 (len (cp_out (r_up r)))) _ e Hd1 Hs eq_refl) as [Er Hk].
    split; [done|eauto using copy_step_ok, copy_step_src|]. cbn. eexists _, _.
    split; [apply or_comm; apply (pick_step _ (cp_rerr down) _ e Hk); by apply or_comm|]. split; [done|].
    left. split; [by rewrite El, Er|done].
  - split; [done..|]. cbn. eexists _, _. split; [exact He|]. split; [done|]. right. split; [done|]. split; [done|].
    destruct Hlc as [(El & Eg & Ek)|(_ & _ & now' & Hc')]; [exists now; by rewrite <- El, <- Eg, <- Ek|].
    apply lc_Close_spec in Hc' as [Hx _]; [congruence|done].
Qed.

(** The relay after [openUpstream]. *)
Definition relay_start (fc fu : list (string * option error)) (to_up to_client : list (option (nat * error)))
    (c0 : logConn) (l0 : logs) (k0 : Z) : relaying :=
  MkRelay (new_copier fc to_up) (new_copier fu to_client) c0 l0 k0.

Lemma relay_start_ok c0 l0 k0 fc fu tu tc : fresh_conn c0 -> relay_ok c0 l0 k0 fc fu (relay_start fc fu tu tc c0 l0 k0).
Proof.
  intros (Eu & Ed & Ee & Ec). split; cbn.
  - split; [apply new_copier_ok|]. by exists (delivered fc).
  - split; [apply new_copier_ok|]. by exists (delivered fu).
  - eexists _, _. split; [by left|]. split; [done|]. left. split; [|done]. destruct c0; cbn in *. by subst.
Qed.

Lemma relay_reach_ok c0 l0 k0 fc fu tu tc r : fresh_conn c0 ->
  rtc relay_step (relay_start fc fu tu tc c0 l0 k0) r -> relay_ok c0 l0 k0 fc fu r.
Proof.
  intros Hc Hr. eapply rtc_invariant; [|exact Hr|by apply relay_start_ok]. eauto using relay_step_ok.
Qed.

(** Whether the two copies end is settled by the two ends, not by the run. *)
Lemma relay_step_ends r r' : relay_step r r' ->
  will_end (r_up r') = will_end (r_up r) /\ will_end (r_down r') = will_end (r_down r).
Proof. destruct 1; cbn; eauto using copy_step_ends. Qed.
Lemma relay_steps_ends r r' : rtc relay_step r r' ->
  will_end (r_up r') = will_end (r_up r) /\ will_end (r_down r') = will_end (r_down r).
Proof. induction 1 as [|r r1 r' [<- <-]%relay_step_ends]; done. Qed.

Lemma relay_ends c0 l0 k0 fc fu tu tc : fresh_conn c0 -> drains fc tu = true -> drains fu tc = true ->
  inevitable relay_step
    (fun r => relay_closed r /\ cp_shut (r_up r) = true /\ cp_shut (r_down r) = true /\
              exists line, lg_access (r_logs r) = lg_access l0 ++ [line] /\ al_info line = lc_info c0)
    (relay_start fc fu tu tc c0 l0 k0).
Proof.
  intros Hc Hfc Hfu. eapply (inevitable_measure relay_step relay_weight
    (fun r => relay_ok c0 l0 k0 fc fu r /\ will_end (r_up r) = true /\ will_end (r_down r) = true)).
  - intros r r' (Hok & Hu & Hd) Hs. split; [|by apply relay_step_weight]. split; [by eapply relay_step_ok|].
    by destruct (relay_step_ends _ _ Hs) as [-> ->].
  - intros r (Hok & Hu & Hd). destruct (copy_step_exists _ Hu) as [Eu|[[[up i] o] Eu]]; [|right; eexists; by eapply step_up].
    destruct (copy_step_exists _ Hd) as [Ed|[[[dn i] o] Ed]]; [|right; eexists; by eapply step_down].
    destruct (ro_lc _ _ _ _ _ _ Hok) as (e & lc & _ & -> & [(El & Eg & Ek)|(_ & _ & now & Hcl)]).
    + right. destruct (lc_Close 0 (r_lc r) (r_logs r) (r_inflight r)) as [[lc l] k] eqn:E.
      eexists. eapply (step_close r 0); try done. by rewrite El.
    + left. apply lc_Close_spec in Hcl as [Hx Hl]; [|done]. split; [done|].
      split; [by apply (co_shut _ (proj1 (ro_up _ _ _ _ _ _ Hok)))|].
      split; [by apply (co_shut _ (proj1 (ro_down _ _ _ _ _ _ Hok)))|]. done.
  - split; [by apply relay_start_ok|done].
Qed.

(** ** Properties *)

(** C14: the tunnel carries the bytes unchanged.  At every moment of every
    interleaving, what was written to the upstream is a prefix of what the
    client sent (from the bytes buffered behind the request on), and what was
    written to the client a prefix of what the upstream sent; a direction
    that ended without a write error wrote everything its source sent up to
    its end, and the half-close is passed on after the last byte and never
    before. *)
Theorem relay_is_transparent c0 l0 k0 fc fu tu tc r (Hc : fresh_conn c0)
    (Hr : rtc relay_step (relay_start fc fu tu tc c0 l0 k0) r) :
  forall cp source, (cp, source) = (r_up r, fc) \/ (cp, source) = (r_down r, fu) ->
    (exists rest, delivered source = cp_out cp +:+ rest) /\
    (cp_shut cp = true -> cp_werr cp = None -> cp_out cp = delivered source) /\
    (cp_shut cp = true -> cp_pc cp = CDone).
Proof.
  destruct (relay_reach_ok _ _ _ _ _ _ _ _ Hc Hr) as [Hu Hd _].
  assert (Hgen : forall cp source, copy_ok cp -> copy_src source cp ->
    (exists rest, delivered source = cp_out cp +:+ rest) /\
    (cp_shut cp = true -> cp_werr cp = None -> cp_out cp = delivered source) /\
    (cp_shut cp = true -> cp_pc cp = CDone)).
  { intros cp source [Hrun Hwr Hend Hsh] (rest & Ed & Er). split; [|split; [|by apply Hsh]].
    - assert (Hpre : exists rest', cp_in cp = cp_out cp +:+ rest').
      { destruct (cp_pc cp) as [|d er| |] eqn:Epc; [| |apply Hend; auto..].
        - destruct (Hrun eq_refl) as (-> & _). exists "". by rewrite str_app_nil_r.
        - destruct (Hwr d er eq_refl) as (-> & _). by exists d. }
      destruct Hpre as [rest' E]. exists (rest' +:+ rest). by rewrite Ed, E, str_app_assoc.
    - intros Hs Hw. apply Hsh in Hs. destruct (Hend ltac:(auto)) as [_ Hfull]. destruct (Hfull Hw) as [-> Hne].
      rewrite Ed, Er. destruct (cp_rerr cp); [by rewrite str_app_nil_r|done]. }
  intros cp source [[= -> ->]|[= -> ->]]; apply Hgen; tauto.
Qed.

(** C13: when a relay ends.  If both ends stop sending and each takes what the
    other sends (or fails a write), every run closes the upstream, whatever
    the interleaving and the order in which the directions end: no run is
    infinite or stuck, both directions get their half-close, and the close
    adds exactly one access line.  Conversely no run closes it otherwise: an
    end that stays silent, or that no longer reads while the other sends,
    holds the relay for as long as it likes. *)
Theorem relay_terminates c0 l0 k0 fc fu tu tc (Hc : fresh_conn c0) :
  (drains fc tu = true -> drains fu tc = true ->
   inevitable relay_step
    (fun r => relay_closed r /\ cp_shut (r_up r) = true /\ cp_shut (r_down r) = true /\
              exists line, lg_access (r_logs r) = lg_access l0 ++ [line] /\ al_info line = lc_info c0)
    (relay_start fc fu tu tc c0 l0 k0)) /\
  (forall r, rtc relay_step (relay_start fc fu tu tc c0 l0 k0) r -> relay_closed r ->
   drains fc tu = true /\ drains fu tc = true).
Proof.
  split; [intros Hfc Hfu; by apply relay_ends|]. intros r Hr Hcl.
  change (will_end (r_up (relay_start fc fu tu tc c0 l0 k0)) = true /\
          will_end (r_down (relay_start fc fu tu tc c0 l0 k0)) = true).
  destruct (relay_steps_ends _ _ Hr) as [<- <-].
  destruct (ro_lc _ _ _ _ _ _ (relay_reach_ok _ _ _ _ _ _ _ _ Hc Hr)) as (e & lc & _ & -> & [(El & _)|(Eu & Ed & _)]);
    [unfold relay_closed in Hcl; by rewrite El in Hcl|].
  unfold will_end. by rewrite Eu, Ed.
Qed.

(** The [relay] of HttpProxy.v is what every finished relay does: for one of
    the two orders of the directions, the state after the close is that of
    [relay] run on the bytes the upstream took and those it sent. *)
Theorem relay_refines c0 l0 k0 fc fu tu tc r (Hc : fresh_conn c0)
    (Hr : rtc relay_step (relay_start fc fu tu tc c0 l0 k0) r) (Hend : relay_closed r) head :
  exists first now,
    let env := MkUp head (fun _ => (cp_out (r_up r), cp_werr (r_up r))) (cp_in (r_down r)) (cp_rerr (r_down r)) first in
    fst (relay env (delivered fc) c0) = cp_out (r_up r) /\
    lc_Close now (snd (relay env (delivered fc) c0)) l0 k0 = (r_lc r, r_logs r, r_inflight r).
Proof.
  destruct (ro_lc _ _ _ _ _ _ (relay_reach_ok _ _ _ _ _ _ _ _ Hc Hr)) as (e & lc & He & -> & Hcl).
  destruct Hcl as [(El & _)|(_ & _ & now & Hcl)]; [unfold relay_closed in Hend; by rewrite El in Hend|].
  destruct Hc as (Eu & Ed & Ee & Ec).
  assert (E0 : c0 = counts c0 0 0 None) by (destruct c0; cbn in *; by subst).
  assert (Hgen : forall first, snd (relay (MkUp head (fun _ => (cp_out (r_up r), cp_werr (r_up r))) (cp_in (r_down r))
      (cp_rerr (r_down r)) first) (delivered fc) c0)
    = counts c0 (wrap64 (len (cp_out (r_up r)))) (wrap64 (len (cp_in (r_down r))))
        (if first then pick (relay_error (cp_rerr (r_down r))) (relay_error (cp_werr (r_up r)))
         else pick (relay_error (cp_werr (r_up r))) (relay_error (cp_rerr (r_down r))))).
  { intros first. unfold relay, lc_Read, lc_Write. cbn [up_body up_reply up_readErr up_repliesFirst snd].
    destruct first; rewrite E0 at 1; by rewrite !lc_count_counts. }
  destruct He as [->| ->]; [exists false|exists true]; exists now; cbv zeta; by rewrite Hgen.
Qed.

(** ** Witnesses *)

(** The client pipelines two segments and ends, the upstream answers and is
    reset. *)
Definition demo_fc : list (string * option error) := [("hel", None); ("lo", None); ("", Some io_EOF)].
Definition reset_error : error := net_OpError "read tcp: connection reset by peer" None false.
Definition demo_fu : list (string * option error) := [("world", None); ("", Some reset_error)].
Definition demo_lc : logConn :=
  MkLogConn 7 0 0 None 100 false false (blank_info 1 "http" "10.0.0.2:4000" "a.example" 443 FamilyBoth).
Lemma demo_fresh : fresh_conn demo_lc.
Proof. done. Qed.

Lemma relay_terminates_witness :
  inevitable relay_step
    (fun r => relay_closed r /\ cp_shut (r_up r) = true /\ cp_shut (r_down r) = true /\
              exists line, lg_access (r_logs r) = [] ++ [line] /\ al_info line = lc_info demo_lc)
    (relay_start demo_fc demo_fu [None; None] [Some (2%nat, reset_error)] demo_lc no_logs 0) /\
  (forall r, rtc relay_step (relay_start demo_fc demo_fu [None; None] [] demo_lc no_logs 0) r -> ~ relay_closed r).
Proof.
  split.
  - apply (relay_terminates demo_lc no_logs 0 demo_fc demo_fu [None; None] [Some (2%nat, reset_error)] demo_fresh);
      reflexivity.
  - intros r Hr Hcl.
    apply (relay_terminates demo_lc no_logs 0 demo_fc demo_fu [None; None] [] demo_fresh) in Hcl; [|exact Hr].
    by destruct Hcl.
Defined.

(** The end of the client's direction, then of the upstream's, then the close. *)
Definition demo_end : relaying :=
  MkRelay (MkCopier CDone [] [] "hello" "hello" (Some io_EOF) None true)
    (MkCopier CDone [] [] "world" "world" (Some reset_error) None true)
    (MkLogConn 7 5 5 (Some reset_error) 100 true false (lc_info demo_lc))
    (MkLogs [MkLine (lc_info demo_lc) "relay_error" (Some (0, 5, 5))]
            [(MkLine (lc_info demo_lc) "relay_error" (Some (0, 5, 5)), reset_error)]) 0.
Lemma demo_run : rtc relay_step (relay_start demo_fc demo_fu [None; None] [None] demo_lc no_logs 0) demo_end.
Proof.
  apply (relay_play_sound [TUp; TDown; TUp; TDown; TUp; TUp; TDown; TUp; TUp; TDown; TClose 200]).
  vm_compute. reflexivity.
Qed.
Lemma relay_is_transparent_witness : cp_out (r_up demo_end) = "hello" /\ cp_out (r_down demo_end) = "world".
Proof.
  split.
  - apply (relay_is_transparent demo_lc no_logs 0 demo_fc demo_fu [None; None] [None] demo_end demo_fresh demo_run
             (r_up demo_end) demo_fc); auto.
  - apply (relay_is_transparent demo_lc no_logs 0 demo_fc demo_fu [None; None] [None] demo_end demo_fresh demo_run
             (r_down demo_end) demo_fu); auto.
Defined.
Lemma relay_refines_witness :
  exists first now, lc_Close now
    (snd (relay (MkUp (fun s => (s, None)) (fun _ => ("hello", None)) "world" (Some reset_error) first)
            "hello" demo_lc)) no_logs 0
    = (r_lc demo_end, r_logs demo_end, r_inflight demo_end).
Proof.
  destruct (relay_refines demo_lc no_logs 0 demo_fc demo_fu [None; None] [None] demo_end demo_fresh demo_run eq_refl
              (fun s => (s, None))) as (first & now & _ & E).
  by exists first, now.
Defined.
