(* ===== verification/HttpIdle.v ===== *)
(** [handleHTTP] of httpproxy.go after the upstream was opened, in detail: the
    handler goroutine with its reads and writes through [guardedConn] and
    [guardedReader], the goroutine of the idle guard that may close both sides
    under it, and the deferred calls.  HttpProxy.v gives the same code by its
    result ([forward]), Guard.v the guard on its own; here the two goroutines
    interleave.

    A read or a write returns when the network lets it: its answer is part of
    the step.  Between the return of the wrapped call and the return of the
    wrapper lie two sections, the counting of the logConn under its mutex and
    the atomic store of the guard. *)

From S2P Require Import Prelude GoStrings Errors World Dns Opener LogConn Guard HttpProxy.

(** ** State *)

(** [logConn.Close] from its compare-and-swap on: closing the transport
    ([won]: it was the first to close), writing the access line, returned. *)
Inductive close_pc : Type := ClSwap | ClBase (won : bool) | ClLog | ClEnd.

(** The handler: [io.ReadAll] of the body to re-frame, [writeHTTPErr], the
    write of the head, of the buffered body, the two halves of
    [io.Copy(upstream, reqBody)] and of [io.Copy(client, upstream)], the
    deferred [g.stop], [lc.Close] and, in [handleConn], [client.Close]. *)
Inductive handler_pc : Type :=
| HBuffer (acc : string)
| HFail (code : Z) (msg : string)
| HHead (body : option string)
| HSend (body : string)
| HPull
| HPush (data : string) (er : option error)
| HRecv
| HGive (data : string) (er : option error)
| HStop
| HClose (k : close_pc)
| HRaw
| HEnd.

(** The goroutine of [newIdleGuard]: at its select, in [onIdle], returned. *)
Inductive guard_pc : Type := GSelect | GRaw | GClose (k : close_pc) | GEnd.

(** What a wrapper still does after the wrapped call returned. *)
Inductive act : Type := ACount (up : bool) (n : Z) (err : option error) | ATouch (n : Z).

(** The bytes that moved and the errors met so far: request body read, head
    and body written upstream, response read, bytes written to the client. *)
Record transcript := MkX {
  t_body : string; t_bodyErr : option error;
  t_head : string; t_headErr : option error;
  t_sent : string; t_sentErr : option error;
  t_recv : string; t_recvErr : option error;
  t_client : string }.
Definition empty_transcript : transcript := MkX "" None "" None "" None "" None "".

(** The clock, the ticker of the guard (time of its next tick, and whether one
    is in its channel), the guard and its goroutine; [i_fired] remembers that
    it ran [onIdle]. *)
Record idleState := MkIdle {
  i_now : Z; i_next : Z; i_tick : bool; i_guard : guard; i_pc : guard_pc; i_fired : bool }.
(** The two connections: which are closed, and the counted upstream. *)
Record ends := MkEnds { e_raw : bool; e_up : bool; e_lc : logConn; e_logs : logs; e_inflight : Z }.
Record hstate := MkH { h_pc : handler_pc; h_todo : list act; h_x : transcript; h_idle : idleState; h_ends : ends }.

(** ** The sections of [logConn.Close] *)

Definition lc_swap (c : logConn) : logConn :=
  MkLogConn (lc_base c) (lc_up c) (lc_down c) (lc_firstErr c) (lc_t0 c) true (lc_drain c) (lc_info c).
(** After the transport was closed: [onClose], and the lines of the two logs
    from the counters as they are now. *)
Definition lc_record (now : Z) (c : logConn) (l : logs) (inflight : Z) : logs * Z :=
  let ms := Milliseconds (time_Sub now (lc_t0 c)) in
  let result := match lc_firstErr c with Some _ => "relay_error" | None => "ok" end in
  let line := MkLine (lc_info c) result (Some (ms, lc_up c, lc_down c)) in
  (MkLogs (lg_access l ++ [line]) (lg_service l ++ match lc_firstErr c with Some e => [(line, e)] | None => [] end),
   if lc_drain c then inflight - 1 else inflight).

Definition close_next (k : close_pc) (now : Z) (e : ends) : close_pc * ends :=
  match k with
  | ClSwap => (ClBase (negb (lc_closed (e_lc e))),
               MkEnds (e_raw e) (e_up e) (lc_swap (e_lc e)) (e_logs e) (e_inflight e))
  | ClBase won => (if won then ClLog else ClEnd, MkEnds (e_raw e) true (e_lc e) (e_logs e) (e_inflight e))
  | ClLog => let '(l, n) := lc_record now (e_lc e) (e_logs e) (e_inflight e) in
             (ClEnd, MkEnds (e_raw e) (e_up e) (e_lc e) l n)
  | ClEnd => (ClEnd, e)
  end.
Definition close_raw (e : ends) : ends := MkEnds true (e_up e) (e_lc e) (e_logs e) (e_inflight e).

(** ** The handler *)

Definition hasBody (r : request) : bool := negb (q_ContentLength r =? 0).
Definition reframed (r : request) : bool :=
  hasBody r && (negb (bool_decide (q_TransferEncoding r = [])) || (q_ContentLength r <? 0)).
Definition is_EOF (e : error) : bool := same_var e io_EOF.
(** The error of a copy or a [ReadAll] whose source ended with [er]. *)
Definition read_failure (er : option error) : option error :=
  match er with Some e => if is_EOF e then None else Some e | None => None end.

(** After [io.ReadAll]. *)
Definition buffered (acc : string) (er : option error) : handler_pc :=
  match read_failure er with
  | Some _ => HFail 413 "Body read failed"
  | None => if maxReframedBody <? len acc then HFail 413 "Body too large" else HHead (Some acc)
  end.
Definition after_head (r : request) (body : option string) : handler_pc :=
  match body with Some b => HSend b | None => if hasBody r then HPull else HRecv end.
(** After one round of [io.Copy(upstream, reqBody)]. *)
Definition after_pull (er : option error) : handler_pc :=
  match er with
  | None => HPull
  | Some e => if is_EOF e then HRecv else HFail 502 "Body transfer failed"
  end.
(** After one round of [io.Copy(client, upstream)], whose result is ignored. *)
Definition after_recv (er : option error) : handler_pc := match er with None => HRecv | Some _ => HStop end.

(** What a connection may answer: a closed one only with an error (it may
    still hand out bytes it holds); a write takes a prefix, and all of it when
    it reports none. *)
Definition answer : Type := string * option error.
Definition io_failed (a : answer) : bool := bool_decide (snd a <> None).
Definition read_ok (closed : bool) (a : answer) : bool := negb closed || io_failed a || negb (String.eqb (fst a) "").
Definition write_ok (closed : bool) (data : string) (a : answer) : bool :=
  String.prefix (fst a) data && (io_failed a || (String.eqb (fst a) data && negb closed)).

Definition add_body (a : answer) (x : transcript) : transcript :=
  MkX (t_body x +:+ fst a) (read_failure (snd a)) (t_head x) (t_headErr x) (t_sent x) (t_sentErr x)
    (t_recv x) (t_recvErr x) (t_client x).
Definition add_head (a : answer) (x : transcript) : transcript :=
  MkX (t_body x) (t_bodyErr x) (fst a) (snd a) (t_sent x) (t_sentErr x) (t_recv x) (t_recvErr x) (t_client x).
Definition add_sent (a : answer) (x : transcript) : transcript :=
  MkX (t_body x) (t_bodyErr x) (t_head x) (t_headErr x) (t_sent x +:+ fst a) (snd a) (t_recv x) (t_recvErr x) (t_client x).
Definition add_recv (a : answer) (x : transcript) : transcript :=
  MkX (t_body x) (t_bodyErr x) (t_head x) (t_headErr x) (t_sent x) (t_sentErr x) (t_recv x +:+ fst a) (snd a) (t_client x).
Definition add_client (a : answer) (x : transcript) : transcript :=
  MkX (t_body x) (t_bodyErr x) (t_head x) (t_headErr x) (t_sent x) (t_sentErr x) (t_recv x) (t_recvErr x)
    (t_client x +:+ fst a).

Definition touch_for (a : answer) : act := ATouch (len (fst a)).
Definition count_for (up : bool) (a : answer) : act := ACount up (len (fst a)) (snd a).
Definition io_step (ok : bool) (pc : handler_pc) (todo : list act) (x : transcript) (s : hstate) : option hstate :=
  if ok then Some (MkH pc todo x (h_idle s) (h_ends s)) else None.

Section Handler.
Context (r : request).

(** A wrapper's section, or the next call of the handler with the answer [a]
    if it is a read or a write. *)
Definition run_act (c : act) (rest : list act) (s : hstate) : hstate :=
  let i := h_idle s in
  let e := h_ends s in
  match c with
  | ACount up n err =>
      MkH (h_pc s) rest (h_x s) i (MkEnds (e_raw e) (e_up e) (lc_count up n err (e_lc e)) (e_logs e) (e_inflight e))
  | ATouch n =>
      MkH (h_pc s) rest (h_x s)
        (MkIdle (i_now i) (i_next i) (i_tick i)
           (MkGuard (guarded_io n (i_now i) (g_last (i_guard i))) (g_stopped (i_guard i))) (i_pc i) (i_fired i)) e
  end.

Definition handler_next (a : answer) (s : hstate) : option hstate :=
  let x := h_x s in
  let i := h_idle s in
  let e := h_ends s in
  let touch := [touch_for a] in
  match h_pc s with
  | HBuffer acc =>
      (* LimitReader: at most one byte more than the limit *)
      if maxReframedBody + 1 <=? len acc then Some (MkH (buffered acc None) [] x i e)
      else
        let acc' := acc +:+ fst a in
        io_step (read_ok (e_raw e) a && (len acc' <=? maxReframedBody + 1))
          (match snd a with None => HBuffer acc' | er => buffered acc' er end) touch (add_body a x) s
  | HFail code msg =>
      io_step (write_ok (e_raw e) (writeHTTPErr code msg) a) HStop touch (add_client a x) s
  | HHead body =>
      io_step (write_ok (e_up e) (head_text r body) a) (after_head r body) (count_for true a :: touch) (add_head a x) s
  | HSend b =>
      io_step (write_ok (e_up e) b a) (if io_failed a then HFail 502 "Body transfer failed" else HRecv)
        (count_for true a :: touch) (add_sent a x) s
  | HPull =>
      io_step (read_ok (e_raw e) a)
        (if String.eqb (fst a) "" then after_pull (snd a) else HPush (fst a) (snd a)) touch (add_body a x) s
  | HPush d er =>
      io_step (write_ok (e_up e) d a) (if io_failed a then HFail 502 "Body transfer failed" else after_pull er)
        (count_for true a :: touch) (add_sent a x) s
  | HRecv =>
      io_step (read_ok (e_up e) a)
        (if String.eqb (fst a) "" then after_recv (snd a) else HGive (fst a) (snd a))
        (count_for false a :: touch) (add_recv a x) s
  | HGive d er =>
      io_step (write_ok (e_raw e) d a) (if io_failed a then HStop else after_recv er) touch (add_client a x) s
  | HStop =>
      Some (MkH (HClose ClSwap) []
              x (MkIdle (i_now i) (i_next i) (i_tick i) (MkGuard (g_last (i_guard i)) true) (i_pc i) (i_fired i)) e)
  | HClose ClEnd => Some (MkH HRaw [] x i e)
  | HClose k => let '(k', e') := close_next k (i_now i) e in Some (MkH (HClose k') [] x i e')
  | HRaw => Some (MkH HEnd [] x i (close_raw e))
  | HEnd => None
  end.
Definition handler_step (a : answer) (s : hstate) : option hstate :=
  match h_todo s with c :: rest => Some (run_act c rest s) | [] => handler_next a s end.
End Handler.

(** ** The guard and the clock *)

Section Guarded.
Context (timeout : Z) (r : request).

(** Time passes up to [t]; the clock does not go back.  The channel of the ticker holds one tick; the
    further ones are dropped. *)
Definition elapse (t : Z) (s : hstate) : option hstate :=
  let i := h_idle s in
  let period := check_period timeout in
  if t <? i_now i then None
  else Some (MkH (h_pc s) (h_todo s) (h_x s)
    (if i_next i <=? t
     then MkIdle t (i_next i + period * ((t - i_next i) / period + 1)) true (i_guard i) (i_pc i) (i_fired i)
     else MkIdle t (i_next i) (i_tick i) (i_guard i) (i_pc i) (i_fired i)) (h_ends s)).

(** The guard's goroutine; [takeDone] decides its select when both channels
    are ready. *)
Definition guard_step (takeDone : bool) (s : hstate) : option hstate :=
  let i := h_idle s in
  let set pc fired tick e :=
    Some (MkH (h_pc s) (h_todo s) (h_x s) (MkIdle (i_now i) (i_next i) tick (i_guard i) pc fired) e) in
  match i_pc i with
  | GSelect =>
      if takeDone then (if g_stopped (i_guard i) then set GEnd (i_fired i) (i_tick i) (h_ends s) else None)
      else if i_tick i then
        if timeout <=? time_Sub (i_now i) (g_last (i_guard i)) then set GRaw true false (h_ends s)
        else set GSelect (i_fired i) false (h_ends s)
      else None
  | GRaw => set (GClose ClSwap) (i_fired i) (i_tick i) (close_raw (h_ends s))
  | GClose ClEnd => set GEnd (i_fired i) (i_tick i) (h_ends s)
  | GClose k => let '(k', e') := close_next k (i_now i) (h_ends s) in set (GClose k') (i_fired i) (i_tick i) e'
  | GEnd => None
  end.

Inductive haction : Type := Elapse (t : Z) | Guard (takeDone : bool) | Handler (a : answer).
Definition h_do (ac : haction) (s : hstate) : option hstate :=
  match ac with
  | Elapse t => elapse t s
  | Guard takeDone => guard_step takeDone s
  | Handler a => handler_step r a s
  end.
Definition h_step (s s' : hstate) : Prop := exists ac, h_do ac s = Some s'.

(** A schedule proposes one action per moment; one that is not possible does
    nothing. *)
Fixpoint h_run (sched : nat -> haction) (n : nat) (s : hstate) : hstate :=
  match n with
  | O => s
  | S n => let s' := h_run sched n s in default s' (h_do (sched n) s')
  end.
Fixpoint h_play (acts : list haction) (s : hstate) : option hstate :=
  match acts with [] => Some s | ac :: rest => h_do ac s ≫= h_play rest end.

(** At the end of [newIdleGuard], called at [now]. *)
Definition h_start (now : Z) (c : logConn) (l : logs) (inflight : Z) : hstate :=
  MkH (if reframed r then HBuffer "" else HHead None) [] empty_transcript
    (MkIdle now (now + check_period timeout) false (newIdleGuard now) GSelect false)
    (MkEnds false false c l inflight).
End Guarded.
