(* ===== verification/HttpIdleInv.v ===== *)
(** The invariant of an absolute-form request in flight (HttpIdle.v): what the
    handler has done at each of its points, what the counters hold, and who
    has closed and logged the upstream. *)

From S2P Require Import Prelude GoStrings Errors World Dns Opener LogConn Guard HttpProxy Relay HttpIdle.

(** ** The sequential summary of a transcript *)

(** The environment and the request under which [forward] does what a
    transcript shows.  When reading the body failed, nothing of it is used. *)
Definition env_of (x : transcript) : upstreamEnv :=
  MkUp (fun _ => (t_head x, t_headErr x)) (fun _ => (t_sent x, t_sentErr x)) (t_recv x) (t_recvErr x) false.
Definition as_read (r : request) (x : transcript) : request :=
  MkRequest (q_Method r) (q_URLHost r) (q_IsAbs r) (q_Scheme r) (q_Hostname r) (q_Port r) (q_RequestURI r)
    (q_Host r) (q_TransferEncoding r) (q_ContentLength r) (q_Header r)
    (match t_bodyErr x with Some _ => if reframed r then "" else t_body x | None => t_body x end) (t_bodyErr x).

(** The counters it leaves. *)
Definition tally (c0 : logConn) (x : transcript) : logConn :=
  counts c0 (wrap64 (len (t_head x) + len (t_sent x))) (wrap64 (len (t_recv x)))
    (pick (pick (relay_error (t_headErr x)) (relay_error (t_sentErr x))) (relay_error (t_recvErr x))).

(** [forward] answers the client with [full]. *)
Definition goes (r : request) (c0 : logConn) (x : transcript) (full : string) : Prop :=
  forward (env_of x) (as_read r x) c0 = (full, t_head x +:+ t_sent x, tally c0 x).

Lemma fresh_counts c0 : fresh_conn c0 -> c0 = counts c0 0 0 None.
Proof. intros (? & ? & ? & ?). destruct c0; cbn in *. by subst. Qed.

Section Goes.
Context (r : request) (c0 : logConn) (Hc : fresh_conn c0).
Implicit Types (x : transcript).

(** Nothing sent and nothing received yet. *)
Definition unsent x : Prop :=
  t_head x = "" /\ t_headErr x = None /\ t_sent x = "" /\ t_sentErr x = None /\ t_recv x = "" /\ t_recvErr x = None.
Definition no_reply x : Prop := t_recv x = "" /\ t_recvErr x = None.
(** The request went out whole. *)
Definition sent_ok x : Prop :=
  t_sentErr x = None /\ t_bodyErr x = None /\
  (if reframed r then len (t_body x) <= maxReframedBody /\ t_sent x = t_body x
   else if hasBody r then t_sent x = t_body x else t_sent x = "" /\ t_body x = "").

Lemma as_read_reframe x :
  reframe (as_read r x) =
  if reframed r
  then match t_bodyErr x with
       | Some _ => inl (writeHTTPErr 413 "Body read failed")
       | None => if maxReframedBody <? len (t_body x) then inl (writeHTTPErr 413 "Body too large")
                 else inr (Some (t_body x))
       end
  else inr None.
Proof.
  unfold reframe. cbn [as_read q_TransferEncoding q_ContentLength q_Body q_BodyErr]. unfold reframed, hasBody. cbv zeta.
  destruct (negb (q_ContentLength r =? 0) && _) eqn:E; [|done]. destruct (t_bodyErr x) as [e|] eqn:Ee; [|done].
  done.
Qed.

(** The reply to a body that cannot be re-framed. *)
Lemma goes_refused x text : unsent x -> reframe (as_read r x) = inl text -> goes r c0 x text.
Proof.
  intros (E1 & E2 & E3 & E4 & E5 & E6) Er. unfold goes, forward. rewrite Er. unfold tally. rewrite E1, E2, E3, E4, E5, E6.
  cbn. do 2 f_equal. by apply fresh_counts.
Qed.

Lemma lc_count_fresh up n err : lc_count up n err c0 =
  counts c0 (if up then wrap64 n else 0) (if up then 0 else wrap64 n) (relay_error err).
Proof. rewrite (fresh_counts _ Hc) at 1. by rewrite lc_count_counts. Qed.

(** The request went out, or moving its body failed. *)
Lemma goes_ok x : sent_ok x -> goes r c0 x (t_recv x).
Proof.
  intros (Es & Eb & Hf). unfold goes, forward. rewrite as_read_reframe.
  cbn [as_read env_of q_Body q_BodyErr q_ContentLength up_head up_body up_reply up_readErr].
  fold (hasBody r). unfold lc_Write, lc_Read, tally. rewrite Es, Eb.
  assert (Ep : forall e : option error, pick e (relay_error None) = e) by (by intros []). rewrite Ep.
  destruct (reframed r) eqn:Er;
    [destruct Hf as [Hl ->]; rewrite (proj2 (Z.ltb_ge _ _)) by done|destruct (hasBody r); [|destruct Hf as [-> _]]];
    rewrite lc_count_fresh, ?bool_decide_eq_false_2 by naive_solver; cbn [orb];
    rewrite !lc_count_counts, ?wrap64_add, ?Z.add_0_l, ?Ep; try done. by rewrite Z.add_0_r.
Qed.
Lemma goes_failed x : no_reply x ->
  (if reframed r then len (t_body x) <= maxReframedBody /\ t_bodyErr x = None /\ t_sentErr x <> None
   else hasBody r = true /\ (t_sentErr x <> None \/ t_bodyErr x <> None)) ->
  goes r c0 x (writeHTTPErr 502 "Body transfer failed").
Proof.
  intros [En En'] Hf. unfold goes, forward. rewrite as_read_reframe.
  cbn [as_read env_of q_Body q_BodyErr q_ContentLength up_head up_body up_reply up_readErr].
  fold (hasBody r). unfold lc_Write, lc_Read, tally. rewrite En, En'.
  assert (Ep : forall e : option error, pick e (relay_error None) = e) by (by intros []). rewrite Ep.
  destruct (reframed r) eqn:Er.
  - destruct Hf as (Hl & Eb & Hs). rewrite Eb, (proj2 (Z.ltb_ge _ _)) by done.
    rewrite lc_count_fresh, lc_count_counts, wrap64_add, bool_decide_eq_true_2 by done. done.
  - destruct Hf as [-> Hs]. rewrite lc_count_fresh, lc_count_counts, wrap64_add.
    rewrite (proj2 (orb_true_iff _ _)); [done|].
    destruct Hs as [Hs|Hs]; [left|right]; by apply bool_decide_eq_true_2.
Qed.
End Goes.

(** ** The handler's points *)

Definition begins (a b : string) : Prop := exists rest, b = a +:+ rest.
Lemma begins_refl s : begins s s.
Proof. exists "". by rewrite str_app_nil_r. Qed.
Lemma begins_nil s : begins "" s.
Proof. by exists s. Qed.
Lemma begins_app s a b : begins a b -> begins (s +:+ a) (s +:+ b).
Proof. intros [rest ->]. exists rest. by rewrite str_app_assoc. Qed.
Lemma prefix_begins a b : String.prefix a b = true -> begins a b.
Proof. intros E%String.prefix_correct. destruct (substring_prefix (String.length a) b) as [rest Hr]. exists rest. by rewrite E in Hr. Qed.
#[export] Hint Resolve begins_refl begins_nil begins_app : gate.

Lemma failed_true a : io_failed a = true -> snd a <> None.
Proof. apply bool_decide_eq_true. Qed.
Lemma failed_false a : io_failed a = false -> snd a = None.
Proof. unfold io_failed. rewrite bool_decide_eq_false. by destruct (snd a) as [e|]; [intros []|]. Qed.
Lemma write_ok_spec closed d a : write_ok closed d a = true ->
  begins (fst a) d /\ (snd a = None -> fst a = d /\ closed = false).
Proof.
  unfold write_ok, io_failed. intros [Hp Hf]%andb_true_iff. split; [by apply prefix_begins|]. intros E.
  rewrite E, bool_decide_eq_false_2 in Hf by naive_solver. cbn in Hf. prop_of_bool. done.
Qed.

Section Points.
Context (r : request) (c0 : logConn) (Hc : fresh_conn c0).
Implicit Types (x : transcript) (a : answer).

Definition untold x : Prop := no_reply x /\ t_client x = "".
Definition finished x : Prop := exists full, goes r c0 x full /\ begins (t_client x) full /\ begins (t_sent x) (t_body x).

Definition pc_inv (pc : handler_pc) x : Prop :=
  match pc with
  | HBuffer acc => reframed r = true /\ t_body x = acc /\ len acc <= maxReframedBody + 1 /\ t_bodyErr x = None /\
                   unsent x /\ t_client x = ""
  | HHead b => unsent x /\ t_client x = "" /\ t_bodyErr x = None /\
               (if reframed r then b = Some (t_body x) /\ len (t_body x) <= maxReframedBody
                else b = None /\ t_body x = "")
  | HSend b => reframed r = true /\ t_body x = b /\ len b <= maxReframedBody /\ t_bodyErr x = None /\
               t_sent x = "" /\ t_sentErr x = None /\ untold x
  | HPull => reframed r = false /\ hasBody r = true /\ t_body x = t_sent x /\ t_bodyErr x = None /\
             t_sentErr x = None /\ untold x
  | HPush d er => reframed r = false /\ hasBody r = true /\ t_body x = t_sent x +:+ d /\
                  t_bodyErr x = read_failure er /\ t_sentErr x = None /\ untold x
  | HRecv => sent_ok r x /\ t_recv x = t_client x /\ t_recvErr x = None
  | HGive d er => sent_ok r x /\ t_recv x = t_client x +:+ d /\ t_recvErr x = er
  | HFail code msg => goes r c0 x (writeHTTPErr code msg) /\ t_client x = "" /\ begins (t_sent x) (t_body x)
  | HStop | HClose _ | HRaw | HEnd => finished x
  end.

Lemma sent_ok_begins x : sent_ok r x -> begins (t_sent x) (t_body x).
Proof.
  intros (_ & _ & H). destruct (reframed r); [destruct H as [_ ->]|destruct (hasBody r); [rewrite H|destruct H as [-> _]]];
    auto with gate.
Qed.
Lemma received x : sent_ok r x -> t_recv x = t_client x -> finished x.
Proof. intros Hs E. exists (t_recv x). rewrite E. split; [|auto using sent_ok_begins with gate]. rewrite <- E. by apply goes_ok. Qed.
Lemma recv_finished x : sent_ok r x -> begins (t_client x) (t_recv x) -> finished x.
Proof. intros Hs E. exists (t_recv x). auto using sent_ok_begins, goes_ok. Qed.

(** The copies go on, end well or fail. *)
Lemma after_pull_inv er x : reframed r = false -> hasBody r = true -> t_body x = t_sent x ->
  t_bodyErr x = read_failure er -> t_sentErr x = None -> untold x -> pc_inv (after_pull er) x.
Proof.
  intros Hr Hb Hs He Hse [Hn Hcl]. unfold after_pull, read_failure in *. destruct er as [e|]; [|done].
  destruct (is_EOF e).
  - destruct Hn as [En En']. split; [|by rewrite En, Hcl]. unfold sent_ok. by rewrite Hr, Hb.
  - split; [|split; [done|]; rewrite Hs; auto with gate]. apply goes_failed; [done|done|]. rewrite Hr. split; [done|]. right. by rewrite He.
Qed.
Lemma after_recv_inv er x : sent_ok r x -> t_recv x = t_client x -> t_recvErr x = er -> pc_inv (after_recv er) x.
Proof. intros Hs E Ee. destruct er; cbn; [by apply received|done]. Qed.
Lemma buffered_inv er x : reframed r = true -> t_bodyErr x = read_failure er -> unsent x -> t_client x = "" ->
  pc_inv (buffered (t_body x) er) x.
Proof.
  intros Hr He Hu Hcl. pose proof (as_read_reframe r x) as Ef. rewrite Hr, He in Ef. unfold buffered.
  assert (Hb : begins (t_sent x) (t_body x)) by (destruct Hu as (_ & _ & -> & _); auto with gate).
  destruct (read_failure er); [cbn; auto using goes_refused|].
  destruct (maxReframedBody <? len (t_body x)) eqn:El; [cbn; auto using goes_refused|].
  cbn. rewrite Hr. prop_of_bool. done.
Qed.

Lemma io_step_Some ok pc todo x s s' : io_step ok pc todo x s = Some s' ->
  ok = true /\ s' = MkH pc todo x (h_idle s) (h_ends s).
Proof. unfold io_step. destruct ok; [|done]. by intros [= <-]. Qed.

Lemma handler_next_pc a s s' : pc_inv (h_pc s) (h_x s) -> handler_next r a s = Some s' -> pc_inv (h_pc s') (h_x s').
Proof.
  unfold handler_next. set (x := h_x s). destruct (h_pc s) as [acc|code msg|b|b| |d er| |d er| |k| |] eqn:Epc; cbv zeta.
  - intros (Hr & Hb & Hl & He & Hu & Hcl). destruct (_ <=? len acc) eqn:Elim.
    { intros [= <-]. cbn [h_pc h_x]. rewrite <- Hb. by apply (buffered_inv None x). }
    intros [Hok ->]%io_step_Some. cbn [h_pc h_x]. apply andb_true_iff in Hok as [_ Hlen]. prop_of_bool. destruct a as [d [e|]]; cbn [snd fst] in *.
    + rewrite <- Hb. by apply (buffered_inv (Some e) (add_body (d, Some e) x)).
    + cbn. rewrite Hb. done.
  - intros (Hg & Hcl & Hs) [Hok ->]%io_step_Some. cbn. apply write_ok_spec in Hok as [Hok _].
    exists (writeHTTPErr code msg). cbn. rewrite Hcl. done.
  - intros ((E1 & E2 & E3 & E4 & E5 & E6) & Hcl & He & Hb) [_ ->]%io_step_Some. cbn [h_pc h_x].
    destruct (reframed r) eqn:Hr; destruct Hb as [-> Hb]; cbn; [done|].
    destruct (hasBody r) eqn:Ehb; cbn; [by rewrite E3|]. unfold sent_ok. rewrite Hr, Ehb. cbn. by rewrite E5.
  - intros (Hr & Hb & Hl & He & Hs & Hse & [Hn Hcl]) [Hok ->]%io_step_Some. cbn [h_pc h_x].
    apply write_ok_spec in Hok as [Hp Hfull]. destruct (io_failed a) eqn:Hf; [apply failed_true in Hf|apply failed_false in Hf]; cbn.
    + split; [|split; [done|]; rewrite Hs, Hb; done]. apply goes_failed; [done|done|]. rewrite Hr. cbn. by rewrite Hb.
    + destruct (Hfull Hf) as [Ef _]. destruct Hn as [En En'].
      split; [|by rewrite En, Hcl]. unfold sent_ok. rewrite Hr. cbn. by rewrite Hs, Hb, Ef, Hf.
  - intros (Hr & Hb & Hs & He & Hse & Ht) [Hok ->]%io_step_Some. cbn [h_pc h_x].
    destruct (String.eqb (fst a) "") eqn:Ed.
    + apply String.eqb_eq in Ed. apply after_pull_inv; cbn; try done. by rewrite Ed, str_app_nil_r.
    + cbn. by rewrite Hs.
  - intros (Hr & Hb & Hs & He & Hse & Hn & Hcl) [Hok ->]%io_step_Some. cbn [h_pc h_x].
    apply write_ok_spec in Hok as [Hp Hfull]. destruct (io_failed a) eqn:Hf; [apply failed_true in Hf|apply failed_false in Hf]; cbn.
    + split; [|split; [done|]; rewrite Hs; auto with gate]. apply goes_failed; [done|done|]. rewrite Hr. cbn. auto.
    + destruct (Hfull Hf) as [Ef _].
      apply after_pull_inv; cbn; try done. by rewrite Hs, Ef.
  - intros (Hs & Hrc & He) [Hok ->]%io_step_Some. cbn [h_pc h_x]. destruct (String.eqb (fst a) "") eqn:Ed.
    + apply String.eqb_eq in Ed. apply after_recv_inv; cbn; try done. by rewrite Ed, str_app_nil_r.
    + cbn. by rewrite Hrc.
  - intros (Hs & Hrc & He) [Hok ->]%io_step_Some. cbn [h_pc h_x].
    apply write_ok_spec in Hok as [Hp Hfull]. destruct (io_failed a) eqn:Hf; [apply failed_true in Hf|apply failed_false in Hf]; cbn.
    + apply recv_finished; [done|]. cbn. rewrite Hrc. auto with gate.
    + destruct (Hfull Hf) as [Ef _].
      apply after_recv_inv; cbn; try done. by rewrite Hrc, Ef.
  - by intros Hf [= <-].
  - intros Hf. destruct k; [..|by intros [= <-]]; destruct (close_next _ _ _); by intros [= <-].
  - by intros Hf [= <-].
  - done.
Qed.
End Points.

(** ** Who closed and logged the upstream *)

(** How far a goroutine is in [logConn.Close]. *)
Definition handler_closer (pc : handler_pc) : option close_pc :=
  match pc with HClose k => Some k | HRaw | HEnd => Some ClEnd | _ => None end.
Definition guard_closer (i : idleState) : option close_pc :=
  match i_pc i with GClose k => Some k | GEnd => if i_fired i then Some ClEnd else None | _ => None end.
Definition swapped (k : option close_pc) : bool := match k with None | Some ClSwap => false | _ => true end.
Definition cut (k : option close_pc) : bool := match k with Some ClLog | Some ClEnd => true | _ => false end.
(** It won the swap and has the line still to write. *)
Definition owes (k : option close_pc) : bool := match k with Some (ClBase true) | Some ClLog => true | _ => false end.

Lemma lc_Close_sections now c l n : lc_closed c = false ->
  lc_Close now c l n = (lc_swap c, fst (lc_record now c l n), snd (lc_record now c l n)).
Proof. unfold lc_Close. by intros ->. Qed.
Lemma lc_record_swap now c l n : lc_record now (lc_swap c) l n = lc_record now c l n.
Proof. done. Qed.

(** The connection without its closed flag. *)
Definition reopen (c : logConn) : logConn :=
  MkLogConn (lc_base c) (lc_up c) (lc_down c) (lc_firstErr c) (lc_t0 c) false (lc_drain c) (lc_info c).
Lemma close_next_kept k now e k' e' : close_next k now e = (k', e') ->
  e_raw e' = e_raw e /\ reopen (e_lc e') = reopen (e_lc e).
Proof. destruct k; cbn; try case_match; by intros [= _ <-]. Qed.

Section Closing.
Context (c0 : logConn) (l0 : logs) (n0 : Z).

Definition logged_once (fired : bool) (e : ends) : Prop :=
  exists now c, lc_record now c l0 n0 = (e_logs e, e_inflight e) /\ lc_info c = lc_info c0 /\
    (fired = false -> c = e_lc e).
Record log_inv (fired : bool) (k1 k2 : option close_pc) (e : ends) : Prop := MkLogInv {
  li_closed : lc_closed (e_lc e) = swapped k1 || swapped k2;
  li_one : owes k1 && owes k2 = false;
  li_cut : cut k1 || cut k2 = true -> e_up e = true;
  li_info : lc_info (e_lc e) = lc_info c0;
  li_logs : if (swapped k1 || swapped k2) && negb (owes k1 || owes k2) then logged_once fired e
            else e_logs e = l0 /\ e_inflight e = n0 }.

Lemma log_inv_sym fired k1 k2 e : log_inv fired k1 k2 e -> log_inv fired k2 k1 e.
Proof.
  intros [Hc Ho Hu Hi Hl]. split; [by rewrite orb_comm|by rewrite andb_comm|by rewrite orb_comm|done|].
  by rewrite (orb_comm (swapped k2)), (orb_comm (owes k2)).
Qed.

(** One section of [Close] by one of the two. *)
Lemma close_next_log fired k k2 now e k' e' : log_inv fired (Some k) k2 e -> (k2 <> None -> fired = true) ->
  k <> ClEnd -> close_next k now e = (k', e') -> log_inv fired (Some k') k2 e'.
Proof.
  intros [Hc Ho Hu Hi Hl] Hf Hk E. destruct k as [|won| |]; [| | |done]; cbn in E.
  - injection E as <- <-. cbn in Hc, Ho, Hu, Hl. rewrite Hc. split; cbn; try done.
    + by destruct k2 as [[|[]| |]|].
    + destruct (swapped k2) eqn:E2; cbn in *; [|done]. destruct (owes k2); cbn in *; [done|].
      destruct Hl as (t & c & Er & Ei & Hc'). exists t, c. split; [done|]. split; [done|]. intros ->.
      by discriminate Hf; destruct k2.
  - injection E as <- <-. destruct won; split; cbn in *; try done; by destruct (swapped k2), (owes k2).
  - destruct (lc_record now (e_lc e) (e_logs e) (e_inflight e)) as [l n] eqn:Er. injection E as <- <-.
    cbn in *. destruct Hl as [El En]. split; cbn; try done. rewrite Ho. cbn.
    exists now, (e_lc e). rewrite <- El, <- En. done.
Qed.

(** Counting before the handler closes. *)
Lemma count_log fired k2 e up n err : log_inv fired None k2 e -> (k2 <> None -> fired = true) ->
  log_inv fired None k2 (MkEnds (e_raw e) (e_up e) (lc_count up n err (e_lc e)) (e_logs e) (e_inflight e)).
Proof.
  intros [Hc Ho Hu Hi Hl] Hf. split; try done. cbn in *. destruct (swapped k2 && _) eqn:E; [|done].
  destruct Hl as (t & c & Er & Ei & _). exists t, c. split; [done|]. split; [done|]. intros ->.
  discriminate Hf. intros ->. done.
Qed.
End Closing.

(** The counters once the pending sections of the wrappers ran. *)
Definition flush_act (c : logConn) (a : act) : logConn :=
  match a with ACount up n err => lc_count up n err c | ATouch _ => c end.
Definition flush (todo : list act) (c : logConn) : logConn := foldl flush_act c todo.
Lemma reopen_count up n err c : reopen (lc_count up n err c) = lc_count up n err (reopen c).
Proof. done. Qed.
Lemma reopen_flush todo c c' : reopen c = reopen c' -> reopen (flush todo c) = reopen (flush todo c').
Proof.
  revert c c'. induction todo as [|[up n err|n] todo IH]; intros c c' E; [done| |by apply IH].
  apply IH. cbn [flush_act]. by rewrite !reopen_count, E.
Qed.
Lemma reopen_flush_open todo c : lc_closed c = false -> reopen (flush todo c) = flush todo c.
Proof. revert c. induction todo as [|[up n err|n] todo IH]; intros c E; [by destruct c; cbn in *; subst|by apply IH..]. Qed.
Lemma reopen_swap c : reopen (lc_swap c) = reopen c.
Proof. done. Qed.

(** ** The invariant *)

Section Inv.
Context (timeout : Z) (r : request) (c0 : logConn) (l0 : logs) (n0 : Z).
Context (Hc : fresh_conn c0) (Ht : 10 <= timeout).

Record guard_inv (s : hstate) : Prop := MkGuardInv {
  gi_stopped : g_stopped (i_guard (h_idle s)) = match handler_closer (h_pc s) with Some _ => true | None => false end;
  gi_fired : match i_pc (h_idle s) with
             | GSelect => i_fired (h_idle s) = false
             | GEnd => i_fired (h_idle s) = false -> g_stopped (i_guard (h_idle s)) = true
             | _ => i_fired (h_idle s) = true
             end;
  gi_raw : guard_closer (h_idle s) <> None \/ h_pc s = HEnd -> e_raw (h_ends s) = true;
  gi_next : i_now (h_idle s) < i_next (h_idle s) }.

Record h_inv (s : hstate) : Prop := MkHInv {
  hi_pc : pc_inv r c0 (h_pc s) (h_x s);
  hi_count : reopen (flush (h_todo s) (e_lc (h_ends s))) = tally c0 (h_x s);
  hi_todo : handler_closer (h_pc s) <> None -> h_todo s = [];
  hi_guard : guard_inv s;
  hi_log : log_inv c0 l0 n0 (i_fired (h_idle s)) (handler_closer (h_pc s)) (guard_closer (h_idle s)) (h_ends s) }.

Lemma check_period_pos : 0 < check_period timeout.
Proof.
  unfold check_period. cbv zeta. assert (0 < Z.quot timeout 10) by (apply Z.quot_str_pos; lia).
  destruct (_ <? _); [done|lia].
Qed.

Lemma guard_closer_fired s : guard_inv s -> guard_closer (h_idle s) <> None -> i_fired (h_idle s) = true.
Proof.
  intros [_ Hf _ _]. unfold guard_closer. destruct (i_pc (h_idle s)); try done.
  by destruct (i_fired (h_idle s)).
Qed.

Lemma h_start_inv now : h_inv (h_start timeout r now c0 l0 n0).
Proof.
  split; cbn; try done.
  - by destruct (reframed r) eqn:E; cbn; rewrite ?E.
  - pose proof (fresh_counts _ Hc) as E. unfold tally. cbn. by rewrite E at 1.
  - pose proof check_period_pos. split; cbn; [by destruct (reframed r)|done| |lia]. by destruct (reframed r); intros [].
  - destruct Hc as (_ & _ & _ & E). by destruct (reframed r).
Qed.

(** The counting of a write or a read is what the transcript adds. *)
Lemma pick_none (e : option error) : pick e None = e.
Proof. by destruct e. Qed.
Lemma tally_head x (a : answer) : unsent x -> lc_count true (len (fst a)) (snd a) (tally c0 x) = tally c0 (add_head a x).
Proof.
  intros (E1 & E2 & E3 & E4 & E5 & E6). unfold tally. rewrite lc_count_counts, wrap64_add. cbn.
  rewrite E1, E2, E3, E4, E5, E6. cbn. rewrite !pick_none. do 2 f_equal. unfold len. cbn. lia.
Qed.
Lemma tally_sent x (a : answer) : t_sentErr x = None -> no_reply x ->
  lc_count true (len (fst a)) (snd a) (tally c0 x) = tally c0 (add_sent a x).
Proof.
  intros E4 [E5 E6]. unfold tally. rewrite lc_count_counts, wrap64_add. cbn. rewrite E4, E5, E6, len_app. cbn.
  rewrite !pick_none. do 2 f_equal. lia.
Qed.
Lemma tally_recv x (a : answer) : t_recvErr x = None ->
  lc_count false (len (fst a)) (snd a) (tally c0 x) = tally c0 (add_recv a x).
Proof. intros E6. unfold tally. rewrite lc_count_counts, wrap64_add. cbn. rewrite E6, len_app. cbn. by rewrite !pick_none. Qed.

(** A read or write of the handler, or the end of the buffering: the rest of
    the system is untouched, and the wrappers will count what moved. *)
Definition io_move (s s' : hstate) : Prop :=
  handler_closer (h_pc s) = None /\ handler_closer (h_pc s') = None /\ h_idle s' = h_idle s /\ h_ends s' = h_ends s /\
  flush (h_todo s') (tally c0 (h_x s)) = tally c0 (h_x s').
Definition close_move (s s' : hstate) : Prop :=
  h_todo s' = [] /\ h_x s' = h_x s /\
  match h_pc s with
  | HStop => h_pc s' = HClose ClSwap /\ h_ends s' = h_ends s /\
      h_idle s' = let i := h_idle s in
        MkIdle (i_now i) (i_next i) (i_tick i) (MkGuard (g_last (i_guard i)) true) (i_pc i) (i_fired i)
  | HClose ClEnd => h_pc s' = HRaw /\ h_ends s' = h_ends s /\ h_idle s' = h_idle s
  | HClose k => h_idle s' = h_idle s /\
      exists k', h_pc s' = HClose k' /\ close_next k (i_now (h_idle s)) (h_ends s) = (k', h_ends s')
  | HRaw => h_pc s' = HEnd /\ h_idle s' = h_idle s /\ h_ends s' = close_raw (h_ends s)
  | _ => False
  end.
Lemma closer_buffered acc er : handler_closer (buffered acc er) = None.
Proof. unfold buffered. destruct (read_failure er); [done|]. by destruct (_ <? _). Qed.
Lemma closer_after_pull er : handler_closer (after_pull er) = None.
Proof. unfold after_pull. destruct er as [e|]; [|done]. by destruct (is_EOF e). Qed.
Lemma closer_after_recv er : handler_closer (after_recv er) = None.
Proof. by destruct er. Qed.

#[local] Arguments handler_closer _ : simpl never.
#[local] Arguments buffered _ _ : simpl never.
#[local] Arguments after_pull _ : simpl never.
#[local] Arguments after_recv _ : simpl never.
Lemma handler_next_move a s s' : pc_inv r c0 (h_pc s) (h_x s) -> handler_next r a s = Some s' ->
  io_move s s' \/ close_move s s'.
Proof.
  unfold handler_next, io_move, close_move. set (x := h_x s).
  destruct (h_pc s) as [acc|code msg|b|b| |d er| |d er| |k| |]; cbv zeta; cbn [pc_inv].
  - intros _. destruct (_ <=? len acc); [intros [= <-]|intros [_ ->]%io_step_Some]; left; cbn;
      [by rewrite closer_buffered|]. destruct a as [d [e|]]; cbn; by rewrite ?closer_buffered.
  - intros _ [_ ->]%io_step_Some. by left.
  - intros (Hu & _) [_ ->]%io_step_Some. left. cbn. unfold after_head. rewrite tally_head by done. by destruct b, (hasBody r).
  - intros (_ & _ & _ & _ & _ & E & [Hn _]) [_ ->]%io_step_Some. left. cbn. rewrite tally_sent by done. by destruct (io_failed a).
  - intros _ [_ ->]%io_step_Some. left. cbn. destruct (String.eqb _ _); [rewrite closer_after_pull|]; done.
  - intros (_ & _ & _ & _ & E & [Hn _]) [_ ->]%io_step_Some. left. cbn. rewrite tally_sent by done.
    destruct (io_failed a); [|rewrite closer_after_pull]; done.
  - intros (_ & _ & E) [_ ->]%io_step_Some. left. cbn. rewrite tally_recv by done.
    destruct (String.eqb _ _); [rewrite closer_after_recv|]; done.
  - intros _ [_ ->]%io_step_Some. left. cbn. destruct (io_failed a); [|rewrite closer_after_recv]; done.
  - intros _ [= <-]. by right.
  - intros _. right. destruct k; [..|by simplify_eq/=];
      destruct (close_next _ _ _) as [k' e'] eqn:Ek; simplify_eq/=; naive_solver.
  - intros _ [= <-]. by right.
  - done.
Qed.

(** ** Every step keeps it *)

Lemma run_act_inv c rest s : h_todo s = c :: rest -> h_inv s -> h_inv (run_act c rest s).
Proof.
  intros Et [Hpc Hcnt Htd Hg Hl].
  assert (Hk : handler_closer (h_pc s) = None)
    by (destruct (handler_closer (h_pc s)); [specialize (Htd ltac:(done)); congruence|done]).
  pose proof (guard_closer_fired s Hg) as Hf. rewrite Et in Hcnt. destruct Hg as [Hst Hfd Hrw Hnx].
  rewrite Hk in *. destruct c as [up n err|n]; split; cbn; rewrite ?Hk; try done; try (split; cbn; by rewrite ?Hk).
  by apply count_log.
Qed.

Lemma handler_step_inv a s s' : h_inv s -> handler_step r a s = Some s' -> h_inv s'.
Proof.
  intros Hi. unfold handler_step. destruct (h_todo s) as [|c rest] eqn:Et; [|intros [= <-]; by apply run_act_inv].
  intros Hs. pose proof Hi as [Hpc Hcnt Htd Hg Hl]. pose proof (handler_next_pc r c0 Hc _ _ _ Hpc Hs) as Hpc'.
  rewrite Et in Hcnt. cbn in Hcnt. pose proof (guard_closer_fired s Hg) as Hf. destruct Hg as [Hst Hfd Hrw Hnx].
  destruct (handler_next_move _ _ _ Hpc Hs) as [(Ek & Ek' & Ei & Ee & Efl)|(Etd & Ex & Hm)].
  - rewrite Ek in *. split; [done| |by rewrite Ek'|split|]; rewrite ?Ei, ?Ee, ?Ek'; try done.
    + rewrite <- Efl, <- (reopen_flush_open _ (tally c0 (h_x s)) eq_refl). by apply reopen_flush.
    + intros [Hgc|E]; [apply Hrw; by left|]. by rewrite E in Ek'.
  - destruct (h_pc s) as [| | | | | | | | |k| |]; try done; cbn in *.
    + destruct Hm as (Epc & Ee & Ei). rewrite Epc in *.
      split; [by rewrite Epc| | |split|]; rewrite ?Etd, ?Ei, ?Ee, ?Ex, ?Epc; try done.
      * by destruct (i_pc (h_idle s)).
      * intros [Hgc|?]; [|done]. apply Hrw. by left.
      * destruct Hl. by split.
    + assert (Hend : k = ClEnd \/ h_idle s' = h_idle s /\
        exists k', h_pc s' = HClose k' /\ k <> ClEnd /\ close_next k (i_now (h_idle s)) (h_ends s) = (k', h_ends s'))
        by (destruct k; cbn in Hm; [right..|by left]; destruct Hm as (? & k' & ? & ?); by eauto 7). destruct Hend as [->|(Ei & k' & Epc & Hk & Ek)].
      * destruct Hm as (Epc & Ee & Ei).
        split; [done| | |split|]; rewrite ?Etd, ?Ei, ?Ee, ?Ex, ?Epc; try done.
        intros [Hgc|?]; [|done]. apply Hrw. by left.
      * destruct (close_next_kept _ _ _ _ _ Ek) as [Er Ec].
        split; [done| | |split|]; rewrite ?Etd, ?Ei, ?Ex, ?Epc; try done.
        -- cbn. by rewrite Ec.
        -- intros [Hgc|?]; [|done]. rewrite Er. apply Hrw. by left.
        -- cbn. by eapply close_next_log.
    + destruct Hm as (Epc & Ei & Ee).
      split; [done| | |split|]; rewrite ?Etd, ?Ei, ?Ee, ?Ex, ?Epc; try done. destruct Hl. by split.
Qed.

(** The guard and the clock leave the handler where it is. *)
Lemma guard_step_inv b s s' : h_inv s -> guard_step timeout b s = Some s' -> h_inv s'.
Proof.
  intros [Hpc Hcnt Htd [Hst Hfd Hrw Hnx] Hl] Hs. unfold guard_step in Hs. cbv zeta in Hs.
  unfold guard_closer in *. destruct (i_pc (h_idle s)) as [| |k|] eqn:Ep; [| | |done].
  - rewrite Hfd in *. destruct b; [destruct (g_stopped (i_guard (h_idle s))) eqn:Eg; [|done]|destruct (i_tick (h_idle s)); [|done];
      destruct (timeout <=? _)]; injection Hs as <-; (split; [done..|split|]); cbn; rewrite ?Eg; try done.
    destruct Hl as [H1 H2 H3 H4 H5]. split; try done. cbn in *. split_if; [|done].
    destruct H5 as (t & c & ? & ? & _). by exists t, c.
  - injection Hs as <-. (split; [done..|split|]); cbn; try done. destruct Hl. by split.
  - assert (Hend : k = ClEnd \/ exists k', k <> ClEnd /\ close_next k (i_now (h_idle s)) (h_ends s) = (k', h_ends s') /\
      s' = MkH (h_pc s) (h_todo s) (h_x s) (MkIdle (i_now (h_idle s)) (i_next (h_idle s)) (i_tick (h_idle s))
             (i_guard (h_idle s)) (GClose k') (i_fired (h_idle s))) (h_ends s')).
    { destruct k; [right..|by left]; destruct (close_next _ _ _) as [k' e'] eqn:Ek; simplify_eq/=; eexists; split; done. }
    destruct Hend as [->|(k' & Hk & Ek & Es)].
    + injection Hs as <-. (split; [done..|split|]); cbn; rewrite ?Hfd in *; try done.
    + destruct (close_next_kept _ _ _ _ _ Ek) as [Er Ec]. rewrite Es. (split; [done| |done|split|]); cbn; try done.
      * rewrite <- Hcnt. by apply reopen_flush.
      * intros _. rewrite Er. apply Hrw. by left.
      * apply log_inv_sym. eapply close_next_log; [by apply log_inv_sym|by rewrite Hfd|done|done].
Qed.
Lemma elapse_inv t s s' : h_inv s -> elapse timeout t s = Some s' -> h_inv s'.
Proof.
  intros [Hpc Hcnt Htd [Hst Hfd Hrw Hnx] Hl] Hs. unfold elapse in Hs. cbv zeta in Hs.
  destruct (t <? _) eqn:Et; [done|]. pose proof check_period_pos as Hp.
  destruct (_ <=? t) eqn:En; injection Hs as <-; prop_of_bool; (split; [done..|split|]); cbn; try done.
  pose proof (Z.mul_succ_div_gt (t - i_next (h_idle s)) (check_period timeout) Hp). lia.
Qed.

Lemma h_do_inv ac s s' : h_inv s -> h_do timeout r ac s = Some s' -> h_inv s'.
Proof. destruct ac; cbn; eauto using elapse_inv, guard_step_inv, handler_step_inv. Qed.
Lemma h_reach_inv now s : rtc (h_step timeout r) (h_start timeout r now c0 l0 n0) s -> h_inv s.
Proof.
  intros Hr. eapply rtc_invariant; [|exact Hr|apply h_start_inv]. intros x y Hx [ac Hac]. by eapply h_do_inv.
Qed.
Lemma h_run_inv sched n s : h_inv s -> h_inv (h_run timeout r sched n s).
Proof.
  intros Hs. induction n as [|n IH]; [done|]. cbn. destruct (h_do _ _ _ _) eqn:E; cbn; eauto using h_do_inv.
Qed.
End Inv.
