(* ===== verification/HttpIdleProps.v ===== *)
(** What holds of every absolute-form request in flight (HttpIdle.v): it
    refines the sequential handler, the guard spares a request that makes
    progress, and no request hangs. *)

From S2P Require Import Prelude GoStrings Errors World Dns Opener LogConn Guard HttpProxy Relay HttpIdle HttpIdleInv.

(** ** Bytes and pending stores *)

(** The bytes moved so far, in all directions. *)
Definition bytes_moved (s : hstate) : Z :=
  let x := h_x s in len (t_body x) + len (t_head x) + len (t_sent x) + len (t_recv x) + len (t_client x).
(** Bytes moved whose time the guard has not stored yet. *)
Definition pending (s : hstate) : Prop := exists n, 0 < n /\ ATouch n ∈ h_todo s.

Lemma len_nonneg s : 0 <= len s.
Proof. unfold len. lia. Qed.
Lemma len_zero s : len s = 0 -> s = "".
Proof. unfold len. destruct s; [done|]. cbn. lia. Qed.

Section Progress.
Context (timeout : Z) (r : request) (c0 : logConn) (l0 : logs) (n0 : Z).
Context (Hc : fresh_conn c0) (Ht : 10 <= timeout).
Notation inv := (h_inv r c0 l0 n0).
Implicit Types (s : hstate).

(** A call of the handler moves the bytes of its answer and leaves their time
    to be stored. *)
Lemma handler_next_bytes a s s' : pc_inv r c0 (h_pc s) (h_x s) -> handler_next r a s = Some s' ->
  g_last (i_guard (h_idle s')) = g_last (i_guard (h_idle s)) /\ i_now (h_idle s') = i_now (h_idle s) /\
  (length (h_todo s') <= 2)%nat /\
  ((bytes_moved s' = bytes_moved s /\ h_todo s' = []) \/
   (bytes_moved s' = bytes_moved s + len (fst a) /\ forall n, ATouch n ∈ h_todo s' <-> n = len (fst a))).
Proof.
  unfold handler_next. destruct (h_pc s) as [acc|code msg|b|b| |d er| |d er| |k| |]; cbv zeta; intros Hpc;
    [destruct (_ <=? len acc); [intros [= <-]; naive_solver lia|]|..];
    try (intros [_ ->]%io_step_Some; cbn; do 2 (split; [done|]); split; [lia|]; right; unfold bytes_moved; cbn;
         rewrite ?len_app; split; [|intros n; unfold touch_for; rewrite ?elem_of_cons, elem_of_nil; naive_solver]).
  all: try lia.
  - destruct Hpc as ((E & _) & _). rewrite E. change (len "") with 0. lia.
  - intros [= <-]. naive_solver lia.
  - destruct k; [..|intros [= <-]; naive_solver lia]; destruct (close_next _ _ _); intros [= <-]; cbn; naive_solver lia.
  - intros [= <-]. naive_solver lia.
  - done.
Qed.

(** No action takes bytes back or the clock; without new bytes and with
    nothing pending the guard's time stands. *)
Lemma h_do_bytes ac s s' : inv s -> h_do timeout r ac s = Some s' ->
  bytes_moved s <= bytes_moved s' /\ i_now (h_idle s) <= i_now (h_idle s').
Proof.
  intros Hi Hs. destruct ac as [t|b|a]; cbn in Hs.
  - unfold elapse in Hs. cbv zeta in Hs. destruct (t <? _) eqn:E; [done|]. injection Hs as <-. prop_of_bool.
    split; [done|]. by destruct (_ <=? t).
  - unfold guard_step in Hs. cbv zeta in Hs. repeat case_match; simplify_eq/=; done.
  - unfold handler_step in Hs. destruct (h_todo s) as [|[up n err|n] rest]; [|injection Hs as <-; done..].
    destruct (handler_next_bytes _ _ _ (hi_pc _ _ _ _ _ Hi) Hs) as (_ & -> & _ & [[-> _]|[-> _]]); [done|].
    pose proof (len_nonneg (fst a)). lia.
Qed.
(** What an action does to the stored time and to what is pending. *)
Lemma h_do_touch ac s s' : inv s -> h_do timeout r ac s = Some s' ->
  (g_last (i_guard (h_idle s')) = i_now (h_idle s) /\ i_now (h_idle s') = i_now (h_idle s) /\ pending s) \/
  (g_last (i_guard (h_idle s')) = g_last (i_guard (h_idle s)) /\ (pending s -> pending s') /\
   (bytes_moved s < bytes_moved s' -> pending s') /\ (bytes_moved s' = bytes_moved s -> pending s' -> pending s)).
Proof.
  intros Hi Hs. destruct ac as [t|b|a]; cbn in Hs.
  - right. unfold elapse in Hs. cbv zeta in Hs. destruct (t <? _) eqn:E; [done|]. injection Hs as <-.
    unfold pending, bytes_moved. cbn. destruct (_ <=? t); cbn; split_and!; try done; lia.
  - right. unfold guard_step in Hs. cbv zeta in Hs. unfold pending, bytes_moved.
    repeat case_match; simplify_eq/=; split_and!; try done; lia.
  - unfold handler_step in Hs. destruct (h_todo s) as [|[up n err|n] rest] eqn:Et; [|injection Hs as <-..].
    + right. destruct (handler_next_bytes _ _ _ (hi_pc _ _ _ _ _ Hi) Hs) as (E & _ & _ & Hb). split; [done|].
      unfold pending at 1 4. rewrite Et. split; [intros (n & _ & Hn); by apply elem_of_nil in Hn|].
      destruct Hb as [[E1 E2]|[E1 E2]]; unfold pending; [rewrite E2|].
      * split; [lia|]. intros _ (n & _ & Hn). by apply elem_of_nil in Hn.
      * split; [intros Hlt; exists (len (fst a)); split; [lia|by apply E2]|].
        intros Eb (n & Hn & ->%E2). lia.
    + right. unfold pending, bytes_moved. cbn. rewrite Et. split; [done|]. split; [|split; [lia|]].
      * intros (k & Hk & [?|Hin]%elem_of_cons); [done|]. by exists k.
      * intros _ (k & Hk & Hin). exists k. split; [done|]. by right.
    + cbn. unfold guarded_io. destruct (0 <? n) eqn:En; prop_of_bool.
      * left. split; [done|]. split; [done|]. exists n. rewrite Et. split; [done|]. by left.
      * right. unfold pending, bytes_moved. cbn. rewrite Et. split; [done|]. split; [|split; [lia|]].
        -- intros (k & Hk & [[= ->]|Hin]%elem_of_cons); [lia|]. by exists k.
        -- intros _ (k & Hk & Hin). exists k. split; [done|]. by right.
Qed.

(** ** Along a schedule *)

Context (sched : nat -> haction) (s0 : hstate) (Hi0 : inv s0).
Notation R n := (h_run timeout r sched n s0).

Lemma moment_inv n : inv (R n).
Proof. by apply h_run_inv. Qed.
(** At each moment the action happens or the state stays. *)
Lemma run_next n : R (S n) = R n \/ h_do timeout r (sched n) (R n) = Some (R (S n)).
Proof. cbn. destruct (h_do _ _ _ _); cbn; auto. Qed.
(** A relation that every action keeps holds between two moments. *)
Lemma run_rel (P : hstate -> hstate -> Prop) : (forall s, P s s) -> (forall s1 s2 s3, P s1 s2 -> P s2 s3 -> P s1 s3) ->
  (forall ac s s', inv s -> h_do timeout r ac s = Some s' -> P s s') -> forall n m, (n <= m)%nat -> P (R n) (R m).
Proof.
  intros Hrefl Htrans Hstep n m Hle. induction Hle as [|m _ IH]; [done|].
  destruct (run_next m) as [->|Hd]; [done|]. eapply Htrans; [exact IH|]. eapply Hstep; [apply moment_inv|exact Hd].
Qed.
Lemma run_bytes n m : (n <= m)%nat -> bytes_moved (R n) <= bytes_moved (R m).
Proof. apply (run_rel (fun s s' => bytes_moved s <= bytes_moved s')); [done|lia|]. intros. by eapply h_do_bytes. Qed.
Lemma run_now n m : (n <= m)%nat -> i_now (h_idle (R n)) <= i_now (h_idle (R m)).
Proof. apply (run_rel (fun s s' => i_now (h_idle s) <= i_now (h_idle s'))); [done|lia|]. intros. by eapply h_do_bytes. Qed.

(** Every byte that moved before is in the guard's time, or pending. *)
Lemma run_accounted n m : (m < n)%nat -> bytes_moved (R m) < bytes_moved (R (S m)) ->
  i_now (h_idle (R m)) <= g_last (i_guard (h_idle (R n))) \/ pending (R n).
Proof.
  intros Hlt Hb. induction Hlt as [|n Hlt IH].
  - destruct (run_next m) as [E|Hd]; [rewrite E in Hb; lia|].
    destruct (h_do_touch _ _ _ (moment_inv m) Hd) as [(E & _)|(_ & _ & Hp & _)]; [left; lia|right; auto].
  - destruct (run_next n) as [->|Hd]; [done|].
    destruct (h_do_touch _ _ _ (moment_inv n) Hd) as [(E & _)|(E & Hp & _)].
    + left. rewrite E. apply run_now. lia.
    + rewrite E. destruct IH as [IH|IH]; auto.
Qed.
End Progress.

(** The state of a request at a moment of a schedule. *)
Definition request_at (timeout : Z) (r : request) (c0 : logConn) (l0 : logs) (n0 now : Z) (sched : nat -> haction)
    (n : nat) : hstate := h_run timeout r sched n (h_start timeout r now c0 l0 n0).

(** Only a check that finds the request idle fires. *)
Lemma fires_idle timeout r ac s s' : h_do timeout r ac s = Some s' ->
  i_fired (h_idle s) = false -> i_fired (h_idle s') = true ->
  timeout <= time_Sub (i_now (h_idle s)) (g_last (i_guard (h_idle s))).
Proof.
  intros Hd Hf0 Hf1. destruct ac as [t|b|a]; cbn in Hd.
  - unfold elapse in Hd. cbv zeta in Hd. repeat case_match; simplify_eq/=; congruence.
  - unfold guard_step in Hd. cbv zeta in Hd. repeat case_match; simplify_eq/=; try congruence. by apply Z.leb_le.
  - unfold handler_step, run_act, handler_next, io_step in Hd. cbv zeta in Hd.
    repeat case_match; simplify_eq/=; congruence.
Qed.

(** ** Properties *)

(** C16: an absolute-form request does what the sequential handler says, in every
    interleaving with the idle guard and for every answer of the network.
    When both goroutines have ended, [forward] run on the bytes and errors
    that were seen makes the same writes upstream and the same counters, the
    client got a prefix of its reply and the upstream a prefix of the body;
    both connections are closed; there is exactly one access line, and when
    the guard did not fire it has the exact counts. *)
Theorem guarded_request_refines (timeout : Z) (r : request) (c0 : logConn) (l0 : logs) (n0 now : Z) (s : hstate)
    (Hc : fresh_conn c0) (Ht : 10 <= timeout)
    (Hr : rtc (h_step timeout r) (h_start timeout r now c0 l0 n0) s)
    (Hend : h_pc s = HEnd) (Hg : i_pc (h_idle s) = GEnd) :
  let x := h_x s in let e := h_ends s in
  (exists reply, forward (env_of x) (as_read r x) c0 = (reply, t_head x +:+ t_sent x, tally c0 x) /\
     begins (t_client x) reply) /\ begins (t_sent x) (t_body x) /\
  e_raw e = true /\ e_up e = true /\
  (exists line, lg_access (e_logs e) = lg_access l0 ++ [line] /\ al_info line = lc_info c0) /\
  (i_fired (h_idle s) = false ->
     exists t, lc_Close t (tally c0 x) l0 n0 = (e_lc e, e_logs e, e_inflight e)).
Proof.
  destruct (h_reach_inv _ _ _ _ _ Hc Ht _ _ Hr) as [Hpc Hcnt Htd [_ _ Hraw _] [Hcl _ Hup _ Hlog]]. cbv zeta.
  rewrite Hend in *. rewrite (Htd ltac:(done)) in Hcnt. cbn in Hcnt.
  assert (Ho : owes (guard_closer (h_idle s)) = false) by (unfold guard_closer; rewrite Hg; by destruct (i_fired _)).
  cbn in Hlog, Hup. rewrite Ho in Hlog. cbn in Hlog. destruct Hlog as (t & c & Er & Ei & Hx).
  destruct Hpc as (full & Hgo & Hcli & Hsent). split; [by exists full|]. split; [done|]. split; [auto|]. split; [auto|].
  split.
  - unfold lc_record in Er. cbv zeta in Er. injection Er as El _. rewrite <- El. by eexists.
  - intros Hf. exists t. rewrite lc_Close_sections by done. specialize (Hx Hf). subst c. rewrite <- Hcnt.
    change (lc_record t (reopen (e_lc (h_ends s))) l0 n0) with (lc_record t (e_lc (h_ends s)) l0 n0).
    rewrite Er. cbn. do 2 f_equal. clear -Hcl. destruct (e_lc (h_ends s)). cbn in *. by subst.
Qed.

(** C17: the idle guard never cuts a request that makes progress: at the check
    at which it fires, every byte that moved before, in any direction, moved
    at least the timeout ago, except that of a call that has just returned and
    whose time is about to be stored. *)
Theorem guard_spares_progress (timeout : Z) (r : request) (c0 : logConn) (l0 : logs) (n0 now : Z)
    (sched : nat -> haction) (n m : nat) (Hc : fresh_conn c0) (Ht : 10 <= timeout <= int64_max)
    (Hf0 : i_fired (h_idle (request_at timeout r c0 l0 n0 now sched n)) = false)
    (Hf1 : i_fired (h_idle (request_at timeout r c0 l0 n0 now sched (S n))) = true)
    (Hm : (m < n)%nat)
    (Hb : bytes_moved (request_at timeout r c0 l0 n0 now sched m) <
          bytes_moved (request_at timeout r c0 l0 n0 now sched (S m))) :
  i_now (h_idle (request_at timeout r c0 l0 n0 now sched m)) + timeout <=
    i_now (h_idle (request_at timeout r c0 l0 n0 now sched n)) \/
  pending (request_at timeout r c0 l0 n0 now sched n).
Proof.
  destruct Ht as [Ht Ht']. pose proof (h_start_inv timeout r c0 l0 n0 Hc Ht now) as Hi. unfold request_at in *.
  destruct (run_accounted timeout r c0 l0 n0 Hc Ht sched _ Hi n m Hm Hb) as [Hle|Hp]; [left|by right].
  destruct (run_next timeout r sched (h_start timeout r now c0 l0 n0) n) as [E|Hd]; [rewrite E in Hf1; congruence|].
  pose proof (fires_idle timeout r _ _ _ Hd Hf0 Hf1) as Hlast.
  apply Z.leb_le, idle_iff in Hlast; [lia|]. unfold int64_min in *. lia.
Qed.

(** ** Witnesses *)

Lemma h_play_sound timeout r acts s s' : h_play timeout r acts s = Some s' -> rtc (h_step timeout r) s s'.
Proof.
  revert s. induction acts as [|ac acts IH]; intros s; cbn; [by intros [= <-]|].
  intros (s1 & H1 & H2)%bind_Some. eapply rtc_l; [by exists ac|by apply IH].
Qed.

(** A GET whose upstream answers in one segment and ends. *)
Definition demo_get : request :=
  MkRequest "GET" "a.example" true "http" "a.example" "" "/" "a.example" [] 0 [("Accept", ["*/*"])] "" None.
Definition own_section : haction := Handler ("", None).
Definition demo_exchange : list haction :=
  [Handler (head_text demo_get None, None); own_section; own_section;
   Elapse Second; Handler ("hello", None); own_section; own_section; Guard false; Handler ("hello", None); own_section;
   Handler ("", Some io_EOF); own_section; own_section;
   own_section; own_section; own_section; own_section; own_section; own_section; Guard true].
Definition demo_idle_start : hstate := h_start httpIdleTimeout demo_get 0 demo_lc no_logs 0.
Definition demo_idle_end : hstate :=
  Eval vm_compute in default demo_idle_start (h_play httpIdleTimeout demo_get demo_exchange demo_idle_start).
Lemma guarded_request_refines_witness :
  t_client (h_x demo_idle_end) = "hello" /\ exists line, lg_access (e_logs (h_ends demo_idle_end)) = [line].
Proof.
  split; [reflexivity|].
  destruct (guarded_request_refines httpIdleTimeout demo_get demo_lc no_logs 0 0 demo_idle_end demo_fresh
    ltac:(vm_compute; discriminate)
    (h_play_sound httpIdleTimeout demo_get demo_exchange demo_idle_start demo_idle_end ltac:(vm_compute; reflexivity))
    eq_refl eq_refl) as (_ & _ & _ & _ & (line & El & _) & _).
  exists line. exact El.
Defined.

(** A request whose upstream stays silent after the head. *)
Definition demo_silent (n : nat) : haction :=
  nth n [Handler (head_text demo_get None, None); own_section; own_section;
         Elapse (200 * Second); Guard false; Elapse (301 * Second); Guard false] own_section.
Lemma guard_spares_progress_witness :
  i_now (h_idle (request_at httpIdleTimeout demo_get demo_lc no_logs 0 0 demo_silent 0)) + httpIdleTimeout <= 301 * Second.
Proof.
  destruct (guard_spares_progress httpIdleTimeout demo_get demo_lc no_logs 0 0 demo_silent 6 0 demo_fresh
    ltac:(vm_compute; split; discriminate) eq_refl eq_refl ltac:(lia) eq_refl) as [Hle|(k & _ & Hp)].
  - exact Hle.
  - vm_compute in Hp. by apply elem_of_nil in Hp.
Defined.
