(* ===== verification/HttpIdleLive.v ===== *)
(** No absolute-form request hangs: under a schedule that starves nobody, a
    request in flight (HttpIdle.v) moves more bytes or comes to its end, with
    the goroutine of its guard. *)

From S2P Require Import Prelude GoStrings Errors World Dns Opener LogConn Guard HttpProxy Relay HttpIdle HttpIdleInv HttpIdleProps.

(** ** Fair schedules *)

(** The handler's next action waits for no peer: it is a section of its own, or
    a call on a connection that is closed. *)
Definition ready (s : hstate) : Prop :=
  h_todo s <> [] \/
  match h_pc s with
  | HBuffer acc => maxReframedBody + 1 <= len acc \/ e_raw (h_ends s) = true
  | HFail _ _ | HPull | HGive _ _ => e_raw (h_ends s) = true
  | HHead _ | HSend _ | HPush _ _ | HRecv => e_up (h_ends s) = true
  | HStop | HClose _ | HRaw => True
  | HEnd => False
  end.

(** Time passes, the guard's goroutine is scheduled, and so is the handler,
    whose turns are not wasted when it is ready: in particular a call on a
    closed connection returns, as net.Conn documents. *)
Record fair_request (timeout : Z) (r : request) (sched : nat -> haction) (s0 : hstate) : Prop := MkFairRequest {
  fr_time : forall n T, exists m t, (n <= m)%nat /\ sched m = Elapse t /\ T <= t;
  fr_guard : forall n b, exists m, (n <= m)%nat /\ sched m = Guard b;
  fr_handler : forall n, exists m a, (n <= m)%nat /\ sched m = Handler a /\
    let s := h_run timeout r sched m s0 in ready s -> h_do timeout r (Handler a) s <> None }.

(** ** Ranks *)

Definition close_rank (k : close_pc) : nat := match k with ClSwap => 3 | ClBase _ => 2 | ClLog => 1 | ClEnd => 0 end.
Definition handler_rank (pc : handler_pc) : nat :=
  match pc with
  | HBuffer _ => 12 | HHead _ => 11 | HSend _ | HPull | HPush _ _ => 10 | HFail _ _ => 9 | HRecv => 8 | HGive _ _ => 7
  | HStop => 6 | HClose k => 2 + close_rank k | HRaw => 1 | HEnd => 0
  end.
Definition handler_weight (s : hstate) : nat := 4 * handler_rank (h_pc s) + length (h_todo s).
Definition guard_rank (pc : guard_pc) : nat :=
  match pc with GSelect => 6 | GRaw => 5 | GClose k => 1 + close_rank k | GEnd => 0 end.

(** Both connections are closed, or the handler only has its deferred calls
    to make. *)
Definition freed (s : hstate) : Prop :=
  (e_raw (h_ends s) = true /\ e_up (h_ends s) = true) \/ handler_closer (h_pc s) <> None.

Lemma close_next_rank k now e k' e' : k <> ClEnd -> close_next k now e = (k', e') ->
  (close_rank k' < close_rank k)%nat.
Proof. destruct k as [|won| |]; cbn; try done; [| |case_match]; intros _ [= <- _]; cbn; try lia. destruct won; cbn; lia. Qed.
Lemma close_next_up k now e k' e' : close_next k now e = (k', e') -> e_up e = true -> e_up e' = true.
Proof. destruct k; cbn; try case_match; by intros [= _ <-]. Qed.

Ltac closing :=
  match goal with
  | E : close_next _ _ _ = _ |- _ =>
      destruct (close_next_kept _ _ _ _ _ E) as [-> _]; pose proof (close_next_up _ _ _ _ _ E); by eauto
  end.

Lemma freed_ready s : freed s -> h_pc s <> HEnd -> ready s.
Proof.
  unfold freed, ready. intros Hf He. right. destruct (h_pc s); try done;
    (destruct Hf as [[? ?]|Hf]; [try right; done|by destruct Hf]).
Qed.

(** On a closed connection a call without bytes fails. *)
Lemma closed_read a : read_ok true a = true -> fst a = "" -> io_failed a = true.
Proof. unfold read_ok. intros H E. rewrite E in H. by destruct (io_failed a). Qed.
Lemma closed_write d a : write_ok true d a = true -> io_failed a = true.
Proof. unfold write_ok. destruct (io_failed a); [done|]. by rewrite andb_false_r, andb_false_r. Qed.

Lemma buffered_rank acc er : (handler_rank (buffered acc er) < 12)%nat.
Proof. unfold buffered. destruct (read_failure er); [cbn; lia|]. destruct (_ <? _); cbn; lia. Qed.
Lemma after_pull_rank er : er <> None -> (handler_rank (after_pull er) < 10)%nat.
Proof. unfold after_pull. destruct er as [e|]; [|done]. destruct (is_EOF e); cbn; lia. Qed.
Lemma after_recv_rank er : er <> None -> (handler_rank (after_recv er) < 7)%nat.
Proof. destruct er; cbn; [lia|done]. Qed.

Section Live.
Context (timeout : Z) (r : request) (c0 : logConn) (l0 : logs) (n0 : Z).
Context (Hc : fresh_conn c0) (Ht : 10 <= timeout <= int64_max).
Notation inv := (h_inv r c0 l0 n0).
Implicit Types (s : hstate).

(** Once freed, every action of the handler that moves nothing brings it
    nearer to its end. *)
Lemma handler_next_rank a s s' : pc_inv r c0 (h_pc s) (h_x s) -> freed s -> handler_next r a s = Some s' ->
  fst a = "" \/ h_todo s' = [] -> (handler_rank (h_pc s') < handler_rank (h_pc s))%nat.
Proof.
  unfold freed, handler_next. intros Hpc Hf Hs Ha.
  destruct (h_pc s) as [acc|code msg|b|b| |d er| |d er| |k| |] eqn:Epc; cbv zeta in Hs;
    try (destruct Hf as [[Er Eu]|Hf]; [rewrite ?Er, ?Eu in Hs|by destruct Hf]).
  - destruct (_ <=? len acc); [injection Hs as <-; apply buffered_rank|].
    apply io_step_Some in Hs as [Hok ->]. destruct Ha as [Ha|?]; [|done]. apply andb_true_iff in Hok as [Hok _].
    apply closed_read, failed_true in Hok; [|done]. cbn. destruct (snd a); [apply buffered_rank|done].
  - apply io_step_Some in Hs as [_ ->]. cbn. lia.
  - apply io_step_Some in Hs as [_ ->]. cbn. destruct b; cbn; [lia|]. destruct (hasBody r); cbn; lia.
  - apply io_step_Some in Hs as [Hok ->]. rewrite (closed_write _ _ Hok). cbn. lia.
  - apply io_step_Some in Hs as [Hok ->]. destruct Ha as [Ha|?]; [|done].
    apply closed_read, failed_true in Hok; [|done]. cbn. rewrite Ha. by apply after_pull_rank.
  - apply io_step_Some in Hs as [Hok ->]. rewrite (closed_write _ _ Hok). cbn. lia.
  - apply io_step_Some in Hs as [Hok ->]. destruct Ha as [Ha|?]; [|done].
    apply closed_read, failed_true in Hok; [|done]. cbn. rewrite Ha. cbn. pose proof (after_recv_rank _ Hok). lia.
  - apply io_step_Some in Hs as [Hok ->]. rewrite (closed_write _ _ Hok). cbn. lia.
  - injection Hs as <-. cbn. lia.
  - destruct k; [..|injection Hs as <-; cbn; lia]; destruct (close_next _ _ _) as [k' e'] eqn:Ek;
      (apply close_next_rank in Ek; [|done]); injection Hs as <-; cbn in *; lia.
  - injection Hs as <-. cbn. lia.
  - done.
Qed.
Lemma handler_step_weight a s s' : inv s -> freed s -> handler_step r a s = Some s' -> bytes_moved s' = bytes_moved s ->
  (handler_weight s' < handler_weight s)%nat.
Proof.
  intros Hi Hf Hs Hb. unfold handler_step in Hs. unfold handler_weight.
  destruct (h_todo s) as [|c rest] eqn:Et; [|injection Hs as <-; destruct c; cbn; lia].
  destruct (handler_next_bytes r c0 _ _ _ (hi_pc _ _ _ _ _ Hi) Hs) as (_ & _ & Hlen & Hm).
  assert (Ha : fst a = "" \/ h_todo s' = []) by (destruct Hm as [[_ ?]|[E _]]; [by right|left; apply len_zero; lia]).
  pose proof (handler_next_rank _ _ _ (hi_pc _ _ _ _ _ Hi) Hf Hs Ha). cbn. lia.
Qed.

(** The guard's goroutine, once away from its select or told to stop, only
    goes forward; and so does what an action of another goroutine may not
    undo. *)
Lemma rank_end pc : guard_rank pc = 0%nat -> pc = GEnd.
Proof. destruct pc; cbn; [lia..|done]. Qed.
Lemma guard_step_rank b s s' : guard_step timeout b s = Some s' ->
  (guard_rank (i_pc (h_idle s')) <= guard_rank (i_pc (h_idle s)))%nat /\
  (i_pc (h_idle s) <> GSelect \/ b = true -> (guard_rank (i_pc (h_idle s')) < guard_rank (i_pc (h_idle s)))%nat).
Proof.
  unfold guard_step. cbv zeta. intros Hs. destruct (i_pc (h_idle s)) as [| |k|] eqn:Ep; [| | |done].
  - repeat case_match; simplify_eq/=; split; try lia; naive_solver.
  - injection Hs as <-. cbn. lia.
  - destruct k; [..|injection Hs as <-; cbn; lia]; destruct (close_next _ _ _) as [k' e'] eqn:Ek;
      (apply close_next_rank in Ek; [|done]); injection Hs as <-; cbn in *; lia.
Qed.
Lemma guard_step_some b s : i_pc (h_idle s) <> GEnd -> (i_pc (h_idle s) = GSelect -> b = true /\ g_stopped (i_guard (h_idle s)) = true) ->
  exists s', guard_step timeout b s = Some s'.
Proof.
  unfold guard_step. cbv zeta. intros He Hs. destruct (i_pc (h_idle s)) as [| |k|]; [| | |done].
  - destruct (Hs eq_refl) as [-> ->]. eauto.
  - eauto.
  - destruct k; [..|eauto]; destruct (close_next _ _ _); eauto.
Qed.
Lemma h_do_guard_pc ac s s' : h_do timeout r ac s = Some s' ->
  (guard_rank (i_pc (h_idle s')) <= guard_rank (i_pc (h_idle s)))%nat /\
  ((forall b, ac <> Guard b) -> i_pc (h_idle s') = i_pc (h_idle s)).
Proof.
  destruct ac as [t|b|a]; cbn.
  - unfold elapse. cbv zeta. destruct (t <? _); [done|]. intros [= <-]. by destruct (_ <=? t).
  - intros Hs. apply guard_step_rank in Hs as [? _]. split; [done|]. intros Hn. by destruct (Hn b).
  - unfold handler_step, run_act, handler_next, io_step. cbv zeta. intros Hs. repeat case_match; simplify_eq/=; done.
Qed.
Lemma h_do_others ac s s' : h_do timeout r ac s = Some s' -> (forall a, ac <> Handler a) ->
  h_pc s' = h_pc s /\ h_todo s' = h_todo s.
Proof.
  destruct ac as [t|b|a]; cbn; intros Hs Hn; [| |by destruct (Hn a)].
  - unfold elapse in Hs. cbv zeta in Hs. destruct (t <? _); [done|]. by injection Hs as <-.
  - unfold guard_step in Hs. cbv zeta in Hs. repeat case_match; by simplify_eq/=.
Qed.
Lemma h_do_closed ac s s' : h_do timeout r ac s = Some s' ->
  (e_raw (h_ends s) = true -> e_raw (h_ends s') = true) /\ (e_up (h_ends s) = true -> e_up (h_ends s') = true) /\
  (handler_closer (h_pc s) <> None -> handler_closer (h_pc s') <> None).
Proof.
  destruct ac as [t|b|a]; cbn; intros Hs.
  - unfold elapse in Hs. cbv zeta in Hs. destruct (t <? _); [done|]. by injection Hs as <-.
  - unfold guard_step in Hs. cbv zeta in Hs. repeat case_match; simplify_eq/=; try done; closing.
  - unfold handler_step, run_act, handler_next, io_step in Hs. cbv zeta in Hs. repeat case_match; simplify_eq/=; try done; closing.
Qed.

(** ** Along a fair schedule *)

Context (sched : nat -> haction) (s0 : hstate) (Hi0 : inv s0) (Hfair : fair_request timeout r sched s0).
Notation R n := (h_run timeout r sched n s0).
Let Ht10 : 10 <= timeout := proj1 Ht.

Lemma live_inv n : inv (R n).
Proof. by apply moment_inv. Qed.
Lemma live_bytes n m : (n <= m)%nat -> bytes_moved (R n) <= bytes_moved (R m).
Proof. by eapply run_bytes. Qed.
Lemma live_closed n m : (n <= m)%nat ->
  (e_raw (h_ends (R n)) = true -> e_raw (h_ends (R m)) = true) /\ (e_up (h_ends (R n)) = true -> e_up (h_ends (R m)) = true) /\
  (handler_closer (h_pc (R n)) <> None -> handler_closer (h_pc (R m)) <> None).
Proof.
  revert n m. apply (run_rel timeout r c0 l0 n0 Hc Ht10 sched s0 Hi0 (fun s s' =>
    (e_raw (h_ends s) = true -> e_raw (h_ends s') = true) /\ (e_up (h_ends s) = true -> e_up (h_ends s') = true) /\
    (handler_closer (h_pc s) <> None -> handler_closer (h_pc s') <> None))); [tauto..|].
  intros. by eapply h_do_closed.
Qed.
Lemma live_freed n m : (n <= m)%nat -> freed (R n) -> freed (R m).
Proof. intros Hle. destruct (live_closed n m Hle) as (? & ? & ?). unfold freed. tauto. Qed.
Lemma live_rank n m : (n <= m)%nat -> (guard_rank (i_pc (h_idle (R m))) <= guard_rank (i_pc (h_idle (R n))))%nat.
Proof.
  revert n m. apply (run_rel timeout r c0 l0 n0 Hc Ht10 sched s0 Hi0 (fun s s' =>
    (guard_rank (i_pc (h_idle s')) <= guard_rank (i_pc (h_idle s)))%nat)); [lia..|]. intros. by eapply h_do_guard_pc.
Qed.

(** Sooner or later [P] holds, or more bytes have moved. *)
Definition comes (n : nat) (P : nat -> Prop) : Prop := exists m, (n <= m)%nat /\ (bytes_moved (R n) < bytes_moved (R m) \/ P m).
Lemma comes_now n (P : nat -> Prop) : P n -> comes n P.
Proof. intros. exists n. auto. Qed.
Lemma comes_then n (P Q : nat -> Prop) : comes n P -> (forall m, (n <= m)%nat -> P m -> comes m Q) -> comes n Q.
Proof.
  intros (m & Hm & [Hb|Hp]) HQ; [exists m; auto|]. destruct (HQ m Hm Hp) as (k & Hk & Hq). exists k. split; [lia|].
  pose proof (live_bytes n m Hm). destruct Hq; [left; lia|by right].
Qed.
(** Between two moments nothing moves, or something has. *)
Lemma comes_still n m (P : nat -> Prop) : (n <= m)%nat -> (bytes_moved (R m) = bytes_moved (R n) -> comes m P) -> comes n P.
Proof.
  intros Hle Hp. pose proof (live_bytes n m Hle). destruct (decide (bytes_moved (R m) = bytes_moved (R n))) as [E|E].
  - destruct (Hp E) as (k & Hk & Hq). exists k. split; [lia|]. by rewrite <- E.
  - exists m. split; [done|]. left. lia.
Qed.

(** A handler that is ready acts, from the point at which it is. *)
Lemma handler_acts n : ready (R n) -> exists m a, (n <= m)%nat /\ h_pc (R m) = h_pc (R n) /\ h_todo (R m) = h_todo (R n) /\
  handler_step r a (R m) = Some (R (S m)).
Proof.
  intros Hr. destruct (fr_handler _ _ _ _ Hfair n) as (k & a & Hk & Es & Hgo). cbv zeta in Hgo.
  assert (Hready : forall j, (n <= j)%nat -> h_pc (R j) = h_pc (R n) -> h_todo (R j) = h_todo (R n) -> ready (R j)).
  { intros j Hj Ep Et. destruct (live_closed n j Hj) as (H1 & H2 & _). revert Hr. unfold ready. rewrite Ep, Et.
    intros [?|Hr]; [by left|right]. destruct (h_pc (R n)); tauto. }
  assert (Hw : exists m a, (n <= m <= k)%nat /\ h_pc (R m) = h_pc (R n) /\ h_todo (R m) = h_todo (R n) /\
    sched m = Handler a /\ h_do timeout r (Handler a) (R m) <> None).
  { clear Hr. revert Hready. remember (k - n)%nat as d eqn:Ed. revert n Hk Ed. induction d as [|d IH]; intros n Hk Ed Hready.
    - assert (k = n) as -> by lia. exists n, a. split; [lia|]. do 3 (split; [done|]). apply Hgo. by apply Hready.
    - destruct (run_next timeout r sched s0 n) as [E|Hd].
      + destruct (IH (S n) ltac:(lia) ltac:(lia)) as (m & a' & Hm & H1 & H2 & H3).
        { intros j Hj. rewrite E. intros. apply Hready; [lia|done..]. }
        exists m, a'. rewrite E in H1, H2. split; [lia|done].
      + destruct (sched n) as [t|b|a'] eqn:En;
          [destruct (h_do_others _ _ _ Hd ltac:(done)) as [E1 E2]..|];
          [destruct (IH (S n) ltac:(lia) ltac:(lia)) as (m & a' & Hm & H1 & H2 & H3);
            [intros j Hj; rewrite E1, E2; intros; apply Hready; [lia|done..]|];
            exists m, a'; rewrite E1 in H1; rewrite E2 in H2; split; [lia|done]..|].
        exists n, a'. split; [lia|]. do 3 (split; [done|]). by rewrite Hd. }
  destruct Hw as (m & a' & Hm & E1 & E2 & E3 & Hne). exists m, a'. split; [lia|]. do 2 (split; [done|]).
  cbn [h_run]. rewrite E3. cbn in Hne |- *. by destruct (handler_step r a' (R m)).
Qed.

(** The stores that are due are made. *)
Lemma drained n : comes n (fun m => h_todo (R m) = []).
Proof.
  remember (length (h_todo (R n))) as d eqn:Ed. revert n Ed. induction (lt_wf d) as [d _ IH]. intros n ->.
  destruct (h_todo (R n)) as [|c rest] eqn:Et; [by apply comes_now|].
  destruct (handler_acts n ltac:(left; by rewrite Et)) as (m & a & Hm & _ & Etm & Hs).
  rewrite Et in Etm. unfold handler_step in Hs. rewrite Etm in Hs. apply (inj Some) in Hs as Es.
  assert (Hrest : h_todo (R (S m)) = rest) by (rewrite <- Es; by destruct c).
  apply (comes_then n (fun k => k = S m)); [exists (S m); split; [lia|by right]|].
  intros k _ ->. apply (IH (length rest)); [cbn; lia|by rewrite Hrest].
Qed.

(** Without bytes the time of the last one stands. *)
Lemma still_last n m : (n <= m)%nat -> ~ pending (R n) -> bytes_moved (R m) = bytes_moved (R n) ->
  g_last (i_guard (h_idle (R m))) = g_last (i_guard (h_idle (R n))) /\ ~ pending (R m).
Proof.
  intros Hle Hp. induction Hle as [|m Hle IH]; intros E; [done|].
  pose proof (live_bytes n m Hle) as B1. pose proof (live_bytes m (S m) ltac:(lia)) as B2.
  destruct (IH ltac:(lia)) as [El Hpm]. destruct (run_next timeout r sched s0 m) as [->|Hd]; [done|].
  destruct (h_do_touch timeout r c0 l0 n0 _ _ _ (live_inv m) Hd) as [(_ & _ & ?)|(-> & _ & _ & Hback)]; [done|].
  split; [done|]. intros Hx. apply Hpm, Hback; [lia|done].
Qed.

(** The ticker ticks. *)
Lemma h_do_next ac s s' : h_do timeout r ac s = Some s' ->
  i_tick (h_idle s') = true \/ i_next (h_idle s') = i_next (h_idle s).
Proof.
  destruct ac as [t|b|a]; cbn.
  - unfold elapse. cbv zeta. destruct (t <? _); [done|]. intros [= <-]. cbn. destruct (_ <=? t); auto.
  - unfold guard_step. cbv zeta. intros Hs. repeat case_match; simplify_eq/=; auto.
  - unfold handler_step, run_act, handler_next, io_step. cbv zeta. intros Hs. repeat case_match; simplify_eq/=; auto.
Qed.
Lemma ticks n m : (n <= m)%nat -> i_next (h_idle (R n)) <= i_now (h_idle (R m)) ->
  exists j, (n <= j)%nat /\ i_tick (h_idle (R j)) = true.
Proof.
  remember (m - n)%nat as d eqn:Ed. revert n Ed. induction d as [|d IH]; intros n Ed Hle Hx.
  - assert (m = n) as -> by lia. pose proof (gi_next _ (hi_guard _ _ _ _ _ (live_inv n))). lia.
  - assert (Hnext : i_tick (h_idle (R (S n))) = true \/ i_next (h_idle (R (S n))) = i_next (h_idle (R n))).
    { destruct (run_next timeout r sched s0 n) as [->|Hd]; [by right|by eapply h_do_next]. }
    destruct Hnext as [E|E]; [exists (S n); split; [lia|done]|].
    destruct (IH (S n)) as (j & Hj & Et); [lia|lia|by rewrite E|]. exists j. split; [lia|done].
Qed.
Lemma elapsed m t : sched m = Elapse t -> t <= i_now (h_idle (R (S m))).
Proof.
  intros E. cbn [h_run]. rewrite E. cbn. unfold elapse. cbv zeta. destruct (t <? _) eqn:El; cbn; prop_of_bool; [lia|].
  by destruct (_ <=? t).
Qed.

(** A tick is there, the timeout has passed since the last byte. *)
Definition armed (s : hstate) : Prop :=
  i_tick (h_idle s) = true /\ g_last (i_guard (h_idle s)) + timeout <= i_now (h_idle s) /\ ~ pending s.
Lemma arms n : ~ pending (R n) -> comes n (fun m => armed (R m)).
Proof.
  intros Hp. destruct (fr_time _ _ _ _ Hfair n (g_last (i_guard (h_idle (R n))) + timeout)) as (m1 & t1 & H1 & E1 & T1).
  pose proof (elapsed _ _ E1) as N1.
  destruct (fr_time _ _ _ _ Hfair (S m1) (i_next (h_idle (R (S m1))))) as (m2 & t2 & H2 & E2 & T2).
  pose proof (elapsed _ _ E2) as N2.
  destruct (ticks (S m1) (S m2) ltac:(lia) ltac:(lia)) as (j & Hj & Etick).
  apply (comes_still n j); [lia|]. intros E. apply comes_now. destruct (still_last n j ltac:(lia) Hp E) as [El Hpj].
  split; [done|]. split; [|done]. rewrite El.
  pose proof (run_now timeout r c0 l0 n0 Hc Ht10 sched s0 Hi0 (S m1) j Hj). lia.
Qed.

Lemma armed_step ac s s' : inv s -> armed s -> h_do timeout r ac s = Some s' -> bytes_moved s' = bytes_moved s ->
  (armed s' \/ i_pc (h_idle s') <> GSelect) /\ (ac = Guard false -> i_pc (h_idle s') <> GSelect).
Proof.
  intros Hi (Htk & Hid & Hp) Hd Hb.
  destruct (h_do_bytes timeout r c0 l0 n0 _ _ _ Hi Hd) as [_ Hnow].
  destruct (h_do_touch timeout r c0 l0 n0 _ _ _ Hi Hd) as [(_ & _ & ?)|(El & _ & _ & Hback)]; [done|].
  assert (Hp' : ~ pending s') by auto. unfold armed. rewrite El.
  destruct ac as [t|b|a]; cbn in Hd.
  - split; [|done]. left. split; [|split; [lia|done]]. unfold elapse in Hd. cbv zeta in Hd.
    destruct (t <? _); [done|]. injection Hd as <-. cbn. by destruct (_ <=? t).
  - enough (i_pc (h_idle s') <> GSelect) by auto. unfold guard_step in Hd. cbv zeta in Hd.
    destruct (i_pc (h_idle s)) as [| |k|]; [|injection Hd as <-; done|destruct k; [..|injection Hd as <-; done];
      destruct (close_next _ _ _); injection Hd as <-; done|done].
    rewrite Htk in Hd. destruct b; [destruct (g_stopped _); [|done]; injection Hd as <-; done|].
    rewrite (proj2 (idle_iff timeout _ _ ltac:(unfold int64_min, int64_max in *; lia))) in Hd by done.
    injection Hd as <-. done.
  - split; [|done]. left. split; [|split; [lia|done]].
    unfold handler_step, run_act, handler_next, io_step in Hd. cbv zeta in Hd. repeat case_match; simplify_eq/=; done.
Qed.
Lemma left_select n m : (n <= m)%nat -> i_pc (h_idle (R n)) <> GSelect -> i_pc (h_idle (R m)) <> GSelect.
Proof.
  intros Hle Hn E. pose proof (live_rank n m Hle) as Hr. rewrite E in Hr. apply Hn.
  destruct (i_pc (h_idle (R n))) as [| |[]|]; cbn in Hr; [done|lia..].
Qed.
Lemma armed_run n m : (n <= m)%nat -> armed (R n) -> bytes_moved (R m) = bytes_moved (R n) ->
  armed (R m) \/ i_pc (h_idle (R m)) <> GSelect.
Proof.
  intros Hle Ha. induction Hle as [|m Hle IH]; intros E; [by left|].
  pose proof (live_bytes n m Hle) as B1. pose proof (live_bytes m (S m) ltac:(lia)) as B2.
  destruct (IH ltac:(lia)) as [Hm|Hm]; [|right; apply (left_select m); [lia|done]].
  destruct (run_next timeout r sched s0 m) as [->|Hd]; [by left|].
  eapply armed_step; [apply live_inv|exact Hm|exact Hd|lia].
Qed.
Lemma fires n : armed (R n) -> comes n (fun m => i_pc (h_idle (R m)) <> GSelect).
Proof.
  intros Ha. destruct (fr_guard _ _ _ _ Hfair n false) as (k & Hk & Es).
  apply (comes_still n k); [done|]. intros E. destruct (armed_run n k Hk Ha E) as [Hak|Hs]; [|by apply comes_now].
  apply (comes_still k (S k)); [lia|]. intros E'. apply comes_now.
  destruct (run_next timeout r sched s0 k) as [En|Hd].
  - destruct (i_pc (h_idle (R k))) eqn:Ep; rewrite En, ?Ep; try done. exfalso.
    revert En. cbn [h_run]. rewrite Es. cbn. unfold guard_step. cbv zeta. rewrite Ep. destruct Hak as (Etk & Hid & _). rewrite Etk.
    rewrite (proj2 (idle_iff timeout _ _ ltac:(unfold int64_min, int64_max in *; lia))) by done. cbn. intros En.
    apply (f_equal (fun s => i_pc (h_idle s))) in En. cbn in En. congruence.
  - rewrite Es in Hd. by eapply (armed_step _ _ _ (live_inv k) Hak Hd).
Qed.

(** The guard's goroutine ends, and then nothing holds the handler. *)
Lemma guard_ends n : i_pc (h_idle (R n)) <> GSelect \/ handler_closer (h_pc (R n)) <> None ->
  exists m, (n <= m)%nat /\ i_pc (h_idle (R m)) = GEnd.
Proof.
  remember (guard_rank (i_pc (h_idle (R n)))) as d eqn:Ed. revert n Ed. induction (lt_wf d) as [d _ IH]. intros n -> Hn.
  destruct (fr_guard _ _ _ _ Hfair n true) as (k & Hk & Es).
  assert (Hkn : i_pc (h_idle (R k)) <> GSelect \/ handler_closer (h_pc (R k)) <> None)
    by (destruct Hn as [Hn|Hn]; [left; by eapply left_select|right; by apply (live_closed n k Hk)]).
  destruct (decide (guard_rank (i_pc (h_idle (R k))) = 0%nat)) as [E0|E0].
  { exists k. split; [done|]. by apply rank_end. }
  destruct (guard_step_some true (R k)) as [s' Hs]; [by intros E; rewrite E in E0| |].
  { intros E. split; [done|]. destruct Hkn as [?|Hkn]; [done|].
    rewrite (gi_stopped _ (hi_guard _ _ _ _ _ (live_inv k))). destruct (handler_closer (h_pc (R k))); [done|by destruct Hkn]. }
  assert (E' : R (S k) = s') by (cbn [h_run]; rewrite Es; cbn; by rewrite Hs).
  apply guard_step_rank in Hs as [_ Hlt]. specialize (Hlt ltac:(by right)). rewrite <- E' in Hlt.
  pose proof (live_rank n k Hk).
  destruct (IH (guard_rank (i_pc (h_idle (R (S k))))) ltac:(lia) (S k) eq_refl) as (m & Hm & Em).
  - destruct Hkn as [Hn'|Hn']; [left; by apply (left_select k (S k)); [lia|]|right; by apply (live_closed k (S k)); [lia|]].
  - exists m. split; [lia|done].
Qed.
Lemma ended_freed s : inv s -> i_pc (h_idle s) = GEnd -> freed s.
Proof.
  intros [_ _ _ [Hst Hfd Hraw _] [_ _ Hcut _ _]] E. rewrite E in Hfd. unfold freed, guard_closer in *. rewrite E in *.
  destruct (i_fired (h_idle s)).
  - left. split; [apply Hraw; by left|]. apply Hcut. by rewrite orb_true_r.
  - right. rewrite Hfd in Hst by done. by destruct (handler_closer _).
Qed.

(** A freed handler ends. *)
Lemma handler_ends n : freed (R n) -> comes n (fun m => h_pc (R m) = HEnd).
Proof.
  remember (handler_weight (R n)) as d eqn:Ed. revert n Ed. induction (lt_wf d) as [d _ IH]. intros n -> Hf.
  destruct (decide (handler_rank (h_pc (R n)) = 0%nat)) as [E0|E0]; [apply comes_now; destruct (h_pc (R n)); cbn in E0; done || lia|].
  destruct (handler_acts n) as (m & a & Hm & Ep & Et & Hs); [apply freed_ready; [done|]; intros E; apply E0; by rewrite E|].
  apply (comes_still n (S m)); [lia|]. intros E.
  pose proof (live_bytes n m Hm). pose proof (live_bytes m (S m) ltac:(lia)).
  apply (IH (handler_weight (R (S m)))); [|done|by apply (live_freed n (S m)); [lia|]].
  replace (handler_weight (R n)) with (handler_weight (R m)) by (unfold handler_weight; by rewrite Ep, Et).
  eapply handler_step_weight; [apply live_inv|by apply (live_freed n m)|exact Hs|lia].
Qed.

Definition ended (s : hstate) : Prop := h_pc s = HEnd /\ i_pc (h_idle s) = GEnd.
Lemma request_ends n : comes n (fun m => ended (R m)).
Proof.
  eapply comes_then; [apply drained|]. intros m1 _ E1. cbn in E1.
  eapply comes_then; [apply (arms m1); intros (k & _ & Hk); rewrite E1 in Hk; by apply elem_of_nil in Hk|]. intros m2 _ H2.
  eapply comes_then; [apply fires; exact H2|]. intros m3 _ H3. cbn in H3.
  destruct (guard_ends m3 ltac:(by left)) as (m4 & Hm4 & E4).
  apply (comes_then m3 (fun k => k = m4)); [exists m4; auto|]. intros k _ ->.
  eapply comes_then; [apply handler_ends; by apply ended_freed, E4; apply live_inv|]. intros m5 Hm5 E5. apply comes_now.
  split; [done|]. apply rank_end. pose proof (live_rank m4 m5 Hm5) as Hr. rewrite E4 in Hr. cbn in Hr. lia.
Qed.
End Live.

(** ** Properties *)

(** C15: no absolute-form request hangs, although the tunnel has no deadlines:
    under every schedule that starves nobody, and whatever the peers do or
    leave undone, at each moment of a request either more bytes will move or
    the request comes to its end: the handler has returned and the goroutine
    of its guard with it. *)
Theorem guarded_request_ends (timeout : Z) (r : request) (c0 : logConn) (l0 : logs) (n0 now : Z)
    (sched : nat -> haction) (Hc : fresh_conn c0) (Ht : 10 <= timeout <= int64_max)
    (Hfair : fair_request timeout r sched (h_start timeout r now c0 l0 n0)) (n : nat) :
  exists m, (n <= m)%nat /\
    (bytes_moved (request_at timeout r c0 l0 n0 now sched n) < bytes_moved (request_at timeout r c0 l0 n0 now sched m) \/
     ended (request_at timeout r c0 l0 n0 now sched m)).
Proof. eapply request_ends; [done|done| |done]. apply h_start_inv; [done|lia]. Qed.

(** ** Witness *)

(** An upstream that stays silent after the head was sent; from the sixtieth
    moment on calls return, with the error of a closed connection. *)
Definition silent_sched (n : nat) : haction :=
  if (n <? 3)%nat then demo_silent n
  else if (n <? 60)%nat then (if Nat.even n then Elapse (10 * Second * Z.of_nat n) else Guard false)
  else match (n mod 4)%nat with
       | 0%nat => Elapse (10 * Second * Z.of_nat n)
       | 1%nat => Guard false
       | 2%nat => Guard true
       | _ => Handler ("", Some net_ErrClosed)
       end.
Lemma silent_late k i : (15 <= k)%nat -> (i < 4)%nat ->
  silent_sched (i + k * 4) =
  match i with
  | 0%nat => Elapse (10 * Second * Z.of_nat (i + k * 4))
  | 1%nat => Guard false
  | 2%nat => Guard true
  | _ => Handler ("", Some net_ErrClosed)
  end.
Proof.
  intros Hk Hi. unfold silent_sched. rewrite (proj2 (Nat.ltb_ge _ 3)), (proj2 (Nat.ltb_ge _ 60)) by lia.
  rewrite Nat.Div0.mod_add, Nat.mod_small by done. done.
Qed.
(** A call may always fail. *)
Lemma failing_call r e s : ready s -> handler_step r ("", Some e) s <> None.
Proof.
  unfold ready, handler_step. destruct (h_todo s); [|done]. intros [?|Hr]; [done|]. revert Hr.
  unfold handler_next, io_step, read_ok, write_ok, io_failed. cbv zeta.
  destruct (h_pc s) as [acc|code msg|body|body| |data er| |data er| |k| |]; cbn [fst snd]; rewrite ?bool_decide_eq_true_2 by done; try done.
  - intros _. destruct (_ <=? len acc) eqn:E; [done|]. prop_of_bool. rewrite str_app_nil_r, (proj2 (Z.leb_le _ _)) by lia.
    by destruct (e_raw (h_ends s)).
  - intros _. by destruct (head_text r body).
  - intros _. by destruct body.
  - by intros ->.
  - intros _. by destruct data.
  - by intros ->.
  - intros _. by destruct data.
  - destruct k; try done; by destruct (close_next _ _ _).
Qed.
Lemma silent_fair r s : fair_request httpIdleTimeout r silent_sched s.
Proof.
  split.
  - intros n T. set (k := (15 + n + Z.to_nat T)%nat). exists (0 + k * 4)%nat. eexists. split; [lia|].
    split; [apply (silent_late k 0); lia|]. unfold Second. lia.
  - intros n [|]; [exists (2 + (15 + n) * 4)%nat|exists (1 + (15 + n) * 4)%nat]; (split; [lia|]).
    + apply (silent_late (15 + n) 2); lia.
    + apply (silent_late (15 + n) 1); lia.
  - intros n. exists (3 + (15 + n) * 4)%nat, ("", Some net_ErrClosed). split; [lia|].
    split; [apply (silent_late (15 + n) 3); lia|]. intros Hr. by apply failing_call.
Qed.
Lemma guarded_request_ends_witness :
  exists m, (60 <= m)%nat /\
    (bytes_moved (request_at httpIdleTimeout demo_get demo_lc no_logs 0 0 silent_sched 60) <
       bytes_moved (request_at httpIdleTimeout demo_get demo_lc no_logs 0 0 silent_sched m) \/
     ended (request_at httpIdleTimeout demo_get demo_lc no_logs 0 0 silent_sched m)).
Proof.
  exact (guarded_request_ends httpIdleTimeout demo_get demo_lc no_logs 0 0 silent_sched demo_fresh
    ltac:(vm_compute; split; discriminate) (silent_fair _ _) 60).
Defined.
Example silent_request_is_cut :
  let s := request_at httpIdleTimeout demo_get demo_lc no_logs 0 0 silent_sched 200 in
  i_fired (h_idle s) = true /\ ended s /\ length (lg_access (e_logs (h_ends s))) = 1%nat.
Proof. vm_compute. done. Qed.
