(* ===== verification/Config.v ===== *)
(** The configuration of main.go: the parsers of the environment variables and
    [loadConfig].  An error is represented by the name of the variable it
    rejects; its text is not modelled. *)

From S2P Require Import Prelude GoStrings NetIP Errors Rules World Dns DnsFacts Opener ConnTrack HttpProxy.

(** ** time.ParseDuration *)

(** Leading decimal digits; [None] beyond 2^63. *)
Fixpoint leadingInt (x : Z) (s : string) : option (Z * string) :=
  match s with
  | String a s' =>
      if is_digit a then
        if 2 ^ 63 / 10 <? x then None
        else let y := x * 10 + (byte_of a - 48) in if 2 ^ 63 <? y then None else leadingInt y s'
      else Some (x, s)
  | "" => Some (x, "")
  end.
(** Digits after the point: their value and scale; digits beyond the range are
    skipped. *)
Fixpoint leadingFraction (x scale : Z) (overflow : bool) (s : string) : Z * Z * string :=
  match s with
  | String a s' =>
      if is_digit a then
        if overflow || ((2 ^ 63 - 1) / 10 <? x) then leadingFraction x scale true s'
        else let y := x * 10 + (byte_of a - 48) in
             if 2 ^ 63 <? y then leadingFraction x scale true s' else leadingFraction y (scale * 10) false s'
      else (x, scale, s)
  | "" => (x, scale, "")
  end.
Fixpoint span_unit (s : string) : string * string :=
  match s with
  | String a s' =>
      if is_digit a || Ascii.eqb a "." then ("", s) else let '(u, r) := span_unit s' in (String a u, r)
  | "" => ("", "")
  end.
Definition micro (b1 b2 : nat) : string := String (ascii_of_nat b1) (String (ascii_of_nat b2) "s").
Definition unitMap (u : string) : option Z :=
  if String.eqb u "ns" then Some 1
  else if existsb (String.eqb u) ["us"; micro 194 181; micro 206 188] then Some 1000
  else if String.eqb u "ms" then Some Millisecond else if String.eqb u "s" then Some Second
  else if String.eqb u "m" then Some Minute else if String.eqb u "h" then Some (60 * Minute) else None.

(** One number with its unit: nanoseconds and the rest.  The fraction is exact
    here; Go computes it in float64. *)
Definition duration_item (s : string) : option (Z * string) :=
  match s with
  | "" => None
  | String a _ =>
      if negb (is_digit a || Ascii.eqb a ".") then None
      else
        '(v, s1) ← leadingInt 0 s;
        let pre := negb (Nat.eqb (String.length s) (String.length s1)) in
        let '(f, scale, s2, post) :=
          match strip_prefix "." s1 with
          | Some t => let '(f, scale, r) := leadingFraction 0 1 false t in
                      (f, scale, r, negb (Nat.eqb (String.length t) (String.length r)))
          | None => (0, 1, s1, false)
          end in
        if negb pre && negb post then None
        else
          let '(u, rest) := span_unit s2 in
          unit ← unitMap u;
          if 2 ^ 63 / unit <? v then None
          else let v := v * unit + f * unit / scale in
               if 2 ^ 63 <? v then None else Some (v, rest)
  end.
(** Each item takes at least one byte. *)
Fixpoint duration_items (fuel : nat) (d : Z) (s : string) : option Z :=
  match fuel, s with
  | _, "" => Some d
  | O, _ => None
  | S fuel', _ =>
      '(v, rest) ← duration_item s;
      if 2 ^ 63 <? d + v then None else duration_items fuel' (d + v) rest
  end.
Definition ParseDuration (s : string) : option Z :=
  let '(neg, s) := match s with
                   | String "-" t => (true, t)
                   | String "+" t => (false, t)
                   | _ => (false, s)
                   end in
  if String.eqb s "0" then Some 0
  else if String.eqb s "" then None
  else
    d ← duration_items (String.length s) 0 s;
    if neg : bool then Some (- d) else if 2 ^ 63 - 1 <? d then None else Some d.

(** ** Parsers *)

(** The loop shared by the comma-separated settings: entries are normalized,
    empty ones skipped, the others checked and transformed. *)
Fixpoint parse_items {A : Type} (norm : string -> string) (f : string -> option A) (l : list string)
    : option (list A) :=
  match l with
  | [] => Some []
  | e :: rest =>
      let e := norm e in
      if String.eqb e "" then parse_items norm f rest
      else a ← f e; tl ← parse_items norm f rest; Some (a :: tl)
  end.

Definition validateHostPort (hostPort : string) : bool :=
  if String.eqb hostPort "" then false
  else match SplitHostPort hostPort with
       | Some (_, port) => negb (String.eqb port "")
       | None => false
       end.

Definition tunnelDNS_entry (entry : string) : option string :=
  '(host, port) ← match ParseAddr entry with Some _ => Some (entry, "53") | None => SplitHostPort entry end;
  _ ← ParseAddr host;
  n ← Atoi port;
  if (n <? 1) || (65535 <? n) then None else Some (JoinHostPort host port).
Definition parseTunnelDNS (raw : string) : option (list string) :=
  l ← parse_items TrimSpace tunnelDNS_entry (Split "," raw);
  if bool_decide (l = []) then None else Some l.

Definition valid_mode (m : string) : bool := String.eqb m "socks5" || String.eqb m "http".
Definition parseModes (raw : string) : option (list string) :=
  l ← parse_items (fun m => TrimSpace (ToLower m)) (fun m => if valid_mode m then Some m else None) (Split "," raw);
  Some (if bool_decide (l = []) then ["socks5"] else l).

Definition parseListenList (raw : string) : option (list string) :=
  l ← parse_items TrimSpace (fun a => if validateHostPort a then Some a else None) (Split "," raw);
  if bool_decide (l = []) then None else Some l.

Definition parseHostList (raw : string) : option (list string) :=
  parse_items TrimSpace (fun h =>
    if match SplitHostPort h with Some _ => true | None => false end || ContainsAny h "/[] " then None else Some h)
    (Split "," raw).

Definition parseOnOff (v : string) : option bool :=
  if String.eqb (ToLower v) "on" then Some true else if String.eqb (ToLower v) "off" then Some false else None.

Inductive Level : Type := DebugLevel | InfoLevel | WarnLevel | ErrorLevel.
Definition parseLogLevel (level : string) : Level :=
  let l := ToLower level in
  if String.eqb l "debug" then DebugLevel else if String.eqb l "warn" then WarnLevel
  else if String.eqb l "error" then ErrorLevel else InfoLevel.

Definition parseKeepalivePeriod (raw : string) : option Z :=
  d ← ParseDuration raw; Some (if d <=? 0 then 0 else d).
Definition parseKeepaliveInterval (raw : string) : option Z :=
  d ← ParseDuration raw;
  if d <? 0 then None
  else if d =? 0 then Some 0
  else let s := Z.quot d Second in Some (if s <? 1 then 1 else s).
Definition parseKeepaliveProbes (raw : string) : option Z :=
  n ← Atoi raw; if n <? 0 then None else Some n.
Definition parseDialTimeout (raw : string) : option Z :=
  d ← ParseDuration raw; if d <=? 0 then None else Some d.
Definition parseMaxConnections (raw : string) : option Z :=
  n ← Atoi raw; if n <? 0 then None else Some n.

(** [firstRunPorts]: the ports of the addresses, each once, in order. *)
Definition firstRunPorts (addrs : list string) (defaultPort : string) : list string :=
  foldl (fun ports addr =>
    let port := match SplitHostPort addr with Some (_, p) => p | None => "" end in
    let port := if String.eqb port "" then defaultPort else port in
    if bool_decide (port ∈ ports) then ports else ports ++ [port]) [] addrs.

(** ** loadConfig *)

Record config := MkConfig {
  sshHost : string; sshPort : Z; sshUser : string; dataDir : string; proxyModes : list string;
  socks5Addrs : list string; httpAddrs : list string; directRules : string; directIPFamily : IPFamily;
  cfg_dohHost : string; tunnelDNS : list string; cfg_localOnNXDomain : bool; healthAddr : string;
  sshKeepalivePeriod : Z; sshKeepaliveInterval : Z; sshKeepaliveProbes : Z; dialTimeout : Z;
  maxConnections : Z; uiAllowedHosts : list string }.

Definition missing (c : config) : list string :=
  (if String.eqb (sshHost c) "" then ["SSH_HOST"] else []) ++
  (if String.eqb (sshUser c) "" then ["SSH_USER"] else []).

Definition connHistoryMaxAge : Z := 10 * Minute.
Definition defaultTunnelDNS : string := "1.1.1.1,8.8.8.8".

Definition getEnv (env : string -> string) (key fallback : string) : string :=
  if String.eqb (env key) "" then fallback else env key.

(** An optional value, or the name of the rejected variable. *)
Definition check {A B : Type} (name : string) (o : option A) (k : A -> string + B) : string + B :=
  match o with Some a => k a | None => inl name end.

(** The check of DOH_HOST. *)
Definition dohHost_ok (h : string) : bool :=
  if String.eqb h "" then true
  else if Contains h "/" then false
  else match SplitHostPort h with
       | Some (host, port) =>
           String.eqb port "443" && match ParseIP host with Some _ => false | None => true end
       | None => match ParseIP h with Some _ => false | None => true end
       end.
(** strings.Trim(s, "[]"). *)
Definition trim_brackets (s : string) : string :=
  TrimFunc (fun a => Ascii.eqb a "[" || Ascii.eqb a "]") s.
(** An IPv6 literal as SSH_HOST. *)
Definition is_ipv6_literal (h : string) : bool :=
  match ParseIP (trim_brackets h) with Some ip => negb (IP_is4 ip) | None => false end.

Definition loadConfig (env : string -> string) : string + config :=
  check "SSH_PORT" (p ← Atoi (getEnv env "SSH_PORT" "22"); if validatePort p then Some p else None) (fun port =>
  check "PROXY_MODES" (parseModes (getEnv env "PROXY_MODES" "socks5")) (fun modes =>
  if is_ipv6_literal (env "SSH_HOST") then inl "SSH_HOST" else
  check "DIRECT_IP_FAMILY" (parseIPFamily (getEnv env "DIRECT_IP_FAMILY" "both")) (fun fam =>
  check "SSH_KEEPALIVE_PERIOD" (parseKeepalivePeriod (getEnv env "SSH_KEEPALIVE_PERIOD" "10s")) (fun kp =>
  check "SSH_KEEPALIVE_INTERVAL" (parseKeepaliveInterval (getEnv env "SSH_KEEPALIVE_INTERVAL" "1s")) (fun ki =>
  check "SSH_KEEPALIVE_PROBES" (parseKeepaliveProbes (getEnv env "SSH_KEEPALIVE_PROBES" "5")) (fun kn =>
  check "SSH_DIAL_TIMEOUT" (parseDialTimeout (getEnv env "SSH_DIAL_TIMEOUT" "30s")) (fun dt =>
  if connHistoryMaxAge <=? dt then inl "SSH_DIAL_TIMEOUT" else
  check "MAX_CONNECTIONS" (parseMaxConnections (getEnv env "MAX_CONNECTIONS" "4096")) (fun mc =>
  check "SOCKS5_LISTEN" (parseListenList (getEnv env "SOCKS5_LISTEN" ":1080")) (fun s5 =>
  check "HTTP_LISTEN" (parseListenList (getEnv env "HTTP_LISTEN" ":3128")) (fun hp =>
  let health := getEnv env "HEALTH_LISTEN" "127.0.0.1:9090" in
  if negb (validateHostPort health) then inl "HEALTH_LISTEN" else
  check "UI_ALLOWED_HOSTS" (parseHostList (getEnv env "UI_ALLOWED_HOSTS" "")) (fun ui =>
  let dir := getEnv env "DATA_DIR" "/data" in
  if String.eqb dir "" then inl "DATA_DIR" else
  let doh := env "DOH_HOST" in
  if negb (dohHost_ok doh) then inl "DOH_HOST" else
  if negb (String.eqb doh "") && negb (String.eqb (env "TUNNEL_DNS") "") then inl "TUNNEL_DNS" else
  check "TUNNEL_DNS" (if String.eqb doh "" then parseTunnelDNS (getEnv env "TUNNEL_DNS" defaultTunnelDNS)
                      else Some []) (fun td =>
  check "LOCAL_DNS_ON_NXDOMAIN" (parseOnOff (getEnv env "LOCAL_DNS_ON_NXDOMAIN" "off")) (fun nx =>
  inr (MkConfig (env "SSH_HOST") port (env "SSH_USER") dir modes s5 hp (getEnv env "DIRECT_RULES" "") fam
         doh td nx health kp ki kn dt mc ui)))))))))))))).

(** [configureDNS]: the resolvers of a configuration. *)
Definition configureDNS (c : config) (d : dnsCache) : dnsCache :=
  let d := MkCache (cache d) (ttl d) (negativeTTL d) (done d) (lookups d) (dohHost d) (dohClient d) (tunnel d)
             (cfg_localOnNXDomain c) (fallbacks d) (lastFallback d) in
  if String.eqb (cfg_dohHost c) "" then SetTunnelDNS (tunnelDNS c) d else SetDOH (cfg_dohHost c) d.

(** ** Lemmas *)

Lemma parse_items_ok {A} norm (f : string -> option A) (P : A -> Prop) l out :
  (forall e a, f e = Some a -> P a) -> parse_items norm f l = Some out -> Forall P out.
Proof.
  intros Hf. revert out. induction l as [|e l IH]; intros out; cbn [parse_items].
  - intros [= <-]. constructor.
  - destruct (String.eqb (norm e) ""); [by apply IH|].
    destruct (f (norm e)) as [a|] eqn:Ea; [|done]. cbn.
    destruct (parse_items norm f l) as [tl|]; [|done]. intros [= <-]. constructor; eauto.
Qed.

Lemma check_inr {A B} name (o : option A) (k : A -> string + B) b :
  check name o k = inr b -> exists a, o = Some a /\ k a = inr b.
Proof. destruct o; [|done]. eauto. Qed.

(** A resolver address: an IP literal and a port in range. *)
Definition server_ok (s : string) : Prop :=
  exists host port a n, s = JoinHostPort host port /\ ParseAddr host = Some a /\ Atoi port = Some n /\ 1 <= n <= 65535.

Lemma tunnelDNS_entry_ok e s : tunnelDNS_entry e = Some s -> server_ok s.
Proof.
  unfold tunnelDNS_entry. intros Hs.
  destruct (match ParseAddr e with Some _ => _ | None => _ end) as [[host port]|]; [|done]. cbn in Hs.
  destruct (ParseAddr host) as [a|] eqn:Ea; [|done]. cbn in Hs. destruct (Atoi port) as [n|] eqn:En; [|done].
  cbn in Hs. destruct ((n <? 1) || (65535 <? n)) eqn:E; [done|]. injection Hs as <-. prop_of_bool.
  exists host, port, a, n. repeat split; (done || lia).
Qed.

Lemma parseTunnelDNS_ok raw l : parseTunnelDNS raw = Some l -> l <> [] /\ Forall server_ok l.
Proof.
  unfold parseTunnelDNS. destruct (parse_items _ _ _) as [l'|] eqn:E; [|done]. cbn.
  case_bool_decide; [done|]. intros [= <-]. split; [done|].
  eapply parse_items_ok; [|exact E]. exact tunnelDNS_entry_ok.
Qed.
Lemma parseListenList_ok raw l : parseListenList raw = Some l -> l <> [] /\ Forall (fun a => validateHostPort a = true) l.
Proof.
  unfold parseListenList. destruct (parse_items _ _ _) as [l'|] eqn:E; [|done]. cbn.
  case_bool_decide; [done|]. intros [= <-]. split; [done|].
  eapply parse_items_ok; [|exact E]. intros e a. cbn. destruct (validateHostPort e) eqn:Ev; [|done]. by intros [= <-].
Qed.
Lemma parseModes_ok raw l : parseModes raw = Some l -> l <> [] /\ Forall (fun m => m = "socks5" \/ m = "http") l.
Proof.
  unfold parseModes. destruct (parse_items _ _ _) as [l'|] eqn:E; [|done]. cbn.
  case_bool_decide as Hl; intros [= <-]; [split; [done|repeat constructor; auto]|]. split; [done|].
  eapply parse_items_ok; [|exact E]. intros e a. cbn. unfold valid_mode.
  destruct (String.eqb_spec e "socks5"), (String.eqb_spec e "http"); cbn; intros [= <-]; auto.
Qed.

Lemma getEnv_nonempty env k d : d <> "" -> getEnv env k d <> "".
Proof. intros Hd. unfold getEnv. by destruct (String.eqb_spec (env k) ""). Qed.

(** What a configuration that was accepted satisfies. *)
Record config_ok (c : config) : Prop := MkConfigOk {
  co_port : 1 <= sshPort c <= 65535;
  co_host : is_ipv6_literal (sshHost c) = false;
  co_modes : proxyModes c <> [] /\ Forall (fun m => m = "socks5" \/ m = "http") (proxyModes c);
  co_socks5 : socks5Addrs c <> [] /\ Forall (fun a => validateHostPort a = true) (socks5Addrs c);
  co_http : httpAddrs c <> [] /\ Forall (fun a => validateHostPort a = true) (httpAddrs c);
  co_health : validateHostPort (healthAddr c) = true;
  co_dir : dataDir c <> "";
  co_dial : 0 < dialTimeout c < connHistoryMaxAge;
  co_keepalive : 0 <= sshKeepalivePeriod c /\ 0 <= sshKeepaliveInterval c /\ 0 <= sshKeepaliveProbes c;
  co_max : 0 <= maxConnections c;
  co_dns : (cfg_dohHost c = "" /\ tunnelDNS c <> [] /\ Forall server_ok (tunnelDNS c)) \/
           (cfg_dohHost c <> "" /\ dohHost_ok (cfg_dohHost c) = true /\ tunnelDNS c = []) }.

(** The numeric settings. *)
#[local] Ltac numeric :=
  intros E; repeat match type of E with
  | mbind _ ?o = Some _ => destruct o eqn:?; [cbn in E|done]
  | (if ?b then _ else _) = Some _ => destruct b eqn:?; try done
  end; simplify_eq; prop_of_bool; cases_lia.
Lemma validatePort_range p : validatePort p = true -> 1 <= p <= 65535.
Proof. unfold validatePort. intros ?. prop_of_bool. lia. Qed.
Lemma parseKeepalivePeriod_ok raw d : parseKeepalivePeriod raw = Some d -> 0 <= d.
Proof. unfold parseKeepalivePeriod. numeric. Qed.
Lemma parseKeepaliveInterval_ok raw d : parseKeepaliveInterval raw = Some d -> 0 <= d.
Proof. unfold parseKeepaliveInterval. cbv zeta. numeric. Qed.
Lemma parseKeepaliveProbes_ok raw n : parseKeepaliveProbes raw = Some n -> 0 <= n.
Proof. unfold parseKeepaliveProbes. numeric. Qed.
Lemma parseDialTimeout_ok raw d : parseDialTimeout raw = Some d -> 0 < d.
Proof. unfold parseDialTimeout. numeric. Qed.
Lemma parseMaxConnections_ok raw n : parseMaxConnections raw = Some n -> 0 <= n.
Proof. unfold parseMaxConnections. numeric. Qed.
#[local] Hint Resolve parseKeepalivePeriod_ok parseKeepaliveInterval_ok parseKeepaliveProbes_ok parseDialTimeout_ok
  parseMaxConnections_ok parseModes_ok parseListenList_ok : gate.

#[local] Ltac checks :=
  repeat match goal with
  | H : check _ _ _ = inr _ |- _ => apply check_inr in H as (? & ? & H)
  | H : (if ?b then inl _ else _) = inr _ |- _ => destruct b eqn:?; [done|]
  end.

Lemma loadConfig_ok env c : loadConfig env = inr c -> config_ok c.
Proof.
  unfold loadConfig. intros Hc. cbv zeta in Hc. checks. injection Hc as <-.
  split; cbn [sshPort sshHost proxyModes socks5Addrs httpAddrs healthAddr dataDir dialTimeout sshKeepalivePeriod
    sshKeepaliveInterval sshKeepaliveProbes maxConnections cfg_dohHost tunnelDNS]; eauto with gate.
  - destruct (Atoi _) as [p|]; [cbn in *|done]. destruct (validatePort p) eqn:Ev; simplify_eq. by apply validatePort_range.
  - by apply negb_false_iff.
  - by apply getEnv_nonempty.
  - prop_of_bool. split; [eauto with gate|done].
  - repeat split; eauto with gate.
  - destruct (String.eqb_spec (env "DOH_HOST") "") as [E|E].
    + left. split; [done|]. by eapply parseTunnelDNS_ok.
    + right. split; [done|]. split; [by apply negb_false_iff|]. by simplify_eq.
Qed.

(** ** Properties *)

(** C38: an accepted configuration is a usable one: ports and limits are in
    range, every list that must name something does and its entries are well
    formed, the dial timeout is positive and below the history window, and
    exactly one kind of tunnel resolver is set. *)
Theorem loadConfig_sound (env : string -> string) (c : config) (Hc : loadConfig env = inr c) : config_ok c.
Proof. by apply (loadConfig_ok env). Qed.

(** Without any setting the program starts with the documented defaults,
    not yet configured. *)
Theorem loadConfig_defaults :
  loadConfig (fun _ => "")
  = inr (MkConfig "" 22 "" "/data" ["socks5"] [":1080"] [":3128"] "" FamilyBoth "" ["1.1.1.1:53"; "8.8.8.8:53"] false
           "127.0.0.1:9090" (10 * Second) 1 5 (30 * Second) 4096 []) /\
  forall c, loadConfig (fun _ => "") = inr c -> missing c = ["SSH_HOST"; "SSH_USER"].
Proof.
  assert (E : loadConfig (fun _ => "")
    = inr (MkConfig "" 22 "" "/data" ["socks5"] [":1080"] [":3128"] "" FamilyBoth "" ["1.1.1.1:53"; "8.8.8.8:53"] false
           "127.0.0.1:9090" (10 * Second) 1 5 (30 * Second) 4096 [])) by (vm_compute; reflexivity).
  split; [exact E|]. rewrite E. by intros c [= <-].
Qed.

(** A dial within its timeout keeps its record: with every accepted
    configuration and the tracker that main builds, a dial is never moved to
    the history as stalled before SSH_DIAL_TIMEOUT has passed. *)
Theorem dial_outlives_no_record (env : string -> string) (c : config) (t : ConnTracker) (r : connRecord) (now : Z)
    (Hc : loadConfig env = inr c) (Ht : maxAge t = connHistoryMaxAge)
    (Hnow : now <= cr_startedAt r + dialTimeout c) :
  stalled now t r = false.
Proof.
  destruct (co_dial _ (loadConfig_ok env c Hc)) as [_ Hd]. unfold stalled. rewrite Ht.
  apply andb_false_iff. right. apply Z.ltb_ge.
  unfold connHistoryMaxAge, Minute, Second in *. apply time_Sub_le; unfold int64_min, int64_max; lia.
Qed.

Definition demo_environ (k : string) : string :=
  if String.eqb k "SSH_HOST" then "vps.example" else if String.eqb k "SSH_USER" then "gate"
  else if String.eqb k "PROXY_MODES" then "HTTP, socks5" else if String.eqb k "TUNNEL_DNS" then "9.9.9.9, [2620:fe::fe]:5353"
  else if String.eqb k "SSH_DIAL_TIMEOUT" then "1m30s" else "".
Definition demo_config : config :=
  Eval vm_compute in match loadConfig demo_environ with
                     | inr c => c
                     | inl _ => MkConfig "" 0 "" "" [] [] [] "" FamilyBoth "" [] false "" 0 0 0 0 0 []
                     end.
Lemma loadConfig_sound_witness : config_ok demo_config /\ dialTimeout demo_config = 90 * Second.
Proof.
  split; [|reflexivity]. apply (loadConfig_sound demo_environ). vm_compute. reflexivity.
Defined.
Lemma loadConfig_defaults_witness :
  missing (MkConfig "" 22 "" "/data" ["socks5"] [":1080"] [":3128"] "" FamilyBoth "" ["1.1.1.1:53"; "8.8.8.8:53"] false
           "127.0.0.1:9090" (10 * Second) 1 5 (30 * Second) 4096 []) = ["SSH_HOST"; "SSH_USER"].
Proof. apply (proj2 loadConfig_defaults), (proj1 loadConfig_defaults). Defined.
Lemma dial_outlives_no_record_witness :
  stalled (100 + 90 * Second) (NewConnTracker 1000 connHistoryMaxAge)
    (MkRecord 1 "http" "" "" "" 0 StateDialing 100 time_zero 0 0 "" None) = false.
Proof.
  apply (dial_outlives_no_record demo_environ demo_config); [vm_compute; reflexivity|reflexivity|].
  vm_compute. discriminate.
Defined.
