(* ===== verification/Journal.v ===== *)
(** journal.go: the datagrams sent to systemd-journald, with a reader of the
    native protocol to state what they mean. *)

From S2P Require Import Prelude GoStrings.

(** ** Entries *)

Inductive logLevel : Type :=
| TraceLevel | LDebug | LInfo | LWarn | LError | FatalLevel | PanicLevel | NoLevel.
Definition journalPriority (l : logLevel) : Z :=
  match l with
  | TraceLevel | LDebug => 7 | LInfo => 6 | LWarn => 4 | LError => 3
  | FatalLevel | PanicLevel => 2 | NoLevel => 6
  end.

Definition nl : string := String (ascii_of_nat 10) "".
Definition slen (s : string) : Z := Z.of_nat (String.length s).
Definition byte_char (z : Z) : ascii := ascii_of_N (Z.to_N (z mod 256)).
(** [binary.LittleEndian.AppendUint64]: [n] bytes, the lowest first. *)
Fixpoint le_bytes (n : nat) (v : Z) : string :=
  match n with O => "" | S n' => String (byte_char v) (le_bytes n' (v / 256)) end.

Definition journalEntry (ident : string) (level : logLevel) (p : string) : string :=
  let msg := TrimSuffix p nl in
  "PRIORITY=" +:+ Itoa (journalPriority level) +:+
  nl +:+ "SYSLOG_IDENTIFIER=" +:+ ident +:+ nl +:+ "MESSAGE" +:+ nl +:+
  le_bytes 8 (slen msg) +:+ msg +:+ nl.

(** [WriteLevel]: what goes to journald, or to the fallback when that fails. *)
Definition WriteLevel (ident : string) (level : logLevel) (p : string) (sendFails : bool) : string + string :=
  if sendFails then inl p else inr (journalEntry ident level p).
Definition Write (ident p : string) (sendFails : bool) : string + string := WriteLevel ident NoLevel p sendFails.

(** ** The native protocol *)

(** A field is NAME=value up to the newline, or NAME, newline, a 64-bit
    little-endian length, that many bytes and a newline. *)
Fixpoint le_value (n : nat) (s : string) : option (Z * string) :=
  match n, s with
  | O, _ => Some (0, s)
  | S n', String a s' => '(v, r) ← le_value n' s'; Some (byte_of a + 256 * v, r)
  | S _, "" => None
  end.
Fixpoint take_string (n : nat) (s : string) : option (string * string) :=
  match n, s with
  | O, _ => Some ("", s)
  | S n', String a s' => '(t, r) ← take_string n' s'; Some (String a t, r)
  | S _, "" => None
  end.
Definition read_field (s : string) : option (string * string * string) :=
  '(line, rest) ← cut_first (ascii_of_nat 10) s;
  match cut_first "=" line with
  | Some (name, value) => Some (name, value, rest)
  | None =>
      '(n, r) ← le_value 8 rest;
      '(value, r') ← take_string (Z.to_nat n) r;
      r'' ← strip_prefix nl r';
      Some (line, value, r'')
  end.
Fixpoint read_fields (fuel : nat) (s : string) : option (list (string * string)) :=
  match fuel, s with
  | _, "" => Some []
  | O, _ => None
  | S f, _ => '(name, value, rest) ← read_field s; l ← read_fields f rest; Some ((name, value) :: l)
  end.

(** ** Lemmas *)

Lemma cut_first_app (c : ascii) (s t : string) :
  contains_byte c s = false -> cut_first c (s +:+ String c t) = Some (s, t).
Proof.
  induction s as [|a s IH]; cbn; [by rewrite Ascii.eqb_refl|].
  destruct (Ascii.eqb a c); [done|]. intros Hs. by rewrite IH.
Qed.
Lemma cut_first_none (c : ascii) (s : string) : contains_byte c s = false -> cut_first c s = None.
Proof. induction s as [|a s IH]; cbn; [done|]. destruct (Ascii.eqb a c); [done|]. intros Hs. by rewrite IH. Qed.
Lemma contains_byte_app (c : ascii) (s t : string) :
  contains_byte c (s +:+ t) = contains_byte c s || contains_byte c t.
Proof. induction s as [|a s IH]; [done|]. cbn. by destruct (Ascii.eqb a c). Qed.

Lemma byte_char_value z : byte_of (byte_char z) = z mod 256.
Proof.
  unfold byte_of, byte_char. pose proof (Z.mod_pos_bound z 256 eq_refl).
  rewrite N_ascii_embedding by lia. lia.
Qed.
Lemma le_value_bytes n v t : 0 <= v < 256 ^ Z.of_nat n -> le_value n (le_bytes n v +:+ t) = Some (v, t).
Proof.
  revert v. induction n as [|n IH]; intros v Hv; cbn [le_value le_bytes String.append].
  - cbn in Hv. f_equal. f_equal. lia.
  - rewrite Nat2Z.inj_succ, Z.pow_succ_r in Hv by lia.
    rewrite IH by (split; [apply Z.div_pos; lia|apply Z.div_lt_upper_bound; lia]). cbn.
    rewrite byte_char_value. do 2 f_equal. pose proof (Z.div_mod v 256). lia.
Qed.
Lemma take_string_app s t : take_string (String.length s) (s +:+ t) = Some (s, t).
Proof. induction s as [|a s IH]; [done|]. cbn. by rewrite IH. Qed.

Lemma read_field_text name value rest :
  contains_byte "=" name = false -> contains_byte (ascii_of_nat 10) name = false ->
  contains_byte (ascii_of_nat 10) value = false ->
  read_field (name +:+ "=" +:+ value +:+ nl +:+ rest) = Some (name, value, rest).
Proof.
  intros He Hn Hv. unfold read_field, nl.
  replace (name +:+ "=" +:+ value +:+ String (ascii_of_nat 10) "" +:+ rest)
    with ((name +:+ "=" +:+ value) +:+ String (ascii_of_nat 10) rest).
  2: { rewrite !str_app_assoc. done. }
  rewrite cut_first_app by (rewrite !contains_byte_app, Hn, Hv; done). cbn [mbind option_bind].
  change ("=" +:+ value) with (String "=" value). by rewrite cut_first_app.
Qed.
Lemma read_field_binary name value rest :
  contains_byte "=" name = false -> contains_byte (ascii_of_nat 10) name = false -> slen value < 2 ^ 64 ->
  read_field (name +:+ nl +:+ le_bytes 8 (slen value) +:+ value +:+ nl +:+ rest) = Some (name, value, rest).
Proof.
  intros He Hn Hl. unfold read_field.
  change (name +:+ nl +:+ le_bytes 8 (slen value) +:+ value +:+ nl +:+ rest)
    with (name +:+ String (ascii_of_nat 10) (le_bytes 8 (slen value) +:+ value +:+ nl +:+ rest)).
  rewrite cut_first_app by done. cbn [mbind option_bind]. rewrite cut_first_none by done.
  rewrite le_value_bytes by (unfold slen in *; change (256 ^ Z.of_nat 8) with (2 ^ 64); lia).
  cbn [mbind option_bind]. unfold slen. rewrite Nat2Z.id, take_string_app. cbn [mbind option_bind].
  rewrite (proj2 (strip_prefix_Some nl (nl +:+ rest) rest)) by done. done.
Qed.

(** ** Properties *)

(** C39: a log line cannot forge journal fields: whatever bytes it holds,
    newlines and NAME=value text included, reading the datagram by the native
    protocol yields exactly the priority, the identifier and the line without
    its final newline. *)
Theorem journalEntry_roundtrip (ident : string) (level : logLevel) (p : string)
    (Hid : contains_byte (ascii_of_nat 10) ident = false) (Hlen : slen (TrimSuffix p nl) < 2 ^ 64) :
  read_fields 3 (journalEntry ident level p)
  = Some [("PRIORITY", Itoa (journalPriority level)); ("SYSLOG_IDENTIFIER", ident); ("MESSAGE", TrimSuffix p nl)].
Proof.
  unfold journalEntry. cbv zeta. set (msg := TrimSuffix p nl) in *.
  set (third := "MESSAGE" +:+ nl +:+ le_bytes 8 (slen msg) +:+ msg +:+ nl).
  set (second := "SYSLOG_IDENTIFIER=" +:+ ident +:+ nl +:+ third).
  change ("PRIORITY=" +:+ Itoa (journalPriority level) +:+ nl +:+ second)
    with ("PRIORITY" +:+ "=" +:+ Itoa (journalPriority level) +:+ nl +:+ second).
  assert (H3 : read_field third = Some ("MESSAGE", msg, "")).
  { subst third. rewrite <- (str_app_nil_r (msg +:+ nl)), str_app_assoc. by apply read_field_binary. }
  assert (H2 : read_field second = Some ("SYSLOG_IDENTIFIER", ident, third)) by by apply (read_field_text "SYSLOG_IDENTIFIER").
  assert (Hp : contains_byte (ascii_of_nat 10) (Itoa (journalPriority level)) = false) by by destruct level.
  assert (H1 : read_field ("PRIORITY" +:+ "=" +:+ Itoa (journalPriority level) +:+ nl +:+ second)
               = Some ("PRIORITY", Itoa (journalPriority level), second)) by by apply read_field_text.
  assert (Hf : forall f t name value rest, read_field t = Some (name, value, rest) ->
    read_fields (S f) t = (l ← read_fields f rest; Some ((name, value) :: l))).
  { intros f t name value rest Ht. destruct t; [done|]. cbn [read_fields]. by rewrite Ht. }
  rewrite (Hf _ _ _ _ _ H1), (Hf _ _ _ _ _ H2), (Hf _ _ _ _ _ H3). done.
Qed.

Lemma journalEntry_roundtrip_witness :
  read_fields 3 (journalEntry "ssh-gate" LWarn ("a" +:+ nl +:+ "PRIORITY=0" +:+ nl))
  = Some [("PRIORITY", "4"); ("SYSLOG_IDENTIFIER", "ssh-gate"); ("MESSAGE", "a" +:+ nl +:+ "PRIORITY=0")].
Proof. apply (journalEntry_roundtrip "ssh-gate" LWarn ("a" +:+ nl +:+ "PRIORITY=0" +:+ nl)); vm_compute; reflexivity. Defined.
