(* ===== verification/Health.v ===== *)
(** health.go and webui.go: the probe of the SSH port, the Host guard of the
    Web UI, the routes and the JSON answers. *)

From S2P Require Import Prelude GoStrings NetIP Errors Rules World Dns ConnTrack RingProps TrackProps TrackClaims Status TcpInfo.

(** ** Allowed hosts *)

Definition IsUnspecified (a : Addr) : bool :=
  match Unmap a with Addr4 v => v =? 0 | Addr6 v _ => v =? 0 | AddrZero => false end.

(** [NewHealthServer]: the names it answers to under its listen address. *)
Definition listen_hosts (listen : string) : list string :=
  match SplitHostPort listen with
  | Some (host, _) =>
      if String.eqb host "" then []
      else match ParseIP host with
           | Some ip => if IsUnspecified ip then [] else [normalizeHost host]
           | None => [normalizeHost host]
           end
  | None => []
  end.
Definition allowedHosts0 (listen : string) : gset string :=
  {["localhost"; "127.0.0.1"; "::1"]} ∪ list_to_set (listen_hosts listen).
(** [NewHealthServer], given the result of net.Listen: the error, or the names
    the server starts with. *)
Definition NewHealthServer (listenErr : option error) (listen : string) : error + gset string :=
  match listenErr with Some e => inl e | None => inr (allowedHosts0 listen) end.
(** [AllowHosts]. *)
Definition AllowHosts (hosts : list string) (allowed : gset string) : gset string :=
  foldl (fun m h => {[normalizeHost h]} ∪ m) allowed hosts.

(** The name that [uiGuard] looks up for a Host header. *)
Definition guard_name (host : string) : string :=
  let host := match SplitHostPort host with Some (h, _) => h | None => host end in
  normalizeHost (TrimSuffix (TrimPrefix host "[") "]").
(** The headers that [uiGuard] sets on what it lets through. *)
Definition ui_headers : list (string * string) :=
  [("X-Content-Type-Options", "nosniff"); ("X-Frame-Options", "DENY"); ("Referrer-Policy", "no-referrer");
   ("Content-Security-Policy", "default-src 'self'; frame-ancestors 'none'")].

(** ** Probing *)

Record sshProbe := MkProbe { pr_reachable : bool; pr_rttMs : Z; pr_at : Z; pr_fromSession : bool }.
Definition no_probe : sshProbe := MkProbe false 0 time_zero false.
(** [runProbe]: [live] is whether the session is up and reports tcp_info;
    otherwise one dial, which started and ended at the given times. *)
Definition runProbe (live : bool) (now : Z) (dialed : option error) (start at_ done_ : Z) : sshProbe * nat :=
  if live then (MkProbe true 0 now true, 0%nat)
  else (match dialed with
        | None => MkProbe true (Milliseconds (time_Sub done_ start)) at_ false
        | Some _ => MkProbe false 0 at_ false
        end, 1%nat).
(** [probeLoop]: one probe at once, then one per tick until [done] is closed;
    [None] is the closed channel.  Each dial of a probe is counted. *)
Record probeRun := MkProbeRun {
  pv_live : bool; pv_now : Z; pv_dialed : option error; pv_start : Z; pv_at : Z; pv_done : Z }.
Definition run_probe_of (v : probeRun) : sshProbe * nat :=
  runProbe (pv_live v) (pv_now v) (pv_dialed v) (pv_start v) (pv_at v) (pv_done v).
Fixpoint probe_ticks (signals : list (option probeRun)) (st : sshProbe * nat) : sshProbe * nat :=
  match signals with
  | [] | None :: _ => st
  | Some v :: rest => let '(p, n) := run_probe_of v in probe_ticks rest (p, (snd st + n)%nat)
  end.
Definition probeLoop (first : probeRun) (signals : list (option probeRun)) : sshProbe * nat :=
  probe_ticks signals (run_probe_of first).
(** [HealthServer.Start]: the flag after the call, whether the probe loop and
    whether the server were launched. *)
Definition health_Start (started : bool) (sshHost : string) : bool * (bool * bool) :=
  if started then (true, (false, false)) else (true, (negb (String.eqb sshHost ""), true)).

(** [liveSessionStats]: a session that is up and has tcp_info. *)
Definition liveSessionStats (connected : bool) (stats : option tcpStats) : option tcpStats := if connected then stats else None.

(** ** Answers *)

(** The dialer as the server sees it. *)
Record dialerView := MkDialer { d_connected : bool; d_status : option tunnelStatus; d_stats : option tcpStats }.
Definition health_tunnelStatus (d : dialerView) : tunnelStatus :=
  match d_status d with
  | Some st => if String.eqb (State st) "" then (if d_connected d then status_of stateConnected else status_of stateConnecting)
               else st
  | None => if d_connected d then status_of stateConnected else status_of stateConnecting
  end.

Record connectionsResponse := MkConnResp { cn_Total : Z; cn_Page : Z; cn_PageSize : Z; cn_Items : list ConnView }.
Record statusResponse := MkStatusResp {
  sr_host : string; sr_port : Z; sr_connected : bool; sr_state : string; sr_error : string;
  sr_reachable : bool; sr_rttMs : Z; sr_checkedAt : Z; sr_tcp : option tcpStats;
  sr_dns : option dnsStatus; sr_active : gmap string Z; sr_total : Z; sr_uptime : Z }.
Inductive answer : Type :=
| Plain (code : Z) (body : string)
| ConnectionsJSON (r : connectionsResponse)
| StatusJSON (r : statusResponse)
| FileAnswer (name data : string).

Definition readyHandler (d : dialerView) : answer :=
  if d_connected d then Plain 200 "ok"
  else
    let st := health_tunnelStatus d in
    Plain 503 (if String.eqb (State st) stateNotConfigured
               then "not configured: SSH_HOST and SSH_USER are required"
               else "SSH not connected: " +:+ State st).
Definition healthHandler : answer := Plain 200 "ok".

(** [handleUI] over the embedded files. *)
Definition handleUI (files : gmap string string) (path : string) : answer :=
  let path := if String.eqb path "/" then "/index.html" else path in
  let name := TrimPrefix path "/" in
  if String.eqb name "" then Plain 404 "404 page not found"
  else match files !! ("ui/" +:+ name) with
       | None => Plain 404 "404 page not found"
       | Some data => FileAnswer name data
       end.

Section Answers.
Context {W : Type} `{Runtime W}.

(** An integer query parameter within bounds, or its default. *)
Definition int_param (v : string) (dflt lo : Z) (hi : option Z) : option Z :=
  if String.eqb v "" then Some dflt
  else n ← Atoi v;
       if (n <? lo) || match hi with Some h => h <? n | None => false end then None else Some n.

(** [handleConnections] for a query given as a function of the key.  The
    tracker is never nil: main passes one. *)
Definition handleConnections (method : string) (get : string -> string) : M (TSys W) (outcome answer) :=
  if negb (String.eqb method "GET") then mret (Returned (Plain 405 "method not allowed"))
  else
    let tab := if String.eqb (get "tab") "" then "active" else get "tab" in
    match int_param (get "page") 1 1 None with
    | None => mret (Returned (Plain 400 "invalid page"))
    | Some page =>
        match int_param (get "page_size") 50 1 (Some 200) with
        | None => mret (Returned (Plain 400 "invalid page_size"))
        | Some pageSize =>
            r ← List tab (get "q") (get "proto") page pageSize;
            mret (match r with
                  | Panicked => Panicked
                  | Returned (inl err) => Returned (Plain 400 err)
                  | Returned (inr (items, total)) =>
                      Returned (ConnectionsJSON (MkConnResp total page pageSize items))
                  end)
        end
    end.

(** [statusHandler] for the SSH endpoint, the dialer, the last probe, the
    resolver status and the uptime in seconds. *)
Definition statusHandler (method host : string) (port : Z) (d : dialerView) (probe : sshProbe)
    (dns : option dnsStatus) (uptime : Z) : M (TSys W) (outcome answer) :=
  if negb (String.eqb method "GET") then mret (Returned (Plain 405 "method not allowed"))
  else
    let rtt := match d_stats d with
               | Some r => if pr_fromSession probe then math_Round (RTTMs r) else pr_rttMs probe
               | None => pr_rttMs probe
               end in
    active ← ActiveByProto;
    let total := map_fold (fun _ n acc => acc + n) 0 active in
    let st := health_tunnelStatus d in
    mret (Returned (StatusJSON (MkStatusResp host port (d_connected d) (State st)
      (match s_Err st with Some e => Error e | None => "" end)
      (pr_reachable probe) rtt (if IsZero (pr_at probe) then 0 else Unix (pr_at probe)) (d_stats d)
      dns active total uptime))).

(** [uiGuard]: the wrapped handler with the headers set, or 403. *)
Definition uiGuard (allowed : gset string) (host : string) (next : M (TSys W) (outcome answer))
    : M (TSys W) (list (string * string) * outcome answer) :=
  if bool_decide (guard_name host ∈ allowed) then r ← next; mret (ui_headers, r)
  else mret ([], Returned (Plain 403 "Host not allowed; add it to UI_ALLOWED_HOSTS")).

(** The routes: only the probes are open to any Host.  The path is the clean
    one the mux matches on (it redirects any other before a handler runs). *)
Definition serve (allowed : gset string) (files : gmap string string) (d : dialerView) (sshHost : string) (sshPort : Z)
    (probe : sshProbe) (dns : option dnsStatus) (uptime : Z)
    (method path hostHeader : string) (get : string -> string)
    : M (TSys W) (list (string * string) * outcome answer) :=
  if String.eqb path "/healthz" then mret ([], Returned healthHandler)
  else if String.eqb path "/readyz" then mret ([], Returned (readyHandler d))
  else if String.eqb path "/api/connections" then uiGuard allowed hostHeader (handleConnections method get)
  else if String.eqb path "/api/status"
  then uiGuard allowed hostHeader (statusHandler method sshHost sshPort d probe dns uptime)
  else uiGuard allowed hostHeader (mret (Returned (handleUI files path))).

(** ** Lemmas *)

Lemma AllowHosts_elem hosts allowed n :
  n ∈ AllowHosts hosts allowed <-> n ∈ allowed \/ exists h, h ∈ hosts /\ n = normalizeHost h.
Proof.
  revert allowed. unfold AllowHosts. induction hosts as [|h hosts IH]; intros allowed; cbn [foldl].
  - split; [by left|]. intros [?|(h & Hh & _)]; [done|]. inversion Hh.
  - rewrite IH, elem_of_union, elem_of_singleton. split.
    + intros [[->|?]|(h' & ? & ?)]; [right; exists h; split; [left|done]|by left|right; exists h'; split; [by right|done]].
    + intros [?|(h' & Hh & ->)]; [by left; right|]. apply elem_of_cons in Hh as [->|?]; [by left; left|right; eauto].
Qed.

(** The values of a count map add up to the number of records counted. *)
Definition map_total (m : gmap string Z) : Z := map_fold (fun _ n acc => acc + n) 0 m.
Lemma map_total_insert k v m : map_total (<[k := v]> m) = map_total m - default 0 (m !! k) + v.
Proof.
  assert (Hnew : forall m', m' !! k = None -> map_total (<[k := v]> m') = map_total m' + v).
  { intros m' Hm. unfold map_total. rewrite map_fold_insert_L; [done| |done]. intros. lia. }
  destruct (m !! k) as [x|] eqn:E; cbn.
  - rewrite <- (insert_delete_id m k x E) at 2.
    rewrite <- insert_delete_eq, Hnew by apply lookup_delete_eq.
    assert (Hx : map_total (<[k := x]> (delete k m)) = map_total (delete k m) + x).
    { unfold map_total. rewrite map_fold_insert_L; [done| |apply lookup_delete_eq]. intros. lia. }
    rewrite Hx. lia.
  - rewrite Hnew by done. lia.
Qed.
Lemma count_proto_total l m : map_total (foldl count_proto m l) = map_total m + Z.of_nat (length l).
Proof.
  revert m. induction l as [|r l IH]; intros m; cbn [foldl length]; [lia|].
  rewrite IH. unfold count_proto. rewrite map_total_insert. lia.
Qed.

(** ** Properties *)

(** C35: the Web UI and the API answer only to their own names: with a Host
    header that is none of localhost, the loopback addresses, the configured
    listen name and UI_ALLOWED_HOSTS (ignoring letter case, the port, brackets
    and one final dot), every path except the two probes gets 403 and the
    tracker is not touched; so a page whose own name was rebound to this
    machine reads nothing. *)
Theorem ui_needs_allowed_host (listen : string) (hosts : list string) files d sshHost sshPort probe dns uptime
    method path hostHeader get (s : TSys W)
    (Hname : guard_name hostHeader ∉ ["localhost"; "127.0.0.1"; "::1"] ++ listen_hosts listen ++ (normalizeHost <$> hosts))
    (Hpath : path <> "/healthz" /\ path <> "/readyz") :
  serve (AllowHosts hosts (allowedHosts0 listen)) files d sshHost sshPort probe dns uptime method path hostHeader get s
  = (([], Returned (Plain 403 "Host not allowed; add it to UI_ALLOWED_HOSTS")), s).
Proof.
  destruct Hpath as [H1 H2]. unfold serve.
  destruct (String.eqb_spec path "/healthz"); [done|]. destruct (String.eqb_spec path "/readyz"); [done|].
  assert (Hno : bool_decide (guard_name hostHeader ∈ AllowHosts hosts (allowedHosts0 listen)) = false);
    [|by unfold uiGuard; rewrite Hno; repeat case_match].
  apply bool_decide_eq_false_2. intros Hin. apply Hname.
  apply AllowHosts_elem in Hin as [Hin|(h & Hh & ->)].
  - unfold allowedHosts0 in Hin. rewrite !elem_of_app. rewrite elem_of_union, elem_of_list_to_set in Hin.
    destruct Hin as [Hin|Hin]; [left; set_solver +Hin|by right; left].
  - apply elem_of_app. right. apply elem_of_app. right. by apply list_elem_of_fmap_2.
Qed.

(** The status page counts right: active_total is the number of
    connections in the table after stalled dials have left it, and the
    counts per protocol add up to it. *)
Theorem status_total_is_active (method host : string) port d probe dns uptime (s : TSys W)
    (Hi : tinv s) (Hm : method = "GET") :
  exists resp s', statusHandler method host port d probe dns uptime s = (Returned (StatusJSON resp), s') /\
    sr_total resp = Z.of_nat (size (active (t_tr s'))) /\ map_total (sr_active resp) = sr_total resp /\ tinv s'.
Proof.
  subst method. unfold statusHandler. change (negb (String.eqb "GET" "GET")) with false. cbv zeta iota. rewrite bind_run.
  destruct (ActiveByProto_run s Hi) as (now & ids & s' & Hv & Hi' & _ & _ & _ & ->).
  cbn [fst snd]. cbv zeta. eexists _, s'. split; [reflexivity|]. cbn [sr_total sr_active].
  split; [|done]. fold (map_total (foldl count_proto ∅ (omap (fun id => active (t_tr s') !! id) ids))).
  rewrite count_proto_total. unfold map_total. rewrite map_fold_empty.
  rewrite (Permutation_length (visited_records _ _ Hv)), length_fmap. rewrite length_map_to_list. done.
Qed.

(** C40: the request that crashes the listing handler: a GET of
    /api/connections with the greatest int as its page passes the handler's
    own checks and panics, whatever the tracker holds. *)
Theorem connections_page_panics (get : string -> string) (s : TSys W) (Hi : tinv s)
    (Hget : get "tab" = "" /\ get "page" = "9223372036854775807" /\ get "page_size" = "") :
  fst (handleConnections "GET" get s) = Panicked.
Proof.
  destruct Hget as (E1 & E2 & E3). unfold handleConnections. rewrite E1, E2, E3.
  change (negb (String.eqb "GET" "GET")) with false. cbv zeta iota.
  replace (int_param "9223372036854775807" 1 1 None) with (Some int64_max) by (vm_compute; reflexivity).
  change (int_param "" 50 1 (Some 200)) with (Some 50). cbv iota. rewrite bind_run.
  change (if String.eqb "" "" then "active" else "") with "active".
  destruct (List_run "active" (get "q") (get "proto") int64_max 50 s Hi) as (now & recs & s' & _ & _ & _ & _ & _ & E).
  - split; [by left|]. unfold int64_max. lia.
  - rewrite E, page_of_negative; [done|]. vm_compute. reflexivity.
Qed.
End Answers.

Lemma ui_needs_allowed_host_witness :
  serve (AllowHosts ["nas.lan"] (allowedHosts0 "127.0.0.1:9090")) ∅ (MkDialer true None None) "vps" 22 no_probe None 0
    "GET" "/api/connections" "attacker.example:9090" (fun _ => "") demo_tracker
  = (([], Returned (Plain 403 "Host not allowed; add it to UI_ALLOWED_HOSTS")), demo_tracker).
Proof.
  apply (ui_needs_allowed_host "127.0.0.1:9090" ["nas.lan"]).
  - intros Hin. pose proof (bool_decide_eq_true_2 _ Hin) as E. vm_compute in E. discriminate E.
  - split; discriminate.
Defined.

Lemma status_total_is_active_witness :
  exists resp, fst (statusHandler "GET" "vps" 22 (MkDialer true None None) no_probe None 0 demo_tracker)
    = Returned (StatusJSON resp) /\ sr_total resp = map_total (sr_active resp).
Proof.
  destruct (status_total_is_active "GET" "vps" 22 (MkDialer true None None) no_probe None 0 demo_tracker
    demo_tracker_inv eq_refl) as (resp & s' & E & _ & Et & _).
  exists resp. rewrite E. split; [reflexivity|]. symmetry. exact Et.
Defined.

Lemma connections_page_panics_witness :
  fst (handleConnections "GET" (fun k => if String.eqb k "page" then "9223372036854775807" else "") demo_tracker) = Panicked.
Proof.
  apply (connections_page_panics _ demo_tracker demo_tracker_inv). repeat split.
Defined.
