(* ===== verification/Startup.v ===== *)
(** main.go, from the start of the process to READY: logging, configuration,
    key, first-run hint, dialer, rules, listeners, health server.  Every
    error ends the process with one exit status.  The end-to-end property of
    the two proxies is stated here, for the process that [main] builds. *)

From S2P Require Import Prelude GoStrings NetIP Errors Rules World Dns DnsFacts Asks DnsProps CacheProps Opener OpenerProps ConnTrack Files Status Connect Listener LogConn HttpProxy Config Health.

(** ** Logging *)

(** [stderrIsJournal] (journal_linux.go): JOURNAL_STREAM against the device
    and inode of stderr, [None] when fstat fails. *)
Definition stderrIsJournal (stream : string) (st : option (Z * Z)) : bool :=
  if String.eqb stream "" then false
  else match st with
       | None => false
       | Some (dev, ino) => String.eqb stream (Itoa dev +:+ ":" +:+ Itoa ino)
       end.

Definition journalIdent : string := "ssh-gate".
Definition journalAccessIdent : string := "ssh-gate-access".

(** Where a logger writes: the journal under an identifier, or stderr. *)
Inductive logOut : Type := ToStderr | ToJournal (ident : string).
(** [setupLogging]: the service log with its level, and the access log unless
    it is off. *)
Definition setupLogging (level : Level) (access isJournal : bool) (dialJournal : option error)
    : (logOut * Level) * option logOut :=
  let native := isJournal && bool_decide (dialJournal = None) in
  let out ident := if native then ToJournal ident else ToStderr in
  ((out journalIdent, level), if access then Some (out journalAccessIdent) else None).

(** ** The first-run hint *)

Definition contains (l : list string) (s : string) : bool := existsb (fun v => String.eqb v s) l.

(** [printFirstRun]: the lines printed. *)
Definition dquote : string := String (ascii_of_nat 34) "".
Definition printFirstRun (pubKey : string) (cfg : config) : list string :=
  [""; "=== ssh-gate first run ==="; ""; "Add to VPS ~/.ssh/authorized_keys:"; "";
   "   command=" +:+ dquote +:+ "echo 'tunnel only'" +:+ dquote +:+
   ",no-pty,no-agent-forwarding,no-X11-forwarding,no-user-rc " +:+ pubKey; ""] ++
  (if contains (proxyModes cfg) "socks5"
   then (fun p => "SOCKS5 proxy: localhost:" +:+ p) <$> firstRunPorts (socks5Addrs cfg) "1080" else []) ++
  (if contains (proxyModes cfg) "http"
   then (fun p => "HTTP proxy:  localhost:" +:+ p) <$> firstRunPorts (httpAddrs cfg) "3128" else []) ++
  [""].

Definition firstRunDoneFile : string := ".first_run_done".

(** ** Starting the proxies *)

(** Every startup error ends the process with this status. *)
Definition exitConfig : Z := 78.
Inductive exitStage : Type :=
| ExAccessLog | ExConfig (variable : string) | ExDataDir | ExKey (e : error) | ExDialer (e : error)
| ExRules | ExListen (proto addr : string) | ExHealth.

Section Start.
Context `{Regexp, KeyLib}.

(** What the outside does during one start. *)
Record startEnv := MkStart {
  se_getenv : string -> string;
  se_stderr : option (Z * Z);
  se_dialJournal : option error;
  se_mkdir : option error;
  se_keys : keyEnv;
  se_fs : FS;
  se_stat : option error;                          (* Stat fails otherwise than by absence *)
  se_writeMarker : option error;
  se_knownDenied : option error;
  se_reports : list tunnelStatus;                  (* what the monitor reports before READY *)
  se_listen : list string -> string -> option error (* net.Listen, given what is bound *) }.

(** What [startProxies] builds. *)
Record proxies := MkProxies {
  px_dialer : sshDialerCfg; px_opener : Opener; px_dns : dnsCache; px_limit : option nat;
  px_listeners : list (string * string) }.
(** The running process. *)
Record process := MkProcess {
  pc_cfg : config; pc_logs : (logOut * Level) * option logOut; pc_fs : FS; pc_stdout : list string;
  pc_status : sdStatus; pc_tracker : ConnTracker; pc_proxies : option proxies; pc_servers : list string;
  pc_allowed : gset string; pc_dnsStatus : bool }.

(** The loop over the addresses of one mode: the listeners opened. *)
Fixpoint start_servers (se : startEnv) (proto : string) (addrs : list string) (bound : list (string * string))
    : exitStage + list (string * string) :=
  match addrs with
  | [] => inr bound
  | addr :: rest =>
      match se_listen se (snd <$> bound) addr with
      | Some _ => inl (ExListen proto addr)
      | None => start_servers se proto rest (bound ++ [(proto, addr)])
      end
  end.

(** The dialer configuration of [startProxies]. *)
Definition dialer_cfg (cfg : config) : sshDialerCfg :=
  MkCfg (sshHost cfg) (sshPort cfg) (sshUser cfg) (filepath_Join (dataDir cfg) sshKeyFile) ""
    (sshKeepalivePeriod cfg) (sshKeepaliveInterval cfg) (sshKeepaliveProbes cfg) (dialTimeout cfg) 0.

(** What setStatus does with the status line: [onStatus] of [startProxies]. *)
Definition report (dcfg : sshDialerCfg) (status : sdStatus) (st : tunnelStatus) : sdStatus :=
  sd_set (statusText dcfg st) status.
(** [startProxies].  [newSSHDialer] reports the first state and starts the
    monitor, which reports as it connects, fails and loses the tunnel
    ([setStatus] in Monitor.v) while [main] goes on: [se_reports] are the
    reports it makes until [status.ready()], any number of them.  [main] sends
    nothing itself in between, so where they fall among its steps does not
    show. *)
Definition startProxies (se : startEnv) (cfg : config) (fs : FS) (status : sdStatus)
    : outcome (exitStage + (proxies * sdStatus)) :=
  let dcfg := dialer_cfg cfg in
  match newSSHDialer fs (se_knownDenied se) dcfg with
  | inl e => Returned (inl (ExDialer e))
  | inr pinned =>
      let status := foldl (report dcfg) status (status_of stateConnecting :: se_reports se) in
      match NewRuleEngine (directRules cfg) with
      | None => Panicked
      | Some (inl _) => Returned (inl ExRules)
      | Some (inr rules) =>
          let dns := configureDNS cfg new_dnsCache in
          let opener := MkOpener rules (directIPFamily cfg) in
          Returned
            (match (if contains (proxyModes cfg) "socks5" then start_servers se "SOCKS5" (socks5Addrs cfg) []
                    else inr []) with
             | inl e => inl e
             | inr bound =>
                 match (if contains (proxyModes cfg) "http" then start_servers se "HTTP" (httpAddrs cfg) bound
                        else inr bound) with
                 | inl e => inl e
                 | inr bound =>
                     inr (MkProxies pinned opener dns (newConnLimiter (maxConnections cfg)) bound, status)
                 end
             end)
      end
  end.

(** [main] up to [status.ready()]: the exit stage, or the process. *)
Definition main_start (se : startEnv) : outcome (exitStage + process) :=
  let env := se_getenv se in
  let accessOn := parseOnOff (getEnv env "ACCESS_LOG" "on") in
  let logs := setupLogging (parseLogLevel (getEnv env "LOG_LEVEL" "info")) (default false accessOn)
                (stderrIsJournal (env "JOURNAL_STREAM") (se_stderr se)) (se_dialJournal se) in
  match accessOn with None => Returned (inl ExAccessLog) | Some _ =>
  match loadConfig env with inl v => Returned (inl (ExConfig v)) | inr cfg =>
  match se_mkdir se with Some _ => Returned (inl ExDataDir) | None =>
  match EnsureSSHKeyPair (se_keys se) (dataDir cfg) (se_fs se) with
  | (inl e, _) => Returned (inl (ExKey e))
  | (inr pubKey, fs) =>
  let marker := filepath_Join (dataDir cfg) firstRunDoneFile in
  let '(stdout, fs) :=
    match ReadFile fs (se_stat se) marker with
    | NotExist => (printFirstRun pubKey cfg,
                   match se_writeMarker se with None => <[marker := MkFile "" mode_0644]> fs | Some _ => fs end)
    | _ => ([], fs)
    end in
  let tracker := NewConnTracker 1000 connHistoryMaxAge in
  let names := missing cfg in
  match (if bool_decide (names <> [])
         then Returned (inr (None, sd_set (notConfiguredText names) newSDStatus))
         else match startProxies se cfg fs newSDStatus with
              | Panicked => Panicked
              | Returned (inl e) => Returned (inl e)
              | Returned (inr (px, st)) => Returned (inr (Some px, st))
              end) with
  | Panicked => Panicked
  | Returned (inl e) => Returned (inl e)
  | Returned (inr (px, status)) =>
  let listeners := match px with Some p => px_listeners p | None => [] end in
  match NewHealthServer (se_listen se (snd <$> listeners) (healthAddr cfg)) (healthAddr cfg) with
  | inl _ => Returned (inl ExHealth)
  | inr allowed =>
      Returned (inr (MkProcess cfg logs fs stdout (sd_ready status) tracker px
        (((fun l => fst l +:+ " " +:+ snd l) <$> listeners) ++ ["health"])
        (AllowHosts (uiAllowedHosts cfg) allowed)
        (bool_decide (px <> None))))
  end end end end end end.

(** ** Lemmas *)

#[global] Instance option_proxies_dec (o : option proxies) : Decision (o <> None).
Proof. destruct o; [left|right]; [done|tauto]. Defined.

Lemma start_servers_spec se proto addrs bound out :
  start_servers se proto addrs bound = inr out -> out = bound ++ ((fun a => (proto, a)) <$> addrs).
Proof.
  revert bound. induction addrs as [|a addrs IH]; intros bound; cbn.
  - intros [= <-]. by rewrite app_nil_r.
  - destruct (se_listen se (snd <$> bound) a); [done|]. intros ->%IH. by rewrite <- app_assoc.
Qed.

(** The listeners a configuration asks for, SOCKS5 before HTTP. *)
Definition configured_listeners (cfg : config) : list (string * string) :=
  (if contains (proxyModes cfg) "socks5" then (fun a => ("SOCKS5", a)) <$> socks5Addrs cfg else []) ++
  (if contains (proxyModes cfg) "http" then (fun a => ("HTTP", a)) <$> httpAddrs cfg else []).

Lemma startProxies_spec se cfg fs st :
  exists r, startProxies se cfg fs st = Returned r /\
  forall px st', r = inr (px, st') ->
    NewRuleEngine (directRules cfg) = Some (inr (o_rules (px_opener px))) /\
    px_dns px = configureDNS cfg new_dnsCache /\
    px_listeners px = configured_listeners cfg /\
    st' = foldl (report (dialer_cfg cfg)) st (status_of stateConnecting :: se_reports se).
Proof.
  unfold startProxies. destruct (newSSHDialer _ _ _) as [e|pinned]; [by eexists|].
  destruct (NewRuleEngine_total (directRules cfg)) as [[e|rules] ->]; [by eexists|].
  eexists. split; [done|]. intros px st'. unfold configured_listeners.
  destruct (contains (proxyModes cfg) "socks5");
    [destruct (start_servers se "SOCKS5" _ _) as [|b] eqn:E1; [done|apply start_servers_spec in E1]|];
    (destruct (contains (proxyModes cfg) "http");
      [destruct (start_servers se "HTTP" _ _) as [|b2] eqn:E2; [done|apply start_servers_spec in E2]|]);
    intros [= <- <-]; cbn; subst; rewrite ?app_nil_r; done.
Qed.

(** Until [stop], every report is sent. *)
Lemma reports_sent dcfg sts status : stopping status = false ->
  sent (sd_ready (foldl (report dcfg) status sts)) =
  sent status ++ ((fun st => "STATUS=" +:+ statusText dcfg st) <$> sts) ++ ["READY=1"].
Proof.
  revert status. induction sts as [|st sts IH]; intros [b l] Hs; cbn in Hs; subst b; [done|].
  cbn [foldl]. rewrite IH by done. cbn. by rewrite <- app_assoc.
Qed.

(** What a successful start gives: the lemma both claims below rest on. *)
Lemma main_start_spec se :
  exists r, main_start se = Returned r /\
  forall pc, r = inr pc ->
    loadConfig (se_getenv se) = inr (pc_cfg pc) /\
    match pc_proxies pc with
    | Some px => missing (pc_cfg pc) = [] /\
        NewRuleEngine (directRules (pc_cfg pc)) = Some (inr (o_rules (px_opener px))) /\
        px_dns px = configureDNS (pc_cfg pc) new_dnsCache /\
        px_listeners px = configured_listeners (pc_cfg pc) /\
        pc_servers pc = ((fun l => fst l +:+ " " +:+ snd l) <$> configured_listeners (pc_cfg pc)) ++ ["health"] /\
        sent (pc_status pc) =
          ((fun st => "STATUS=" +:+ statusText (dialer_cfg (pc_cfg pc)) st)
             <$> status_of stateConnecting :: se_reports se) ++ ["READY=1"]
    | None => missing (pc_cfg pc) <> [] /\ pc_servers pc = ["health"] /\
        sent (pc_status pc) = ["STATUS=" +:+ notConfiguredText (missing (pc_cfg pc)); "READY=1"]
    end.
Proof.
  unfold main_start. destruct (parseOnOff _); [|by eexists].
  destruct (loadConfig _) as [|cfg]; [by eexists|]. destruct (se_mkdir se); [by eexists|].
  destruct (EnsureSSHKeyPair _ _ _) as [[|pub] fs]; [by eexists|].
  destruct (match ReadFile fs _ _ with NotExist => _ | _ => _ end) as [out fs'].
  destruct (bool_decide_reflect (missing cfg <> [])) as [Hm|Hm]; cbv iota.
  - destruct (se_listen se _ _); [by eexists|]. eexists. split; [done|].
    intros pc [= <-]. done.
  - destruct (startProxies_spec se cfg fs' newSDStatus) as ([e|[px st]] & -> & Hp); [by eexists|].
    destruct (Hp px st eq_refl) as (He & Hd & Hl & ->).
    destruct (se_listen se _ _); [by eexists|]. eexists. split; [done|].
    intros pc [= <-]. cbn [pc_cfg pc_proxies pc_servers pc_status]. rewrite Hl. split; [done|].
    split; [destruct (missing cfg); [done|by destruct Hm]|]. by rewrite reports_sent.
Qed.

(** ** Starting *)

(** C26: the start of the service, whatever the environment holds and whichever
    system call fails: [main] never panics; when it does not exit, the
    configuration is well formed.  With SSH_HOST or SSH_USER missing only the
    health server runs, and systemd got the line that names what is missing
    and READY=1; otherwise there is one listener per configured address of
    each enabled mode, SOCKS5 first, and the health server last, and systemd
    got the connecting line, one line for each report the monitor made
    meanwhile, in order, and then READY=1, once. *)
Theorem start_matches_config (se : startEnv) :
  exists r, main_start se = Returned r /\
  forall pc, r = inr pc ->
    config_ok (pc_cfg pc) /\
    sent (pc_status pc) =
      ((fun line => "STATUS=" +:+ line) <$>
         (if bool_decide (missing (pc_cfg pc) = [])
          then statusText (dialer_cfg (pc_cfg pc)) <$> status_of stateConnecting :: se_reports se
          else [notConfiguredText (missing (pc_cfg pc))])) ++ ["READY=1"] /\
    (pc_proxies pc = None <-> missing (pc_cfg pc) <> []) /\
    pc_servers pc =
      (if bool_decide (missing (pc_cfg pc) = [])
       then (fun l => fst l +:+ " " +:+ snd l) <$> configured_listeners (pc_cfg pc) else []) ++ ["health"].
Proof.
  destruct (main_start_spec se) as (r & -> & Hr). exists r. split; [done|]. intros pc ->.
  destruct (Hr pc eq_refl) as [Hc Hp]. split; [by eapply loadConfig_ok|].
  destruct (pc_proxies pc) as [px|].
  - destruct Hp as (Hm & _ & _ & _ & Hs & Hst). rewrite !bool_decide_true by done.
    split; [by rewrite Hst, <- list_fmap_compose|]. naive_solver.
  - destruct Hp as (Hm & Hs & Hst). rewrite !bool_decide_false by done. split; [by rewrite Hst|]. naive_solver.
Qed.

(** ** End to end *)

Context {W : Type} `{World W}.

(** What happens in a running gate, in any order: HTTP connections, the
    resolution, the dial and the end of SOCKS5 relays, ASSOCIATE requests and
    the cache purge. *)
Inductive gateOp : Type :=
| GHttp (env : upstreamEnv) (src : string) (parsed : bool + request) (sent : string)
| GSocksResolve (host : string)
| GSocksDial (addr fqdn src : string) (rf : option resolveFailure)
| GSocksAssociate
| GSocksClose (now : Z) (c : logConn)
| GPurge.
Definition gate_step (o : Opener) (op : gateOp) (p : proxyState) : M (Sys W) (outcome proxyState) :=
  match op with
  | GHttp env src parsed sent => r ← handleConn o env src parsed sent p; mret (outcome_map sv_state r)
  | GSocksResolve host => r ← resolver_Resolve o host; mret (outcome_map (fun _ => p) r)
  | GSocksDial addr fqdn src rf => r ← socks5_dial o addr fqdn src rf p; mret (outcome_map snd r)
  | GSocksAssociate => mret (Returned (snd (socks5_associate p)))
  | GSocksClose now c => mret (Returned (close_logged now c p))
  | GPurge => _ ← purge; mret (Returned p)
  end.
Fixpoint gate_exec (o : Opener) (ops : list gateOp) (p : proxyState) : M (Sys W) (outcome proxyState) :=
  match ops with
  | [] => mret (Returned p)
  | op :: rest =>
      r ← gate_step o op p;
      match r with Panicked => mret Panicked | Returned p => gate_exec o rest p end
  end.

Lemma purge_safe rs (p : proxyState) (s : Sys W) : sys_wf s -> safe_run rs (_ ← purge; mret (Returned p)) s.
Proof.
  intros Hs. unfold safe_run. rewrite bind_run. cbn [fst snd mret M_ret]. split; [by eexists|].
  split; [apply asks_reaches, purge_asks|].
  unfold purge. rewrite bind_run. apply clock_wf in Hs. unfold sys_wf, cache_wf, purge_entries in *. cbn.
  intros k e [He _]%map_lookup_filter_Some. by eapply Hs.
Qed.

Lemma gate_step_safe rs direct o op p (s : Sys W) : NewRuleEngine direct = Some (inr (o_rules o)) -> sys_wf s ->
  safe_run rs (gate_step o op p) s.
Proof.
  intros He Hs. destruct (clients_safe rs direct o s He Hs) as [Hh Hd].
  destruct op; cbn [gate_step].
  - apply safe_bind; [apply Hh|]. intros; apply quiet_reply.
  - apply safe_bind; [by eapply resolver_safe|]. intros; apply quiet_reply.
  - apply safe_bind; [apply Hd|]. intros; apply quiet_reply.
  - by apply safe_ret.
  - by apply safe_ret.
  - by apply purge_safe.
Qed.

Lemma gate_exec_safe rs direct o ops p (s : Sys W) : NewRuleEngine direct = Some (inr (o_rules o)) -> sys_wf s ->
  safe_run rs (gate_exec o ops p) s.
Proof.
  intros He. revert p s. induction ops as [|op ops IH]; intros p s Hs; [by apply safe_ret|].
  cbn [gate_exec]. destruct (gate_step_safe rs direct o op p s He Hs) as ([p' E] & Hem & Hwf).
  unfold safe_run. rewrite bind_run, E.
  destruct (IH p' _ Hwf) as (Hr & Hem' & Hwf'). split; [done|]. split; [|done]. by etrans.
Qed.

Lemma new_cache_wf cfg (w : W) tr : sys_wf (MkSys (configureDNS cfg new_dnsCache) w tr).
Proof. unfold sys_wf, configureDNS. destruct (String.eqb _ _); apply map_Forall_empty. Qed.

(** The addresses of the tunnel resolvers of a configuration: those of
    TUNNEL_DNS as given, private ones included, or the DoH host. *)
Definition tunnel_resolvers (cfg : config) : list string :=
  if String.eqb (cfg_dohHost cfg) "" then tunnelDNS cfg else [doh_addr (cfg_dohHost cfg)].
(** What a started process may ask the VPS to dial. *)
Definition vps_reaches (cfg : config) (ev : event) : Prop :=
  match ev with
  | EvDialTunnel a _ =>
      exists ip port, a = JoinHostPort (Addr_String ip) (Itoa port) /\ private_range (canon ip) = false
  | EvDialResolver a => a ∈ tunnel_resolvers cfg
  | EvDialRedirect _ => cfg_dohHost cfg <> ""
  | EvUpstream _ _ _ | EvLocal _ | EvDialDirect _ _ _ => True
  end.
Lemma configured_dials cfg ev : vps_dial (resolvers (configureDNS cfg new_dnsCache)) ev -> vps_reaches cfg ev.
Proof.
  unfold resolvers, configureDNS, tunnel_resolvers. destruct (String.eqb_spec (cfg_dohHost cfg) "") as [E|E];
    cbn [tunnel dohHost SetTunnelDNS SetDOH with_tunnel]; destruct ev as [| | | | |]; cbn -[doh_addr]; try done.
  - unfold tunnel_resolvers. rewrite (proj2 (String.eqb_eq _ _) E). intros Ha.
    rewrite <- !list_fmap_compose in Ha. apply list_elem_of_fmap_1 in Ha as (sv & -> & Hs). exact Hs.
  - intros Ha. rewrite <- list_fmap_compose in Ha. by apply list_elem_of_fmap_1 in Ha as (sv & Hx & _).
  - unfold tunnel_resolvers. by rewrite (proj2 (String.eqb_neq _ _) E).
Qed.

(** C1: what the VPS is asked to reach.  Whatever environment the process was
    started with, whatever the clients send, the resolvers answer and the
    network does, through any sequence of requests, no request makes the
    process panic; every address the VPS is asked to dial for a client lies
    outside the private, loopback, link-local and unspecified ranges; and the
    only other addresses it is asked to dial are those of the tunnel resolvers
    that the configuration names, and, when that is a DoH host, where its
    replies redirect to. *)
Theorem gate_dials_public_only (se : startEnv) (pc : process) (px : proxies)
    (Hstart : main_start se = Returned (inr pc)) (Hpx : pc_proxies pc = Some px)
    (ops : list gateOp) (p : proxyState) (w : W) :
  let r := gate_exec (px_opener px) ops p (MkSys (px_dns px) w []) in
  (exists p', fst r = Returned p') /\ Forall (vps_reaches (pc_cfg pc)) (s_trace (snd r)).
Proof.
  destruct (main_start_spec se) as (r & E & Hr). rewrite Hstart in E. injection E as <-.
  destruct (Hr pc eq_refl) as [_ Hp]. rewrite Hpx in Hp. destruct Hp as (_ & He & -> & _).
  set (rs := resolvers (configureDNS (pc_cfg pc) new_dnsCache)).
  destruct (gate_exec_safe rs _ _ ops p _ He (new_cache_wf (pc_cfg pc) w [])) as (Hok & Hem & _).
  cbv zeta. split; [done|]. destruct (Hem eq_refl) as (_ & new & Et & Hn). rewrite Et.
  eapply Forall_impl; [exact Hn|]. apply configured_dials.
Qed.
End Start.

(** ** Witnesses *)

Definition demo_vars (k : string) : string :=
  if String.eqb k "SSH_HOST" then "vps.example" else if String.eqb k "SSH_USER" then "gate"
  else if String.eqb k "PROXY_MODES" then "socks5,http" else if String.eqb k "TUNNEL_DNS" then "127.0.0.53" else "".
Definition demo_start : startEnv (H0 := text_keys) :=
  MkStart (H0 := text_keys) demo_vars None None None demo_env ∅ None None None [status_of stateConnected] (fun _ _ => None).
Definition demo_up : upstreamEnv := MkUp (fun s => (s, None)) (fun s => (s, None)) "world" None true.
Definition demo_connect_request : request :=
  MkRequest "CONNECT" "a.example:443" false "" "a.example" "443" "a.example:443" "a.example:443" [] 0 [] "" None.
(** The resolver names a loopback address before a public one. *)
Definition demo_net : script :=
  MkScript 1000 true [MkResolverReply [true] (inr [bytes4 127 0 0 1; bytes4 93 184 216 34])] [] [] [inr 7] [].

Lemma gate_dials_public_only_witness :
  exists pc px,
  main_start (H := literal_regexp) (H0 := text_keys) demo_start = Returned (inr pc) /\ pc_proxies pc = Some px /\
  pc_servers pc = ["SOCKS5 :1080"; "HTTP :3128"; "health"] /\
  let r := gate_exec (px_opener px)
             [GPurge; GHttp demo_up "10.0.0.2:4711" (inr demo_connect_request) "hello"; GSocksResolve "b.example"]
             demo_proxy (MkSys (px_dns px) demo_net []) in
  ((exists p', fst r = Returned p') /\ Forall (vps_reaches (pc_cfg pc)) (s_trace (snd r))) /\
  dialed (s_trace (snd r)) = ["93.184.216.34:443"] /\
  tunnel_resolvers (pc_cfg pc) = ["127.0.0.53:53"].
Proof.
  eexists _, _. split; [vm_compute; reflexivity|]. split; [reflexivity|]. split; [reflexivity|]. cbv zeta. split.
  - eapply (gate_dials_public_only (H := literal_regexp) (H0 := text_keys) demo_start);
      [vm_compute; reflexivity|reflexivity].
  - split; vm_compute; reflexivity.
Defined.

Lemma start_matches_config_witness :
  exists pc, main_start (H := literal_regexp) (H0 := text_keys) demo_start = Returned (inr pc) /\
  config_ok (pc_cfg pc) /\ pc_servers pc = ["SOCKS5 :1080"; "HTTP :3128"; "health"] /\
  sent (pc_status pc) = ["STATUS=Connecting to gate@vps.example:22"; "STATUS=Connected to gate@vps.example:22"; "READY=1"].
Proof.
  destruct (start_matches_config (H := literal_regexp) (H0 := text_keys) demo_start) as (r & E & Hr).
  vm_compute in E. injection E as <-. eexists. split; [vm_compute; reflexivity|].
  split; [by apply Hr|]. split; reflexivity.
Defined.
