(* ===== verification/StartFlight.v ===== *)
(** The process that main.go starts, with its connections interleaved: the
    state [main] leaves is one from which every theorem of OpenFlightProps.v
    applies. *)

From S2P Require Import Prelude GoStrings NetIP Errors Rules World Prog Dns DnsFacts Asks DnsProps CacheProps Opener OpenerProps Flight FlightInv FlightClaims OpenFlight OpenFlightProps Files Config Startup.

Section Started.
Context `{Regexp} `{KeyLib} {W : Type} `{World W} {G : Type} `{!Singleflight (lookupResult * option error) G}.

(** A fresh process has an empty cache and rules that were accepted. *)
Lemma started_cold (se : startEnv) (pc : process) (px : proxies) (w : W) :
  main_start se = Returned (inr pc) -> pc_proxies pc = Some px ->
  cached (MkSys (px_dns px) w []) = ∅ /\ px_dns px = configureDNS (pc_cfg pc) new_dnsCache /\
  exists direct, NewRuleEngine direct = Some (inr (o_rules (px_opener px))).
Proof.
  intros Hstart Hpx. destruct (main_start_spec se) as (r & E & Hr). rewrite Hstart in E. injection E as <-.
  destruct (Hr pc eq_refl) as [_ Hp]. rewrite Hpx in Hp. destruct Hp as (_ & He & -> & _).
  split; [|split; [done|eauto]]. unfold cached, configureDNS. cbn. by destruct (String.eqb _ _).
Qed.

(** C3: what the VPS is asked to reach, with every connection in its own
    goroutine: in every interleaving of the connections of a process that main
    started, whatever its environment, their lookups, shared lookups, cache
    hits, purges and dials, with any answers of the resolvers and the network,
    every address the VPS is asked to dial for a client is public and every
    other one is that of a configured tunnel resolver (or a redirect of the
    configured DoH host), no [Open] panics, and one turns direct for a private
    answer only with the option on. *)
Theorem started_opens_safe (se : startEnv) (pc : process) (px : proxies) (w : W) (g : gstate (W := W) (G := G))
    (Hstart : main_start se = Returned (inr pc)) (Hpx : pc_proxies pc = Some px)
    (Hr : rtc (gstep (px_opener px)) (ginit (MkSys (px_dns px) w [])) g) :
  Forall (vps_reaches (pc_cfg pc)) (s_trace (d_sys (g_dns g))) /\
  forall j r, g_conns g !! j = Some (Opened r) ->
    exists x, r = Returned x /\ (op_reason x = "local-private" -> localOnNXDomain (px_dns px) = true).
Proof.
  destruct (started_cold se pc px w Hstart Hpx) as (Hcold & Ed & direct & He).
  pose proof (gate_inv direct _ _ g He Hcold Hr) as Hg. split.
  - destruct (g_events _ _ _ _ Hg) as (new & -> & Hn). cbn [s_trace s_dns app] in *. rewrite Ed in Hn.
    eapply Forall_impl; [exact Hn|]. apply configured_dials.
  - intros j r Hj. exact (g_ok _ _ _ _ Hg _ _ Hj).
Qed.

(** C4: every [Open] of such a process returns, however its goroutines, the
    resolver calls and the purges are scheduled. *)
Theorem started_opens_return (se : startEnv) (pc : process) (px : proxies) (w : W) (g : gstate (W := W) (G := G))
    (Hstart : main_start se = Returned (inr pc)) (Hpx : pc_proxies pc = Some px)
    (Hr : rtc (gstep (px_opener px)) (ginit (MkSys (px_dns px) w [])) g) :
  inevitable gwork_step all_opened g.
Proof.
  destruct (started_cold se pc px w Hstart Hpx) as (Hcold & _ & direct & He). by eapply every_open_returns.
Qed.
End Started.

Section StartedDemo.
#[local] Existing Instance literal_regexp.
#[local] Existing Instance text_keys.
Abbreviation demo_g := (gstate (W := script) (G := sfGroup (lookupResult * option error))) (only parsing).

(** The process of the example environment, two connections to one name. *)
Definition started_two (px : proxies) : demo_g :=
  let conn h := Running (open_task (px_opener px) "10.0.0.2:4711" "http" h 443) in
  MkG (dinit (MkSys (px_dns px) demo_net [])) [conn "a.example"; conn "A.example."].
Definition started_end (px : proxies) : demo_g :=
  gplay ([Conn 0; Conn 1; ResolverCall 0; ResolverCall 1; ResolverCall 0; ResolverCall 1] ++
         replicate 40 (ResolverCall 0) ++ [ResolverCall 1] ++ flat_map (fun _ => [Conn 0; Conn 1]) (seq 0 6))
    (started_two px).
Lemma started_two_reached px :
  rtc (gstep (px_opener px)) (ginit (MkSys (px_dns px) demo_net [])) (started_two px).
Proof. do 2 (eapply rtc_l; [right; right; constructor|]). apply rtc_refl. Qed.
Lemma started_end_reached px :
  rtc (gstep (px_opener px)) (ginit (MkSys (px_dns px) demo_net [])) (started_end px).
Proof. etrans; [apply started_two_reached|apply gplay_steps]. Qed.

Lemma started_opens_safe_witness :
  exists pc px, main_start demo_start = Returned (inr pc) /\ pc_proxies pc = Some px /\
  Forall (vps_reaches (pc_cfg pc)) (s_trace (d_sys (g_dns (started_end px)))) /\
  dialed (s_trace (d_sys (g_dns (started_end px)))) = ["93.184.216.34:443"; "93.184.216.34:443"].
Proof.
  eexists _, _. split; [vm_compute; reflexivity|]. split; [reflexivity|]. split.
  - eapply (fun pc px Hs Hp => proj1 (started_opens_safe demo_start pc px demo_net (started_end px) Hs Hp
      (started_end_reached px))); [vm_compute; reflexivity|reflexivity].
  - vm_compute. reflexivity.
Defined.
Lemma started_opens_return_witness :
  exists pc px, main_start demo_start = Returned (inr pc) /\ pc_proxies pc = Some px /\
  inevitable gwork_step all_opened (started_two px).
Proof.
  eexists _, _. split; [vm_compute; reflexivity|]. split; [reflexivity|].
  eapply (fun pc px Hs Hp => started_opens_return demo_start pc px demo_net (started_two px) Hs Hp
    (started_two_reached px)); [vm_compute; reflexivity|reflexivity].
Defined.
End StartedDemo.
