(* ===== verification/Servers.v ===== *)
(** The life of one proxy server (httpproxy.go and socks5.go, [Start],
    [Shutdown]): the accept loop, the connection goroutines with the wait
    group they count in, and any number of [Shutdown] calls with the goroutine
    each of them starts to wait for the group.  The goroutines interleave;
    one action is one step of one of them. *)

From S2P Require Import Prelude GoStrings Errors Listener.

(** The two servers differ in what the wait group counts: HTTP counts every
    connection goroutine, SOCKS5 the relays between dial and close. *)
Inductive protocol : Type := HTTP | SOCKS5.

(** The accept loop: inside [ln.Accept], between its return and [wg.Add] (or
    the [go] statement), and after its end. *)
Inductive accept_pc : Type := Accepting | Accepted (c : Z) | AcceptEnded.
(** A connection goroutine: not counted yet, counted, no longer counted. *)
Inductive conn_pc : Type := Fresh | Counted | Uncounted.
#[global] Instance conn_pc_dec : EqDecision conn_pc.
Proof. solve_decision. Defined.
(** [closeOnce]. *)
Inductive once : Type := OnceNew | OnceRunning | OnceDone.
(** A call of [Shutdown]: before [closeOnce.Do], in it before [ln.Close], at
    the first select, at the second one, returned. *)
Inductive shut_pc : Type := ShOnce | ShLnClose | ShSelect | ShExpired | ShReturned (err : option error).
(** Its context, whether its waiting goroutine runs, and the channel [done]
    that goroutine closes. *)
Record call := MkCall { c_pc : shut_pc; c_expired : bool; c_waiting : bool; c_done : bool }.

Record server := MkServer {
  sv_accept : accept_pc; sv_conns : gmap Z conn_pc; sv_wg : Z; sv_once : once; sv_shutCh : bool;
  sv_lnClosed : bool; sv_calls : list call }.
Definition new_server : server := MkServer Accepting ∅ 0 OnceNew false false [].

(** [NewHTTPProxyServer] and [NewSOCKS5Server]; [listen] is the error of
    [net.Listen], if any. *)
Definition NewHTTPProxyServer (listen : option error) : error + server :=
  match listen with Some err => inl err | None => inr new_server end.
Definition NewSOCKS5Server (listen : option error) : error + server :=
  match listen with Some err => inl err | None => inr new_server end.

Definition set_accept (a : accept_pc) (s : server) : server :=
  MkServer a (sv_conns s) (sv_wg s) (sv_once s) (sv_shutCh s) (sv_lnClosed s) (sv_calls s).
Definition set_conns (m : gmap Z conn_pc) (wg : Z) (s : server) : server :=
  MkServer (sv_accept s) m wg (sv_once s) (sv_shutCh s) (sv_lnClosed s) (sv_calls s).
Definition set_closing (o : once) (shut closed : bool) (s : server) : server :=
  MkServer (sv_accept s) (sv_conns s) (sv_wg s) o shut closed (sv_calls s).
Definition set_call (i : nat) (c : call) (s : server) : server :=
  MkServer (sv_accept s) (sv_conns s) (sv_wg s) (sv_once s) (sv_shutCh s) (sv_lnClosed s) (<[i := c]> (sv_calls s)).

(** ** The accept loop *)

(** [Accept] returns the connection [c], or the closed listener's error (the
    only one it returns); the loop then counts and starts the goroutine. *)
Definition accept_conn (c : Z) (s : server) : option server :=
  match sv_accept s, sv_conns s !! c with
  | Accepting, None => if sv_lnClosed s then None else Some (set_accept (Accepted c) s)
  | _, _ => None
  end.
Definition accept_end (s : server) : option server :=
  match sv_accept s with
  | Accepting => if sv_lnClosed s then Some (set_accept AcceptEnded s) else None
  | _ => None
  end.
Definition accept_spawn (k : protocol) (s : server) : option server :=
  match sv_accept s with
  | Accepted c =>
      Some (set_accept Accepting
              (match k with
               | HTTP => set_conns (<[c := Counted]> (sv_conns s)) (sv_wg s + 1) s
               | SOCKS5 => set_conns (<[c := Fresh]> (sv_conns s)) (sv_wg s) s
               end))
  | _ => None
  end.

(** The accept loops of the two [Start] methods, one step; inside [Accept]
    [got] is the connection it returns, or the end. *)
Definition accept_next (got : option Z) (s : server) : option server :=
  match got with Some c => accept_conn c s | None => accept_end s end.
Definition http_Start (got : option Z) (s : server) : option server :=
  match sv_accept s with
  | Accepting => accept_next got s
  | Accepted _ => accept_spawn HTTP s
  | AcceptEnded => None
  end.
Definition socks5_Start (got : option Z) (s : server) : option server :=
  match sv_accept s with
  | Accepting => accept_next got s
  | Accepted _ => accept_spawn SOCKS5 s
  | AcceptEnded => None
  end.

(** ** The connection goroutines *)

(** The SOCKS5 dial callback counts its relay, its close uncounts it. *)
Definition relay_open (k : protocol) (c : Z) (s : server) : option server :=
  match k, sv_conns s !! c with
  | SOCKS5, Some Fresh => Some (set_conns (<[c := Counted]> (sv_conns s)) (sv_wg s + 1) s)
  | _, _ => None
  end.
Definition relay_close (k : protocol) (c : Z) (s : server) : option server :=
  match k, sv_conns s !! c with
  | SOCKS5, Some Counted => Some (set_conns (<[c := Uncounted]> (sv_conns s)) (sv_wg s - 1) s)
  | _, _ => None
  end.
(** The end of [handleConn] (with its deferred [wg.Done]) or [serveConn]. *)
Definition conn_end (k : protocol) (c : Z) (s : server) : option server :=
  match k, sv_conns s !! c with
  | HTTP, Some Counted => Some (set_conns (delete c (sv_conns s)) (sv_wg s - 1) s)
  | SOCKS5, Some Fresh | SOCKS5, Some Uncounted => Some (set_conns (delete c (sv_conns s)) (sv_wg s) s)
  | _, _ => None
  end.

(** ** Shutdown *)

Definition goto_sh (pc : shut_pc) (c : call) : call := MkCall pc (c_expired c) (c_waiting c) (c_done c).
Definition start_waiter (c : call) : call := MkCall ShSelect (c_expired c) true (c_done c).

(** A new call, with a context that may have expired already. *)
Definition shutdown_call (expired : bool) (s : server) : server :=
  MkServer (sv_accept s) (sv_conns s) (sv_wg s) (sv_once s) (sv_shutCh s) (sv_lnClosed s)
    (sv_calls s ++ [MkCall ShOnce expired false false]).

(** One step of the call [i]; [None] when it has to wait or has returned.
    [base] is what closing the socket returns; [ctxFirst] decides a select
    whose two channels are both ready. *)
Definition shutdown_step (i : nat) (base : option error) (ctxFirst : bool) (s : server) : option server :=
  c ← sv_calls s !! i;
  match c_pc c with
  | ShOnce =>
      match sv_once s with
      | OnceNew => Some (set_call i (goto_sh ShLnClose c) (set_closing OnceRunning true (sv_lnClosed s) s))
      | OnceRunning => None
      | OnceDone => Some (set_call i (start_waiter c) s)
      end
  | ShLnClose =>
      let '(err, closed, _) := resilient_Close (sv_lnClosed s) base in
      let s := set_closing OnceDone (sv_shutCh s) closed s in
      Some (set_call i (match err with Some e => goto_sh (ShReturned (Some e)) c | None => start_waiter c end) s)
  | ShSelect =>
      if c_expired c && (ctxFirst || negb (c_done c)) then Some (set_call i (goto_sh ShExpired c) s)
      else if c_done c then Some (set_call i (goto_sh (ShReturned None) c) s)
      else None
  | ShExpired =>
      Some (set_call i (goto_sh (ShReturned (if c_done c then None else Some context_DeadlineExceeded)) c) s)
  | ShReturned _ => None
  end.

(** The goroutine of the call [i]: [wg.Wait] returns at zero. *)
Definition waiter_step (i : nat) (s : server) : option server :=
  c ← sv_calls s !! i;
  if c_waiting c && negb (c_done c) && (sv_wg s =? 0)
  then Some (set_call i (MkCall (c_pc c) (c_expired c) (c_waiting c) true) s) else None.
(** Its context expires. *)
Definition expire_step (i : nat) (s : server) : option server :=
  c ← sv_calls s !! i; Some (set_call i (MkCall (c_pc c) true (c_waiting c) (c_done c)) s).

(** ** Runs *)

Inductive action : Type :=
| AcceptLoop (got : option Z) | RelayOpen (c : Z) | RelayClose (c : Z) | ConnEnd (c : Z)
| Call (expired : bool) | Turn (i : nat) (base : option error) (ctxFirst : bool) | Waiter (i : nat) | Expire (i : nat).
Definition server_step (k : protocol) (a : action) (s : server) : option server :=
  match a with
  | AcceptLoop got => match k with HTTP => http_Start got s | SOCKS5 => socks5_Start got s end
  | RelayOpen c => relay_open k c s
  | RelayClose c => relay_close k c s
  | ConnEnd c => conn_end k c s
  | Call e => Some (shutdown_call e s)
  | Turn i base first => shutdown_step i base first s
  | Waiter i => waiter_step i s
  | Expire i => expire_step i s
  end.
(** A run: every action is enabled when its turn comes. *)
Fixpoint server_run (k : protocol) (acts : list action) (s : server) : option server :=
  match acts with
  | [] => Some s
  | a :: rest => server_step k a s ≫= server_run k rest
  end.

(** ** Lemmas *)

Lemma accept_loop_cases k got s s' : server_step k (AcceptLoop got) s = Some s' ->
  (exists c, accept_conn c s = Some s') \/ accept_end s = Some s' \/ accept_spawn k s = Some s'.
Proof.
  cbn. unfold http_Start, socks5_Start, accept_next.
  destruct k; (destruct (sv_accept s); [destruct got as [c|]|..]; [left; by exists c|auto..]); done.
Qed.

(** The connections the wait group counts. *)
Definition counted (m : gmap Z conn_pc) : nat := size (filter (fun kv => kv.2 = Counted) m).

Lemma counted_insert m c : m !! c <> Some Counted -> counted (<[c := Counted]> m) = S (counted m).
Proof.
  intros Hm. unfold counted. rewrite map_filter_insert_True by done. apply map_size_insert_None.
  apply map_lookup_filter_None. right. intros x Hx Ex. cbn in Ex. by subst x.
Qed.
Lemma counted_delete m c : m !! c = Some Counted -> counted m = S (counted (delete c m)).
Proof.
  intros Hm. rewrite <- (counted_insert _ c) by (by rewrite lookup_delete_eq). by rewrite insert_delete_id.
Qed.
Lemma counted_delete_other m c : m !! c <> Some Counted -> counted (delete c m) = counted m.
Proof.
  intros Hm. unfold counted. rewrite map_filter_delete. f_equal. apply delete_id, map_lookup_filter_None.
  right. intros x Hx Ex. cbn in Ex. by subst x.
Qed.
Lemma counted_insert_other m c x : x <> Counted -> counted (<[c := x]> m) = counted (delete c m).
Proof. intros Hx. unfold counted. by rewrite map_filter_insert_False. Qed.
Lemma counted_zero m : counted m = 0%nat -> forall c, m !! c <> Some Counted.
Proof.
  unfold counted. intros Hz%map_size_empty_inv c Hc.
  assert (E : filter (fun kv => kv.2 = Counted) m !! c = Some Counted) by by apply map_lookup_filter_Some.
  by rewrite Hz, lookup_empty in E.
Qed.

(** What every reachable state satisfies. *)
Record server_ok (k : protocol) (s : server) : Prop := MkServerOk {
  so_wg : sv_wg s = Z.of_nat (counted (sv_conns s));
  so_http : k = HTTP -> map_Forall (fun _ x => x = Counted) (sv_conns s);
  so_next : forall c, sv_accept s = Accepted c -> sv_conns s !! c = None;
  so_end : sv_accept s = AcceptEnded -> sv_lnClosed s = true }.

Lemma new_server_ok k : server_ok k new_server.
Proof. by split. Qed.

(** Shutdown and its helpers leave the connections and the accept loop alone. *)
Definition same_conns (s s' : server) : Prop :=
  sv_accept s' = sv_accept s /\ sv_conns s' = sv_conns s /\ sv_wg s' = sv_wg s /\
  (sv_lnClosed s = true -> sv_lnClosed s' = true).
Lemma same_conns_ok k s s' : same_conns s s' -> server_ok k s -> server_ok k s'.
Proof. intros (Ea & Ec & Ew & El) [? ? ? ?]. split; rewrite ?Ec, ?Ea, ?Ew; auto. Qed.
Lemma shutdown_step_conns i base f s s' : shutdown_step i base f s = Some s' -> same_conns s s'.
Proof.
  unfold shutdown_step, resilient_Close, same_conns. intros Hs.
  apply bind_Some in Hs as (c & _ & Hs).
  repeat (case_match; simplify_eq/=); try done.
Qed.
Lemma waiter_step_conns i s s' : waiter_step i s = Some s' -> same_conns s s'.
Proof. intros (c & _ & Hs)%bind_Some. by case_match; simplify_eq/=. Qed.
Lemma expire_step_conns i s s' : expire_step i s = Some s' -> same_conns s s'.
Proof. intros (c & _ & Hs)%bind_Some. by simplify_eq/=. Qed.

Lemma server_step_ok k a s s' : server_ok k s -> server_step k a s = Some s' -> server_ok k s'.
Proof.
  intros Hok Hs. destruct a; [apply accept_loop_cases in Hs as [(c & Hs)|[Hs|Hs]]|..]; cbn [server_step] in Hs;
    try solve [eauto using same_conns_ok, shutdown_step_conns, waiter_step_conns, expire_step_conns].
  - unfold accept_conn in Hs. destruct Hok as [Hw Hh Hn He].
    repeat (case_match; simplify_eq/=). split; cbn; try done. by intros c' [= <-].
  - unfold accept_end in Hs. destruct Hok as [Hw Hh Hn He].
    repeat (case_match; simplify_eq/=). by split; cbn.
  - unfold accept_spawn in Hs. destruct Hok as [Hw Hh Hn He].
    destruct (sv_accept s) as [|c|]; [done| |done]. specialize (Hn c eq_refl).
    destruct k; simplify_eq/=; split; cbn; try done.
    + rewrite counted_insert by congruence. lia.
    + intros _. apply map_Forall_insert_2; [done|]. by apply Hh.
    + rewrite counted_insert_other, counted_delete_other by congruence. done.
  - unfold relay_open in Hs. destruct Hok as [Hw Hh Hn He].
    repeat (case_match; simplify_eq/=). split; cbn; try done.
    + rewrite counted_insert by congruence. lia.
    + intros c' E. apply Hn in E. by rewrite lookup_insert_ne by congruence.
  - unfold relay_close in Hs. destruct Hok as [Hw Hh Hn He].
    repeat (case_match; simplify_eq/=). split; cbn; try done.
    + rewrite counted_insert_other by done. rewrite (counted_delete _ c) in Hw by done. lia.
    + intros c' E. apply Hn in E. by rewrite lookup_insert_ne by congruence.
  - unfold conn_end in Hs. destruct Hok as [Hw Hh Hn He].
    assert (Hd : forall c', sv_accept s = Accepted c' -> delete c (sv_conns s) !! c' = None)
      by (intros c' E; apply lookup_delete_None; right; by apply Hn).
    repeat (case_match; simplify_eq/=); split; cbn; try done.
    + rewrite (counted_delete _ c) in Hw by done. lia.
    + intros _. by apply map_Forall_delete, Hh.
    + by rewrite counted_delete_other by congruence.
    + by rewrite counted_delete_other by congruence.
  - simplify_eq. by apply (same_conns_ok k s).
Qed.

Lemma server_run_ind k (P : server -> Prop) acts s s' :
  (forall a s1 s2, P s1 -> server_step k a s1 = Some s2 -> P s2) ->
  P s -> server_run k acts s = Some s' -> P s'.
Proof.
  intros Hstep. revert s. induction acts as [|a acts IH]; intros s Hs; cbn; [by intros [= <-]|].
  intros (s1 & E & Hr)%bind_Some. eauto.
Qed.
Lemma server_run_ok k acts s s' : server_ok k s -> server_run k acts s = Some s' -> server_ok k s'.
Proof. apply server_run_ind. eauto using server_step_ok. Qed.

(** ** The drain *)

(** Connections running or about to. *)
Definition pending (s : server) : nat := match sv_accept s with Accepted _ => 1 | _ => 0 end.
Definition remaining (s : server) : nat := size (sv_conns s) + pending s.

Lemma remaining_shrinks a s s' : server_ok HTTP s -> sv_lnClosed s = true -> server_step HTTP a s = Some s' ->
  (remaining s' <= remaining s)%nat /\ sv_lnClosed s' = true /\
  (sv_accept s = AcceptEnded -> sv_accept s' = AcceptEnded).
Proof.
  intros Hok Hcl Hs.
  assert (Hsame : same_conns s s' -> (remaining s' <= remaining s)%nat /\ sv_lnClosed s' = true /\
    (sv_accept s = AcceptEnded -> sv_accept s' = AcceptEnded)).
  { intros (Ea & Ec & _ & El). unfold remaining, pending. by rewrite Ea, Ec, El. }
  destruct a; [apply accept_loop_cases in Hs as [(c & Hs)|[Hs|Hs]]|..];
    cbn [server_step relay_open relay_close] in Hs; try done;
    try solve [eauto using shutdown_step_conns, waiter_step_conns, expire_step_conns].
  - unfold accept_conn in Hs. rewrite Hcl in Hs. repeat (case_match; simplify_eq).
  - unfold accept_end in Hs. unfold remaining, pending. repeat (case_match; simplify_eq/=). split; [lia|done].
  - unfold accept_spawn in Hs. unfold remaining, pending.
    destruct (sv_accept s) as [|c|] eqn:Ea; simplify_eq/=. split; [|done].
    rewrite map_size_insert_None by (by apply (so_next _ _ Hok)). lia.
  - unfold conn_end in Hs. unfold remaining, pending.
    destruct (sv_conns s !! c) as [[]|] eqn:Ec; simplify_eq/=. split; [|done].
    rewrite map_size_delete_Some by (by eexists). lia.
  - simplify_eq. by apply Hsame.
Qed.

(** A call that saw the group empty left at most [b] connections behind. *)
Record drain_inv (b n : nat) (s : server) : Prop := MkDrain {
  di_bound : b = 1%nat \/ sv_accept s = AcceptEnded;
  di_once : sv_once s = OnceDone -> sv_lnClosed s = true;
  di_call : forall i c, (n <= i)%nat -> sv_calls s !! i = Some c ->
    (c_waiting c = true -> sv_lnClosed s = true) /\
    (c_done c = true -> sv_lnClosed s = true /\ (remaining s <= b)%nat) /\
    (c_pc c = ShReturned None -> c_done c = true) }.

(** The calls after a step of one of them. *)
Lemma set_call_inv b n i c s : drain_inv b n s ->
  ((n <= i)%nat -> (c_waiting c = true -> sv_lnClosed s = true) /\
    (c_done c = true -> sv_lnClosed s = true /\ (remaining s <= b)%nat) /\
    (c_pc c = ShReturned None -> c_done c = true)) ->
  drain_inv b n (set_call i c s).
Proof.
  intros [Hb Ho Hc] Hnew. split; [done|done|]. intros j c' Hj Hl. cbn in Hl.
  apply list_lookup_insert_Some in Hl as [(<- & <- & _)|[_ Hl]]; [by apply Hnew|by eapply Hc].
Qed.

Lemma wg_zero_empty s : server_ok HTTP s -> sv_wg s = 0 -> sv_conns s = ∅.
Proof.
  intros Hok Hz. apply map_empty. intros c. destruct (sv_conns s !! c) as [x|] eqn:E; [|done]. exfalso.
  apply (counted_zero (sv_conns s)) with c; [pose proof (so_wg _ _ Hok); lia|].
  rewrite E. f_equal. by apply (so_http _ _ Hok eq_refl c).
Qed.

Lemma pending_bound b n s : drain_inv b n s -> (pending s <= b)%nat.
Proof. unfold pending. intros [[->| ->] _ _]; [|lia]. case_match; lia. Qed.

Lemma shutdown_step_drain b n i base f s s' : drain_inv b n s -> shutdown_step i base f s = Some s' ->
  drain_inv b n s'.
Proof.
  intros Hd (c & Hc & Hs)%bind_Some. pose proof (di_call _ _ _ Hd i c) as Hi.
  destruct (c_pc c) eqn:Epc.
  - destruct (sv_once s) eqn:Eo; simplify_eq; apply set_call_inv; try done.
    + destruct Hd as [Hb Ho Hcall]. split; [done..|]. done.
    + intros Hn. cbn. destruct (Hi Hn Hc) as (? & ? & _). done.
    + intros Hn. cbn. destruct (Hi Hn Hc) as (? & ? & _). split; [|done]. intros _. by apply (di_once _ _ _ Hd).
  - unfold resilient_Close in Hs.
    assert (Hcl : drain_inv b n (set_closing OnceDone (sv_shutCh s) true s)).
    { destruct Hd as [Hb Ho Hcall]. split; [done|done|]. intros j c' Hj Hl.
      destruct (Hcall j c' Hj Hl) as (? & Hdn & ?). split; [done|]. split; [|done]. intros Hx. cbn. split; [done|].
      by apply Hdn. }
    destruct (sv_lnClosed s) eqn:El; simplify_eq; apply set_call_inv; try done;
      intros Hn; destruct (Hi Hn Hc) as (? & Hdn & ?); cbn.
    + split; [done|]. split; [|done]. intros Hx. split; [done|]. by apply Hdn.
    + destruct base; cbn; (split; [done|]; split; [|done]; intros Hx; split; [done|]; by apply Hdn).
  - destruct (c_expired c && _); [|destruct (c_done c) eqn:Edn; [|done]]; simplify_eq; apply set_call_inv; try done;
      intros Hn; destruct (Hi Hn Hc) as (? & ? & ?); cbn; try done. rewrite Edn. naive_solver.
  - simplify_eq. apply set_call_inv; [done|]. intros Hn. destruct (Hi Hn Hc) as (? & ? & ?). cbn.
    split; [done|]. split; [done|]. by destruct (c_done c).
  - done.
Qed.

(** A step that touches no call. *)
Lemma same_calls_drain b n s s' : drain_inv b n s ->
  sv_calls s' = sv_calls s -> sv_once s' = sv_once s -> sv_lnClosed s' = sv_lnClosed s ->
  (sv_accept s = AcceptEnded -> sv_accept s' = AcceptEnded) ->
  (sv_lnClosed s = true -> (remaining s' <= remaining s)%nat) -> drain_inv b n s'.
Proof.
  intros [Hb Ho Hc] Ec Eo El Ha Hr. split; [destruct Hb; auto|rewrite El; intros; apply Ho; congruence|].
  rewrite Ec, El. intros i c Hi Hl. destruct (Hc i c Hi Hl) as (? & Hd & ?). split; [done|]. split; [|done].
  intros Hx. destruct (Hd Hx) as [Hcl Hle]. split; [done|]. specialize (Hr Hcl). lia.
Qed.

Lemma server_step_drain b n a s s' : server_ok HTTP s -> drain_inv b n s -> server_step HTTP a s = Some s' ->
  drain_inv b n s'.
Proof.
  intros Hok Hd Hs.
  assert (Hother : sv_calls s' = sv_calls s -> sv_once s' = sv_once s -> sv_lnClosed s' = sv_lnClosed s ->
    (sv_accept s = AcceptEnded -> sv_accept s' = AcceptEnded) -> drain_inv b n s').
  { intros Ec Eo El Ha. apply (same_calls_drain b n s); try done.
    intros Hcl. by apply (remaining_shrinks a s s'). }
  destruct a; [apply accept_loop_cases in Hs as [(c & Hs)|[Hs|Hs]]|..];
    cbn [server_step relay_open relay_close] in Hs; try done; try (by eapply shutdown_step_drain).
  - unfold accept_conn in Hs. by repeat (case_match; simplify_eq); apply Hother.
  - unfold accept_end in Hs. by repeat (case_match; simplify_eq); apply Hother.
  - unfold accept_spawn in Hs. destruct (sv_accept s); simplify_eq. by apply Hother.
  - unfold conn_end in Hs. destruct (sv_conns s !! c) as [[]|]; simplify_eq. by apply Hother.
  - simplify_eq. destruct Hd as [Hb Ho Hc]. split; [done|done|]. intros i c Hi Hl. cbn in Hl.
    apply lookup_app_Some in Hl as [Hl|[_ Hl]]; [by eapply Hc|].
    apply list_lookup_singleton_Some in Hl as [_ <-]. done.
  - apply bind_Some in Hs as (c & Hc & Hs). case_match eqn:E; simplify_eq. apply set_call_inv; [done|].
    intros Hn. destruct (di_call _ _ _ Hd i c Hn Hc) as (Hw & Hdn & Hr).
    apply andb_true_iff in E as [[Ew _]%andb_true_iff Ez%Z.eqb_eq]. cbn.
    split; [done|]. split; [|done]. intros _. split; [by apply Hw|].
    unfold remaining. rewrite (wg_zero_empty s Hok Ez), map_size_empty. by eapply pending_bound.
  - apply bind_Some in Hs as (c & Hc & [= <-]). apply set_call_inv; [done|]. intros Hn.
    by apply (di_call _ _ _ Hd i c).
Qed.

Lemma server_run_drain b n acts s s' : server_ok HTTP s -> drain_inv b n s ->
  server_run HTTP acts s = Some s' -> server_ok HTTP s' /\ drain_inv b n s'.
Proof.
  intros Hok Hd. apply (server_run_ind HTTP (fun s => server_ok HTTP s /\ drain_inv b n s)); [|done].
  intros a s1 s2 [H1 H2] Hs. split; [by eapply server_step_ok|by eapply server_step_drain].
Qed.

(** ** Properties *)

(** The drain counts what it waits for.  In every interleaving of the
    accept loop, the connections and any number of [Shutdown] calls the wait
    group counter is exactly the number of counted connections (all of them
    for HTTP, the open relays for SOCKS5), so [Done] never makes it negative,
    and once the socket is closed the accept loop gets no further
    connection. *)
Theorem drain_counter_exact (k : protocol) (acts : list action) (s : server)
    (Hrun : server_run k acts new_server = Some s) :
  sv_wg s = Z.of_nat (counted (sv_conns s)) /\
  (k = HTTP -> sv_wg s = Z.of_nat (size (sv_conns s))) /\
  (sv_lnClosed s = true -> sv_accept s = Accepting -> forall c, server_step k (AcceptLoop (Some c)) s = None).
Proof.
  pose proof (server_run_ok k acts _ s (new_server_ok k) Hrun) as Hok. split; [apply Hok|]. split.
  - intros ->. rewrite (so_wg _ _ Hok). unfold counted. do 2 f_equal. apply map_filter_id.
    intros c x Hx. by apply (so_http _ _ Hok eq_refl c).
  - intros Hcl Ha c. cbn. unfold http_Start, socks5_Start, accept_next, accept_conn. rewrite Ha, Hcl. by repeat case_match.
Qed.

(** C20: what a nil result of the HTTP proxy's [Shutdown] means, over any
    interleaving: when a call has returned nil, at most one connection is left,
    the one that was accepted just before the socket was closed; and a call
    started after the accept loop ended (a retry, say) returns nil only when
    no connection is left. *)
Theorem shutdown_nil_is_drained (acts more : list action) (s s' : server) (e : bool)
    (Hrun : server_run HTTP acts new_server = Some s)
    (Hmore : server_run HTTP (Call e :: more) s = Some s') :
  (forall c, c ∈ sv_calls s -> c_pc c = ShReturned None -> (size (sv_conns s) + pending s <= 1)%nat) /\
  (sv_accept s = AcceptEnded ->
   c_pc <$> sv_calls s' !! length (sv_calls s) = Some (ShReturned None) ->
   sv_conns s' = ∅ /\ sv_accept s' = AcceptEnded).
Proof.
  destruct (server_run_drain 1 0 acts new_server s (new_server_ok HTTP)) as [Hok Hd]; [|done|].
  { split; [by left|done|]. intros i c _ Hl. by apply lookup_lt_Some in Hl; cbn in Hl; lia. }
  split.
  - intros c [i Hi]%list_elem_of_lookup_1 Hpc. destruct (di_call _ _ _ Hd i c ltac:(lia) Hi) as (_ & Hdn & Hr).
    by apply Hdn, Hr.
  - intros He Hpc. apply fmap_Some in Hpc as (c & Hc & Hpc).
    destruct (server_run_drain 0 (length (sv_calls s)) (Call e :: more) s s' Hok) as [Hok' Hd']; [|done|].
    { split; [by right|by apply (di_once _ _ _ Hd)|]. intros i c' Hi Hl%lookup_lt_Some. lia. }
    destruct (di_call _ _ _ Hd' _ c ltac:(done) Hc) as (_ & Hdn & Hr).
    destruct (Hdn (Hr (eq_sym Hpc))) as [_ Hz]. unfold remaining in Hz.
    split; [apply map_size_empty_inv; lia|]. destruct (di_bound _ _ _ Hd'); [done|done].
Qed.

(** The one connection that a drain may miss is real: a connection that
    the accept loop took just before the close is counted only after the drain
    saw an empty group, so [Shutdown] reports that all is drained and the
    connection's goroutine starts after it. *)
Theorem shutdown_can_miss_a_connection :
  exists s, server_run HTTP
    [AcceptLoop (Some 1); Call false; Turn 0 None false; Turn 0 None false; Waiter 0; Turn 0 None false;
     AcceptLoop None] new_server
    = Some s /\
  c_pc <$> sv_calls s = [ShReturned None] /\ sv_conns s = {[1 := Counted]} /\ sv_wg s = 1.
Proof. eexists. split; [reflexivity|]. done. Qed.

(** ** Witnesses *)

Definition demo_drain : list action :=
  [AcceptLoop (Some 1); AcceptLoop None; Call false; Turn 0 None false; Turn 0 None false; Expire 0; Turn 0 None false;
   Turn 0 None false; AcceptLoop None].
Definition demo_retry : list action := [Turn 1 None false; ConnEnd 1; Waiter 1; Turn 1 None false].
Definition demo_stopped : server := Eval vm_compute in default new_server (server_run HTTP demo_drain new_server).
Definition demo_retried : server :=
  Eval vm_compute in default new_server (server_run HTTP (Call false :: demo_retry) demo_stopped).
Lemma demo_drain_run : server_run HTTP demo_drain new_server = Some demo_stopped.
Proof. vm_compute. reflexivity. Qed.
Lemma demo_retry_run : server_run HTTP (Call false :: demo_retry) demo_stopped = Some demo_retried.
Proof. vm_compute. reflexivity. Qed.

Lemma drain_counter_exact_witness :
  sv_wg demo_stopped = 1 /\ c_pc <$> sv_calls demo_stopped = [ShReturned (Some context_DeadlineExceeded)].
Proof.
  split; [|reflexivity].
  exact (proj1 (proj2 (drain_counter_exact HTTP demo_drain demo_stopped demo_drain_run)) eq_refl).
Defined.

Lemma shutdown_nil_is_drained_witness : sv_conns demo_retried = ∅ /\ sv_accept demo_retried = AcceptEnded.
Proof.
  exact (proj2 (shutdown_nil_is_drained demo_drain demo_retry demo_stopped demo_retried false
    demo_drain_run demo_retry_run) eq_refl eq_refl).
Defined.
