(* ===== verification/Shutdown.v ===== *)
(** main.go, from the signal to the exit: [status.stop], [shutdownServers]
    under one drain deadline, [rules.Stop], [d.stop].  The main goroutine is
    interleaved with the servers it stops; the signal and the deadline come at
    any time. *)

From S2P Require Import Prelude GoStrings Errors Rules Files Status Listener Config Health Startup Servers.

(** ** State *)

(** A server of the list: a proxy, or the health server, whose Shutdown is
    the library's followed by closing [done]. *)
Inductive body : Type := Proxy (p : protocol) (s : server) | HealthBody (done : bool).
(** The main goroutine: waiting for the signal, before [status.stop], at the
    server [k] of [shutdownServers] before or inside its Shutdown, before
    [rules.Stop], before [d.stop], returned. *)
Inductive main_pc : Type := MWait | MStop | MServer (k : nat) (inside : bool) | MRules | MDialer | MExited.
#[global] Instance main_pc_dec : EqDecision main_pc.
Proof. solve_decision. Defined.
Record gate := MkGate {
  g_servers : list (string * body); g_pc : main_pc; g_signalled : bool; g_expired : bool; g_status : sdStatus;
  g_hasRules : bool; g_rulesStopped : bool; g_dialerStopped : bool; g_log : list (string * option error) }.

Definition set_pc (pc : main_pc) (g : gate) : gate :=
  MkGate (g_servers g) pc (g_signalled g) (g_expired g) (g_status g) (g_hasRules g) (g_rulesStopped g)
    (g_dialerStopped g) (g_log g).
Definition put (k : nat) (name : string) (b : body) (g : gate) : gate :=
  MkGate (<[k := (name, b)]> (g_servers g)) (g_pc g) (g_signalled g) (g_expired g) (g_status g) (g_hasRules g)
    (g_rulesStopped g) (g_dialerStopped g) (g_log g).
(** The result of one Shutdown is logged and the next server follows. *)
Definition next_server (k : nat) (name : string) (r : option error) (g : gate) : gate :=
  MkGate (g_servers g) (MServer (S k) false) (g_signalled g) (g_expired g) (g_status g) (g_hasRules g)
    (g_rulesStopped g) (g_dialerStopped g) (g_log g ++ [(name, r)]).

(** ** The main goroutine *)

(** [http.Server.Shutdown] as documented: it may return before the deadline,
    and returns the context's error when the deadline passes first. *)
Definition http_Shutdown (expired : bool) (returned : option (option error)) : option (option error) :=
  match returned with
  | Some r => Some r
  | None => if expired then Some (Some context_DeadlineExceeded) else None
  end.

(** [HealthServer.Shutdown]: then [done] is closed, which ends the probes. *)
Definition health_Shutdown (expired : bool) (returned : option (option error)) : option (option error * body) :=
  err ← http_Shutdown expired returned; Some (err, HealthBody true).

(** One step of [main] after READY; [None] when it waits or has returned. *)
Definition main_step (base : option error) (ctxFirst : bool) (returned : option (option error)) (g : gate)
    : option gate :=
  match g_pc g with
  | MWait => if g_signalled g then Some (set_pc MStop g) else None
  | MStop =>
      Some (MkGate (g_servers g) (MServer 0 false) (g_signalled g) (g_expired g)
              (sd_stop "Stopping, draining connections" (g_status g)) (g_hasRules g) (g_rulesStopped g)
              (g_dialerStopped g) (g_log g))
  | MServer k false =>
      match g_servers g !! k with
      | None => Some (set_pc MRules g)
      | Some (name, Proxy p s) => Some (set_pc (MServer k true) (put k name (Proxy p (shutdown_call (g_expired g) s)) g))
      | Some (name, HealthBody d) => Some (set_pc (MServer k true) g)
      end
  | MServer k true =>
      match g_servers g !! k with
      | None => None
      | Some (name, Proxy p s) =>
          c ← last (sv_calls s);
          match c_pc c with
          | ShReturned r => Some (next_server k name r g)
          | _ => s' ← shutdown_step (pred (length (sv_calls s))) base ctxFirst s; Some (put k name (Proxy p s') g)
          end
      | Some (name, HealthBody d) =>
          '(r, b) ← health_Shutdown (g_expired g) returned;
          Some (next_server k name r (put k name b g))
      end
  | MRules =>
      Some (MkGate (g_servers g) MDialer (g_signalled g) (g_expired g) (g_status g) (g_hasRules g) (g_hasRules g)
              (g_dialerStopped g) (g_log g))
  | MDialer =>
      Some (MkGate (g_servers g) MExited (g_signalled g) (g_expired g) (g_status g) (g_hasRules g)
              (g_rulesStopped g) true (g_log g))
  | MExited => None
  end.

(** ** The process *)

(** What a server does by itself. *)
Definition internal (a : action) : bool :=
  match a with Call _ | Turn _ _ _ | Expire _ => false | _ => true end.
Definition server_act (k : nat) (a : action) (g : gate) : option gate :=
  match g_servers g !! k with
  | Some (name, Proxy p s) =>
      if internal a then s' ← server_step p a s; Some (put k name (Proxy p s') g) else None
  | _ => None
  end.
(** The drain deadline passes; a call under way sees its context expire. *)
Definition drain_expires (g : gate) : option gate :=
  match g_pc g with
  | MServer k inside =>
      let g := MkGate (g_servers g) (g_pc g) (g_signalled g) true (g_status g) (g_hasRules g) (g_rulesStopped g)
                 (g_dialerStopped g) (g_log g) in
      match inside, g_servers g !! k with
      | true, Some (name, Proxy p s) =>
          s' ← expire_step (pred (length (sv_calls s))) s; Some (put k name (Proxy p s') g)
      | _, _ => Some g
      end
  | _ => None
  end.

(** The goroutine that waits for SIGTERM or SIGINT cancels the context. *)
Definition signal_arrives (g : gate) : gate :=
  MkGate (g_servers g) (g_pc g) true (g_expired g) (g_status g) (g_hasRules g) (g_rulesStopped g)
    (g_dialerStopped g) (g_log g).

Inductive gateAction : Type :=
| Signal | DrainExpires | ServerAct (k : nat) (a : action)
| Main (base : option error) (ctxFirst : bool) (returned : option (option error)).
Definition gate_act (a : gateAction) (g : gate) : option gate :=
  match a with
  | Signal => Some (signal_arrives g)
  | DrainExpires => drain_expires g
  | ServerAct k a => server_act k a g
  | Main base first r => main_step base first r g
  end.

(** A schedule proposes one action per moment; a disabled one does nothing. *)
Fixpoint gate_run (sched : nat -> gateAction) (n : nat) (g : gate) : gate :=
  match n with
  | O => g
  | S n => let g' := gate_run sched n g in default g' (gate_act (sched n) g')
  end.
(** Nobody is starved, a signal comes, and time passes. *)
Record fair (sched : nat -> gateAction) : Prop := MkFair {
  fair_main : forall n, exists m base first r, (n <= m)%nat /\ sched m = Main base first r;
  fair_time : forall n, exists m, (n <= m)%nat /\ sched m = DrainExpires;
  fair_signal : exists m, sched m = Signal }.

(** The process [main] has started, READY sent. *)
Definition gate_servers {HR} (px : option (proxies (H := HR))) : list (string * body) :=
  (match px with
   | Some p => (fun l => (fst l +:+ " " +:+ snd l,
                          Proxy (if String.eqb (fst l) "SOCKS5" then SOCKS5 else HTTP) new_server)) <$> px_listeners p
   | None => []
   end) ++ [("health", HealthBody false)].
Definition gate_of {HR} (pc : process (H := HR)) : gate :=
  MkGate (gate_servers (pc_proxies pc)) MWait false false (pc_status pc) (bool_decide (pc_proxies pc <> None))
    false false [].

(** ** The invariant *)

(** Servers before [done_to] are down, from [fresh_from] on untouched. *)
Definition done_to (g : gate) : nat :=
  match g_pc g with MWait | MStop => 0 | MServer k _ => k | _ => length (g_servers g) end.
Definition fresh_from (g : gate) : nat :=
  match g_pc g with MServer k true => S k | _ => done_to g end.

Definition untouched (b : body) : Prop :=
  match b with Proxy _ s => sv_calls s = [] /\ sv_once s = OnceNew /\ sv_lnClosed s = false | HealthBody d => d = false end.
Definition is_down (b : body) : Prop :=
  match b with
  | Proxy _ s => sv_lnClosed s = true /\ exists c r, sv_calls s = [c] /\ c_pc c = ShReturned r
  | HealthBody d => d = true
  end.
(** The call under way is the server's only one. *)
Definition in_call (expired : bool) (b : body) : Prop :=
  match b with
  | Proxy _ s => exists c, sv_calls s = [c] /\ (c_pc c = ShOnce -> sv_once s = OnceNew) /\
      (c_pc c = ShLnClose \/ c_pc c = ShOnce \/ sv_lnClosed s = true) /\ (expired = true -> c_expired c = true)
  | HealthBody _ => True
  end.

Record gate_inv (names : list string) (g : gate) : Prop := MkInv {
  gi_names : (g_servers g).*1 = names;
  gi_done : forall j name b, (j < done_to g)%nat -> g_servers g !! j = Some (name, b) -> is_down b;
  gi_fresh : forall j name b, (fresh_from g <= j)%nat -> g_servers g !! j = Some (name, b) -> untouched b;
  gi_call : forall k, g_pc g = MServer k true ->
    exists name b, g_servers g !! k = Some (name, b) /\ in_call (g_expired g) b;
  gi_log : (g_log g).*1 = take (done_to g) names;
  gi_bound : (done_to g <= length names)%nat;
  gi_status : g_pc g <> MWait -> g_pc g <> MStop -> stopping (g_status g) = true;
  gi_rules : g_pc g = MDialer \/ g_pc g = MExited -> g_rulesStopped g = g_hasRules g;
  gi_dialer : g_dialerStopped g = true -> g_pc g = MExited;
  gi_signal : g_pc g <> MWait -> g_signalled g = true }.

(** A server's own step changes no call's progress and closes no listener. *)
Lemma internal_frame p a s s' : internal a = true -> server_step p a s = Some s' ->
  (fun c => (c_pc c, c_expired c)) <$> sv_calls s' = (fun c => (c_pc c, c_expired c)) <$> sv_calls s /\
  sv_once s' = sv_once s /\ sv_lnClosed s' = sv_lnClosed s.
Proof.
  intros Hi Hs. destruct a; cbn [internal server_step] in *; try done.
  1-4: unfold http_Start, socks5_Start, accept_next, accept_conn, accept_end, accept_spawn, relay_open, relay_close,
         conn_end in Hs;
    repeat (case_match; simplify_eq); done.
  apply bind_Some in Hs as (c & Hc & Hs). case_match; simplify_eq. split; [|done]. cbn.
  rewrite list_fmap_insert. apply list_insert_id. by rewrite list_lookup_fmap, Hc.
Qed.

(** What the invariant needs of a replaced server. *)
Definition same_side (x : bool) (b b' : body) : Prop :=
  (is_down b -> is_down b') /\ (untouched b -> untouched b') /\ (in_call x b -> in_call x b').

Lemma fmap_single {A B} (f : A -> B) l l' x : f <$> l' = f <$> l -> l = [x] -> exists x', l' = [x'] /\ f x' = f x.
Proof. intros E ->. destruct l' as [|y [|]]; try done. injection E as E. eauto. Qed.
Lemma internal_side x p a s s' : internal a = true -> server_step p a s = Some s' ->
  same_side x (Proxy p s) (Proxy p s').
Proof.
  intros Hi Hs. destruct (internal_frame p a s s' Hi Hs) as (Ec & Eo & El). split; [|split].
  - intros (Hcl & c & r & E & Hr). cbn. rewrite El. split; [done|].
    destruct (fmap_single _ _ _ c Ec E) as (c' & -> & [= Ep _]). exists c', r. by rewrite Ep.
  - intros (E & Ho & Hl). cbn. rewrite Eo, El. split; [|done]. rewrite E in Ec. by destruct (sv_calls s').
  - intros (c & E & Ho & Hp & He). destruct (fmap_single _ _ _ c Ec E) as (c' & E' & [= Ep Ex]).
    exists c'. by rewrite Ep, Ex, Eo, El.
Qed.

Lemma put_lookup k name b g j x : g_servers (put k name b g) !! j = Some x ->
  (j = k /\ x = (name, b)) \/ g_servers g !! j = Some x.
Proof. cbn. intros [(-> & <- & _)|[_ E]]%list_lookup_insert_Some; auto. Qed.
Lemma put_names k name b b' g : g_servers g !! k = Some (name, b) -> (g_servers (put k name b' g)).*1 = (g_servers g).*1.
Proof. intros E. cbn. rewrite list_fmap_insert. apply list_insert_id. by rewrite list_lookup_fmap, E. Qed.

Lemma put_same k name b g : g_servers g !! k = Some (name, b) -> put k name b g = g.
Proof. intros E. unfold put. rewrite list_insert_id by done. by destruct g. Qed.

Lemma put_inv names k name b b' g : gate_inv names g -> g_servers g !! k = Some (name, b) ->
  ((k < done_to g)%nat -> is_down b') -> ((fresh_from g <= k)%nat -> untouched b') ->
  (g_pc g = MServer k true -> in_call (g_expired g) b') -> gate_inv names (put k name b' g).
Proof.
  intros Hinv Hk Hd Hu Hc.
  assert (Edt : done_to (put k name b' g) = done_to g) by (unfold done_to; cbn; by rewrite length_insert).
  assert (Eff : fresh_from (put k name b' g) = fresh_from g) by (unfold fresh_from; rewrite Edt; done).
  destruct Hinv as [Hn Hdn Hf Hi Hl Hbd Hs Hr Hdl Hsg]. split; try done; rewrite ?Edt, ?Eff; try done.
  - by rewrite (put_names k name b).
  - intros j nm x Hj [[-> [= -> ->]]|E]%put_lookup; [by apply Hd|by eapply Hdn].
  - intros j nm x Hj [[-> [= -> ->]]|E]%put_lookup; [by apply Hu|by eapply Hf].
  - intros k' Epc. destruct (Hi k' Epc) as (nm & x & E & Hx). destruct (decide (k' = k)) as [->|Hne].
    + rewrite Hk in E. simplify_eq. exists nm, b'. split; [|by apply Hc]. cbn.
      apply list_lookup_insert_eq. by eapply lookup_lt_Some.
    + exists nm, x. split; [|done]. cbn. by rewrite list_lookup_insert_ne.
Qed.

Lemma server_act_inv names k a g g' : gate_inv names g -> server_act k a g = Some g' -> gate_inv names g'.
Proof.
  unfold server_act. intros Hinv Hs. destruct (g_servers g !! k) as [[name [p s|d]]|] eqn:Hk; [|done..].
  destruct (internal a) eqn:Ei; [|done]. apply bind_Some in Hs as (s' & Hs & [= <-]).
  destruct (internal_side (g_expired g) p a s s' Ei Hs) as (Hd & Hu & Hc).
  apply (put_inv names k name (Proxy p s)); try done.
  - intros Hlt. by eapply Hd, gi_done.
  - intros Hle. by eapply Hu, gi_fresh.
  - intros Hpc. destruct (gi_call _ _ Hinv k Hpc) as (nm & b & E & Hb). rewrite Hk in E. simplify_eq. by apply Hc.
Qed.

(** ** A call's progress *)

Definition call_rank (pc : shut_pc) : nat :=
  match pc with ShOnce => 5 | ShLnClose => 4 | ShSelect => 3 | ShExpired => 2 | ShReturned _ => 1 end.

(** A step of the only call of a server. *)
Lemma call_step x base first p s c : in_call x (Proxy p s) -> sv_calls s = [c] ->
  (forall r, c_pc c <> ShReturned r) ->
  (forall s', shutdown_step 0 base first s = Some s' ->
     in_call x (Proxy p s') /\ exists c', sv_calls s' = [c'] /\ (call_rank (c_pc c') < call_rank (c_pc c))%nat) /\
  (c_expired c = true -> exists s', shutdown_step 0 base first s = Some s').
Proof.
  intros (c0 & E & Ho & Hp & Hx) E' Hr. rewrite E' in E. injection E as <-.
  unfold shutdown_step. rewrite E'. cbn [mbind option_bind list_lookup lookup].
  destruct (c_pc c) eqn:Epc.
  - rewrite (Ho eq_refl). split; [|by eexists]. intros s' [= <-]. cbn. rewrite E'. split; [|eexists; split; [done|cbn; lia]].
    eexists. split; [done|]. cbn. split; [done|]. split; [by left|done].
  - unfold resilient_Close. split; [|intros _; destruct (sv_lnClosed s); by eexists].
    destruct (sv_lnClosed s); intros s' [= <-]; cbn; rewrite E'; [|destruct base];
      (split; [eexists; split; [done|]; cbn; naive_solver|eexists; split; [done|cbn; lia]]).
  - assert (Hcl : sv_lnClosed s = true) by naive_solver. split.
    + intros s' Hs. destruct (c_expired c && _); [|destruct (c_done c); [|done]]; simplify_eq; cbn; rewrite E';
        (split; [eexists; split; [done|]; cbn; naive_solver|eexists; split; [done|cbn; lia]]).
    + intros He. rewrite He. destruct (c_done c); [|by rewrite orb_true_r; eexists]. cbn. case_match; by eexists.
  - assert (Hcl : sv_lnClosed s = true) by naive_solver. split; [|by eexists]. intros s' [= <-]. cbn. rewrite E'.
    split; [eexists; split; [done|]; cbn; naive_solver|eexists; split; [done|cbn; lia]].
  - by destruct (Hr err).
Qed.

(** ** The steps keep the invariant *)

Lemma health_Shutdown_body x r r0 b : health_Shutdown x r = Some (r0, b) -> b = HealthBody true.
Proof. by intros (e & _ & [= _ <-])%bind_Some. Qed.

(** The current server is at its own index. *)
Lemma lookup_names names g k name b : gate_inv names g -> g_servers g !! k = Some (name, b) -> names !! k = Some name.
Proof. intros Hinv Hk. rewrite <- (gi_names _ _ Hinv), list_lookup_fmap, Hk. done. Qed.
Lemma names_length names g : gate_inv names g -> length names = length (g_servers g).
Proof. intros Hinv. by rewrite <- (gi_names _ _ Hinv), length_fmap. Qed.

Lemma next_server_inv names k name b r g : gate_inv names g -> g_pc g = MServer k true ->
  g_servers g !! k = Some (name, b) -> is_down b -> gate_inv names (next_server k name r g).
Proof.
  intros Hinv Hpc Hk Hb. pose proof (lookup_names _ _ _ _ _ Hinv Hk) as Hn.
  destruct Hinv as [En Hd Hf Hc Hl Hbd Hs Hr Hdl Hsg]. unfold fresh_from, done_to in *. rewrite Hpc in *.
  split; cbn; try done.
  - intros j nm x Hj E. destruct (decide (j = k)) as [->|Hne]; [by simplify_eq|]. eapply Hd; [|done]. lia.
  - rewrite fmap_app, Hl. cbn. by rewrite (take_S_r _ _ name).
  - by apply lookup_lt_Some in Hn.
  - intros _ _. by apply Hs.
  - naive_solver.
  - naive_solver.
  - intros _. by apply Hsg.
Qed.

(** Entering the Shutdown of the server [k]. *)
Lemma enter_server_inv names k name b b' g : gate_inv names g -> g_pc g = MServer k false ->
  g_servers g !! k = Some (name, b) -> in_call (g_expired g) b' ->
  gate_inv names (set_pc (MServer k true) (put k name b' g)).
Proof.
  intros Hinv Hpc Hk Hin. pose proof (put_names k name b b' g Hk) as Hnames.
  assert (Hlt : (k < length (g_servers g))%nat) by by eapply lookup_lt_Some.
  destruct Hinv as [En Hd Hf Hc Hl Hbd Hs Hr Hdl Hsg]. unfold fresh_from, done_to in *. rewrite Hpc in *.
  split; cbn [g_servers g_pc set_pc]; try done.
  - by rewrite Hnames.
  - intros j nm x Hj [[-> _]|E]%put_lookup; [cbn in Hj; lia|by eapply Hd].
  - intros j nm x Hj [[-> _]|E]%put_lookup; [cbn in Hj; lia|]. eapply Hf; [|done]. cbn in *. lia.
  - intros k' [= <-]. exists name, b'. split; [|done]. cbn. by apply list_lookup_insert_eq.
  - intros _ _. by apply Hs.
  - naive_solver.
  - naive_solver.
  - intros _. by apply Hsg.
Qed.

Lemma main_call_inv names base first r k g g' : gate_inv names g -> g_pc g = MServer k true ->
  main_step base first r g = Some g' -> gate_inv names g'.
Proof.
  intros Hinv Hpc Hs. unfold main_step in Hs. rewrite Hpc in Hs.
  destruct (g_servers g !! k) as [[name [p s|d]]|] eqn:Hk; [| |done].
  - destruct (gi_call _ _ Hinv k Hpc) as (nm & b & E & Hin). rewrite Hk in E. simplify_eq.
    pose proof Hin as (c & Ec & _ & Hcl & _). rewrite Ec in Hs. cbn in Hs.
    assert (Hstep : (forall r0, c_pc c <> ShReturned r0) ->
      (s' ← shutdown_step 0 base first s; Some (put k nm (Proxy p s') g)) = Some g' -> gate_inv names g').
    { intros Hnr (s' & Hs' & [= <-])%bind_Some. apply (put_inv names k nm (Proxy p s)); try done.
      - unfold done_to. rewrite Hpc. lia.
      - unfold fresh_from. rewrite Hpc. lia.
      - intros _. by apply (call_step _ base first p s c Hin Ec Hnr). }
    destruct (c_pc c) as [| | | |r0] eqn:Er; try (apply Hstep; [done|exact Hs]).
    simplify_eq. eapply next_server_inv; [done..|]. cbn. split; [|by exists c, r0].
    by destruct Hcl as [|[|]].
  - apply bind_Some in Hs as ([r0 b] & ->%health_Shutdown_body & [= <-]).
    apply (next_server_inv names k name (HealthBody true)); [|done| |done].
    + apply (put_inv names k name (HealthBody d)); try done. unfold fresh_from. rewrite Hpc. lia.
    + cbn. apply list_lookup_insert_eq. by eapply lookup_lt_Some.
Qed.

(** Steps that touch no server. *)
Lemma move_inv names g g' : gate_inv names g ->
  g_servers g' = g_servers g -> g_log g' = g_log g -> done_to g' = done_to g -> fresh_from g' = fresh_from g ->
  (forall k, g_pc g' <> MServer k true) ->
  (g_pc g' <> MWait -> g_pc g' <> MStop -> stopping (g_status g') = true) ->
  (g_pc g' = MDialer \/ g_pc g' = MExited -> g_rulesStopped g' = g_hasRules g') ->
  (g_dialerStopped g' = true -> g_pc g' = MExited) -> g_signalled g' = true -> gate_inv names g'.
Proof.
  intros [En Hd Hf Hc Hl Hbd Hst Hr Hdl Hsg] Es El Ed Ef Hno Hst' Hr' Hdl' Hsg'.
  split; rewrite ?Es, ?El, ?Ed, ?Ef; try done. intros k E. by destruct (Hno k).
Qed.

Lemma main_step_inv names base first r g g' : gate_inv names g -> main_step base first r g = Some g' ->
  gate_inv names g'.
Proof.
  intros Hinv Hs. pose proof (names_length _ _ Hinv) as Elen.
  assert (Hdl : g_pc g <> MExited -> g_dialerStopped g = true -> False) by (intros ? Hd; by apply (gi_dialer _ _ Hinv) in Hd).
  destruct (g_pc g) as [| |k [|]| | |] eqn:Hpc; [| |by eapply main_call_inv| | | |];
    unfold main_step in Hs; rewrite Hpc in Hs; try done.
  - destruct (g_signalled g) eqn:Esig; simplify_eq. apply (move_inv names g); try done;
      unfold fresh_from, done_to; cbn; rewrite ?Hpc; naive_solver.
  - simplify_eq. pose proof (gi_signal _ _ Hinv) as Hsg. apply (move_inv names g); try done;
      unfold fresh_from, done_to; cbn; rewrite ?Hpc in *; naive_solver.
  - destruct (g_servers g !! k) as [[name [p s|d]]|] eqn:Hk; simplify_eq.
    + apply (enter_server_inv names k name (Proxy p s)); try done.
      destruct (gi_fresh _ _ Hinv k name (Proxy p s)) as (Hc & Ho & Hl); [unfold fresh_from, done_to; by rewrite Hpc|done|].
      cbn. rewrite Hc. eexists. split; [done|]. cbn. auto.
    + pose proof (enter_server_inv names k name (HealthBody d) (HealthBody d) g Hinv Hpc Hk I) as Hx.
      by rewrite (put_same k name) in Hx.
    + assert (E : k = length (g_servers g)).
      { apply lookup_ge_None in Hk. pose proof (gi_bound _ _ Hinv) as Hb. unfold done_to in Hb. rewrite Hpc in Hb. lia. }
      apply (move_inv names g); try done; unfold fresh_from, done_to; cbn; rewrite ?Hpc; try done.
      * intros _ _. apply (gi_status _ _ Hinv); congruence.
      * naive_solver.
      * naive_solver.
      * apply (gi_signal _ _ Hinv). congruence.
  - simplify_eq. apply (move_inv names g); try done; unfold fresh_from, done_to; cbn; rewrite ?Hpc; try done.
    + intros _ _. apply (gi_status _ _ Hinv); congruence.
    + naive_solver.
    + apply (gi_signal _ _ Hinv). congruence.
  - simplify_eq. apply (move_inv names g); try done; unfold fresh_from, done_to; cbn; rewrite ?Hpc; try done.
    + intros _ _. apply (gi_status _ _ Hinv); congruence.
    + intros _. apply (gi_rules _ _ Hinv). by left.
    + apply (gi_signal _ _ Hinv). congruence.
Qed.

Lemma drain_expires_inv names g g' : gate_inv names g -> drain_expires g = Some g' -> gate_inv names g'.
Proof.
  intros Hinv Hs. unfold drain_expires in Hs. destruct (g_pc g) as [| |k inside| | |] eqn:Hpc; try done.
  destruct inside.
  - destruct (gi_call _ _ Hinv k Hpc) as (name & b & Hk & Hin). cbn in Hs. rewrite Hk in Hs.
    assert (Hput : forall b', in_call true b' ->
      gate_inv names (put k name b' (MkGate (g_servers g) (MServer k true) (g_signalled g) true (g_status g)
        (g_hasRules g) (g_rulesStopped g) (g_dialerStopped g) (g_log g)))).
    { intros b' Hb'. pose proof (put_names k name b b' g Hk) as Hnames.
      assert (Hlt : (k < length (g_servers g))%nat) by by eapply lookup_lt_Some.
      destruct Hinv as [En Hd Hf Hc Hl Hbd Hst Hr Hdl Hsg]. unfold fresh_from, done_to in *. rewrite Hpc in *.
      split; cbn [g_pc put]; try done.
      - by rewrite <- En, <- Hnames.
      - intros j nm x Hj [[-> _]|E]%put_lookup; [cbn in Hj; lia|by eapply Hd].
      - intros j nm x Hj [[-> _]|E]%put_lookup; [cbn in Hj; lia|]. by eapply Hf.
      - intros k' [= <-]. exists name, b'. split; [|done]. cbn. by apply list_lookup_insert_eq. }
    destruct b as [p s|d].
    + destruct Hin as (c & Ec & Ho & Hcl & _). unfold expire_step in Hs. rewrite Ec in Hs. cbn in Hs. simplify_eq.
      apply Hput. cbn. rewrite Ec. eexists. split; [done|]. done.
    + cbn in Hs. simplify_eq. specialize (Hput (HealthBody d) I). unfold put in Hput. cbn in Hput.
      by rewrite list_insert_id in Hput.
  - simplify_eq. destruct Hinv as [En Hd Hf Hc Hl Hbd Hst Hr Hdl Hsg]. unfold fresh_from, done_to in *. rewrite Hpc in *.
    by split.
Qed.

Lemma gate_act_inv names a g g' : gate_inv names g -> gate_act a g = Some g' -> gate_inv names g'.
Proof.
  intros Hinv Hs. destruct a; cbn in Hs;
    eauto using main_step_inv, server_act_inv, drain_expires_inv.
  simplify_eq. destruct Hinv as [En Hd Hf Hc Hl Hbd Hst Hr Hdl Hsg]. by split.
Qed.

Lemma gate_run_inv names sched n g : gate_inv names g -> gate_inv names (gate_run sched n g).
Proof.
  intros Hg. induction n as [|n IH]; [done|]. cbn. destruct (gate_act _ _) eqn:E; [|done]. by eapply gate_act_inv.
Qed.

Lemma gate_of_inv {HR} (pc : process (H := HR)) : gate_inv ((gate_servers (pc_proxies pc)).*1) (gate_of pc).
Proof.
  split; cbn; try done; try lia.
  - intros j name b _. unfold gate_servers. intros [Hj|[_ Hj]]%lookup_app_Some.
    + destruct (pc_proxies pc) as [px|]; [|done]. apply list_lookup_fmap_Some in Hj as (l & [= -> ->] & _). done.
    + apply list_lookup_singleton_Some in Hj as [_ [= <- <-]]. done.
  - by intros [?|?].
Qed.

(** ** Progress *)

(** What the main goroutine still has to do. *)
Definition call_left (g : gate) (k : nat) : nat :=
  match g_servers g !! k with
  | Some (_, Proxy _ s) => match last (sv_calls s) with Some c => call_rank (c_pc c) | None => 0 end
  | _ => 1
  end.
Definition work_left (g : gate) : nat :=
  let left k := (7 * (length (g_servers g) - k))%nat in
  match g_pc g with
  | MWait => left 0 + 5
  | MStop => left 0 + 4
  | MServer k false => left k + 3
  | MServer k true => left (S k) + 3 + call_left g k
  | MRules => 2
  | MDialer => 1
  | MExited => 0
  end%nat.

Lemma call_left_call names g k : gate_inv names g -> g_pc g = MServer k true -> (call_left g k <= 5)%nat.
Proof.
  intros Hinv Hpc. destruct (gi_call _ _ Hinv k Hpc) as (name & b & Hk & Hin). unfold call_left. rewrite Hk.
  destruct b as [p s|]; [|lia]. destruct Hin as (c & -> & _). cbn. destruct (c_pc c); cbn; lia.
Qed.

(** Every step of the main goroutine is progress. *)
Lemma main_step_progress names base first r g g' : gate_inv names g -> main_step base first r g = Some g' ->
  (work_left g' < work_left g)%nat.
Proof.
  intros Hinv Hs. pose proof (main_step_inv _ _ _ _ _ _ Hinv Hs) as Hinv'. unfold main_step in Hs.
  destruct (g_pc g) as [| |k [|]| | |] eqn:Hpc.
  - case_match; simplify_eq. unfold work_left. rewrite Hpc. cbn. lia.
  - simplify_eq. unfold work_left. rewrite Hpc. cbn. lia.
  - destruct (gi_call _ _ Hinv k Hpc) as (name & b & Hk & Hin). rewrite Hk in Hs.
    assert (Hlt : (k < length (g_servers g))%nat) by by eapply lookup_lt_Some.
    destruct b as [p s|d].
    + pose proof Hin as (c & Ec & _). rewrite Ec in Hs. cbn in Hs.
      assert (Hleft : call_left g k = call_rank (c_pc c)) by (unfold call_left; by rewrite Hk, Ec).
      assert (Hstep : (forall r0, c_pc c <> ShReturned r0) ->
        (s' ← shutdown_step 0 base first s; Some (put k name (Proxy p s') g)) = Some g' ->
        (work_left g' < work_left g)%nat).
      { intros Hnr (s' & Hs' & [= <-])%bind_Some.
        destruct (proj1 (call_step _ base first p s c Hin Ec Hnr) s' Hs') as (_ & c' & Ec' & Hlt').
        unfold work_left. cbn [g_pc put]. rewrite Hpc, Hleft. unfold call_left. cbn [g_servers put].
        rewrite list_lookup_insert_eq, Ec', length_insert by done. cbn [last]. lia. }
      destruct (c_pc c) as [| | | |r0] eqn:Er; try (apply Hstep; [done|exact Hs]).
      simplify_eq. unfold work_left. rewrite Hpc, Hleft. cbn. lia.
    + apply bind_Some in Hs as ([r0 b] & ->%health_Shutdown_body & [= <-]). unfold work_left, call_left. rewrite Hpc, Hk. cbn.
      rewrite length_insert. lia.
  - destruct (g_servers g !! k) as [[name b]|] eqn:Hk.
    + assert (Hlt : (k < length (g_servers g))%nat) by by eapply lookup_lt_Some.
      assert (Hpc' : g_pc g' = MServer k true /\ length (g_servers g') = length (g_servers g)).
      { destruct b; simplify_eq; cbn; by rewrite ?length_insert. }
      destruct Hpc' as [Hpc' El]. pose proof (call_left_call _ _ _ Hinv' Hpc').
      unfold work_left. rewrite Hpc, Hpc', El. lia.
    + simplify_eq. unfold work_left. rewrite Hpc. cbn. lia.
  - simplify_eq. unfold work_left. rewrite Hpc. cbn. lia.
  - simplify_eq. unfold work_left. rewrite Hpc. cbn. lia.
  - done.
Qed.

(** After the signal it waits for nothing but the deadline. *)
Lemma main_step_enabled names base first r g : gate_inv names g -> g_signalled g = true -> g_pc g <> MExited ->
  (forall k inside, g_pc g = MServer k inside -> g_expired g = true) -> is_Some (main_step base first r g).
Proof.
  intros Hinv Hsig Hne Hex. unfold main_step. destruct (g_pc g) as [| |k [|]| | |] eqn:Hpc; try done; try (by eexists).
  - rewrite Hsig. by eexists.
  - rewrite (Hex k true eq_refl) in *. destruct (gi_call _ _ Hinv k Hpc) as (name & b & Hk & Hin). rewrite Hk.
    rewrite (Hex k true eq_refl) in Hin. destruct b as [p s|d]; [|destruct r; by eexists].
    pose proof Hin as (c & Ec & _ & _ & He). rewrite Ec. cbn.
    assert (Hgo : (forall r0, c_pc c <> ShReturned r0) ->
      is_Some (s' ← shutdown_step 0 base first s; Some (put k name (Proxy p s') g))).
    { intros Hnr. destruct (call_step true base first p s c Hin Ec Hnr) as [_ Hen].
      destruct (Hen (He eq_refl)) as [s' ->]. by eexists. }
    destruct (c_pc c) eqn:Er; try (by apply Hgo). by eexists.
  - destruct (g_servers g !! k) as [[name [p s|d]]|]; by eexists.
Qed.

(** What the rest of the system does leaves that work as it is. *)
Lemma other_keeps_work names a g g' : gate_inv names g -> gate_act a g = Some g' ->
  (forall base first r, a <> Main base first r) ->
  work_left g' = work_left g /\ g_pc g' = g_pc g /\
  (g_signalled g = true -> g_signalled g' = true) /\ (g_expired g = true -> g_expired g' = true).
Proof.
  intros Hinv Hs Hm. destruct a as [| |k a|base first r]; cbn in Hs; [by simplify_eq| | |by destruct (Hm base first r)].
  - unfold drain_expires in Hs. destruct (g_pc g) as [| |k [|]| | |] eqn:Hpc; try done; [|by simplify_eq; unfold work_left; cbn; rewrite Hpc].
    destruct (gi_call _ _ Hinv k Hpc) as (name & b & Hk & Hin). cbn in Hs. rewrite Hk in Hs.
    destruct b as [p s|d]; [|by simplify_eq; unfold work_left, call_left; cbn; rewrite Hpc].
    destruct Hin as (c & Ec & _). unfold expire_step in Hs. rewrite Ec in Hs. cbn in Hs. simplify_eq. cbn.
    split; [|done]. unfold work_left, call_left. rewrite Hpc. cbn. rewrite length_insert, list_lookup_insert_eq.
    + cbn. by rewrite Hk, Ec.
    + by eapply lookup_lt_Some.
  - unfold server_act in Hs. destruct (g_servers g !! k) as [[name [p s|d]]|] eqn:Hk; [|done..].
    destruct (internal a) eqn:Ei; [|done]. apply bind_Some in Hs as (s' & Hs & [= <-]).
    split; [|done]. destruct (internal_frame p a s s' Ei Hs) as (Ec & _ & _).
    unfold work_left. cbn [g_servers g_pc put]. rewrite length_insert.
    destruct (g_pc g) as [| |j [|]| | |] eqn:Hpc; try done. f_equal. unfold call_left. cbn [g_servers put].
    destruct (decide (j = k)) as [->|Hne]; [|by rewrite list_lookup_insert_ne].
    rewrite list_lookup_insert_eq, Hk by (by eapply lookup_lt_Some).
    destruct (gi_call _ _ Hinv k Hpc) as (nm & b & E & Hin). rewrite Hk in E. simplify_eq.
    destruct Hin as (c & E & _). destruct (fmap_single _ _ _ c Ec E) as (c' & -> & [= Ep _]). rewrite E. cbn. by rewrite Ep.
Qed.

Lemma main_step_flags base first r g g' : main_step base first r g = Some g' ->
  g_signalled g' = g_signalled g /\ g_expired g' = g_expired g /\ g_hasRules g' = g_hasRules g.
Proof.
  unfold main_step. intros E.
  repeat (case_match; simplify_eq/=); try done; apply bind_Some in E as (x & Hx & E);
    simplify_eq; try done; case_match; simplify_eq; try done; apply bind_Some in E as (y & Hy & E); by simplify_eq.
Qed.

Lemma gate_run_rules sched n g : g_hasRules (gate_run sched n g) = g_hasRules g.
Proof.
  induction n as [|n IH]; [done|]. cbn [gate_run]. destruct (gate_act _ _) as [g'|] eqn:E; [|done]. cbn. rewrite <- IH.
  destruct (sched n); cbn in E; [by simplify_eq| | |by eapply main_step_flags].
  - unfold drain_expires in E. repeat (case_match; simplify_eq/=); try done.
    apply bind_Some in E as (x & Hx & E). by simplify_eq.
  - unfold server_act in E. repeat (case_match; simplify_eq/=); try done.
    apply bind_Some in E as (x & Hx & E). by simplify_eq.
Qed.

(** Along a run: less work, or the main goroutine where it was. *)
Lemma run_mono names sched g n m : gate_inv names g -> (n <= m)%nat ->
  let a := gate_run sched n g in let b := gate_run sched m g in
  ((work_left b < work_left a)%nat \/ (work_left b = work_left a /\ g_pc b = g_pc a)) /\
  (g_signalled a = true -> g_signalled b = true) /\ (g_expired a = true -> g_expired b = true).
Proof.
  intros Hg Hle. cbv zeta. induction Hle as [|m Hle IH]; [by auto|]. cbn [gate_run].
  pose proof (gate_run_inv names sched m g Hg) as Hm. set (b := gate_run sched m g) in *.
  destruct (gate_act (sched m) b) as [b'|] eqn:E; [|done]. cbn [from_option id].
  destruct (sched m) as [| |k x|base first r] eqn:Ea.
  1-3: destruct (other_keeps_work names _ b b' Hm E ltac:(done)) as (Ew & Ep & Hs & Hx); rewrite Ew, Ep; naive_solver.
  pose proof (main_step_progress _ _ _ _ _ _ Hm E).
  destruct (main_step_flags base first r b b' E) as (-> & -> & _). split; [left; lia|tauto].
Qed.

(** From any moment after the signal the work shrinks or is done. *)
Lemma work_shrinks names sched g n : gate_inv names g -> fair sched ->
  g_signalled (gate_run sched n g) = true -> g_pc (gate_run sched n g) <> MExited ->
  exists m, (n <= m)%nat /\ (work_left (gate_run sched m g) < work_left (gate_run sched n g))%nat.
Proof.
  intros Hg Hf Hsig Hne.
  assert (Hmain : forall n', (n <= n')%nat -> g_pc (gate_run sched n' g) = g_pc (gate_run sched n g) ->
    (forall k i, g_pc (gate_run sched n g) = MServer k i -> g_expired (gate_run sched n' g) = true) ->
    work_left (gate_run sched n' g) = work_left (gate_run sched n g) ->
    exists m, (n <= m)%nat /\ (work_left (gate_run sched m g) < work_left (gate_run sched n g))%nat).
  { intros n' Hn Epc Hex Ew. destruct (fair_main _ Hf n') as (m & base & first & r & Hm & Es).
    destruct (run_mono names sched g n' m Hg Hm) as ([Hlt|[Ew' Epc']] & _ & Hx); [exists m; split; lia|].
    destruct (run_mono names sched g n m Hg ltac:(lia)) as (_ & Hs & _).
    pose proof (gate_run_inv names sched m g Hg) as Hi.
    destruct (main_step_enabled names base first r _ Hi (Hs Hsig)) as [g' Eg']; [congruence| |].
    { intros k i E. apply Hx, (Hex k i). congruence. }
    exists (S m). split; [lia|]. cbn [gate_run]. rewrite Es. cbn [gate_act]. rewrite Eg'. cbn [from_option id].
    pose proof (main_step_progress _ _ _ _ _ _ Hi Eg'). lia. }
  destruct (g_pc (gate_run sched n g)) as [| |k i| | |] eqn:Hpc; try (apply (Hmain n); by auto).
  destruct (fair_time _ Hf n) as (m & Hm & Es).
  destruct (run_mono names sched g n m Hg Hm) as ([Hlt|[Ew Epc]] & _ & _); [by exists m|].
  destruct (run_mono names sched g n (S m) Hg ltac:(lia)) as ([Hlt|[Ew' Epc']] & _ & _); [by exists (S m); split; [lia|]|].
  apply (Hmain (S m)); [lia|congruence| |done]. intros _ _ _. cbn [gate_run]. rewrite Es. cbn [gate_act].
  pose proof (gate_run_inv names sched m g Hg) as Hi. unfold drain_expires. rewrite Epc, Hpc.
  destruct i; [|done]. cbn. destruct (gi_call _ _ Hi k) as (name & b & Hk & Hin); [congruence|]. rewrite Hk.
  destruct b as [p s|d]; [|done]. destruct Hin as (c & Ec & _). unfold expire_step. rewrite Ec. done.
Qed.

(** ** Properties *)

(** C2: the service always stops.  For every process [main] built and every
    interleaving of its goroutines in which a signal arrives, the main
    goroutine keeps being scheduled and the drain deadline passes, [main]
    returns: even when no connection ever ends, a listener fails to close or
    the health server hangs. *)
Theorem service_stops {HR : Regexp} (pc : process (H := HR)) (sched : nat -> gateAction) (Hfair : fair sched) :
  exists n, g_pc (gate_run sched n (gate_of pc)) = MExited.
Proof.
  pose proof (gate_of_inv pc) as Hg. set (g := gate_of pc) in *. set (names := (gate_servers (pc_proxies pc)).*1) in *.
  destruct (fair_signal _ Hfair) as [n0 Hn0].
  assert (Hsig : g_signalled (gate_run sched (S n0) g) = true) by (cbn [gate_run]; rewrite Hn0; done).
  assert (Hgen : forall w n, (S n0 <= n)%nat -> (work_left (gate_run sched n g) <= w)%nat ->
    exists m, g_pc (gate_run sched m g) = MExited).
  { induction w as [|w IH]; intros n Hn Hw.
    - exists n. unfold work_left in Hw. repeat case_match; cbn in Hw; try lia. done.
    - destruct (decide (g_pc (gate_run sched n g) = MExited)) as [E|Hne]; [by exists n|].
      destruct (run_mono names sched g _ n Hg Hn) as (_ & Hs & _).
      destruct (work_shrinks names sched g n Hg Hfair (Hs Hsig) Hne) as (m & Hm & Hlt). apply (IH m); lia. }
  by eapply (Hgen _ (S n0)).
Qed.

(** C21: the order of the stop, at every moment of every run: no listener is
    closed before systemd was told that the service is stopping, and the
    tunnel is stopped only after every proxy closed its listener and its
    drain returned, the results were logged once per server in their order,
    and the rule engine was stopped if there is one. *)
Theorem stop_order {HR : Regexp} (pc : process (H := HR)) (sched : nat -> gateAction) (n : nat) :
  let g := gate_run sched n (gate_of pc) in
  (forall name p s, (name, Proxy p s) ∈ g_servers g -> sv_lnClosed s = true -> stopping (g_status g) = true) /\
  (g_dialerStopped g = true ->
     (forall name b, (name, b) ∈ g_servers g -> is_down b) /\
     (g_log g).*1 = (gate_servers (pc_proxies pc)).*1 /\ g_rulesStopped g = bool_decide (pc_proxies pc <> None)).
Proof.
  intros g. pose proof (gate_run_inv _ sched n _ (gate_of_inv pc)) as Hinv. fold g in Hinv.
  pose proof (names_length _ _ Hinv) as El. split.
  - intros name p s [j Hj]%list_elem_of_lookup_1 Hcl. apply (gi_status _ _ Hinv); intros Hpc;
      (destruct (gi_fresh _ _ Hinv j name (Proxy p s)) as (_ & _ & Hl); [|done|congruence]);
      unfold fresh_from, done_to; rewrite Hpc; lia.
  - intros Hd. pose proof (gi_dialer _ _ Hinv Hd) as Hpc.
    assert (Edt : done_to g = length (g_servers g)) by (unfold done_to; by rewrite Hpc). split; [|split].
    + intros name b [j Hj]%list_elem_of_lookup_1. eapply (gi_done _ _ Hinv); [|done].
      rewrite Edt. by eapply lookup_lt_Some.
    + rewrite (gi_log _ _ Hinv), Edt, <- El. apply firstn_all.
    + rewrite (gi_rules _ _ Hinv) by auto. apply gate_run_rules.
Qed.

(** ** Witnesses *)

(** The demo process and a fair schedule: the signal first, then the main
    goroutine and the clock in turn; no connection ever ends. *)
Definition demo_process : process (H := literal_regexp) :=
  match main_start (H := literal_regexp) (H0 := text_keys) demo_start with
  | Returned (inr pc) => pc
  | _ => MkProcess demo_config ((ToStderr, InfoLevel), None) ∅ [] newSDStatus (ConnTrack.NewConnTracker 0 0) None [] ∅ false
  end.
Definition demo_sched (n : nat) : gateAction :=
  if Nat.eqb n 0 then Signal else if Nat.even n then Main None false None else DrainExpires.
Lemma demo_sched_fair : fair demo_sched.
Proof.
  split.
  - intros n. exists (2 * (n + 1))%nat, None, false, None. split; [lia|]. unfold demo_sched.
    rewrite (proj2 (Nat.eqb_neq _ 0)) by lia. by rewrite Nat.even_mul.
  - intros n. exists (1 + 2 * n)%nat. split; [lia|]. unfold demo_sched.
    rewrite (proj2 (Nat.eqb_neq _ 0)) by lia. by rewrite Nat.even_add, Nat.even_mul.
  - by exists 0%nat.
Qed.
Lemma service_stops_witness : exists n, g_pc (gate_run demo_sched n (gate_of demo_process)) = MExited.
Proof. apply (service_stops demo_process demo_sched), demo_sched_fair. Defined.

Lemma stop_order_witness :
  let g := gate_run demo_sched 60 (gate_of demo_process) in
  g_dialerStopped g = true /\ (g_log g).*1 = ["SOCKS5 :1080"; "HTTP :3128"; "health"].
Proof.
  assert (Hd : g_dialerStopped (gate_run demo_sched 60 (gate_of demo_process)) = true) by (vm_compute; reflexivity).
  split; [exact Hd|]. destruct (stop_order demo_process demo_sched 60) as [_ Hs].
  destruct (Hs Hd) as (_ & Hl & _). rewrite Hl. vm_compute. reflexivity.
Defined.
